(* ===== verification/_CoqProject ===== *)
-Q . S2P
Prelude.v
GoLib.v
Float64.v
Sha256.v
Redis.v
RateLimit.v
Event.v
Metrics.v
Pipeline.v
PipelineSafety.v
PipelineLiveness.v
Auth.v
Sql.v
Store.v
StoreUsage.v
Migrations.v
Handler.v
Mock.v
Config.v
Flags.v
System.v
Process.v
Benchmark.v
Loadgen.v
Admin.v
Report.v
Chart.v
