(* ===== verification/Prelude.v ===== *)
(** * A verification library for the distributed API gateway

    The program is a gateway in Go.  A request under [/api/] carries an API
    key; the gateway authenticates it against PostgreSQL, takes a token from a
    bucket in Redis shared by all gateways, forwards it to one of two upstream
    services, counts it, and hands a usage event to a background pipeline that
    writes batches to PostgreSQL.  Around it stand a tool that administers
    plans, clients and keys, a load generator that checks the quota from
    outside, a writer of benchmark reports, and two demonstration services.
    The library models all of them and proves what the parts promise and what
    they promise together.

    ** The parts and the files

    - [Prelude]: Go errors and results ([gerror], [res] and the notation
      [x <-- r ;; k]), integers at their width ([wrap64], [wrapu64], [go_div]),
      time, sums over lists, and the tactics [split_guards] and [bool_to_prop].
    - [GoLib]: what the program uses of [strings], [strconv] and
      [encoding/hex]; [Float64]: IEEE doubles as rationals with rounding;
      [Sha256]: SHA-256 and HMAC, run on the standards' test vectors.
    - [Redis]: the class [Redis] of the commands the Lua script calls, the
      class [RedisLaws] of what their documentation promises, and an in-memory
      server that satisfies it.
    - [RateLimit] ([internal/ratelimit/redis.go]): the script line by line
      ([tokenBucketScript]), [Allow], [Ping]; the abstract integer token bucket
      ([tb_refill], [tb_take], [level]) and traces of many gateways on one
      server ([run]).
    - [Event] ([internal/usage/event.go]): [Event], [Validate], [NewEventID].
    - [Metrics] ([internal/metrics/metrics.go]): the registry, its atomic
      updates, the exposition text and a scraper that reads it back.
    - [Pipeline] ([internal/usage/pipeline.go]): [Enqueue] ([producer_step]),
      [Close] ([closer_step]) and [run] with [persist] ([worker_step]) as a
      step machine over any number of goroutines, with the read-write lock, the
      [sync.Once], the bounded channel, the flush timer and the context; the
      classes [Observer], [UsageStore] and [UsageStoreLaws] are its interfaces.
      [PipelineSafety] and [PipelineLiveness] hold its theorems.
    - [Auth] ([internal/auth/auth.go]): [Authenticate], [Digest],
      [GenerateKey], [Prefix].
    - [Sql]: text, [LIKE], integer ranges, timestamps and the atomicity of a
      statement under connection faults ([exec]).
    - [Store] ([internal/store/postgres.go], [migrations/001_api_keys.sql]):
      the tables of plans, clients, keys and quotas and every statement on
      them.
    - [StoreUsage] ([internal/store/usage.go],
      [migrations/002_usage_logging.sql]): [PersistUsage] with its numbered
      placeholders and casts, the hourly aggregation, and
      [PersistUsageDeadLetters]; it is an instance of the pipeline's
      [UsageStore] and satisfies [UsageStoreLaws].
    - [Migrations] ([internal/store/postgres.go]): [Migrate] and
      [applyMigration] as a step machine over concurrent processes.
    - [Handler] ([internal/gateway/handler.go]): the response writer, the status
      recorder, every middleware, the proxies, routing, the operational
      endpoints and the mux.
    - [Mock] ([internal/mockservice/handler.go], [cmd/user-service],
      [cmd/order-service]): the demonstration services and the gateway in front
      of them.
    - [Config] ([internal/config/config.go]): [Load] with [ParseBool] and
      [ParseDuration], and the hand-over to the pipeline in [main]; [Flags]:
      Go's [flag] package as the tools use it.
    - [System] ([cmd/gateway/main.go]): startup and wiring ([startup], [wire]),
      and traces of any number of processes that share the tables and one Redis
      server.  [Process]: [main] from serving through the shutdown signal to
      the exit status, over the machine of [Pipeline].
    - [Benchmark] ([internal/benchmark/result.go]): the aggregation of request
      samples.
    - [Loadgen] ([cmd/loadgen/main.go]): options, one request, the pool of
      workers as a step machine, [verify], [run] and the exit status.
    - [Admin] ([cmd/gateway-admin/main.go]): every command as a program over
      the database of [Store] and [Migrations], and sessions of commands.
    - [Report] and [Chart] ([cmd/benchreport/main.go]): reading and sorting the
      results, the CSV and Markdown texts, the bars and the text of the SVG
      chart, and [main].

    ** What the theorems show

    - Rate limiting: [Allow] refines the integer token bucket exactly - no
      rounding in Lua's doubles, no overflow in Go's [int64] - for every quota
      the tables admit; hence the bound on admitted requests for every
      interleaving, the exact burst, exact retry delays, linear refill across
      key expiry, isolation of buckets, and the error paths.
    - HTTP: the chain implements a decision table, accounts for every request
      once, produces valid events, and returns whatever its dependencies do;
      two theorems show where it misbehaves (interim responses, aborted bodies).
    - Usage pipeline: exactly-once disposal in order, bounds, counters that
      agree with history, complete shutdown, no loss without a deadline,
      termination of the worker and non-blocking [Enqueue], for every
      interleaving.
    - Storage: retries are idempotent, hourly rows are the exact aggregate of
      the raw events, which batches are accepted and which refused as a whole;
      lookups are sound after any administrative history, overrides take the
      longest prefix, keys live and die as intended; migrations are applied in
      order and at most once.
    - Together: the quota holds from the raw key to the upstream service, and a
      single request is served as the tables and its bucket say; the gateway
      starts exactly when its settings load, the database answers and the
      upstream URLs are absolute; a process that exits with status 0 has
      answered every request and accounted for every event, and one whose
      shutdown times out has not; with the demonstration services behind it the
      gateway answers as the resource and the method say.
    - Administration: the tables are well typed after any session of commands;
      [bootstrap] provisions a working key from any stage of migration and does
      nothing the second time, but fails for good after the pepper changed; a
      key [create-key] prints works at a gateway with the same environment.
    - Benchmarks: results say what was measured, with exact percentiles; the
      pool makes and measures every request once under every schedule and ends;
      the verdict of a run is that of a specification on its samples, and the
      quota check is exact in spite of rounding; the CSV summary is read back
      field by field; the bars of the chart fit their panels.

    ** Parameters, bounds and fuel

    Redis, PostgreSQL's [uuid] syntax and time zone, the effect of a migration
    script, the random source, the clock, upstream services, the HTTP client,
    files, [url.Parse], [strconv.Quote], [sort.Slice] and the JSON encoders of
    dead letters and results are arguments, with the laws the code relies on as class fields or
    hypotheses; every such hypothesis has a witness.  What the code leaves open
    - scheduling, timers, deadlines, lost requests and replies, commits whose
    outcome is unknown - is carried by the actions of a trace, so the theorems
    hold for all of it.

    Fuel: [format_digits] has a round per bit of its number; [trim_by],
    [scrape], [chunks] and [duration_loop] have one per character or byte,
    and every round consumes one; [retry_loop] has the number of iterations of
    the loop's own counter; [migrate_loop] has six statements for every file
    and two more, which a call left alone does not exceed.  The clock of the limiter is below 2^53 ms (the
    year 287396), where Lua's doubles are exact; percentiles are exact up to
    2^40 samples, the quota check of the load generator up to 2^28 refilled
    tokens.  Doubles have an unbounded exponent.

    ** What is not modelled

    Logging, the timeouts of servers and connections, the sizes [make] refuses,
    HTTP on the wire below the response writer (trailers, flushing, protocol
    upgrades), and paths a mux would redirect.  [ServeHTTP] of the registry is
    given for counters that do not move while it runs.  A process is followed
    from its handlers' point of view: a request is accepted, hands over its
    event and is answered.  The C++ load generator and the shell scripts are
    not Go code of the gateway and are left out.  Possible extensions: the
    request path and the process in one machine, so that [exit_accounted] speaks
    of HTTP requests, and the redirects of the mux. *)

From Stdlib Require Import ZArith Lia Ascii String.
From stdpp Require Import base tactics numbers list gmap strings.

#[global] Open Scope Z_scope.

(** ** Results of fallible Go code *)

(** A Go error value.  [ErrInvalidKey] is the one sentinel the program
    compares with [errors.Is]; [ErrNew] is [errors.New] or [fmt.Errorf]
    without [%w]; [ErrWrap pre e] is [fmt.Errorf("pre%w", e)]. *)
Inductive gerror :=
| ErrInvalidKey
| ErrNew (msg : string)
| ErrWrap (pre : string) (inner : gerror).

#[export] Instance gerror_eq_dec : EqDecision gerror.
Proof. solve_decision. Defined.

(** The text [err.Error()] returns. *)
Fixpoint error_text (e : gerror) : string :=
  match e with
  | ErrInvalidKey => "invalid API key"
  | ErrNew m => m
  | ErrWrap pre e' => pre +:+ error_text e'
  end.

(** [errors.Is(err, auth.ErrInvalidKey)] follows the chain of wrapped errors. *)
Fixpoint is_invalid_key (e : gerror) : bool :=
  match e with
  | ErrInvalidKey => true
  | ErrNew _ => false
  | ErrWrap _ e' => is_invalid_key e'
  end.

(** The pair [(value, error)] of a Go function, of which exactly one side
    carries information. *)
Inductive res (A : Type) :=
| Ok (a : A)
| Err (e : gerror).
Arguments Ok {A} a.
Arguments Err {A} e.

Definition res_bind {A B} (r : res A) (k : A -> res B) : res B :=
  match r with Ok a => k a | Err e => Err e end.

Declare Scope go_scope.
Delimit Scope go_scope with go.
Notation "x <-- r ;; k" := (res_bind r (fun x => k))
  (at level 100, r at next level, right associativity) : go_scope.
#[global] Open Scope go_scope.

(** Whether a call succeeded. *)
Definition is_ok {A} (r : res A) : bool :=
  match r with Ok _ => true | Err _ => false end.

(** ** Machine integers *)

(** [int] and [int64] are 64-bit two's complement; arithmetic wraps. *)
Definition wrap64 (z : Z) : Z := (z + 2 ^ 63) mod 2 ^ 64 - 2 ^ 63.

(** [uint64] arithmetic wraps modulo 2^64. *)
Definition wrapu64 (z : Z) : Z := z mod 2 ^ 64.

Definition in_int64 (z : Z) : Prop := - 2 ^ 63 <= z < 2 ^ 63.

(** Go's [/] truncates toward zero; the one overflowing quotient wraps. *)
Definition go_div (a b : Z) : Z := wrap64 (Z.quot a b).

(** ** Time *)

(** A [time.Duration] counts nanoseconds. *)
Definition Nanosecond : Z := 1.
Definition Microsecond : Z := 1000.
Definition Millisecond : Z := 1000000.
Definition Second : Z := 1000000000.

(** A [time.Time] is modelled by the nanoseconds since the Unix epoch of the
    instant it denotes; the zero [time.Time] is 1 January of year 1. *)
Definition time_zero : Z := -62135596800 * Second.
Definition time_IsZero (t : Z) : bool := t =? time_zero.
Definition time_Unix (t : Z) : Z := t / Second.
Definition time_UnixNano (t : Z) : Z := wrap64 t.

(** ** Shared lemmas *)

Create HintDb goint.
Create Rewrite HintDb goint.

Lemma wrap64_id z : in_int64 z -> wrap64 z = z.
Proof. unfold in_int64, wrap64. intros H. rewrite Z.mod_small; lia. Qed.

Lemma wrap64_range z : in_int64 (wrap64 z).
Proof.
  unfold in_int64, wrap64.
  pose proof (Z.mod_pos_bound (z + 2 ^ 63) (2 ^ 64)). lia.
Qed.

Lemma wrapu64_id z : 0 <= z < 2 ^ 64 -> wrapu64 z = z.
Proof. apply Z.mod_small. Qed.

Lemma wrapu64_range z : 0 <= wrapu64 z < 2 ^ 64.
Proof. apply Z.mod_pos_bound. lia. Qed.

(** Wrapping the operands first makes no difference to a wrapped sum. *)
Lemma wrapu64_add_l a b : wrapu64 (wrapu64 a + b) = wrapu64 (a + b).
Proof. apply Zplus_mod_idemp_l. Qed.

Lemma wrapu64_add_r a b : wrapu64 (a + wrapu64 b) = wrapu64 (a + b).
Proof. apply Zplus_mod_idemp_r. Qed.

Lemma wrap64_add_l a b : wrap64 (wrap64 a + b) = wrap64 (a + b).
Proof.
  unfold wrap64. f_equal.
  replace ((a + 2 ^ 63) mod 2 ^ 64 - 2 ^ 63 + b + 2 ^ 63) with ((a + 2 ^ 63) mod 2 ^ 64 + b) by lia.
  rewrite Zplus_mod_idemp_l. f_equal. lia.
Qed.

#[export] Hint Resolve wrap64_range wrapu64_range : goint.
#[export] Hint Rewrite wrapu64_add_l wrapu64_add_r wrap64_add_l : goint.

Lemma go_div_pos a b : 0 <= a < 2 ^ 63 -> 0 < b -> go_div a b = a / b.
Proof.
  intros Ha Hb. unfold go_div. rewrite Z.quot_div_nonneg by lia.
  apply wrap64_id. unfold in_int64.
  assert (0 <= a / b <= a); [|lia].
  split; [apply Z.div_pos; lia | apply Z.div_le_upper_bound; nia].
Qed.

(** [n <= ceiling (a / b) * b] and the ceiling is the least such multiple;
    the ceiling of a quotient is written with a floor, as [lia] knows it. *)
Definition cdiv (a b : Z) : Z := - ((- a) / b).

Lemma cdiv_spec a b c : 0 < b -> cdiv a b <= c <-> a <= c * b.
Proof.
  intros Hb. unfold cdiv. split; intros H.
  - assert (- c <= (- a) / b) as H1 by lia.
    pose proof (Z.mul_div_le (- a) b Hb). nia.
  - enough (- c <= (- a) / b) by lia. apply Z.div_le_lower_bound; nia.
Qed.

Lemma cdiv_nonneg a b : 0 < b -> 0 <= a -> 0 <= cdiv a b.
Proof.
  intros Hb Ha. unfold cdiv. enough ((- a) / b <= 0) by lia.
  apply Z.div_le_upper_bound; lia.
Qed.

(** Sums over lists of integers. *)
Definition sumZ {A} (f : A -> Z) (l : list A) : Z :=
  fold_right (fun a s => f a + s) 0 l.

Lemma sumZ_app {A} (f : A -> Z) l1 l2 : sumZ f (l1 ++ l2) = sumZ f l1 + sumZ f l2.
Proof. induction l1; simpl; lia. Qed.

Lemma sumZ_cons {A} (f : A -> Z) a l : sumZ f (a :: l) = f a + sumZ f l.
Proof. done. Qed.

Lemma sumZ_one {A} (f : A -> Z) a : sumZ f [a] = f a.
Proof. apply Z.add_0_r. Qed.

Lemma sumZ_nonneg {A} (f : A -> Z) l : (forall a, a ∈ l -> 0 <= f a) -> 0 <= sumZ f l.
Proof.
  induction l as [|a l IH]; simpl; intros H; [lia|].
  assert (0 <= f a) by (apply H; left). assert (0 <= sumZ f l); [|lia].
  apply IH. intros b Hb. apply H. by right.
Qed.

Lemma sumZ_perm {A} (f : A -> Z) l1 l2 : l1 ≡ₚ l2 -> sumZ f l1 = sumZ f l2.
Proof. induction 1; simpl; lia. Qed.

Lemma sumZ_concat {A B} (f : B -> Z) (g : A -> list B) l :
  sumZ f (concat (g <$> l)) = sumZ (fun a => sumZ f (g a)) l.
Proof. induction l as [|a l IH]; [done|]. cbn [fmap list_fmap concat]. rewrite sumZ_app. by rewrite IH. Qed.

Lemma sumZ_ext {A} (f g : A -> Z) l : (forall a, a ∈ l -> f a = g a) -> sumZ f l = sumZ g l.
Proof.
  induction l as [|a l IH]; simpl; intros H; [done|]. rewrite H by left. f_equal.
  apply IH. intros b Hb. apply H. by right.
Qed.

Lemma sumZ_const {A} (c : Z) (l : list A) : sumZ (fun _ => c) l = c * Z.of_nat (length l).
Proof. induction l; simpl; lia. Qed.

Lemma sumZ_sublist {A} (f : A -> Z) l1 l2 :
  l1 `sublist_of` l2 -> (forall a, a ∈ l2 -> 0 <= f a) -> sumZ f l1 <= sumZ f l2.
Proof.
  induction 1 as [|a l1 l2 _ IH|a l1 l2 _ IH]; intros H; [done|..]; cbn [sumZ fold_right];
    fold (sumZ f l1); fold (sumZ f l2);
    (assert (0 <= f a) by (apply H; left));
    (assert (sumZ f l1 <= sumZ f l2) by (apply IH; intros b Hb; apply H; by right)); lia.
Qed.

Lemma sumZ_le_const {A} (f : A -> Z) c l :
  (forall a, a ∈ l -> f a <= c) -> sumZ f l <= c * Z.of_nat (length l).
Proof.
  induction l as [|a l IH]; intros H; [cbn; lia|]. cbn [length]. rewrite Nat2Z.inj_succ.
  assert (f a <= c) by (apply H; left). change (sumZ f (a :: l)) with (f a + sumZ f l).
  enough (sumZ f l <= c * Z.of_nat (length l)) by lia. apply IH. intros b Hb. apply H. by right.
Qed.

Lemma sumZ_insert {A} (f : A -> Z) l i x y :
  l !! i = Some x -> sumZ f (<[i := y]> l) = sumZ f l - f x + f y.
Proof.
  intros Hx. rewrite <- (take_drop_middle l i x Hx) at 2.
  rewrite insert_take_drop by by eapply lookup_lt_Some.
  rewrite !sumZ_app. simpl. lia.
Qed.

#[export] Hint Rewrite @sumZ_app : goint.

Lemma forallb_Forall {A} (f : A -> bool) l :
  forallb f l = true <-> Forall (fun a => f a = true) l.
Proof.
  induction l as [|a l IH]; [done|]. cbn. rewrite andb_true_iff, Forall_cons, IH. done.
Qed.

(** Splits every [if], [match] and [decide] of the goal whose scrutinee is a
    variable-free test, simplifying as it goes. *)
Ltac split_guards :=
  repeat (case_match || case_decide); simplify_eq/=.

(** Turns the boolean comparisons of the hypotheses into propositions. *)
Ltac bool_to_prop :=
  repeat match goal with
  | H : _ && _ = true |- _ => apply andb_prop in H; destruct H
  | H : _ || _ = false |- _ => apply orb_false_elim in H; destruct H
  | H : (_ <? _) = true |- _ => apply Z.ltb_lt in H
  | H : (_ <? _) = false |- _ => apply Z.ltb_ge in H
  | H : (_ <=? _) = true |- _ => apply Z.leb_le in H
  | H : (_ <=? _) = false |- _ => apply Z.leb_gt in H
  | H : (_ =? _) = true |- _ => apply Z.eqb_eq in H
  | H : (_ =? _) = false |- _ => apply Z.eqb_neq in H
  | H : String.eqb _ _ = true |- _ => apply String.eqb_eq in H
  | H : String.eqb _ _ = false |- _ => apply String.eqb_neq in H
  | H : negb _ = true |- _ => apply negb_true_iff in H
  | H : negb _ = false |- _ => apply negb_false_iff in H
  end.
