(* ===== verification/GoLib.v ===== *)
(** * The parts of Go's standard library the program uses

    Go strings are byte strings, so they are modelled by [string], a list of
    8-bit [ascii]; byte slices are lists of integers in [0, 256).  The file
    holds [strings.HasPrefix] and [strings.TrimSpace], decimal and base-36
    formatting and [strconv.Atoi], and [hex.EncodeToString]. *)

From Stdlib Require Import ZArith Lia Ascii String.
From stdpp Require Import base tactics numbers list gmap strings.
From S2P Require Import Prelude.

(** ** Bytes *)

Definition byte_ascii (n : Z) : ascii := ascii_of_N (Z.to_N n).
Definition ascii_byte (c : ascii) : Z := Z.of_N (N_of_ascii c).
Definition is_byte (n : Z) : Prop := 0 <= n < 256.

(** The conversions [[]byte(s)] and [string(b)]. *)
Fixpoint bytes_of (s : string) : list Z :=
  match s with EmptyString => [] | String c s' => ascii_byte c :: bytes_of s' end.
Fixpoint string_of (l : list Z) : string :=
  match l with [] => EmptyString | b :: l' => String (byte_ascii b) (string_of l') end.

(** ** Package [strings] *)

Definition HasPrefix (s p : string) : bool := String.prefix p s.

Definition slen (s : string) : Z := Z.of_nat (String.length s).

(** [s[i:j]] for indices in range. *)
Definition slice (s : string) (i j : nat) : string := String.substring i (j - i) s.

(** The UTF-8 encodings of the code points [unicode.IsSpace] accepts: the six
    ASCII blanks, U+0085, U+00A0, U+1680, U+2000 to U+200A, U+2028, U+2029,
    U+202F, U+205F and U+3000. *)
Definition space_encodings : list string :=
  string_of <$>
    ([[9]; [10]; [11]; [12]; [13]; [32]; [194; 133]; [194; 160]; [225; 154; 128]]
     ++ ((fun k => [226; 128; k]) <$> [128; 129; 130; 131; 132; 133; 134; 135; 136; 137; 138])
     ++ [[226; 128; 168]; [226; 128; 169]; [226; 128; 175]; [226; 129; 159]; [227; 128; 128]]).

Fixpoint strip_prefix (p s : string) : option string :=
  match p, s with
  | EmptyString, _ => Some s
  | String a p', String b s' => if Ascii.eqb a b then strip_prefix p' s' else None
  | String _ _, EmptyString => None
  end.

(** The rest of [s] after the first of [encs] that [s] starts with. *)
Fixpoint strip_any (encs : list string) (s : string) : option string :=
  match encs with
  | [] => None
  | e :: encs' => match strip_prefix e s with Some r => Some r | None => strip_any encs' s end
  end.

(** Strips encodings from the front; every encoding is at least one byte long,
    so as many rounds as [s] has bytes are enough. *)
Fixpoint trim_by (encs : list string) (fuel : nat) (s : string) : string :=
  match fuel with
  | O => s
  | S f => match strip_any encs s with Some r => trim_by encs f r | None => s end
  end.

Definition TrimLeftSpace (s : string) : string :=
  trim_by space_encodings (String.length s) s.

Definition TrimRightSpace (s : string) : string :=
  String.rev (trim_by (String.rev <$> space_encodings) (String.length s) (String.rev s)).

Definition TrimSpace (s : string) : string := TrimRightSpace (TrimLeftSpace s).

(** ** Package [strconv] *)

(** The digit characters 0-9a-z. *)
Definition digit_char (d : Z) : ascii :=
  byte_ascii (if d <? 10 then 48 + d else 87 + d).

Fixpoint format_digits (fuel : nat) (base n : Z) (acc : string) : string :=
  match fuel with
  | O => acc
  | S f =>
      let acc' := String (digit_char (n mod base)) acc in
      if n / base =? 0 then acc' else format_digits f base (n / base) acc'
  end.

(** [strconv.FormatUint(n, base)]: a number has at most as many digits as bits. *)
Definition FormatUint (n base : Z) : string :=
  format_digits (S (Z.to_nat (Z.log2 n))) base n EmptyString.

Definition FormatInt (z base : Z) : string :=
  if z <? 0 then String (byte_ascii 45) (FormatUint (- z) base) else FormatUint z base.

(** [strconv.Itoa] and the verb [%d]. *)
Definition Itoa (z : Z) : string := FormatInt z 10.

Definition digit_value (c : ascii) : option Z :=
  let b := ascii_byte c in
  if (48 <=? b) && (b <=? 57) then Some (b - 48) else None.

Fixpoint parse_digits (s : string) (acc : Z) : option Z :=
  match s with
  | EmptyString => Some acc
  | String c s' =>
      match digit_value c with Some d => parse_digits s' (acc * 10 + d) | None => None end
  end.

(** [strconv.Atoi]: an optional sign, then at least one decimal digit, then a
    range check.  The error's text is the reason part of Go's [NumError]. *)
Definition Atoi (s : string) : res Z :=
  let '(neg, ds) :=
    match s with
    | String c s' =>
        if ascii_byte c =? 45 then (true, s')
        else if ascii_byte c =? 43 then (false, s') else (false, s)
    | EmptyString => (false, s)
    end in
  match ds with
  | EmptyString => Err (ErrNew "invalid syntax")
  | _ =>
      match parse_digits ds 0 with
      | None => Err (ErrNew "invalid syntax")
      | Some n =>
          let z := if neg : bool then - n else n in
          if (- 2 ^ 63 <=? z) && (z <? 2 ^ 63) then Ok z
          else Err (ErrNew "value out of range")
      end
  end.

(** ** Package [encoding/hex] *)

Fixpoint hex_encode (l : list Z) : string :=
  match l with
  | [] => EmptyString
  | b :: l' => String (digit_char (b / 16)) (String (digit_char (b mod 16)) (hex_encode l'))
  end.

(** ** Lemmas *)

Lemma byte_ascii_byte n : is_byte n -> ascii_byte (byte_ascii n) = n.
Proof.
  unfold is_byte, ascii_byte, byte_ascii. intros H.
  rewrite N_ascii_embedding by lia. lia.
Qed.

Lemma ascii_byte_range c : is_byte (ascii_byte c).
Proof.
  unfold is_byte, ascii_byte.
  pose proof (N_ascii_bounded c). lia.
Qed.

Lemma ascii_byte_ascii c : byte_ascii (ascii_byte c) = c.
Proof. unfold byte_ascii, ascii_byte. rewrite N2Z.id. apply ascii_N_embedding. Qed.

Lemma bytes_of_range s : Forall is_byte (bytes_of s).
Proof. induction s as [|c s IH]; simpl; constructor; [apply ascii_byte_range | done]. Qed.

#[export] Instance ascii_byte_inj : Inj (=) (=) ascii_byte.
Proof. intros a b Hab. by rewrite <- (ascii_byte_ascii a), Hab, ascii_byte_ascii. Qed.

Lemma bytes_of_inj s t : bytes_of s = bytes_of t -> s = t.
Proof.
  revert t. induction s as [|a s IH]; intros [|b t]; try done.
  intros [= H1 H2]. f_equal; [by apply (inj ascii_byte) | by apply IH].
Qed.

Lemma append_cons c (a b : string) : String c a +:+ b = String c (a +:+ b).
Proof. done. Qed.

Lemma append_nil_l (a : string) : "" +:+ a = a.
Proof. done. Qed.

Lemma append_nil_r (a : string) : a +:+ "" = a.
Proof. induction a as [|x a IH]; [done|]. by rewrite append_cons, IH. Qed.

Lemma string_app_assoc (a b c : string) : (a +:+ b) +:+ c = a +:+ (b +:+ c).
Proof. induction a as [|x a IH]; [done|]. by rewrite !append_cons, IH. Qed.

Lemma string_length_app (a b : string) :
  String.length (a +:+ b) = (String.length a + String.length b)%nat.
Proof. induction a as [|x a IH]; [done|]. rewrite append_cons. simpl. by rewrite IH. Qed.

Lemma bytes_of_app s t : bytes_of (s +:+ t) = bytes_of s ++ bytes_of t.
Proof. induction s as [|c s IH]; [done|]. rewrite append_cons. simpl. f_equal. apply IH. Qed.

Lemma bytes_of_length s : length (bytes_of s) = String.length s.
Proof. induction s as [|c s IH]; simpl; [done|]. f_equal. apply IH. Qed.

Lemma HasPrefix_spec s p : HasPrefix s p = true <-> exists r, s = p +:+ r.
Proof.
  unfold HasPrefix. revert s. induction p as [|a p IH]; intros s; simpl.
  - split; [intros _; by exists s | by destruct s].
  - destruct s as [|b s]; simpl.
    + split; [done | by intros [r Hr]].
    + destruct (ascii_dec a b) as [->|Hne].
      * rewrite IH. split; intros [r Hr]; exists r;
          rewrite append_cons in *; congruence.
      * split; [done | intros [r Hr]; rewrite append_cons in Hr; congruence].
Qed.

Lemma strip_prefix_Some p s r : strip_prefix p s = Some r -> s = p +:+ r.
Proof.
  revert s. induction p as [|a p IH]; intros s; simpl; [by intros [= ->]|].
  destruct s as [|b s]; [done|].
  destruct (Ascii.eqb_spec a b) as [->|]; [|done].
  intros H. rewrite append_cons. f_equal. by apply IH.
Qed.

Lemma strip_any_Some encs s r :
  strip_any encs s = Some r -> exists e, e ∈ encs /\ s = e +:+ r.
Proof.
  induction encs as [|e encs IH]; simpl; [done|].
  destruct (strip_prefix e s) eqn:E.
  - intros [= ->]. exists e. split; [left | by apply strip_prefix_Some].
  - intros H. destruct (IH H) as (e' & Hin & ->). exists e'. split; [by right | done].
Qed.

(** What is trimmed off the front is a sequence of blanks. *)
Lemma trim_by_split encs fuel s :
  exists l, Forall (fun e => e ∈ encs) l /\ s = foldr String.append (trim_by encs fuel s) l.
Proof.
  revert s. induction fuel as [|f IH]; intros s; simpl; [by exists []|].
  destruct (strip_any encs s) as [r|] eqn:E; [|by exists []].
  apply strip_any_Some in E as (e & Hin & ->).
  destruct (IH r) as (l & Hl & Hr). exists (e :: l). split; [by constructor|].
  simpl. by rewrite <- Hr.
Qed.

(** Hexadecimal text determines the bytes. *)
Lemma digit_char_inj a b :
  0 <= a < 36 -> 0 <= b < 36 -> digit_char a = digit_char b -> a = b.
Proof.
  intros Ha Hb H. apply (f_equal ascii_byte) in H. unfold digit_char in H.
  destruct (Z.ltb_spec a 10), (Z.ltb_spec b 10);
    rewrite !byte_ascii_byte in H by (unfold is_byte; lia); lia.
Qed.

Lemma hex_encode_inj l1 l2 :
  Forall is_byte l1 -> Forall is_byte l2 -> hex_encode l1 = hex_encode l2 -> l1 = l2.
Proof.
  intros H1. revert l2. induction H1 as [|x l1 Hx H1 IH]; intros l2 H2; destruct H2 as [|y l2 Hy H2];
    simpl; try done.
  intros [= Eh El Et]. unfold is_byte in *.
  pose proof (Z.div_mod x 16). pose proof (Z.div_mod y 16).
  pose proof (Z.mod_pos_bound x 16). pose proof (Z.mod_pos_bound y 16).
  apply digit_char_inj in Eh; [|split; [apply Z.div_pos|apply Z.div_lt_upper_bound]; lia..].
  apply digit_char_inj in El; [|lia..].
  f_equal; [lia|auto].
Qed.

Lemma hex_encode_length l : String.length (hex_encode l) = (2 * length l)%nat.
Proof. induction l as [|b l IH]; simpl; [done|]. rewrite IH. lia. Qed.

(** ** Reversal and trimming on the right *)

Lemma rev_app_append (s t : string) : String.rev_app s t = String.rev s +:+ t.
Proof.
  unfold String.rev. revert t. induction s as [|c s IH]; intros t; simpl; [done|].
  rewrite IH, (IH (String c "")), string_app_assoc. done.
Qed.

Lemma srev_cons c (s : string) : String.rev (String c s) = String.rev s +:+ String c "".
Proof. unfold String.rev at 1. simpl. apply rev_app_append. Qed.

Lemma srev_append (s t : string) : String.rev (s +:+ t) = String.rev t +:+ String.rev s.
Proof.
  induction s as [|c s IH].
  - change (String.rev "") with "". by rewrite append_nil_r.
  - by rewrite append_cons, !srev_cons, IH, string_app_assoc.
Qed.

Lemma srev_involutive (s : string) : String.rev (String.rev s) = s.
Proof. induction s as [|c s IH]; [done|]. by rewrite srev_cons, srev_append, IH. Qed.

(** A text that trims to nothing on the right is empty or starts with a blank. *)
Lemma TrimRightSpace_nil s :
  TrimRightSpace s = "" -> s = "" \/ exists e r, e ∈ space_encodings /\ s = e +:+ r.
Proof.
  unfold TrimRightSpace. intros H. apply (f_equal String.rev) in H.
  rewrite srev_involutive in H. change (String.rev "") with "" in H.
  destruct (trim_by_split (String.rev <$> space_encodings) (String.length s) (String.rev s))
    as (l & Hl & E).
  rewrite H in E. apply (f_equal String.rev) in E. rewrite srev_involutive in E. subst s.
  destruct l as [|x l _] using rev_ind; [by left|]. right.
  apply Forall_app in Hl as [_ Hx]. apply Forall_singleton, list_elem_of_fmap in Hx as (e & -> & He).
  exists e, (String.rev (foldr String.append "" l)). split; [done|].
  assert (forall l (t : string), foldr String.append "" (l ++ [t]) = foldr String.append "" l +:+ t) as Hf.
  { clear. induction l as [|a l IH]; intros t; simpl; [apply append_nil_r|].
    by rewrite IH, string_app_assoc. }
  by rewrite Hf, srev_append, srev_involutive.
Qed.

(** ** Character classes *)

Fixpoint chars (p : ascii -> bool) (s : string) : bool :=
  match s with EmptyString => true | String c s' => p c && chars p s' end.

Lemma chars_app p s t : chars p (s +:+ t) = chars p s && chars p t.
Proof.
  induction s as [|c s IH]; [done|]. rewrite append_cons. simpl.
  by rewrite IH, andb_assoc.
Qed.

Lemma chars_mono (p q : ascii -> bool) s :
  (forall c, p c = true -> q c = true) -> chars p s = true -> chars q s = true.
Proof.
  intros Hpq. induction s as [|c s IH]; simpl; [done|]. intros [? ?]%andb_prop.
  apply andb_true_intro. auto.
Qed.

(** The characters of decimal numbers. *)
Definition numeric_char (c : ascii) : bool :=
  let b := ascii_byte c in (48 <=? b) && (b <=? 57) || (b =? 45) || (b =? 46).

Lemma numeric_digit d : 0 <= d < 10 -> numeric_char (digit_char d) = true.
Proof.
  intros Hd. unfold numeric_char, digit_char. rewrite (proj2 (Z.ltb_lt _ _)) by lia.
  rewrite byte_ascii_byte by (unfold is_byte; lia). lia.
Qed.

Lemma format_digits_chars fuel n acc :
  chars numeric_char acc = true -> chars numeric_char (format_digits fuel 10 n acc) = true.
Proof.
  revert n acc. induction fuel as [|f IH]; intros n acc Hacc; simpl; [done|].
  assert (chars numeric_char (String (digit_char (n mod 10)) acc) = true) as H'.
  { simpl. rewrite numeric_digit, Hacc by (pose proof (Z.mod_pos_bound n 10); lia). done. }
  case_match; [done|]. by apply IH.
Qed.

Lemma Itoa_chars z : chars numeric_char (Itoa z) = true.
Proof.
  unfold Itoa, FormatInt, FormatUint. case_match; [|by apply format_digits_chars].
  cbn [chars]. apply andb_true_intro. split; [done|]. by apply format_digits_chars.
Qed.

(** ** Numbers and their texts *)

Lemma digit_value_char d : 0 <= d < 10 -> digit_value (digit_char d) = Some d.
Proof.
  intros Hd. unfold digit_value, digit_char. assert (d <? 10 = true) as -> by lia.
  rewrite byte_ascii_byte by (unfold is_byte; lia).
  assert ((48 <=? 48 + d) && (48 + d <=? 57) = true) as -> by lia. f_equal. lia.
Qed.

(** Reading a number back digit by digit, with any function that treats a
    leading digit as the decimal step. *)
Lemma format_digits_ind (P : Z -> string -> Prop) fuel n acc :
  0 <= n < 2 ^ Z.of_nat fuel -> P n acc ->
  (forall m d rest, 0 <= m -> 0 <= d < 10 -> P (m * 10 + d) rest -> P m (String (digit_char d) rest)) ->
  P 0 (format_digits fuel 10 n acc).
Proof.
  intros Hn HP Hstep. revert n acc Hn HP. induction fuel as [|fuel IH]; intros n acc Hn HP.
  - assert (n = 0) as -> by (cbn in Hn; lia). done.
  - cbn [format_digits].
    assert (0 <= n / 10 < 2 ^ Z.of_nat fuel) as Hq.
    { rewrite Nat2Z.inj_succ, Z.pow_succ_r in Hn by lia. split; [apply Z.div_pos; lia|].
      apply Z.div_lt_upper_bound; lia. }
    pose proof (Z.mod_pos_bound n 10 ltac:(lia)) as Hm.
    assert (n / 10 * 10 + n mod 10 = n) as Hdm by (pose proof (Z.div_mod n 10 ltac:(lia)); lia).
    destruct (Z.eqb_spec (n / 10) 0) as [E|E].
    + rewrite E in Hdm. apply Hstep; [lia..|]. by rewrite Hdm.
    + apply IH; [done|]. apply Hstep; [lia..|]. by rewrite Hdm.
Qed.

Lemma format_digits_app fuel base n acc rest :
  format_digits fuel base n acc +:+ rest = format_digits fuel base n (acc +:+ rest).
Proof.
  revert n acc. induction fuel as [|fuel IH]; intros n acc; [done|]. cbn [format_digits].
  case_match; [by rewrite append_cons|]. by rewrite IH, append_cons.
Qed.

Lemma format_digits_head fuel n acc :
  0 <= n -> exists d s, format_digits (S fuel) 10 n acc = String (digit_char d) s /\ 0 <= d < 10.
Proof.
  revert n acc. induction fuel as [|fuel IH]; intros n acc Hn;
    pose proof (Z.mod_pos_bound n 10 ltac:(lia)) as Hm.
  - cbn. case_match; by eexists _, _.
  - cbn [format_digits]. case_match; [by eexists _, _|]. apply IH. apply Z.div_pos; lia.
Qed.

Lemma Itoa_nonneg n : 0 <= n -> Itoa n = FormatUint n 10.
Proof. intros Hn. unfold Itoa, FormatInt. by rewrite (proj2 (Z.ltb_ge _ _)). Qed.

Lemma Itoa_head n : 0 <= n -> exists d s, Itoa n = String (digit_char d) s /\ 0 <= d < 10.
Proof. intros Hn. rewrite Itoa_nonneg by done. by apply format_digits_head. Qed.

Lemma Itoa_ind (P : Z -> string -> Prop) n rest :
  0 <= n -> P n rest ->
  (forall m d rest, 0 <= m -> 0 <= d < 10 -> P (m * 10 + d) rest -> P m (String (digit_char d) rest)) ->
  P 0 (Itoa n +:+ rest).
Proof.
  intros Hn HP Hstep. rewrite Itoa_nonneg by done. unfold FormatUint. rewrite format_digits_app, append_nil_l.
  apply format_digits_ind; [|done..]. split; [done|].
  rewrite Nat2Z.inj_succ, Z2Nat.id by apply Z.log2_nonneg.
  destruct (decide (n = 0)) as [->|]; [done|]. apply Z.log2_spec. lia.
Qed.

Lemma parse_Itoa n : 0 <= n -> parse_digits (Itoa n) 0 = Some n.
Proof.
  intros Hn. rewrite <- (append_nil_r (Itoa n)).
  apply (Itoa_ind (fun m s => parse_digits s m = Some n)); [done..|].
  intros m d rest Hm Hd HP. cbn [parse_digits]. by rewrite digit_value_char.
Qed.

Lemma digit_char_sign d : 0 <= d < 10 -> ascii_byte (digit_char d) <> 45 /\ ascii_byte (digit_char d) <> 43.
Proof.
  intros Hd. unfold digit_char. assert (d <? 10 = true) as -> by lia.
  rewrite byte_ascii_byte by (unfold is_byte; lia). lia.
Qed.

(** [strconv.Atoi] reads back what [strconv.Itoa] writes. *)
Lemma Atoi_Itoa z : in_int64 z -> Atoi (Itoa z) = Ok z.
Proof.
  intros [Hlo Hhi].
  assert (forall n, 0 <= n -> exists c s, Itoa n = String c s /\ ascii_byte c <> 45 /\ ascii_byte c <> 43
    /\ parse_digits (String c s) 0 = Some n) as Hpos.
  { intros n Hn. destruct (Itoa_head n Hn) as (d & s & E & Hd). eexists _, _. split; [exact E|].
    destruct (digit_char_sign d Hd). split_and!; [done..|]. rewrite <- E. by apply parse_Itoa. }
  assert ((- 2 ^ 63 <=? z) && (z <? 2 ^ 63) = true) as Hr by lia.
  destruct (Z.ltb_spec z 0) as [Hz|Hz].
  - destruct (Hpos (- z) ltac:(lia)) as (c & s & E & _ & _ & Hp).
    rewrite Itoa_nonneg in E by lia. unfold Itoa, FormatInt. rewrite (proj2 (Z.ltb_lt _ _)) by done. rewrite E.
    unfold Atoi. cbn [ascii_byte]. rewrite byte_ascii_byte by (unfold is_byte; lia).
    cbn [Z.eqb Pos.eqb]. rewrite Hp, Z.opp_involutive, Hr. done.
  - destruct (Hpos z Hz) as (c & s & -> & H1 & H2 & Hp). unfold Atoi.
    rewrite (proj2 (Z.eqb_neq _ _) H1), (proj2 (Z.eqb_neq _ _) H2), Hp, Hr. done.
Qed.

Lemma Atoi_range s z : Atoi s = Ok z -> in_int64 z.
Proof.
  unfold Atoi, in_int64. repeat case_match; intros; simplify_eq;
    match goal with H : (_ && _) = true |- _ => apply andb_true_iff in H as [?%Z.leb_le ?%Z.ltb_lt] end; lia.
Qed.

Lemma Itoa_inj z w : Itoa z = Itoa w -> z = w.
Proof.
  assert (forall n m, 0 <= n -> 0 <= m -> Itoa n = Itoa m -> n = m) as Hpos.
  { intros n m Hn Hm E. apply (f_equal (fun s => parse_digits s 0)) in E. rewrite !parse_Itoa in E by done.
    by simplify_eq. }
  assert (forall n m, n < 0 -> 0 <= m -> Itoa n <> Itoa m) as Hmix.
  { intros n m Hn Hm. destruct (Itoa_head m Hm) as (d & s & -> & Hd). unfold Itoa, FormatInt.
    rewrite (proj2 (Z.ltb_lt _ _)) by done. intros [= E _]. destruct (digit_char_sign d Hd) as [Hs _].
    apply Hs. rewrite <- E. apply byte_ascii_byte. unfold is_byte. lia. }
  intros E. destruct (Z.ltb_spec z 0) as [Hz|Hz], (Z.ltb_spec w 0) as [Hw|Hw].
  - assert (Itoa (- z) = Itoa (- w)) as E'.
    { rewrite !Itoa_nonneg by lia. unfold Itoa, FormatInt in E.
      rewrite !(proj2 (Z.ltb_lt _ _)) in E by done. by injection E. }
    apply Hpos in E'; lia.
  - by destruct (Hmix z w Hz Hw).
  - by destruct (Hmix w z Hw Hz).
  - by apply Hpos.
Qed.

(** ** Errors *)

(** [errors.Join] of two errors. *)
Definition errors_Join (a b : option gerror) : option gerror :=
  match a, b with
  | None, _ => b
  | _, None => a
  | Some e, Some f => Some (ErrNew (error_text e +:+ String (byte_ascii 10) (error_text f)))
  end.

Lemma errors_Join_None a b : errors_Join a b = None <-> a = None /\ b = None.
Proof. destruct a, b; naive_solver. Qed.
