(* ===== verification/Float64.v ===== *)
(** * IEEE 754 double precision

    Lua numbers and Go's [float64] are doubles: every arithmetic operation
    returns the exact result rounded to the nearest number with a 53-bit
    significand, ties going to an even significand.  A double is modelled by
    the canonical rational [Qc] it denotes, so that Leibniz equality is equality
    of values.  Infinities and NaN do not occur in the model: a division by
    zero has no result ([fdiv] returns an option), and the exponent is not
    bounded, which the program's values (between 2^-64 and 2^64 in absolute
    value, or zero) do not notice. *)

From Stdlib Require Import ZArith Lia QArith Qround Qcanon.
From stdpp Require Import base tactics numbers list.
From S2P Require Import Prelude.

Local Open Scope Z_scope.

(** [n / d] rounded to the nearest integer, ties to even. *)
Definition round_half_even (n d : Z) : Z :=
  let q := n / d in
  let r := n mod d in
  if 2 * r <? d then q
  else if d <? 2 * r then q + 1
  else if Z.even q then q else q + 1.

(** The fraction [(n / d) / 2^e] as numerator and denominator. *)
Definition scale_num (n e : Z) : Z := n * 2 ^ Z.max 0 (- e).
Definition scale_den (d e : Z) : Z := d * 2 ^ Z.max 0 e.

(** The exponent that puts [n / d] between 2^52 and 2^53. *)
Definition exponent (n d : Z) : Z :=
  let e := Z.log2 n - Z.log2 d - 52 in
  if scale_num n e <? 2 ^ 52 * scale_den d e then e - 1 else e.

(** The rational [m * 2^e]. *)
Definition dyadic (m e : Z) : Qc :=
  Q2Qc (m * 2 ^ Z.max 0 e # Z.to_pos (2 ^ Z.max 0 (- e))).

Definition round_pos (n d : Z) : Qc :=
  let e := exponent n d in
  dyadic (round_half_even (scale_num n e) (scale_den d e)) e.

(** Rounding to the nearest double. *)
Definition rnd (x : Qc) : Qc :=
  match Qnum x with
  | Z0 => Qc_of_Z 0
  | Zpos p => round_pos (Zpos p) (Zpos (Qden x))
  | Zneg p => Qcopp (round_pos (Zpos p) (Zpos (Qden x)))
  end.

(** [float64(z)], and Lua's [tonumber] of a decimal integer. *)
Definition f64 (z : Z) : Qc := rnd (Qc_of_Z z).

Definition fadd (x y : Qc) : Qc := rnd (x + y)%Qc.
Definition fsub (x y : Qc) : Qc := rnd (x - y)%Qc.
Definition fmul (x y : Qc) : Qc := rnd (x * y)%Qc.
Definition fdiv (x y : Qc) : option Qc :=
  if decide (y = Qc_of_Z 0) then None else Some (rnd (x / y)%Qc).

Definition fleb (x y : Qc) : bool := Qle_bool x y.
Definition fmin (x y : Qc) : Qc := if fleb x y then x else y.
Definition fmax (x y : Qc) : Qc := if fleb x y then y else x.

(** Floor, ceiling and truncation to an integer. *)
Definition ffloor (x : Qc) : Z := Qnum x / Zpos (Qden x).
Definition fceil (x : Qc) : Z := cdiv (Qnum x) (Zpos (Qden x)).
Definition ftrunc (x : Qc) : Z := Z.quot (Qnum x) (Zpos (Qden x)).

#[global] Arguments rnd : simpl never.
#[global] Arguments f64 : simpl never.
#[global] Arguments fadd : simpl never.
#[global] Arguments fsub : simpl never.
#[global] Arguments fmul : simpl never.
#[global] Arguments fdiv : simpl never.
#[global] Arguments ffloor : simpl never.
#[global] Arguments fceil : simpl never.
#[global] Arguments ftrunc : simpl never.

(** ** Rounding to integers *)

Lemma round_half_even_le n d k : 0 < d -> k * d <= n -> k <= round_half_even n d.
Proof.
  intros Hd H. unfold round_half_even.
  assert (k <= n / d) by (apply Z.div_le_lower_bound; lia).
  repeat case_match; lia.
Qed.

Lemma round_half_even_ge n d k : 0 < d -> n <= k * d -> round_half_even n d <= k.
Proof.
  intros Hd H. unfold round_half_even.
  pose proof (Z.div_mod n d ltac:(lia)). pose proof (Z.mod_pos_bound n d Hd).
  assert (n / d <= k) by (apply Z.div_le_upper_bound; lia).
  destruct (decide (n / d = k)) as [E|]; [|repeat case_match; lia].
  assert (n mod d = 0) as -> by nia.
  rewrite (proj2 (Z.ltb_lt _ _)) by lia. lia.
Qed.

Lemma round_half_even_gt n d k : 0 < d -> (2 * k + 1) * d < 2 * n -> k < round_half_even n d.
Proof.
  intros Hd H. unfold round_half_even.
  pose proof (Z.div_mod n d ltac:(lia)). pose proof (Z.mod_pos_bound n d Hd).
  assert (k <= n / d) by (apply Z.div_le_lower_bound; lia).
  destruct (decide (n / d = k)) as [E|]; [|repeat case_match; lia].
  rewrite (proj2 (Z.ltb_ge _ _)) by nia. rewrite (proj2 (Z.ltb_lt _ _)) by nia. lia.
Qed.

Lemma round_half_even_lt n d k : 0 < d -> 2 * n < (2 * k - 1) * d -> round_half_even n d < k.
Proof.
  intros Hd H. unfold round_half_even.
  pose proof (Z.div_mod n d ltac:(lia)). pose proof (Z.mod_pos_bound n d Hd).
  assert (n / d <= k - 1) by (apply Z.lt_succ_r, Z.div_lt_upper_bound; nia).
  destruct (decide (n / d = k - 1)) as [E|]; [|repeat case_match; lia].
  rewrite (proj2 (Z.ltb_lt _ _)) by nia. lia.
Qed.

Lemma round_half_even_exact q d : 0 < d -> round_half_even (q * d) d = q.
Proof.
  intros Hd. apply Z.le_antisymm.
  - by apply round_half_even_ge.
  - by apply round_half_even_le.
Qed.

(** ** The significand has 53 bits *)

Lemma pow2_pos e : 0 < 2 ^ Z.max 0 e.
Proof. apply Z.pow_pos_nonneg; lia. Qed.

Lemma exponent_spec n d :
  0 < n -> 0 < d ->
  let e := exponent n d in
  2 ^ 52 * scale_den d e <= scale_num n e < 2 ^ 53 * scale_den d e.
Proof.
  intros Hn Hd. cbv zeta. unfold exponent.
  set (a := Z.log2 n). set (b := Z.log2 d). set (e := a - b - 52).
  pose proof (Z.log2_spec n Hn) as [Ha1 Ha2]. fold a in Ha1, Ha2.
  pose proof (Z.log2_spec d Hd) as [Hb1 Hb2]. fold b in Hb1, Hb2.
  pose proof (Z.log2_nonneg n) as Ha0. fold a in Ha0.
  pose proof (Z.log2_nonneg d) as Hb0. fold b in Hb0.
  assert (2 ^ 51 * scale_den d e < scale_num n e < 2 ^ 53 * scale_den d e) as [Hlo Hhi].
  { unfold scale_num, scale_den.
    assert (2 ^ a * 2 ^ Z.max 0 (- e) = 2 ^ 52 * 2 ^ b * 2 ^ Z.max 0 e) as E.
    { rewrite <- !Z.pow_add_r by lia. f_equal. lia. }
    rewrite Z.pow_succ_r in Ha2, Hb2 by lia.
    pose proof (pow2_pos e). pose proof (pow2_pos (- e)). nia. }
  destruct (Z.ltb_spec (scale_num n e) (2 ^ 52 * scale_den d e)) as [Hlt|Hge]; [|lia].
  assert (scale_num n (e - 1) * scale_den d e = 2 * scale_num n e * scale_den d (e - 1)) as E.
  { unfold scale_num, scale_den.
    replace (2 * (n * 2 ^ Z.max 0 (- e)) * (d * 2 ^ Z.max 0 (e - 1)))
      with (n * d * (2 ^ 1 * 2 ^ Z.max 0 (- e) * 2 ^ Z.max 0 (e - 1))) by ring.
    replace (n * 2 ^ Z.max 0 (- (e - 1)) * (d * 2 ^ Z.max 0 e))
      with (n * d * (2 ^ Z.max 0 (- (e - 1)) * 2 ^ Z.max 0 e)) by ring.
    rewrite <- !Z.pow_add_r by lia. f_equal. f_equal. lia. }
  assert (0 < scale_den d e) by (unfold scale_den; pose proof (pow2_pos e); nia).
  assert (0 < scale_den d (e - 1)) by (unfold scale_den; pose proof (pow2_pos (e - 1)); nia).
  split; nia.
Qed.

(** ** Comparison with integers *)

Lemma Qc_of_Z_lt_iff K (x : Qc) : (Qc_of_Z K < x)%Qc <-> K * Zpos (Qden x) < Qnum x.
Proof. unfold Qclt, Qlt. simpl. lia. Qed.

Lemma lt_Qc_of_Z_iff K (x : Qc) : (x < Qc_of_Z K)%Qc <-> Qnum x < K * Zpos (Qden x).
Proof. unfold Qclt, Qlt. simpl. lia. Qed.

Lemma Q2Qc_lt_l q (x : Qc) : (Q2Qc q < x)%Qc <-> (q < x)%Q.
Proof. unfold Qclt. simpl. by rewrite Qred_correct. Qed.

Lemma Q2Qc_lt_r q (x : Qc) : (x < Q2Qc q)%Qc <-> (x < q)%Q.
Proof. unfold Qclt. simpl. by rewrite Qred_correct. Qed.

Lemma Qc_of_Z_lt_dyadic K m e :
  (Qc_of_Z K < dyadic m e)%Qc <-> K * 2 ^ Z.max 0 (- e) < m * 2 ^ Z.max 0 e.
Proof.
  unfold dyadic. rewrite Q2Qc_lt_r. unfold Qlt. simpl.
  rewrite Z2Pos.id by apply pow2_pos. lia.
Qed.

Lemma dyadic_lt_Qc_of_Z K m e :
  (dyadic m e < Qc_of_Z K)%Qc <-> m * 2 ^ Z.max 0 e < K * 2 ^ Z.max 0 (- e).
Proof.
  unfold dyadic. rewrite Q2Qc_lt_l. unfold Qlt. simpl.
  rewrite Z2Pos.id by apply pow2_pos. lia.
Qed.

(** A positive fraction with a numerator below 2^53 scales by a power of two
    that exceeds half its denominator. *)
Lemma exponent_small n d :
  0 < n < 2 ^ 53 -> 0 < d ->
  Z.max 0 (exponent n d) = 0 /\ d < 2 * 2 ^ Z.max 0 (- exponent n d).
Proof.
  intros Hn Hd. pose proof (exponent_spec n d) as [H1 _]; [lia..|].
  set (e := exponent n d) in *. unfold scale_num, scale_den in H1.
  pose proof (pow2_pos e). pose proof (pow2_pos (- e)).
  destruct (decide (e <= 0)) as [He|He].
  - rewrite (Z.max_l 0 e) in * by lia. change (2 ^ 0) with 1 in H1. split; [done|nia].
  - exfalso. rewrite (Z.max_l 0 (- e)) in H1 by lia. change (2 ^ 0) with 1 in H1.
    assert (2 ^ 1 <= 2 ^ Z.max 0 e) by (apply Z.pow_le_mono_r; lia).
    change (2 ^ 1) with 2 in *. nia.
Qed.

Lemma round_pos_gt n d K :
  0 < n < 2 ^ 53 -> 0 < d -> K * d < n -> (Qc_of_Z K < round_pos n d)%Qc.
Proof.
  intros Hn Hd HK. unfold round_pos. cbv zeta. rewrite Qc_of_Z_lt_dyadic.
  destruct (exponent_small n d Hn Hd) as [He Hp].
  unfold scale_num, scale_den. rewrite He. change (2 ^ 0) with 1.
  rewrite !Z.mul_1_r. apply round_half_even_gt; [lia|].
  pose proof (pow2_pos (- exponent n d)). nia.
Qed.

Lemma round_pos_lt n d K :
  0 < n < 2 ^ 53 -> 0 < d -> n < K * d -> (round_pos n d < Qc_of_Z K)%Qc.
Proof.
  intros Hn Hd HK. unfold round_pos. cbv zeta. rewrite dyadic_lt_Qc_of_Z.
  destruct (exponent_small n d Hn Hd) as [He Hp].
  unfold scale_num, scale_den. rewrite He. change (2 ^ 0) with 1.
  rewrite !Z.mul_1_r. apply round_half_even_lt; [lia|].
  pose proof (pow2_pos (- exponent n d)). nia.
Qed.

(** Integers of at most 53 bits are doubles. *)
Lemma round_pos_Z n : 0 < n <= 2 ^ 53 -> round_pos n 1 = Qc_of_Z n.
Proof.
  intros Hn. destruct (decide (n = 2 ^ 53)) as [->|Hne]; [by apply Qc_is_canon|].
  destruct (exponent_small n 1) as [He _]; [lia..|].
  unfold round_pos, scale_num, scale_den, dyadic. cbv zeta. rewrite He.
  set (p := Z.max 0 (- exponent n 1)). pose proof (pow2_pos (- exponent n 1)) as Hp. fold p in Hp.
  apply Qc_is_canon. simpl. rewrite Qred_correct. unfold Qeq. simpl.
  rewrite Z2Pos.id by done.
  replace (n * 2 ^ p) with (n * 2 ^ p * 1) by lia.
  rewrite round_half_even_exact by lia. lia.
Qed.

Lemma Qc_of_Z_opp z : Qcopp (Qc_of_Z z) = Qc_of_Z (- z).
Proof. apply Qc_is_canon. simpl. rewrite Qred_correct. done. Qed.

Lemma rnd_Z z : Z.abs z <= 2 ^ 53 -> rnd (Qc_of_Z z) = Qc_of_Z z.
Proof.
  intros Hz. destruct z as [|p|p]; [done| |].
  - by apply (round_pos_Z (Zpos p)).
  - change (Qcopp (round_pos (Zpos p) 1) = Qc_of_Z (Zneg p)).
    rewrite round_pos_Z by done. apply Qc_of_Z_opp.
Qed.

Lemma rnd_gt (x : Qc) K : 0 < Qnum x < 2 ^ 53 -> (Qc_of_Z K < x)%Qc -> (Qc_of_Z K < rnd x)%Qc.
Proof.
  intros Hx HK. apply Qc_of_Z_lt_iff in HK. unfold rnd.
  destruct (Qnum x) as [|p|p] eqn:E; [lia| |lia].
  apply round_pos_gt; lia.
Qed.

Lemma rnd_lt (x : Qc) K : 0 < Qnum x < 2 ^ 53 -> (x < Qc_of_Z K)%Qc -> (rnd x < Qc_of_Z K)%Qc.
Proof.
  intros Hx HK. apply lt_Qc_of_Z_iff in HK. unfold rnd.
  destruct (Qnum x) as [|p|p] eqn:E; [lia| |lia].
  apply round_pos_lt; lia.
Qed.

(** Rounding does not cross 2^53 from above. *)
Lemma rnd_big (x : Qc) : (Qc_of_Z (2 ^ 53) <= x)%Qc -> (Qc_of_Z (2 ^ 53) <= rnd x)%Qc.
Proof.
  intros Hx. apply Qcnot_lt_le. intros Hlt.
  assert (2 ^ 53 * Zpos (Qden x) <= Qnum x) as Hb.
  { unfold Qcle, Qle in Hx. simpl in Hx. lia. }
  revert Hlt. unfold rnd.
  destruct (Qnum x) as [|p|p] eqn:E; [lia| |lia].
  unfold round_pos. cbv zeta. rewrite dyadic_lt_Qc_of_Z.
  pose proof (exponent_spec (Zpos p) (Zpos (Qden x))) as [H1 H2]; [lia..|].
  set (e := exponent _ _) in *.
  assert (0 < scale_den (Zpos (Qden x)) e) as HD.
  { unfold scale_den. pose proof (pow2_pos e). nia. }
  pose proof (round_half_even_le _ _ _ HD H1) as Hm.
  unfold scale_num, scale_den in H2. pose proof (pow2_pos e). pose proof (pow2_pos (- e)).
  destruct (decide (e <= 0)) as [He|He].
  - exfalso. rewrite (Z.max_l 0 e) in * by lia. change (2 ^ 0) with 1 in *. nia.
  - rewrite (Z.max_l 0 (- e)) by lia. change (2 ^ 0) with 1.
    assert (2 ^ 1 <= 2 ^ Z.max 0 e) by (apply Z.pow_le_mono_r; lia).
    change (2 ^ 1) with 2 in *. nia.
Qed.

(** ** Exactness of the operations on integers *)

Create Rewrite HintDb f64.

Lemma f64_Z z : Z.abs z <= 2 ^ 53 -> f64 z = Qc_of_Z z.
Proof. apply rnd_Z. Qed.

Lemma fadd_Z a b : Z.abs (a + b) <= 2 ^ 53 -> fadd (Qc_of_Z a) (Qc_of_Z b) = Qc_of_Z (a + b).
Proof. intros H. unfold fadd. rewrite <- Z2Qc_inj_add. by apply rnd_Z. Qed.

Lemma fsub_Z a b : Z.abs (a - b) <= 2 ^ 53 -> fsub (Qc_of_Z a) (Qc_of_Z b) = Qc_of_Z (a - b).
Proof. intros H. unfold fsub. rewrite <- Z2Qc_inj_sub. by apply rnd_Z. Qed.

Lemma fmul_Z a b : Z.abs (a * b) <= 2 ^ 53 -> fmul (Qc_of_Z a) (Qc_of_Z b) = Qc_of_Z (a * b).
Proof. intros H. unfold fmul. rewrite <- Z2Qc_inj_mul. by apply rnd_Z. Qed.

Lemma fleb_Z a b : fleb (Qc_of_Z a) (Qc_of_Z b) = (a <=? b).
Proof. unfold fleb, Qle_bool. simpl. by rewrite !Z.mul_1_r. Qed.

Lemma fleb_le x y : fleb x y = true <-> (x <= y)%Qc.
Proof. unfold fleb, Qcle. apply Qle_bool_iff. Qed.

Lemma fmin_Z a b : fmin (Qc_of_Z a) (Qc_of_Z b) = Qc_of_Z (Z.min a b).
Proof.
  unfold fmin. rewrite fleb_Z. destruct (Z.leb_spec a b); f_equal; lia.
Qed.

Lemma fmax_Z a b : fmax (Qc_of_Z a) (Qc_of_Z b) = Qc_of_Z (Z.max a b).
Proof.
  unfold fmax. rewrite fleb_Z. destruct (Z.leb_spec a b); f_equal; lia.
Qed.

Lemma ffloor_Z z : ffloor (Qc_of_Z z) = z.
Proof. unfold ffloor. simpl. apply Z.div_1_r. Qed.

Lemma fceil_Z z : fceil (Qc_of_Z z) = z.
Proof. unfold fceil, cdiv. simpl. rewrite Z.div_1_r. lia. Qed.

Lemma ftrunc_Z z : ftrunc (Qc_of_Z z) = z.
Proof. unfold ftrunc. simpl. apply Z.quot_1_r. Qed.

#[export] Hint Rewrite fleb_Z fmin_Z fmax_Z ffloor_Z fceil_Z ftrunc_Z : f64.

(** The floor is the integer [k] with [k <= x < k + 1], and the ceiling the
    one with [k - 1 < x <= k]. *)
Lemma ffloor_unique (x : Qc) k :
  ~ (x < Qc_of_Z k)%Qc -> (x < Qc_of_Z (k + 1))%Qc -> ffloor x = k.
Proof.
  rewrite !lt_Qc_of_Z_iff. unfold ffloor. intros H1 H2.
  apply Z.le_antisymm.
  - apply Z.lt_succ_r, Z.div_lt_upper_bound; lia.
  - apply Z.div_le_lower_bound; lia.
Qed.

Lemma fceil_unique (x : Qc) k :
  (Qc_of_Z (k - 1) < x)%Qc -> ~ (Qc_of_Z k < x)%Qc -> fceil x = k.
Proof.
  rewrite !Qc_of_Z_lt_iff. unfold fceil. intros H1 H2.
  apply Z.le_antisymm; [apply cdiv_spec; lia|].
  assert (~ cdiv (Qnum x) (Zpos (Qden x)) <= k - 1); [|lia].
  rewrite cdiv_spec by lia. lia.
Qed.

(** A rational is an integer or lies strictly between two consecutive ones. *)
Lemma rnd_not_lt (x : Qc) k :
  0 < Qnum x < 2 ^ 53 -> ~ (x < Qc_of_Z k)%Qc -> ~ (rnd x < Qc_of_Z k)%Qc.
Proof.
  intros Hx H. apply Qcle_not_lt. apply Qcnot_lt_le, Qcle_lt_or_eq in H as [H| <-].
  - apply Qclt_le_weak. by apply rnd_gt.
  - simpl in Hx. rewrite rnd_Z by lia. apply Qcle_refl.
Qed.

Lemma rnd_not_gt (x : Qc) k :
  0 < Qnum x < 2 ^ 53 -> ~ (Qc_of_Z k < x)%Qc -> ~ (Qc_of_Z k < rnd x)%Qc.
Proof.
  intros Hx H. apply Qcle_not_lt. apply Qcnot_lt_le, Qcle_lt_or_eq in H as [H| ->].
  - apply Qclt_le_weak. by apply rnd_lt.
  - simpl in Hx. rewrite rnd_Z by lia. apply Qcle_refl.
Qed.

Lemma ffloor_rnd (x : Qc) : 0 <= Qnum x < 2 ^ 53 -> ffloor (rnd x) = ffloor x.
Proof.
  intros Hx. destruct (decide (Qnum x = 0)) as [E|].
  { unfold rnd, ffloor. rewrite E. simpl. by rewrite Z.div_1_r. }
  apply ffloor_unique.
  - apply rnd_not_lt; [lia|]. rewrite lt_Qc_of_Z_iff. unfold ffloor.
    pose proof (Z.mul_div_le (Qnum x) (Zpos (Qden x))). lia.
  - apply rnd_lt; [lia|]. rewrite lt_Qc_of_Z_iff. unfold ffloor.
    pose proof (Z.mul_succ_div_gt (Qnum x) (Zpos (Qden x))). lia.
Qed.

Lemma fceil_rnd (x : Qc) : 0 <= Qnum x < 2 ^ 53 -> fceil (rnd x) = fceil x.
Proof.
  intros Hx. destruct (decide (Qnum x = 0)) as [E|].
  { unfold rnd, fceil, cdiv. rewrite E. simpl. by rewrite Z.div_1_r. }
  pose proof (cdiv_spec (Qnum x) (Zpos (Qden x)) (fceil x) eq_refl) as [H1 _].
  pose proof (cdiv_spec (Qnum x) (Zpos (Qden x)) (fceil x - 1) eq_refl) as [_ H2].
  specialize (H1 ltac:(unfold fceil; lia)).
  apply fceil_unique.
  - apply rnd_gt; [lia|]. rewrite Qc_of_Z_lt_iff.
    apply Z.nle_gt. intros H. specialize (H2 H). unfold fceil in H2. lia.
  - apply rnd_not_gt; [lia|]. rewrite Qc_of_Z_lt_iff. lia.
Qed.

(** A quotient of integers in lowest terms. *)
Lemma Qc_quot_terms a b :
  0 <= a -> 0 < b ->
  let x := (Qc_of_Z a / Qc_of_Z b)%Qc in
  Qnum x * b = a * Zpos (Qden x) /\ 0 <= Qnum x <= a.
Proof.
  intros Ha Hb. cbv zeta. set (x := (Qc_of_Z a / Qc_of_Z b)%Qc).
  assert (Qnum x * b = a * Zpos (Qden x)) as E.
  { assert (x * Qc_of_Z b = Qc_of_Z a)%Qc as Hx.
    { unfold x. rewrite Qcmult_comm. apply Qcmult_div_r.
      intros H. apply (f_equal (fun q : Qc => Qnum q)) in H. simpl in H. lia. }
    clearbody x. apply (f_equal this) in Hx. simpl in Hx.
    assert (x * inject_Z b == inject_Z a)%Q as Hq by (rewrite <- Hx; symmetry; apply Qred_correct).
    unfold Qeq in Hq. simpl in Hq. rewrite Pos.mul_1_r in Hq. lia. }
  assert (0 <= Qnum x) as Hn by nia. split; [done|split; [done|]].
  assert (Z.gcd (Qnum x) (Zpos (Qden x)) = 1) as Hg by (apply Qred_iff, canon).
  assert (Zpos (Qden x) | b) as [q Hq].
  { apply (Z.gauss _ (Qnum x)); [exists a; lia|]. by rewrite Z.gcd_comm. }
  assert (0 < q) by nia. nia.
Qed.

(** [math.floor(a / b)] and [math.ceil(a / b)] are the integer floor and
    ceiling although the quotient is rounded. *)
Lemma fdiv_floor_Z a b q :
  0 <= a < 2 ^ 53 -> 0 < b -> fdiv (Qc_of_Z a) (Qc_of_Z b) = Some q -> ffloor q = a / b.
Proof.
  intros Ha Hb. unfold fdiv. case_decide; [done|]. intros [= <-].
  destruct (Qc_quot_terms a b) as [E Hn]; [lia..|].
  rewrite ffloor_rnd by lia. unfold ffloor. set (x := (Qc_of_Z a / Qc_of_Z b)%Qc) in *.
  rewrite <- (Z.div_mul_cancel_r (Qnum x) (Zpos (Qden x)) b), E by lia.
  rewrite (Z.mul_comm (Zpos (Qden x)) b). apply Z.div_mul_cancel_r; [lia|done].
Qed.

Lemma fdiv_ceil_Z a b q :
  0 <= a < 2 ^ 53 -> 0 < b -> fdiv (Qc_of_Z a) (Qc_of_Z b) = Some q -> fceil q = cdiv a b.
Proof.
  intros Ha Hb. unfold fdiv. case_decide; [done|]. intros [= <-].
  destruct (Qc_quot_terms a b) as [E Hn]; [lia..|].
  rewrite fceil_rnd by lia. unfold fceil, cdiv. f_equal.
  set (x := (Qc_of_Z a / Qc_of_Z b)%Qc) in *.
  rewrite <- (Z.div_mul_cancel_r (- Qnum x) (Zpos (Qden x)) b), Z.mul_opp_l, E by lia.
  rewrite (Z.mul_comm (Zpos (Qden x)) b), <- Z.mul_opp_l. apply Z.div_mul_cancel_r; [lia|done].
Qed.

Lemma fdiv_Z_Some a b : b <> 0 -> is_Some (fdiv (Qc_of_Z a) (Qc_of_Z b)).
Proof.
  intros Hb. unfold fdiv. case_decide as E; [|by eexists].
  apply (f_equal (fun q : Qc => Qnum q)) in E. simpl in E. lia.
Qed.

(** Sums and products of nonnegative integers that reach 2^53 stay there. *)
Lemma f64_big z : 2 ^ 53 <= z -> (Qc_of_Z (2 ^ 53) <= rnd (Qc_of_Z z))%Qc.
Proof. intros H. apply rnd_big. unfold Qcle, Qle, Qc_of_Z, inject_Z. cbn [this Qnum Qden]. lia. Qed.

(** ** Rounding near integers *)

Lemma Qnum_pos (x : Qc) : (Qc_of_Z 0 < x)%Qc -> 0 < Qnum x.
Proof. rewrite Qc_of_Z_lt_iff. lia. Qed.

(** Rounding does not cross a 53-bit integer from below. *)
Lemma rnd_le_Z (x : Qc) K :
  (Qc_of_Z 0 < x)%Qc -> K < 2 ^ 53 -> ~ (Qc_of_Z K < x)%Qc -> ~ (Qc_of_Z K < rnd x)%Qc.
Proof.
  intros Hx%Qnum_pos HK Hle. rewrite Qc_of_Z_lt_iff in Hle. unfold rnd.
  destruct (Qnum x) as [|p|p] eqn:E; [lia| |lia].
  unfold round_pos. cbv zeta. rewrite Qc_of_Z_lt_dyadic.
  pose proof (exponent_spec (Zpos p) (Zpos (Qden x))) as [H1 H2]; [lia..|].
  set (e := exponent _ _) in *. unfold scale_num, scale_den in *.
  pose proof (pow2_pos e). pose proof (pow2_pos (- e)).
  destruct (decide (e <= 0)) as [He|He].
  - rewrite (Z.max_l 0 e) in * by lia. change (2 ^ 0) with 1 in *. rewrite Z.mul_1_r in *.
    pose proof (round_half_even_ge (Zpos p * 2 ^ Z.max 0 (- e)) (Zpos (Qden x)) (K * 2 ^ Z.max 0 (- e))) as Hr.
    rewrite Z.mul_1_r. assert (Zpos p * 2 ^ Z.max 0 (- e) <= K * 2 ^ Z.max 0 (- e) * Zpos (Qden x)) by nia. lia.
  - exfalso. rewrite (Z.max_l 0 (- e)) in * by lia. change (2 ^ 0) with 1 in *.
    assert (2 ^ 1 <= 2 ^ Z.max 0 e) by (apply Z.pow_le_mono_r; lia). change (2 ^ 1) with 2 in *. nia.
Qed.

(** Below 2^45 rounding moves a number by less than 1/128. *)
Lemma rnd_gt_margin (x : Qc) K :
  0 <= K -> (x < Qc_of_Z (2 ^ 45))%Qc -> (128 * K + 1) * Zpos (Qden x) <= 128 * Qnum x ->
  (Qc_of_Z K < rnd x)%Qc.
Proof.
  intros H0 Hx HK. rewrite lt_Qc_of_Z_iff in Hx. unfold rnd.
  destruct (Qnum x) as [|p|p] eqn:E; [lia| |lia].
  unfold round_pos. cbv zeta. rewrite Qc_of_Z_lt_dyadic.
  pose proof (exponent_spec (Zpos p) (Zpos (Qden x))) as [H1 H2]; [lia..|].
  set (e := exponent _ _) in *. unfold scale_num, scale_den in *.
  pose proof (pow2_pos e). pose proof (pow2_pos (- e)).
  destruct (decide (e <= 0)) as [He|He].
  2:{ exfalso. rewrite (Z.max_l 0 (- e)) in * by lia. change (2 ^ 0) with 1 in *. nia. }
  rewrite (Z.max_l 0 e) in * by lia. change (2 ^ 0) with 1 in *. rewrite Z.mul_1_r in *.
  assert (128 <= 2 ^ Z.max 0 (- e)) as H128 by nia.
  rewrite Z.mul_1_r. apply round_half_even_gt; [lia|]. nia.
Qed.

(** Rounding does not cross a 53-bit integer from above. *)
Lemma rnd_ge_Z (x : Qc) K : 0 < K < 2 ^ 53 -> ~ (x < Qc_of_Z K)%Qc -> ~ (rnd x < Qc_of_Z K)%Qc.
Proof.
  intros HK Hge. rewrite lt_Qc_of_Z_iff in Hge. unfold rnd.
  destruct (Qnum x) as [|p|p] eqn:E; [lia| |lia].
  unfold round_pos. cbv zeta. rewrite dyadic_lt_Qc_of_Z.
  pose proof (exponent_spec (Zpos p) (Zpos (Qden x))) as [H1 H2]; [lia..|].
  set (e := exponent _ _) in *. unfold scale_num, scale_den in *.
  pose proof (pow2_pos e). pose proof (pow2_pos (- e)).
  destruct (decide (e <= 0)) as [He|He].
  - rewrite (Z.max_l 0 e) in * by lia. change (2 ^ 0) with 1 in *. rewrite Z.mul_1_r in *.
    pose proof (round_half_even_le (Zpos p * 2 ^ Z.max 0 (- e)) (Zpos (Qden x)) (K * 2 ^ Z.max 0 (- e))) as Hr.
    rewrite Z.mul_1_r. assert (K * 2 ^ Z.max 0 (- e) * Zpos (Qden x) <= Zpos p * 2 ^ Z.max 0 (- e)) by nia. lia.
  - rewrite (Z.max_l 0 (- e)) in * by lia. change (2 ^ 0) with 1 in *.
    assert (2 ^ 1 <= 2 ^ Z.max 0 e) by (apply Z.pow_le_mono_r; lia). change (2 ^ 1) with 2 in *.
    pose proof (round_half_even_le (Zpos p * 1) (Zpos (Qden x) * 2 ^ Z.max 0 e) (2 ^ 52)) as Hr. nia.
Qed.

(** The relative error of rounding is at most 2^-53. *)
Lemma round_pos_rel n d :
  0 < n -> 0 < d ->
  (9007199254740991 * (n # Z.to_pos d) <= 9007199254740992 * this (round_pos n d)
   /\ 9007199254740992 * this (round_pos n d) <= 9007199254740993 * (n # Z.to_pos d))%Q.
Proof.
  intros Hn Hd. unfold round_pos. cbv zeta.
  pose proof (exponent_spec n d Hn Hd) as [H1 H2]. set (e := exponent n d) in *.
  unfold scale_num, scale_den in *. pose proof (pow2_pos e) as HA. pose proof (pow2_pos (- e)) as HB.
  set (A := 2 ^ Z.max 0 e) in *. set (B := 2 ^ Z.max 0 (- e)) in *.
  set (m := round_half_even (n * B) (d * A)).
  assert (0 < d * A) as HdA by nia.
  assert (2 * (m * (d * A)) <= 2 * (n * B) + d * A /\ 2 * (n * B) <= 2 * (m * (d * A)) + d * A) as [Hm1 Hm2].
  { subst m. unfold round_half_even. pose proof (Z.div_mod (n * B) (d * A) ltac:(lia)).
    pose proof (Z.mod_pos_bound (n * B) (d * A) HdA). cbv zeta.
    destruct (Z.ltb_spec (2 * ((n * B) mod (d * A))) (d * A)), (Z.ltb_spec (d * A) (2 * ((n * B) mod (d * A))));
      [split; nia..|]. destruct (Z.even _); split; nia. }
  assert (this (dyadic m e) == (m * A # Z.to_pos B))%Q as -> by (unfold dyadic; fold A B; apply Qred_correct).
  unfold Qle. cbn [Qmult Qnum Qden]. rewrite !Pos.mul_1_l, !Z2Pos.id by done. nia.
Qed.

Lemma rnd_rel (x : Qc) :
  (0 < x)%Q ->
  (9007199254740991 * x <= 9007199254740992 * rnd x /\ 9007199254740992 * rnd x <= 9007199254740993 * x)%Q.
Proof.
  intros Hx. unfold rnd. destruct x as [[n d] Hc]. cbn [this Qnum Qden] in *.
  destruct n as [|p|p]; [by unfold Qlt in Hx; cbn in Hx| |by unfold Qlt in Hx; cbn in Hx].
  exact (round_pos_rel (Zpos p) (Zpos d) eq_refl eq_refl).
Qed.

Lemma rnd_zero : rnd (Qc_of_Z 0) = Qc_of_Z 0.
Proof. done. Qed.

(** ** Error bounds in rational arithmetic *)

Lemma this_plus (x y : Qc) : (this (x + y)%Qc == x + y)%Q.
Proof. apply Qred_correct. Qed.

Lemma this_mult (x y : Qc) : (this (x * y)%Qc == x * y)%Q.
Proof. apply Qred_correct. Qed.

Lemma this_div (x y : Qc) : (this (x / y)%Qc == x / y)%Q.
Proof. unfold Qcdiv, Qdiv. rewrite this_mult. cbn [this Qcinv Q2Qc]. by rewrite Qred_correct. Qed.

(** [y] is [x] up to the error of one rounding. *)
Definition near (x y : Q) : Prop :=
  (9007199254740991 * x <= 9007199254740992 * y /\ 9007199254740992 * y <= 9007199254740993 * x)%Q.

#[export] Instance near_proper : Proper (Qeq ==> Qeq ==> iff) near.
Proof. intros x x' Hx y y' Hy. unfold near. by rewrite Hx, Hy. Qed.

Lemma rnd_near (x : Qc) : (0 <= x)%Q -> near x (rnd x).
Proof.
  intros [Hx|Hx]%Qle_lt_or_eq; [by apply rnd_rel|].
  assert (x = Qc_of_Z 0) as -> by (apply Qc_is_canon; by rewrite <- Hx). rewrite rnd_zero. by split.
Qed.

Lemma fadd_near (x y : Qc) : (0 <= x -> 0 <= y -> near (x + y) (fadd x y))%Q.
Proof.
  intros Hx Hy. rewrite <- this_plus. apply rnd_near. rewrite this_plus.
  change 0%Q with (0 + 0)%Q. by apply Qplus_le_compat.
Qed.

Lemma fmul_near (x y : Qc) : (0 <= x -> 0 <= y -> near (x * y) (fmul x y))%Q.
Proof. intros Hx Hy. rewrite <- this_mult. apply rnd_near. rewrite this_mult. by apply Qmult_le_0_compat. Qed.

(** Truncation of a number that is not negative. *)
Lemma ftrunc_bounds (y : Qc) a b : 0 <= a -> (inject_Z a <= y)%Q -> (y < inject_Z (b + 1))%Q -> a <= ftrunc y <= b.
Proof.
  intros Ha H1 H2. unfold Qle, Qlt in H1, H2. cbn [inject_Z Qnum Qden] in H1, H2. unfold ftrunc.
  rewrite Z.quot_div_nonneg by lia. split; [apply Z.div_le_lower_bound; lia|].
  apply Z.lt_succ_r. apply Z.div_lt_upper_bound; lia.
Qed.
