(* ===== verification/Sha256.v ===== *)
(** * SHA-256 and HMAC-SHA-256

    [crypto/sha256] names the Redis buckets ([ratelimit/redis.go]) and
    [crypto/hmac] the stored API-key digests ([auth/auth.go]).  Both are
    defined here as FIPS 180-4 and RFC 2104 define them, on lists of bytes, and
    run on the standards' test vectors at the end of the file. *)

From Stdlib Require Import ZArith Lia.
From stdpp Require Import base tactics numbers list strings.
From S2P Require Import Prelude GoLib.

(** ** 32-bit words *)

Definition word (z : Z) : Z := z mod 2 ^ 32.
Definition rotr (n x : Z) : Z := word (Z.lor (Z.shiftr x n) (Z.shiftl x (32 - n))).
Definition Ch (x y z : Z) : Z := Z.lxor (Z.land x y) (Z.land (Z.lxor x (2 ^ 32 - 1)) z).
Definition Maj (x y z : Z) : Z := Z.lxor (Z.lxor (Z.land x y) (Z.land x z)) (Z.land y z).
Definition Sigma0 (x : Z) : Z := Z.lxor (Z.lxor (rotr 2 x) (rotr 13 x)) (rotr 22 x).
Definition Sigma1 (x : Z) : Z := Z.lxor (Z.lxor (rotr 6 x) (rotr 11 x)) (rotr 25 x).
Definition sigma0 (x : Z) : Z := Z.lxor (Z.lxor (rotr 7 x) (rotr 18 x)) (Z.shiftr x 3).
Definition sigma1 (x : Z) : Z := Z.lxor (Z.lxor (rotr 17 x) (rotr 19 x)) (Z.shiftr x 10).

(** The first 32 bits of the fractional parts of the cube roots of the first
    64 primes, and of the square roots of the first 8. *)
Definition round_constants : list Z :=
  [1116352408; 1899447441; 3049323471; 3921009573; 961987163; 1508970993; 2453635748;
   2870763221; 3624381080; 310598401; 607225278; 1426881987; 1925078388; 2162078206;
   2614888103; 3248222580; 3835390401; 4022224774; 264347078; 604807628; 770255983;
   1249150122; 1555081692; 1996064986; 2554220882; 2821834349; 2952996808; 3210313671;
   3336571891; 3584528711; 113926993; 338241895; 666307205; 773529912; 1294757372;
   1396182291; 1695183700; 1986661051; 2177026350; 2456956037; 2730485921; 2820302411;
   3259730800; 3345764771; 3516065817; 3600352804; 4094571909; 275423344; 430227734;
   506948616; 659060556; 883997877; 958139571; 1322822218; 1537002063; 1747873779;
   1955562222; 2024104815; 2227730452; 2361852424; 2428436474; 2756734187; 3204031479;
   3329325298].
Definition initial_hash : list Z :=
  [1779033703; 3144134277; 1013904242; 2773480762; 1359893119; 2600822924; 528734635;
   1541459225].

(** ** Padding and parsing *)

Fixpoint be_bytes (n : nat) (z : Z) : list Z :=
  match n with O => [] | S k => be_bytes k (z / 256) ++ [z mod 256] end.

Definition be_word (l : list Z) : Z := fold_left (fun a b => a * 256 + b) l 0.

(** A one bit, zeros up to 56 modulo 64 bytes, and the length in bits. *)
Definition pad (msg : list Z) : list Z :=
  let len := Z.of_nat (length msg) in
  msg ++ [128] ++ replicate (Z.to_nat ((55 - len) mod 64)) 0 ++ be_bytes 8 (8 * len).

Fixpoint chunks {A} (fuel : nat) (n : nat) (l : list A) : list (list A) :=
  match fuel, l with
  | S f, _ :: _ => take n l :: chunks f n (drop n l)
  | _, _ => []
  end.

(** ** Compression *)

(** The message schedule, kept newest word first. *)
Fixpoint schedule (n : nat) (ws : list Z) : list Z :=
  match n with
  | O => ws
  | S k =>
      let w := word (sigma1 (nth 1 ws 0) + nth 6 ws 0 + sigma0 (nth 14 ws 0) + nth 15 ws 0) in
      schedule k (w :: ws)
  end.

Definition round (st : list Z) (kw : Z * Z) : list Z :=
  match st with
  | [a; b; c; d; e; f; g; h] =>
      let t1 := h + Sigma1 e + Ch e f g + kw.1 + kw.2 in
      let t2 := Sigma0 a + Maj a b c in
      [word (t1 + t2); a; b; c; word (d + t1); e; f; g]
  | _ => st
  end.

Definition compress (hash block : list Z) : list Z :=
  let ws := rev (schedule 48 (rev (be_word <$> chunks 16 4 block))) in
  zip_with (fun x y => word (x + y)) hash (fold_left round (zip round_constants ws) hash).

(** [sha256.Sum256]. *)
Definition sha256 (msg : list Z) : list Z :=
  let p := pad msg in
  let hash := fold_left compress (chunks (length p) 64 p) initial_hash in
  concat (be_bytes 4 <$> hash).

(** ** HMAC with a 64-byte block *)

Definition hmac_key (key : list Z) : list Z :=
  let k := if (64 <? Z.of_nat (length key)) then sha256 key else key in
  k ++ replicate (64 - length k) 0.

(** [hmac.New(sha256.New, key)], one [Write], [Sum(nil)]. *)
Definition hmac_sha256 (key msg : list Z) : list Z :=
  let k := hmac_key key in
  sha256 ((Z.lxor 92 <$> k) ++ sha256 ((Z.lxor 54 <$> k) ++ msg)).

(** ** Lengths *)

Lemma be_bytes_length n z : length (be_bytes n z) = n.
Proof.
  revert z. induction n as [|n IH]; intros z; simpl; [done|].
  rewrite length_app, IH. simpl. lia.
Qed.

Lemma be_bytes_range n z : Forall is_byte (be_bytes n z).
Proof.
  revert z. induction n as [|n IH]; intros z; simpl; [done|].
  apply Forall_app. split; [apply IH|]. repeat constructor; unfold is_byte;
    pose proof (Z.mod_pos_bound z 256); lia.
Qed.

Lemma round_length st kw : length (round st kw) = length st.
Proof. unfold round. by repeat case_match. Qed.

Lemma compress_length hash block : length (compress hash block) = length hash.
Proof.
  unfold compress. rewrite length_zip_with.
  enough (forall kws st, length (fold_left round kws st) = length st) as -> by lia.
  induction kws as [|kw kws IH]; intros st; simpl; [done|]. by rewrite IH, round_length.
Qed.

Lemma length_concat_fmap {A B} (f : A -> list B) n l :
  (forall a, length (f a) = n) -> length (concat (f <$> l)) = (n * length l)%nat.
Proof.
  intros Hf. induction l as [|x l IH]; [simpl; lia|].
  rewrite fmap_cons. cbn [concat]. rewrite length_app, Hf, IH. simpl. lia.
Qed.

(** A digest is 32 bytes long. *)
Lemma sha256_length msg : length (sha256 msg) = 32%nat.
Proof.
  unfold sha256.
  assert (forall bs h, length h = 8%nat -> length (fold_left compress bs h) = 8%nat) as H8.
  { induction bs as [|b bs IH]; intros h Hh; simpl; [done|]. apply IH. by rewrite compress_length. }
  specialize (H8 (chunks (length (pad msg)) 64 (pad msg)) initial_hash eq_refl).
  revert H8. generalize (fold_left compress (chunks (length (pad msg)) 64 (pad msg)) initial_hash).
  intros l Hl. rewrite (length_concat_fmap _ 4), Hl; [done|]. apply be_bytes_length.
Qed.

Lemma sha256_range msg : Forall is_byte (sha256 msg).
Proof.
  unfold sha256. apply Forall_concat, Forall_fmap, Forall_true. intros z. apply be_bytes_range.
Qed.

Lemma hmac_sha256_length key msg : length (hmac_sha256 key msg) = 32%nat.
Proof. apply sha256_length. Qed.

(** ** Test vectors *)

Example sha256_empty :
  hex_encode (sha256 []) = "e3b0c44298fc1c149afbf4c8996fb92427ae41e4649b934ca495991b7852b855".
Proof. vm_compute. reflexivity. Qed.

Example sha256_abc :
  hex_encode (sha256 (bytes_of "abc"))
  = "ba7816bf8f01cfea414140de5dae2223b00361a396177a9cb410ff61f20015ad".
Proof. vm_compute. reflexivity. Qed.

(** A message of two blocks. *)
Example sha256_two_blocks :
  hex_encode (sha256 (bytes_of "abcdbcdecdefdefgefghfghighijhijkijkljklmklmnlmnomnopnopq"))
  = "248d6a61d20638b8e5c026930c3e6039a33ce45964ff2167f6ecedd419db06c1".
Proof. vm_compute. reflexivity. Qed.

(** RFC 4231, test case 2. *)
Example hmac_rfc4231_2 :
  hex_encode (hmac_sha256 (bytes_of "Jefe") (bytes_of "what do ya want for nothing?"))
  = "5bdcc146bf60754e6a042426089575c75a003f089d2739839dec58b964ec3843".
Proof. vm_compute. reflexivity. Qed.
