(* ===== verification/Redis.v ===== *)
(** * Redis as the rate limiter sees it

    Redis is a service outside the repository, so it is a parameter of the
    model: the class [Redis] has the commands the token-bucket script calls,
    and [RedisLaws] states what their documentation promises.  [mini] is a
    small in-memory server that satisfies the laws; the examples run on it. *)

From Stdlib Require Import ZArith Lia QArith Qcanon.
From stdpp Require Import base tactics numbers list gmap strings.
From S2P Require Import Prelude.

Local Open Scope Z_scope.

(** ** The interface *)

(** The commands of the script.  A hash field holds a number: Redis writes a
    Lua number with 17 significant digits, which [tonumber] reads back
    exactly; [redis_HGET] is [None] when the key or field is missing or not a
    number.  [redis_tick d] lets [d] microseconds pass, and [redis_expiry] is
    the deadline [PEXPIRETIME] reports, in milliseconds. *)
Class Redis (R : Type) := {
  redis_TIME : R -> Z * Z;
  redis_HGET : R -> string -> string -> option Qc;
  redis_HSET : string -> list (string * Qc) -> R -> R;
  redis_PEXPIRE : string -> Z -> R -> R;
  redis_tick : Z -> R -> R;
  redis_expiry : R -> string -> option Z;
}.

(** The server clock in milliseconds. *)
Definition clock_ms `{Redis R} (r : R) : Z :=
  let '(s, us) := redis_TIME r in s * 1000 + us / 1000.

Fixpoint field_of (f : string) (fvs : list (string * Qc)) : option Qc :=
  match fvs with
  | [] => None
  | (g, v) :: fvs' => if decide (f = g) then Some v else field_of f fvs'
  end.

(** What the script relies on.  A command changes only its own key; time does
    not pass during a script; [PEXPIRE] sets the deadline of an existing key;
    and while time passes a key is kept, or is removed once its deadline is
    reached. *)
Class RedisLaws (R : Type) `{Redis R} := {
  time_range r : 0 <= (redis_TIME r).1 /\ 0 <= (redis_TIME r).2 < 1000000;
  time_hset k fvs r : redis_TIME (redis_HSET k fvs r) = redis_TIME r;
  time_pexpire k ttl r : redis_TIME (redis_PEXPIRE k ttl r) = redis_TIME r;
  hget_hset_eq k fvs f r :
    NoDup fvs.*1 ->
    redis_HGET (redis_HSET k fvs r) k f
    = match field_of f fvs with Some v => Some v | None => redis_HGET r k f end;
  hget_hset_ne k k' fvs f r :
    k <> k' -> redis_HGET (redis_HSET k fvs r) k' f = redis_HGET r k' f;
  hget_pexpire k ttl k' f r :
    0 < ttl \/ k <> k' -> redis_HGET (redis_PEXPIRE k ttl r) k' f = redis_HGET r k' f;
  expiry_hset_ne k k' fvs r :
    k <> k' -> redis_expiry (redis_HSET k fvs r) k' = redis_expiry r k';
  expiry_pexpire_eq k ttl r f v :
    0 < ttl -> redis_HGET r k f = Some v ->
    redis_expiry (redis_PEXPIRE k ttl r) k = Some (clock_ms r + ttl);
  expiry_pexpire_ne k k' ttl r :
    k <> k' -> redis_expiry (redis_PEXPIRE k ttl r) k' = redis_expiry r k';
  clock_tick d r : 0 <= d -> clock_ms r <= clock_ms (redis_tick d r);
  hget_tick d r k :
    0 <= d ->
    ((forall f, redis_HGET (redis_tick d r) k f = redis_HGET r k f)
     /\ redis_expiry (redis_tick d r) k = redis_expiry r k)
    \/ (exists e, redis_expiry r k = Some e /\ e <= clock_ms (redis_tick d r)
        /\ forall f, redis_HGET (redis_tick d r) k f = None);
}.

(** ** A server that satisfies the laws *)

(** A clock in microseconds, and the hashes with their deadlines. *)
Record mini := {
  mini_us : N;
  mini_db : gmap string (gmap string Qc * option Z);
}.

Definition mini_time (r : mini) : Z * Z :=
  (Z.of_N (mini_us r) / 1000000, Z.of_N (mini_us r) mod 1000000).

Definition mini_ms (us : N) : Z := Z.of_N us / 1000000 * 1000 + Z.of_N us mod 1000000 / 1000.

Definition mini_hget (r : mini) (k f : string) : option Qc :=
  '(h, _) ← mini_db r !! k; h !! f.

Definition mini_hset (k : string) (fvs : list (string * Qc)) (r : mini) : mini :=
  let '(h, e) := default (∅, None) (mini_db r !! k) in
  {| mini_us := mini_us r;
     mini_db := <[k := (foldr (fun fv h => <[fv.1 := fv.2]> h) h fvs, e)]> (mini_db r) |}.

Definition mini_pexpire (k : string) (ttl : Z) (r : mini) : mini :=
  match mini_db r !! k with
  | None => r
  | Some (h, _) =>
      {| mini_us := mini_us r;
         mini_db := if 0 <? ttl then <[k := (h, Some (mini_ms (mini_us r) + ttl))]> (mini_db r)
                    else delete k (mini_db r) |}
  end.

Definition mini_alive (now : Z) (he : gmap string Qc * option Z) : bool :=
  match he.2 with Some e => now <=? e | None => true end.

Definition mini_tick (d : Z) (r : mini) : mini :=
  let us := (mini_us r + Z.to_N d)%N in
  {| mini_us := us; mini_db := filter (fun khe => mini_alive (mini_ms us) khe.2) (mini_db r) |}.

#[export] Instance mini_Redis : Redis mini := {
  redis_TIME := mini_time;
  redis_HGET := mini_hget;
  redis_HSET := mini_hset;
  redis_PEXPIRE := mini_pexpire;
  redis_tick := mini_tick;
  redis_expiry r k := mini_db r !! k ≫= snd;
}.

(** The server with an empty database, [us] microseconds after the epoch. *)
Definition mini_empty (us : N) : mini := {| mini_us := us; mini_db := ∅ |}.

Lemma mini_fields_lookup fvs (h : gmap string Qc) f :
  NoDup fvs.*1 ->
  foldr (fun fv h => <[fv.1 := fv.2]> h) h fvs !! f
  = match field_of f fvs with Some v => Some v | None => h !! f end.
Proof.
  induction fvs as [|[g v] fvs IH]; simpl; [done|]. intros Hnd. inversion Hnd; subst.
  case_decide as E.
  - subst. by rewrite lookup_insert_eq.
  - rewrite lookup_insert_ne by done. auto.
Qed.

Lemma mini_ms_mono a b : (a <= b)%N -> mini_ms a <= mini_ms b.
Proof.
  intros Hab. unfold mini_ms.
  assert (forall z, z / 1000000 * 1000 + z mod 1000000 / 1000 = z / 1000) as E.
  { intros z. rewrite (Z.div_mod z 1000000) at 3 by lia.
    replace (1000000 * (z / 1000000) + z mod 1000000)
      with (z mod 1000000 + (z / 1000000 * 1000) * 1000) by lia.
    rewrite Z.div_add by lia. lia. }
  rewrite !E. apply Z.div_le_mono; lia.
Qed.

Lemma mini_hset_lookup k k' fvs r :
  mini_db (mini_hset k fvs r) !! k'
  = if decide (k = k')
    then let '(h, e) := default (∅, None) (mini_db r !! k) in
         Some (foldr (fun fv h => <[fv.1 := fv.2]> h) h fvs, e)
    else mini_db r !! k'.
Proof. unfold mini_hset. destruct (default _ _) as [h e]. simpl. by rewrite lookup_insert. Qed.

Lemma mini_pexpire_ne k k' ttl r :
  k <> k' -> mini_db (mini_pexpire k ttl r) !! k' = mini_db r !! k'.
Proof.
  intros Hne. unfold mini_pexpire. destruct (mini_db r !! k) as [[h e]|]; [|done]. simpl.
  destruct (0 <? ttl); [by rewrite lookup_insert_ne | by rewrite lookup_delete_ne].
Qed.

#[export] Instance mini_RedisLaws : RedisLaws mini.
Proof.
  split.
  - intros r. simpl. pose proof (Z.mod_pos_bound (Z.of_N (mini_us r)) 1000000).
    assert (0 <= Z.of_N (mini_us r) / 1000000) by (apply Z.div_pos; lia). lia.
  - intros k fvs r. simpl. unfold mini_hset. by destruct (default _ _).
  - intros k ttl r. simpl. unfold mini_pexpire. by destruct (mini_db r !! k) as [[? ?]|].
  - intros k fvs f r Hnd. simpl. unfold mini_hget. rewrite mini_hset_lookup, decide_True by done.
    destruct (mini_db r !! k) as [[h e]|]; simpl; by rewrite mini_fields_lookup.
  - intros k k' fvs f r Hne. simpl. unfold mini_hget. by rewrite mini_hset_lookup, decide_False.
  - intros k ttl k' f r Hor. simpl. unfold mini_hget.
    destruct (decide (k = k')) as [<-|Hne]; [|by rewrite mini_pexpire_ne].
    destruct Hor as [Httl|]; [|done]. unfold mini_pexpire.
    destruct (mini_db r !! k) as [[h e]|] eqn:E; simpl; [|by rewrite E].
    rewrite (proj2 (Z.ltb_lt _ _) Httl). by rewrite lookup_insert_eq.
  - intros k k' fvs r Hne. simpl. by rewrite mini_hset_lookup, decide_False.
  - intros k ttl r f v Httl. simpl. unfold mini_hget, mini_pexpire.
    destruct (mini_db r !! k) as [[h e]|] eqn:E; simpl; [|done]. intros _.
    rewrite (proj2 (Z.ltb_lt _ _) Httl). by rewrite lookup_insert_eq.
  - intros k k' ttl r Hne. simpl. by rewrite mini_pexpire_ne.
  - intros d r Hd. unfold clock_ms. simpl. apply mini_ms_mono. lia.
  - intros d r k Hd. simpl. unfold mini_hget. simpl. rewrite map_lookup_filter.
    set (now := mini_ms _). destruct (mini_db r !! k) as [[h e]|]; simpl; [|by left].
    destruct (mini_alive now (h, e)) eqn:Ea; unfold guard; case_decide as Eg; simpl.
    + by left.
    + exfalso. by apply Eg.
    + by destruct Eg.
    + right. unfold mini_alive in Ea. simpl in Ea. destruct e as [e|]; [|done].
      exists e. apply Z.leb_gt in Ea. split; [done|]. split; [|done].
      change (e <= now). lia.
Qed.
