(* ===== verification/RateLimit.v ===== *)
(** * The distributed token bucket ([internal/ratelimit/redis.go])

    The Lua script is translated line by line over doubles ([Float64]); Redis
    itself is a parameter, the class [Redis] of the commands the script calls
    with their documented laws [RedisLaws], and [RedisLimiter.Allow] is the Go
    method around the script.  The abstract specification is an integer token
    bucket ([tb_refill], [tb_take]); the script refines it, key expiry
    included, and the quota theorems are proved on the abstraction. *)

From Stdlib Require Import ZArith Lia QArith Qcanon.
From stdpp Require Import base tactics numbers list gmap strings.
From S2P Require Import Prelude GoLib Float64 Sha256 Redis.

Local Open Scope Z_scope.

(** ** Data *)

Definition microToken : Z := 1000000.

Record Request := {
  Identity : string;
  Route : string;
  RatePerSecond : Z;
  BurstCapacity : Z;
}.

Record Decision := {
  Allowed : bool;
  Limit : Z;
  Remaining : Z;
  ResetAt : Z;
  RetryAfter : Z;
}.

(** [client] says whether the Redis client is not nil; the field [now] of the
    Go struct is the instant passed to [Allow]. *)
Record RedisLimiter := {
  client : bool;
  prefix : string;
}.

Definition NewRedisLimiter (client : bool) (prefix : string) : RedisLimiter :=
  {| client := client; prefix := prefix |}.

(** What happens to one round trip to Redis: the reply arrives, the request
    never reaches the server, or the script runs and its reply is lost. *)
Inductive exchange :=
| Delivered
| LostRequest (e : gerror)
| LostReply (e : gerror).

(** ** The script *)

Section Script.
Context {R : Type} `{Redis R}.

(** [tokenBucketScript].  The result is [None] when a quotient is not a finite
    number, which [script_refines] excludes for every valid policy. *)
Definition tokenBucketScript (key : string) (capacity refill_per_ms cost ttl_ms : Qc) (r : R)
    : option (list Z * R) :=
  let '(secs, micros) := redis_TIME r in
  part ← fdiv (f64 micros) (f64 1000);
  let now_ms := fadd (fmul (f64 secs) (f64 1000)) (Qc_of_Z (ffloor part)) in
  let tokens :=
    match redis_HGET r key "tokens", redis_HGET r key "updated_at_ms" with
    | Some tokens, Some updated_at_ms =>
        let elapsed := fmax (f64 0) (fsub now_ms updated_at_ms) in
        fmin capacity (fadd tokens (fmul elapsed refill_per_ms))
    | _, _ => capacity
    end in
  let allowed := fleb cost tokens in
  let tokens := if allowed then fsub tokens cost else tokens in
  retry_ms ← (if allowed then Some 0
              else q ← fdiv (fsub cost tokens) refill_per_ms; Some (fceil q));
  full ← fdiv (fsub capacity tokens) refill_per_ms;
  let r := redis_HSET key
             [("tokens", Qc_of_Z (ffloor tokens)); ("updated_at_ms", now_ms)] r in
  let r := redis_PEXPIRE key (ftrunc ttl_ms) r in
  Some ([if allowed then 1 else 0; ffloor tokens; retry_ms; fceil full], r).

(** [fmt.Sprintf("%s:%x", prefix, digest[:16])] with the digest of
    [identity + "\x00" + route]. *)
Definition bucket_input (identity route : string) : string :=
  identity +:+ String Ascii.zero route.

Definition bucket_key (prefix identity route : string) : string :=
  prefix +:+ ":" +:+ hex_encode (take 16 (sha256 (bytes_of (bucket_input identity route)))).

(** The arguments [Allow] computes in 64-bit arithmetic. *)
Definition policy_capacity (burst : Z) : Z := wrap64 (burst * microToken).
Definition policy_refill (rate : Z) : Z := wrap64 (rate * (microToken / 1000)).
Definition policy_ttl (rate burst : Z) : Z :=
  wrap64 (wrap64 (go_div (wrap64 (burst * 1000)) rate * 2) + 1000).

(** The decision built from the script's reply. *)
Definition decode_reply (now burst : Z) (result : list Z) : res Decision :=
  match result with
  | [allowed; tokens; retry; full] =>
      Ok {| Allowed := allowed =? 1;
            Limit := burst;
            Remaining := go_div tokens microToken;
            ResetAt := now + wrap64 (full * Millisecond);
            RetryAfter := wrap64 (retry * Millisecond) |}
  | _ => Err (ErrNew ("unexpected token-bucket result length: "
                      +:+ Itoa (Z.of_nat (length result))))
  end.

Definition Allow (l : RedisLimiter) (net : exchange) (now : Z) (request : Request) (r : R)
    : option (res Decision * R) :=
  if negb (client l) then Some (Err (ErrNew "redis client is nil"), r)
  else if bool_decide (Identity request = "") || bool_decide (Route request = "") then
    Some (Err (ErrNew "rate-limit identity and route are required"), r)
  else if (RatePerSecond request <=? 0) || (BurstCapacity request <=? 0) then
    Some (Err (ErrNew "rate-limit policy must be positive"), r)
  else
    let key := bucket_key (prefix l) (Identity request) (Route request) in
    let capacity := policy_capacity (BurstCapacity request) in
    let refillPerMillisecond := policy_refill (RatePerSecond request) in
    let ttlMilliseconds := policy_ttl (RatePerSecond request) (BurstCapacity request) in
    match net with
    | LostRequest e => Some (Err (ErrWrap "execute token-bucket script: " e), r)
    | Delivered | LostReply _ =>
        '(result, r') ← tokenBucketScript key (f64 capacity) (f64 refillPerMillisecond)
                          (f64 microToken) (f64 ttlMilliseconds) r;
        match net with
        | LostReply e => Some (Err (ErrWrap "execute token-bucket script: " e), r')
        | _ => Some (decode_reply now (BurstCapacity request) result, r')
        end
    end.

(** [Ping] answers whether the client is set and the server answered. *)
Definition Ping (l : RedisLimiter) (net : option gerror) : res unit :=
  if negb (client l) then Err (ErrNew "redis client is nil")
  else match net with Some e => Err e | None => Ok tt end.

(** ** Traces of one Redis server shared by any number of gateways *)

Inductive event :=
| Tick (d : Z)
| Call (l : RedisLimiter) (net : exchange) (now : Z) (request : Request).

(** What a trace returned: every call with the decision its caller saw. *)
Fixpoint run (evs : list event) (r : R) : option (list (RedisLimiter * Request * res Decision) * R) :=
  match evs with
  | [] => Some ([], r)
  | Tick d :: evs' => run evs' (redis_tick d r)
  | Call l net now request :: evs' =>
      '(d, r') ← Allow l net now request r;
      '(ds, r'') ← run evs' r';
      Some ((l, request, d) :: ds, r'')
  end.

Definition call_key (l : RedisLimiter) (q : Request) : string :=
  bucket_key (prefix l) (Identity q) (Route q).

(** The number of requests of one bucket that were let through. *)
Fixpoint admitted (key : string) (ds : list (RedisLimiter * Request * res Decision)) : Z :=
  match ds with
  | [] => 0
  | (l, q, d) :: ds' =>
      (match d with
       | Ok dec => if Allowed dec && bool_decide (call_key l q = key) then 1 else 0
       | Err _ => 0
       end) + admitted key ds'
  end.

End Script.

(** ** The abstract token bucket *)

(** Time passing adds [refill] microtokens per millisecond up to [cap]. *)
Definition tb_refill (cap refill ms level : Z) : Z := Z.min cap (level + ms * refill).

(** A request takes one token if there is one. *)
Definition tb_take (level : Z) : bool * Z :=
  if microToken <=? level then (true, level - microToken) else (false, level).

(** The range of the columns [rate_per_second] and [burst_capacity]:
    positive [INTEGER]s ([migrations/001_api_keys.sql]). *)
Definition valid_policy (rate burst : Z) : Prop :=
  1 <= rate < 2 ^ 31 /\ 1 <= burst < 2 ^ 31.

(** ** Policy arithmetic *)

Lemma policy_capacity_eq rate burst :
  valid_policy rate burst -> policy_capacity burst = burst * microToken.
Proof. intros [? ?]. apply wrap64_id. unfold in_int64, microToken. lia. Qed.

Lemma policy_refill_eq rate burst :
  valid_policy rate burst -> policy_refill rate = rate * 1000.
Proof.
  intros [? ?]. unfold policy_refill, microToken. change (1000000 / 1000) with 1000.
  apply wrap64_id. unfold in_int64. lia.
Qed.

Lemma policy_ttl_eq rate burst :
  valid_policy rate burst -> policy_ttl rate burst = burst * 1000 / rate * 2 + 1000.
Proof.
  intros [Hr Hb]. unfold policy_ttl.
  rewrite (wrap64_id (burst * 1000)) by (unfold in_int64; lia).
  rewrite go_div_pos by lia.
  assert (0 <= burst * 1000 / rate <= burst * 1000).
  { split; [apply Z.div_pos; lia|]. apply Z.div_le_upper_bound; nia. }
  set (q := burst * 1000 / rate) in *. clearbody q.
  rewrite (wrap64_id (q * 2)), wrap64_id; unfold in_int64; lia.
Qed.

(** An untouched bucket is full again before its key can expire. *)
Lemma ttl_covers_refill rate burst :
  valid_policy rate burst ->
  policy_capacity burst <= policy_ttl rate burst * policy_refill rate.
Proof.
  intros Hv. erewrite policy_capacity_eq, policy_refill_eq, policy_ttl_eq by done.
  destruct Hv as [Hr Hb]. unfold microToken.
  pose proof (Z.mul_succ_div_gt (burst * 1000) rate ltac:(lia)).
  assert (0 <= burst * 1000 / rate) by (apply Z.div_pos; lia). nia.
Qed.

(** ** The frame of a call *)

Section Frame.
Context {R : Type} `{RL : RedisLaws R}.

(** Two states that agree on the clock and on one key have the same bucket. *)
Definition agree_on (key : string) (r r' : R) : Prop :=
  redis_TIME r' = redis_TIME r /\ redis_expiry r' key = redis_expiry r key
  /\ forall f, redis_HGET r' key f = redis_HGET r key f.

(** The script only touches its own key. *)
Lemma script_frame k key a b c d r out r' :
  k <> key -> tokenBucketScript k a b c d r = Some (out, r') -> agree_on key r r'.
Proof.
  intros Hne. unfold tokenBucketScript. destruct (redis_TIME r) as [s us] eqn:Et.
  destruct (fdiv _ _) as [part|]; [|done]. cbn [mbind option_bind].
  match goal with |- context [if fleb _ ?t then Some 0 else _] => destruct (fleb c t) end;
    [|destruct (fdiv (fsub c _) b) as [q|]; [|done]]; cbn [mbind option_bind];
    (destruct (fdiv (fsub a _) b) as [q'|]; [|done]); cbn [mbind option_bind];
    intros [= <- <-]; (split; [by rewrite time_pexpire, time_hset|]);
    (split; [by rewrite expiry_pexpire_ne, expiry_hset_ne|]);
    intros f; rewrite hget_pexpire by auto; by rewrite hget_hset_ne.
Qed.

Lemma Allow_frame l net now q r d r' key :
  call_key l q <> key -> Allow l net now q r = Some (d, r') -> agree_on key r r'.
Proof.
  intros Hne. unfold Allow. destruct (negb (client l)); [by intros [= _ <-]|].
  destruct (_ || _); [by intros [= _ <-]|]. destruct (_ || _); [by intros [= _ <-]|].
  fold (call_key l q). destruct net as [|e|e]; [|by intros [= _ <-]|];
    destruct (tokenBucketScript _ _ _ _ _ r) as [[out r1]|] eqn:Es; try done;
    cbn [mbind option_bind]; intros [= _ <-]; by eapply script_frame.
Qed.

Lemma Allow_guarded l net now q r d r' :
  Allow l net now q r = Some (d, r') ->
  (client l = true /\ Identity q <> "" /\ Route q <> "") \/ (r' = r /\ is_ok d = false).
Proof.
  unfold Allow. destruct (client l); simpl; [|intros [= <- <-]; by right].
  destruct (bool_decide_reflect (Identity q = "")); simpl; [intros [= <- <-]; by right|].
  destruct (bool_decide_reflect (Route q = "")); simpl; [intros [= <- <-]; by right|]. by left.
Qed.

Lemma Allow_clock l net now q r d r' :
  Allow l net now q r = Some (d, r') -> clock_ms r' = clock_ms r.
Proof.
  intros HA. apply (Allow_frame _ _ _ _ _ _ _ (call_key l q +:+ "x")) in HA as (Ht & _).
  - unfold clock_ms. by rewrite Ht.
  - intros E. apply (f_equal String.length) in E. rewrite string_length_app in E. simpl in E. lia.
Qed.

End Frame.

(** ** Refinement of the abstract bucket *)

Section Refinement.
Context {R : Type} `{RL : RedisLaws R}.
Context (rate burst : Z) (Hpolicy : valid_policy rate burst).

Let cap := policy_capacity burst.
Let refill := policy_refill rate.
Let ttl := policy_ttl rate burst.

(** The abstraction function: the microtokens a request arriving now finds. *)
Definition level (r : R) (key : string) : Z :=
  match redis_HGET r key "tokens", redis_HGET r key "updated_at_ms" with
  | Some t, Some u => tb_refill cap refill (Z.max 0 (clock_ms r - ffloor u)) (ffloor t)
  | _, _ => cap
  end.

(** A stored bucket holds integers within its capacity, was written in the
    past, and expires [ttl] after it was written. *)
Definition bucket_wf (r : R) (key : string) : Prop :=
  match redis_HGET r key "tokens", redis_HGET r key "updated_at_ms" with
  | Some t, Some u =>
      exists tz uz, t = Qc_of_Z tz /\ u = Qc_of_Z uz /\ 0 <= tz <= cap
        /\ 0 <= uz <= clock_ms r /\ redis_expiry r key = Some (uz + ttl)
  | _, _ => True
  end.

(** The clock fits the 53 bits of a Lua number (until the year 287396). *)
Definition clock_ok (r : R) : Prop := clock_ms r < 2 ^ 53.

Lemma cap_bounds : microToken <= cap < 2 ^ 52.
Proof.
  unfold cap. erewrite policy_capacity_eq by done.
  destruct Hpolicy. unfold microToken. lia.
Qed.

Lemma refill_bounds : 1000 <= refill < 2 ^ 42.
Proof. unfold refill. erewrite policy_refill_eq by done. destruct Hpolicy. lia. Qed.

Lemma ttl_bounds : 0 < ttl < 2 ^ 53.
Proof.
  unfold ttl. rewrite policy_ttl_eq by done. destruct Hpolicy.
  assert (0 <= burst * 1000 / rate <= burst * 1000).
  { split; [apply Z.div_pos; lia|]. apply Z.div_le_upper_bound; nia. }
  lia.
Qed.

Lemma clock_nonneg r : 0 <= clock_ms r.
Proof.
  unfold clock_ms. pose proof (time_range r) as [? ?].
  destruct (redis_TIME r) as [s us]. simpl in *.
  assert (0 <= us / 1000) by (apply Z.div_pos; lia). lia.
Qed.

Lemma level_bounds r key : bucket_wf r key -> 0 <= level r key <= cap.
Proof.
  pose proof cap_bounds as Hc. pose proof refill_bounds.
  unfold bucket_wf, level, tb_refill, microToken in *.
  destruct (redis_HGET r key "tokens"); [|lia].
  destruct (redis_HGET r key "updated_at_ms"); [|lia].
  intros (tz & uz & -> & -> & ? & ? & _). rewrite !ffloor_Z. nia.
Qed.

(** The script's clock is the millisecond clock. *)
Lemma script_clock r part :
  clock_ok r ->
  fdiv (f64 (redis_TIME r).2) (f64 1000) = Some part ->
  fadd (fmul (f64 (redis_TIME r).1) (f64 1000)) (Qc_of_Z (ffloor part)) = Qc_of_Z (clock_ms r).
Proof.
  unfold clock_ok, clock_ms. pose proof (time_range r) as [Hs Hus].
  destruct (redis_TIME r) as [s us]. simpl in *. intros Hc Hp.
  rewrite !f64_Z in Hp by lia.
  rewrite (fdiv_floor_Z us 1000 part) by (done || lia).
  assert (0 <= us / 1000) by (apply Z.div_pos; lia).
  rewrite !f64_Z by lia. rewrite fmul_Z by lia. apply fadd_Z. lia.
Qed.

(** The refilled token count is exact, or saturates at the capacity although
    the product is rounded. *)
Lemma script_refill tz e :
  0 <= tz <= cap -> 0 <= e ->
  fmin (Qc_of_Z cap) (fadd (Qc_of_Z tz) (fmul (Qc_of_Z e) (Qc_of_Z refill)))
  = Qc_of_Z (tb_refill cap refill e tz).
Proof.
  intros Ht He. pose proof cap_bounds as Hc. pose proof refill_bounds as Hr.
  unfold tb_refill. set (p := e * refill). assert (0 <= p) by nia.
  destruct (decide (tz + p <= 2 ^ 53)).
  - rewrite fmul_Z by (fold p; lia). fold p. rewrite fadd_Z by lia. apply fmin_Z.
  - rewrite (Z.min_l cap) by lia. unfold fmin.
    enough (fleb (Qc_of_Z cap) (fadd (Qc_of_Z tz) (fmul (Qc_of_Z e) (Qc_of_Z refill))) = true)
      as -> by done.
    apply fleb_le, Qcle_trans with (Qc_of_Z (2 ^ 53)).
    { unfold Qcle, Qle, Qc_of_Z, inject_Z. cbn [this Qnum Qden]. lia. }
    unfold fadd, fmul. rewrite <- Z2Qc_inj_mul. fold p.
    destruct (decide (p <= 2 ^ 53)).
    + rewrite rnd_Z by lia. rewrite <- Z2Qc_inj_add. apply f64_big. lia.
    + apply rnd_big. apply Qcle_trans with (rnd (Qc_of_Z p)); [apply f64_big; lia|].
      rewrite <- (Qcplus_0_l (rnd (Qc_of_Z p))) at 1. apply Qcplus_le_compat; [|apply Qcle_refl].
      unfold Qcle, Qle, Qc_of_Z, inject_Z. simpl. lia.
Qed.

(** The tokens the script sees are the abstract level. *)
Lemma script_level r key :
  bucket_wf r key -> clock_ok r ->
  match redis_HGET r key "tokens", redis_HGET r key "updated_at_ms" with
  | Some tokens, Some updated_at_ms =>
      fmin (Qc_of_Z cap)
        (fadd tokens (fmul (fmax (f64 0) (fsub (Qc_of_Z (clock_ms r)) updated_at_ms))
                        (Qc_of_Z refill)))
  | _, _ => Qc_of_Z cap
  end = Qc_of_Z (level r key).
Proof.
  unfold bucket_wf, level, clock_ok. intros Hwf Hc.
  destruct (redis_HGET r key "tokens") as [t|]; [|done].
  destruct (redis_HGET r key "updated_at_ms") as [u|]; [|done].
  destruct Hwf as (tz & uz & -> & -> & Ht & Hu & _).
  rewrite f64_Z, fsub_Z, fmax_Z, !ffloor_Z by lia. apply script_refill; lia.
Qed.

(** The reply and the state after the script, in terms of the abstract bucket. *)
Definition spec_reply (lvl : Z) : list Z :=
  let '(ok, lvl') := tb_take lvl in
  [if ok then 1 else 0; lvl'; if ok then 0 else cdiv (microToken - lvl') refill;
   cdiv (cap - lvl') refill].

(** What the script leaves in Redis. *)
Definition script_store (key : string) (now tokens : Z) (r : R) : R :=
  redis_PEXPIRE key ttl
    (redis_HSET key [("tokens", Qc_of_Z tokens); ("updated_at_ms", Qc_of_Z now)] r).

Lemma script_computes r key :
  bucket_wf r key -> clock_ok r ->
  tokenBucketScript key (f64 cap) (f64 refill) (f64 microToken) (f64 ttl) r
  = Some (spec_reply (level r key),
          script_store key (clock_ms r) (tb_take (level r key)).2 r).
Proof.
  intros Hwf Hc. pose proof cap_bounds as Hcap. pose proof refill_bounds as Hrf.
  pose proof ttl_bounds as Httl. pose proof (level_bounds r key Hwf) as Hl.
  pose proof (time_range r) as [_ Hus].
  unfold tokenBucketScript.
  pose proof (script_clock r) as Hclk. destruct (redis_TIME r) as [s us]. simpl in Hclk, Hus.
  destruct (fdiv (f64 us) (f64 1000)) as [part|] eqn:Ep.
  2:{ exfalso. rewrite !f64_Z in Ep by lia.
      destruct (fdiv_Z_Some us 1000) as [q Hq]; [lia|]. congruence. }
  cbn [mbind option_bind]. rewrite (Hclk part) by done.
  rewrite (f64_Z cap), (f64_Z refill), (f64_Z microToken), (f64_Z ttl)
    by (unfold microToken in *; lia).
  rewrite script_level by done.
  rewrite fleb_Z. unfold spec_reply, tb_take. set (lvl := level r key) in *.
  unfold microToken in *.
  destruct (Z.leb_spec 1000000 lvl) as [Hle|Hlt]; cbn [fst snd mbind option_bind].
  - rewrite fsub_Z by lia. rewrite fsub_Z by lia.
    destruct (fdiv_Z_Some (cap - (lvl - 1000000)) refill) as [q Hq]; [lia|].
    rewrite Hq. cbn [mbind option_bind]. rewrite (fdiv_ceil_Z (cap - (lvl - 1000000)) refill q) by first [exact Hq | lia].
    rewrite ffloor_Z, ftrunc_Z. done.
  - rewrite !fsub_Z by lia.
    destruct (fdiv_Z_Some (1000000 - lvl) refill) as [q Hq]; [lia|].
    destruct (fdiv_Z_Some (cap - lvl) refill) as [q' Hq']; [lia|].
    rewrite Hq. cbn [mbind option_bind]. rewrite Hq'. cbn [mbind option_bind].
    rewrite (fdiv_ceil_Z (1000000 - lvl) refill q), (fdiv_ceil_Z (cap - lvl) refill q')
      by first [exact Hq | exact Hq' | lia].
    rewrite ffloor_Z, ftrunc_Z. done.
Qed.

Lemma tb_take_bounds lvl : 0 <= lvl <= cap -> 0 <= (tb_take lvl).2 <= lvl.
Proof. unfold tb_take, microToken. intros ?. case_match; simpl; bool_to_prop; lia. Qed.

Lemma clock_store key now tokens r : clock_ms (script_store key now tokens r) = clock_ms r.
Proof. unfold clock_ms, script_store. by rewrite time_pexpire, time_hset. Qed.

Lemma script_fields_nodup : NoDup ["tokens"; "updated_at_ms"].
Proof. by apply (bool_decide_unpack _). Qed.

(** A written bucket reads back at the level it was left with. *)
Lemma store_level key tokens r :
  0 <= tokens <= cap ->
  let r' := script_store key (clock_ms r) tokens r in
  level r' key = tokens /\ bucket_wf r' key.
Proof.
  intros Ht. cbv zeta. pose proof ttl_bounds as Httl. pose proof (clock_nonneg r).
  set (r1 := redis_HSET key [("tokens", Qc_of_Z tokens); ("updated_at_ms", Qc_of_Z (clock_ms r))] r).
  assert (redis_HGET r1 key "tokens" = Some (Qc_of_Z tokens)) as E1
    by (unfold r1; rewrite hget_hset_eq; [done | exact script_fields_nodup]).
  assert (redis_HGET r1 key "updated_at_ms" = Some (Qc_of_Z (clock_ms r))) as E2
    by (unfold r1; rewrite hget_hset_eq; [done | exact script_fields_nodup]).
  assert (clock_ms r1 = clock_ms r) as Ec by (unfold clock_ms, r1; by rewrite time_hset).
  unfold level, bucket_wf. rewrite clock_store. unfold script_store. fold r1.
  rewrite !hget_pexpire, E1, E2 by lia. rewrite !ffloor_Z. split.
  - unfold tb_refill. rewrite Z.sub_diag. simpl. lia.
  - exists tokens, (clock_ms r). rewrite (expiry_pexpire_eq _ _ _ _ _ (proj1 Httl) E1), Ec.
    repeat split; lia.
Qed.

Lemma agree_on_level key r r' : agree_on key r r' ->
  clock_ms r' = clock_ms r /\ level r' key = level r key /\ (bucket_wf r key -> bucket_wf r' key).
Proof.
  intros (Ht & He & Hf). assert (clock_ms r' = clock_ms r) as Hc by (unfold clock_ms; by rewrite Ht).
  unfold level, bucket_wf. by rewrite !Hf, Hc, He.
Qed.

(** The passage of time refills the bucket; an expired key reads as a full
    bucket, and it only expires once it would be full anyway. *)
Lemma tick_level d r key :
  0 <= d -> bucket_wf r key ->
  let r' := redis_tick d r in
  level r' key = tb_refill cap refill (clock_ms r' - clock_ms r) (level r key) /\ bucket_wf r' key.
Proof.
  intros Hd Hwf. cbv zeta. pose proof (clock_tick d r Hd) as Hclk.
  pose proof refill_bounds as Hrf. pose proof (level_bounds r key Hwf) as Hlb. revert Hlb.
  pose proof (ttl_covers_refill rate burst Hpolicy) as Hcov. fold cap ttl refill in Hcov.
  unfold level, bucket_wf, tb_refill in *.
  destruct (hget_tick d r key Hd) as [[Hf He]|(e & He & Hle & Hf)]; rewrite !Hf.
  - destruct (redis_HGET r key "tokens") as [t|]; [|split; [nia|done]].
    destruct (redis_HGET r key "updated_at_ms") as [u|]; [|split; [nia|done]].
    destruct Hwf as (tz & uz & -> & -> & Ht & Hu & Hx). rewrite !ffloor_Z. intros Hlb.
    split; [nia|]. exists tz, uz. rewrite He. repeat split; (done || lia).
  - destruct (redis_HGET r key "tokens") as [t|]; [|split; [nia|done]].
    destruct (redis_HGET r key "updated_at_ms") as [u|]; [|split; [nia|done]].
    destruct Hwf as (tz & uz & -> & -> & Ht & Hu & Hx). rewrite !ffloor_Z. intros Hlb.
    split; [|done]. simplify_eq. nia.
Qed.

(** The guards of [Allow]. *)
Definition well_formed_call (l : RedisLimiter) (q : Request) : Prop :=
  client l = true /\ Identity q <> "" /\ Route q <> ""
  /\ RatePerSecond q = rate /\ BurstCapacity q = burst.

(** The decision the abstract bucket takes at a level. *)
Definition spec_decision (now lvl : Z) : Decision :=
  let '(ok, lvl') := tb_take lvl in
  {| Allowed := ok;
     Limit := burst;
     Remaining := lvl' / microToken;
     ResetAt := now + cdiv (cap - lvl') refill * Millisecond;
     RetryAfter := (if ok then 0 else cdiv (microToken - lvl') refill) * Millisecond |}.

Lemma cdiv_refill_ms x : 0 <= x <= cap -> 0 <= cdiv x refill * Millisecond < 2 ^ 63.
Proof.
  intros Hx. pose proof cap_bounds. pose proof refill_bounds.
  pose proof (cdiv_nonneg x refill ltac:(lia) ltac:(lia)).
  assert (cdiv x refill <= 2147483648000) as Hb; [|unfold Millisecond; lia].
  apply cdiv_spec; [lia|].
  assert (cap <= 2 ^ 31 * 1000000).
  { unfold cap. erewrite policy_capacity_eq by done. destruct Hpolicy. unfold microToken. lia. }
  nia.
Qed.

Lemma decode_spec_reply now lvl :
  0 <= lvl <= cap -> decode_reply now burst (spec_reply lvl) = Ok (spec_decision now lvl).
Proof.
  intros Hl. pose proof cap_bounds as Hc. pose proof (tb_take_bounds lvl Hl) as Hb.
  unfold spec_reply, spec_decision.
  assert ((tb_take lvl).1 = false -> (tb_take lvl).2 < microToken) as Hd.
  { unfold tb_take. case_match; simpl; bool_to_prop; [done|lia]. }
  destruct (tb_take lvl) as [ok lvl']. simpl in *. unfold microToken in *.
  pose proof (cdiv_refill_ms (cap - lvl')) as Hf. unfold Millisecond in *.
  do 2 f_equal.
  - by destruct ok.
  - apply go_div_pos; lia.
  - rewrite wrap64_id; [done|]. unfold in_int64. lia.
  - destruct ok; [done|]. pose proof (cdiv_refill_ms (1000000 - lvl')) as Hm.
    unfold Millisecond in *. rewrite wrap64_id; [done|]. unfold in_int64.
    specialize (Hd eq_refl). lia.
Qed.

(** The state after the script has run for a call on its bucket. *)
Definition after_script (l : RedisLimiter) (q : Request) (r : R) : R :=
  script_store (call_key l q) (clock_ms r) (tb_take (level r (call_key l q))).2 r.

Lemma Allow_computes l net now q r :
  well_formed_call l q -> bucket_wf r (call_key l q) -> clock_ok r ->
  Allow l net now q r
  = Some match net with
         | Delivered => (Ok (spec_decision now (level r (call_key l q))), after_script l q r)
         | LostReply e => (Err (ErrWrap "execute token-bucket script: " e), after_script l q r)
         | LostRequest e => (Err (ErrWrap "execute token-bucket script: " e), r)
         end.
Proof.
  intros (Hcl & Hid & Hrt & Hr & Hb) Hwf Hc. unfold Allow.
  rewrite Hcl, !bool_decide_eq_false_2 by done. cbn [negb orb]. rewrite Hr, Hb.
  assert ((rate <=? 0) = false) as -> by (destruct Hpolicy; lia).
  assert ((burst <=? 0) = false) as -> by (destruct Hpolicy; lia). cbn [orb].
  fold (call_key l q) cap refill ttl.
  rewrite script_computes by done. cbn [mbind option_bind].
  rewrite decode_spec_reply by by apply level_bounds. by destruct net.
Qed.

Lemma after_script_level l q r :
  bucket_wf r (call_key l q) ->
  level (after_script l q r) (call_key l q) = (tb_take (level r (call_key l q))).2
  /\ bucket_wf (after_script l q r) (call_key l q)
  /\ clock_ms (after_script l q r) = clock_ms r.
Proof.
  intros Hwf. pose proof (level_bounds r _ Hwf) as Hl. pose proof (tb_take_bounds _ Hl).
  unfold after_script.
  destruct (store_level (call_key l q) (tb_take (level r (call_key l q))).2 r) as [Hs Hw]; [lia|].
  split; [exact Hs|split; [exact Hw|apply clock_store]].
Qed.

(** ** Traces *)

(** Time moves forward, and every call that lands on bucket [key] carries the
    policy [rate], [burst]; calls on other buckets are unrestricted. *)
Definition event_ok (key : string) (ev : event) : Prop :=
  match ev with
  | Tick d => 0 <= d
  | Call l _ _ q =>
      call_key l q = key -> RatePerSecond q = rate /\ BurstCapacity q = burst
  end.

(** One call takes a token from its bucket for every admission. *)
Lemma call_step key l net now q r d r' :
  event_ok key (Call l net now q) -> bucket_wf r key -> clock_ok r ->
  Allow l net now q r = Some (d, r') ->
  clock_ms r' = clock_ms r /\ bucket_wf r' key
  /\ admitted key [(l, q, d)] * microToken + level r' key <= level r key.
Proof.
  intros Hok Hwf Hc HA. simpl.
  destruct (decide (call_key l q = key)) as [Hk|Hk].
  2:{ destruct (agree_on_level key r r' (Allow_frame _ _ _ _ _ _ _ _ Hk HA)) as (-> & -> & Hw).
      split; [done|]. split; [auto|].
      rewrite (bool_decide_eq_false_2 (call_key l q = key)) by done.
      destruct d as [dec|]; [|simpl; lia]. rewrite andb_false_r. lia. }
  destruct (Hok Hk) as [Hr Hb].
  destruct (Allow_guarded _ _ _ _ _ _ _ HA) as [(Hcl & Hi & Hrt)|[-> Hd]].
  2:{ split; [done|]. split; [done|]. destruct d; [done|]. lia. }
  rewrite Allow_computes in HA by (first [done | by rewrite Hk]).
  pose proof (level_bounds r key Hwf) as Hl. subst key.
  destruct (after_script_level l q r Hwf) as (Hlv & Hw & Hck).
  unfold spec_decision in HA.
  destruct net; simplify_eq; rewrite ?Hlv, ?Hck; (split; [done|]); (split; [done|]);
    unfold tb_take in *; destruct (microToken <=? _) eqn:E; bool_to_prop; simpl;
    rewrite ?bool_decide_eq_true_2 by done; unfold microToken in *; lia.
Qed.

Lemma run_clock key evs r ds r' :
  Forall (event_ok key) evs -> run evs r = Some (ds, r') -> clock_ms r <= clock_ms r'.
Proof.
  intros Hev. revert r ds. induction Hev as [|ev evs Hok Hev IH]; intros r ds; simpl.
  { intros [= <- <-]. lia. }
  destruct ev as [d|l net now q].
  - intros Hr. specialize (IH _ _ Hr). pose proof (clock_tick d r Hok). lia.
  - destruct (Allow l net now q r) as [[d r1]|] eqn:EA; [|done]. cbn [mbind option_bind].
    destruct (run evs r1) as [[ds1 r2]|] eqn:Er; [|done]. cbn [mbind option_bind].
    intros [= <- <-]. specialize (IH _ _ Er). enough (clock_ms r1 = clock_ms r) by lia.
    by eapply Allow_clock.
Qed.

Lemma admitted_cons key c ds : admitted key (c :: ds) = admitted key [c] + admitted key ds.
Proof. destruct c as [[l q] d]. simpl. lia. Qed.

(** Along any trace, what was admitted plus what is left never exceeds what
    was there plus what time has added. *)
Lemma run_bound key evs r ds r' :
  Forall (event_ok key) evs -> bucket_wf r key -> clock_ok r' ->
  run evs r = Some (ds, r') ->
  bucket_wf r' key
  /\ admitted key ds * microToken + level r' key
     <= level r key + (clock_ms r' - clock_ms r) * refill.
Proof.
  intros Hev. revert r ds. induction Hev as [|ev evs Hok Hev IH]; intros r ds Hwf Hc; simpl.
  { intros [= <- <-]. simpl. split; [done|lia]. }
  pose proof refill_bounds as Hrf.
  destruct ev as [d|l net now q].
  - intros Hr. pose proof (tick_level d r key Hok Hwf) as [Hl Hw].
    specialize (IH _ _ Hw Hc Hr) as [Hw' IH]. split; [done|].
    unfold tb_refill in Hl. pose proof (clock_tick d r Hok). lia.
  - destruct (Allow l net now q r) as [[d r1]|] eqn:EA; [|done]. cbn [mbind option_bind].
    destruct (run evs r1) as [[ds1 r2]|] eqn:Er; [|done]. cbn [mbind option_bind].
    intros [= <- <-].
    assert (clock_ok r) as Hcr.
    { pose proof (run_clock key (Call l net now q :: evs) r ((l, q, d) :: ds1) r2
                    (Forall_cons_2 _ _ _ Hok Hev)) as Hm.
      simpl in Hm. rewrite EA in Hm. cbn [mbind option_bind] in Hm. rewrite Er in Hm.
      specialize (Hm eq_refl). unfold clock_ok in *. lia. }
    destruct (call_step key l net now q r d r1 Hok Hwf Hcr EA) as (Hck & Hw & Hle).
    specialize (IH _ _ Hw Hc Er) as [Hw' IH]. split; [done|].
    rewrite admitted_cons. rewrite Hck in IH. lia.
Qed.

(** The same as a number of requests. *)
Lemma spent_bound key n r r' :
  bucket_wf r key -> bucket_wf r' key ->
  n * microToken + level r' key <= level r key + (clock_ms r' - clock_ms r) * refill ->
  n <= burst + rate * (clock_ms r' - clock_ms r) / 1000.
Proof.
  intros Hwf Hwf' Hb. pose proof (level_bounds r key Hwf) as Hl. pose proof (level_bounds r' key Hwf') as Hl'.
  unfold cap in Hl. unfold refill in Hb.
  rewrite (policy_capacity_eq _ _ Hpolicy) in Hl. rewrite (policy_refill_eq _ _ Hpolicy) in Hb.
  unfold microToken in *.
  enough (n - burst <= rate * (clock_ms r' - clock_ms r) / 1000) by lia.
  apply Z.div_le_lower_bound; lia.
Qed.

(** A run of calls at one instant is decided by the level alone. *)
Lemma calls_at_once key calls r :
  Forall (fun c : RedisLimiter * Z * Request =>
            well_formed_call c.1.1 c.2 /\ call_key c.1.1 c.2 = key) calls ->
  bucket_wf r key -> clock_ok r ->
  exists ds r', run ((fun c => Call c.1.1 Delivered c.1.2 c.2) <$> calls) r = Some (ds, r')
    /\ admitted key ds = Z.min (Z.of_nat (length calls)) (level r key / microToken).
Proof.
  intros Hcs. revert r. induction Hcs as [|[[l now] q] calls [Hcall Hk] Hcs IH]; intros r Hwf Hc.
  { exists [], r. split; [done|]. pose proof (level_bounds r key Hwf).
    assert (0 <= level r key / microToken) by (apply Z.div_pos; unfold microToken; lia).
    simpl. lia. }
  simpl in Hcall, Hk. rewrite fmap_cons. cbn [run fst snd].
  rewrite Allow_computes by (first [done | by rewrite Hk]). cbn [mbind option_bind].
  destruct (after_script_level l q r) as (Hlv & Hw & Hck); [by rewrite Hk|].
  rewrite Hk in Hlv, Hw.
  destruct (IH (after_script l q r) Hw) as (ds & r' & -> & Hn).
  { unfold clock_ok in *. by rewrite Hck. }
  cbn [mbind option_bind]. eexists _, _. split; [done|].
  rewrite admitted_cons, Hn, Hlv, Hk. simpl. rewrite bool_decide_eq_true_2 by done.
  pose proof (level_bounds r key Hwf). unfold spec_decision, tb_take.
  destruct (Z.leb_spec microToken (level r key)) as [Hle|Hlt]; simpl.
  - assert ((level r key - microToken) / microToken = level r key / microToken - 1) as ->.
    { rewrite <- (Z.add_opp_r _ 1), <- Z.div_add by done. f_equal. }
    lia.
  - rewrite (Z.div_small (level r key)) by lia. lia.
Qed.

Lemma tb_refill_refill a b lvl :
  0 <= a -> 0 <= b -> 0 <= lvl ->
  tb_refill cap refill b (tb_refill cap refill a lvl) = tb_refill cap refill (a + b) lvl.
Proof. pose proof refill_bounds. unfold tb_refill. nia. Qed.

Lemma ticks_level key ds r :
  Forall (fun d => 0 <= d) ds -> bucket_wf r key ->
  let r' := fold_left (fun r d => redis_tick d r) ds r in
  level r' key = tb_refill cap refill (clock_ms r' - clock_ms r) (level r key)
  /\ bucket_wf r' key /\ clock_ms r <= clock_ms r'.
Proof.
  intros Hds. revert r. induction Hds as [|d ds Hd Hds IH]; intros r Hwf; simpl.
  { pose proof (level_bounds r key Hwf). unfold tb_refill. rewrite Z.sub_diag. simpl.
    split; [lia|]. split; [done|lia]. }
  destruct (tick_level d r key Hd Hwf) as [Hl Hw]. pose proof (clock_tick d r Hd).
  destruct (IH _ Hw) as (Hl' & Hw' & Hm). split; [|split; [done|lia]].
  rewrite Hl', Hl, tb_refill_refill by (try apply level_bounds; (done || lia)).
  f_equal. lia.
Qed.

End Refinement.

(** The separator makes the hashed text determine identity and route. *)
Lemma bucket_input_inj i1 r1 i2 r2 :
  0 ∉ bytes_of i1 -> 0 ∉ bytes_of i2 ->
  bucket_input i1 r1 = bucket_input i2 r2 -> i1 = i2 /\ r1 = r2.
Proof.
  unfold bucket_input. revert i2. induction i1 as [|a i1 IH]; intros [|b i2] H1 H2 E; simpl in *.
  - by injection E as [= ->].
  - exfalso. apply H2. rewrite append_cons in E. injection E as [= <- _]. left.
  - exfalso. apply H1. rewrite append_cons in E. injection E as [= -> _]. left.
  - rewrite !append_cons in E. injection E as [= -> E].
    apply not_elem_of_cons in H1 as [_ H1], H2 as [_ H2].
    destruct (IH i2 H1 H2 E) as [-> ->]. done.
Qed.

Lemma append_inj_l (p a b : string) : p +:+ a = p +:+ b -> a = b.
Proof. apply String.app_inj. Qed.

Lemma bucket_key_ne prefix i1 r1 i2 r2 :
  take 16 (sha256 (bytes_of (bucket_input i1 r1))) <> take 16 (sha256 (bytes_of (bucket_input i2 r2))) ->
  bucket_key prefix i1 r1 <> bucket_key prefix i2 r2.
Proof.
  intros Hne E. apply Hne. unfold bucket_key in E. apply append_inj_l, append_inj_l in E.
  apply hex_encode_inj in E; [done| |]; apply Forall_take, sha256_range.
Qed.

(** ** The promises of the limiter *)

Section Limiter.
Context {R : Type} `{RL : RedisLaws R}.

(** C1: for every policy the database admits, [Allow] returns exactly the
    decision the integer token bucket takes on the current level - verdict,
    limit, whole tokens left, reset time and retry delay, with no rounding in
    the script's doubles and no overflow in the 64-bit arithmetic - and leaves
    the bucket at the level the specification says. *)
Theorem Allow_refines rate burst l now q (r : R) :
  valid_policy rate burst -> well_formed_call rate burst l q ->
  bucket_wf rate burst r (call_key l q) -> clock_ok r ->
  let lvl := level rate burst r (call_key l q) in
  exists r',
    Allow l Delivered now q r = Some (Ok (spec_decision rate burst now lvl), r')
    /\ level rate burst r' (call_key l q) = (tb_take lvl).2
    /\ bucket_wf rate burst r' (call_key l q)
    /\ clock_ms r' = clock_ms r.
Proof.
  intros Hp Hcall Hwf Hc. exists (after_script rate burst l q r). split.
  - by rewrite (Allow_computes rate burst Hp).
  - by apply after_script_level.
Qed.

(** C2: along any interleaving of calls from any number of gateways (lost
    requests and lost replies included) and of time passing, the requests
    admitted on one bucket number at most the burst plus the rate times the
    elapsed seconds. *)
Theorem quota_bound rate burst key evs (r r' : R) ds :
  valid_policy rate burst -> Forall (event_ok rate burst key) evs ->
  bucket_wf rate burst r key -> clock_ok r' ->
  run evs r = Some (ds, r') ->
  admitted key ds <= burst + rate * (clock_ms r' - clock_ms r) / 1000.
Proof.
  intros Hp Hev Hwf Hc Hrun.
  destruct (run_bound rate burst Hp key evs r ds r' Hev Hwf Hc Hrun) as [Hwf' Hb].
  by apply (spent_bound rate burst Hp key).
Qed.

(** C11: however the gateways interleave, of the requests that reach one bucket
    within one millisecond exactly as many are admitted as it holds whole
    tokens, and all of them when there are fewer. *)
Theorem burst_exact rate burst key calls (r : R) :
  valid_policy rate burst ->
  Forall (fun c : RedisLimiter * Z * Request =>
            well_formed_call rate burst c.1.1 c.2 /\ call_key c.1.1 c.2 = key) calls ->
  bucket_wf rate burst r key -> clock_ok r ->
  exists ds r', run ((fun c => Call c.1.1 Delivered c.1.2 c.2) <$> calls) r = Some (ds, r')
    /\ admitted key ds = Z.min (Z.of_nat (length calls)) (level rate burst r key / microToken).
Proof. intros Hp. by apply calls_at_once. Qed.

(** C25: a retry delay is exact: after a denial, the next request on the bucket
    is admitted if and only if at least [RetryAfter] has passed on the server
    clock. *)
Theorem retry_exact rate burst l now now' q d (r r1 r2 : R) dec dec' :
  valid_policy rate burst -> well_formed_call rate burst l q ->
  bucket_wf rate burst r (call_key l q) -> 0 <= d -> clock_ok (redis_tick d r1) ->
  Allow l Delivered now q r = Some (Ok dec, r1) -> Allowed dec = false ->
  Allow l Delivered now' q (redis_tick d r1) = Some (Ok dec', r2) ->
  Allowed dec' = true <->
  RetryAfter dec <= (clock_ms (redis_tick d r1) - clock_ms r1) * Millisecond.
Proof.
  intros Hp Hcall Hwf Hd Hc HA Hden HA'.
  pose proof (clock_tick d r1 Hd) as Hm.
  assert (clock_ok r) as Hcr.
  { unfold clock_ok in *. rewrite (Allow_clock _ _ _ _ _ _ _ HA) in Hm. lia. }
  rewrite (Allow_computes rate burst Hp) in HA by done. injection HA as <- <-.
  destruct (after_script_level rate burst Hp l q r Hwf) as (Hlv & Hw & Hck).
  set (r1 := after_script rate burst l q r) in *.
  destruct (tick_level rate burst Hp d r1 _ Hd Hw) as [Hl2 Hw2].
  rewrite (Allow_computes rate burst Hp) in HA' by done. injection HA' as <- _.
  rewrite Hl2, Hlv. revert Hden. unfold spec_decision, tb_take.
  destruct (Z.leb_spec microToken (level rate burst r (call_key l q))); simpl; [done|]. intros _.
  unfold tb_refill. set (lvl := level rate burst r (call_key l q)) in *.
  pose proof (cap_bounds rate burst Hp). pose proof (refill_bounds rate burst Hp) as Hrf.
  pose proof (cdiv_spec (microToken - lvl) (policy_refill rate)
                (clock_ms (redis_tick d r1) - clock_ms r1) ltac:(lia)) as Hcd.
  rewrite <- Z.mul_le_mono_pos_r by (unfold Millisecond; lia). rewrite Hcd.
  destruct (Z.leb_spec microToken (Z.min (policy_capacity burst)
    (lvl + (clock_ms (redis_tick d r1) - clock_ms r1) * policy_refill rate))); simpl; lia.
Qed.

(** A bucket nobody calls refills linearly up to its capacity whether or
    not Redis removes its key meanwhile: the key's lifetime is never
    observable. *)
Theorem idle_refill rate burst key ds (r : R) :
  valid_policy rate burst -> Forall (fun d => 0 <= d) ds -> bucket_wf rate burst r key ->
  let r' := fold_left (fun r d => redis_tick d r) ds r in
  level rate burst r' key
  = Z.min (burst * microToken)
      (level rate burst r key + (clock_ms r' - clock_ms r) * (rate * 1000)).
Proof.
  intros Hp Hds Hwf. cbv zeta.
  destruct (ticks_level rate burst Hp key ds r Hds Hwf) as [-> _]. unfold tb_refill.
  by rewrite (policy_capacity_eq _ _ Hp), (policy_refill_eq _ _ Hp).
Qed.

(** C29: unless SHA-256 truncated to 16 bytes collides on their names, a call
    for one identity and route leaves the bucket of every other identity or
    route as it was; identities are UUID texts and hold no NUL byte. *)
Theorem bucket_isolation rate burst l net now q d (r r' : R) i2 rt2 :
  0 ∉ bytes_of (Identity q) -> 0 ∉ bytes_of i2 ->
  (Identity q, Route q) <> (i2, rt2) ->
  (bucket_input (Identity q) (Route q) <> bucket_input i2 rt2 ->
   take 16 (sha256 (bytes_of (bucket_input (Identity q) (Route q))))
   <> take 16 (sha256 (bytes_of (bucket_input i2 rt2)))) ->
  Allow l net now q r = Some (d, r') ->
  let other := bucket_key (prefix l) i2 rt2 in
  level rate burst r' other = level rate burst r other
  /\ (bucket_wf rate burst r other -> bucket_wf rate burst r' other).
Proof.
  intros H1 H2 Hne Hsha HA. cbv zeta.
  assert (agree_on (bucket_key (prefix l) i2 rt2) r r') as Hag.
  { eapply Allow_frame, HA. apply bucket_key_ne, Hsha. intros E.
    destruct (bucket_input_inj _ _ _ _ H1 H2 E). apply Hne. congruence. }
  by destruct (agree_on_level rate burst _ _ _ Hag) as (_ & ? & ?).
Qed.

(** A missing client, an empty identity or route, and a policy that is not
    positive are refused with the documented error and without a round trip;
    when the request is lost, or only its reply, the error wraps the client's
    and in the first case Redis is untouched. *)
Theorem Allow_errors l net now q (r : R) :
  (client l = false -> Allow l net now q r = Some (Err (ErrNew "redis client is nil"), r))
  /\ (client l = true -> Identity q = "" \/ Route q = "" ->
      Allow l net now q r = Some (Err (ErrNew "rate-limit identity and route are required"), r))
  /\ (client l = true -> Identity q <> "" -> Route q <> "" ->
      RatePerSecond q <= 0 \/ BurstCapacity q <= 0 ->
      Allow l net now q r = Some (Err (ErrNew "rate-limit policy must be positive"), r))
  /\ (forall e, client l = true -> Identity q <> "" -> Route q <> "" ->
      0 < RatePerSecond q -> 0 < BurstCapacity q -> net = LostRequest e ->
      Allow l net now q r = Some (Err (ErrWrap "execute token-bucket script: " e), r))
  /\ (forall e d r', net = LostReply e -> Allow l net now q r = Some (d, r') -> is_ok d = false).
Proof.
  unfold Allow. repeat split.
  - by intros ->.
  - intros -> [E|E]; rewrite E; simpl; [done|]. by rewrite orb_true_r.
  - intros -> H1 H2 Hor. rewrite !bool_decide_eq_false_2 by done. simpl.
    destruct Hor as [Hr|Hb].
    + by rewrite (proj2 (Z.leb_le _ _) Hr).
    + by rewrite (proj2 (Z.leb_le _ _) Hb), orb_true_r.
  - intros e -> H1 H2 Hr Hb ->. rewrite !bool_decide_eq_false_2 by done. simpl.
    by rewrite (proj2 (Z.leb_gt _ _) Hr), (proj2 (Z.leb_gt _ _) Hb).
  - intros e d r' ->. destruct (negb _); [by intros [= <- _]|].
    destruct (_ || _); [by intros [= <- _]|]. destruct (_ || _); [by intros [= <- _]|].
    destruct (tokenBucketScript _ _ _ _ _ _) as [[? ?]|]; [|done]. by intros [= <- _].
Qed.

End Limiter.

(** ** Runs on the in-memory server *)

Definition demo_limiter : RedisLimiter := NewRedisLimiter true "gateway:ratelimit".
Definition demo_request (route : string) (rate burst : Z) : Request :=
  {| Identity := "key-1"; Route := route; RatePerSecond := rate; BurstCapacity := burst |}.
Definition demo_server : mini := mini_empty 1700000000000000.
Definition demo_key : string := call_key demo_limiter (demo_request "/api/users" 1 2).

(** Three calls at once with burst 2, a pause of 999 ms, a call, 1 ms, a call:
    the third and fourth are denied. *)
Definition demo_calls : list event :=
  let c := Call demo_limiter Delivered 0 (demo_request "/api/users" 1 2) in
  [c; c; c; Tick 999000; c; Tick 1000; c].

Definition demo_show (c : RedisLimiter * Request * res Decision) : bool * Z * Z :=
  match c.2 with
  | Ok d => (Allowed d, Remaining d, RetryAfter d)
  | Err _ => (false, -1, -1)
  end.

Example demo_run :
  option_map (fun o => map demo_show o.1) (run demo_calls demo_server)
  = Some [(true, 1, 0); (true, 0, 0); (false, 0, 1000000000); (false, 0, 1000000); (true, 0, 0)].
Proof. vm_compute. reflexivity. Qed.

Lemma demo_wf rate burst key : bucket_wf rate burst demo_server key.
Proof. done. Qed.

Lemma demo_policy : valid_policy 1 2.
Proof. unfold valid_policy. lia. Qed.

Lemma demo_call_ok route :
  route <> "" -> well_formed_call 1 2 demo_limiter (demo_request route 1 2).
Proof. intros Hr. repeat split; done. Qed.

Lemma Allow_refines_witness :
  exists r', Allow demo_limiter Delivered 0 (demo_request "/api/users" 1 2) demo_server
    = Some (Ok (spec_decision 1 2 0 (level 1 2 demo_server demo_key)), r').
Proof.
  destruct (Allow_refines 1 2 demo_limiter 0 (demo_request "/api/users" 1 2) demo_server)
    as (r' & E & _).
  - apply demo_policy.
  - by apply demo_call_ok.
  - apply demo_wf.
  - vm_compute. reflexivity.
  - exists r'. exact E.
Defined.

Lemma quota_bound_witness :
  exists ds r', run demo_calls demo_server = Some (ds, r')
    /\ admitted demo_key ds = 3
    /\ admitted demo_key ds <= 2 + 1 * (clock_ms r' - clock_ms demo_server) / 1000.
Proof.
  assert (match run demo_calls demo_server with
          | Some (ds, r') => admitted demo_key ds = 3 /\ (clock_ms r' <? 2 ^ 53) = true
          | None => False
          end) as Hrun by (vm_compute; split; reflexivity).
  destruct (run demo_calls demo_server) as [[ds r']|] eqn:E; [|destruct Hrun].
  destruct Hrun as [H3 Hc]. exists ds, r'. split; [reflexivity|]. split; [exact H3|].
  apply (quota_bound 1 2 demo_key demo_calls demo_server r' ds).
  - apply demo_policy.
  - repeat constructor; discriminate.
  - apply demo_wf.
  - by apply Z.ltb_lt.
  - exact E.
Defined.

Lemma burst_exact_witness :
  exists ds r',
    run (replicate 5 (Call demo_limiter Delivered 0 (demo_request "/api/users" 1 2))) demo_server
    = Some (ds, r') /\ admitted demo_key ds = 2.
Proof.
  destruct (burst_exact 1 2 demo_key
              (replicate 5 (demo_limiter, 0, demo_request "/api/users" 1 2)) demo_server)
    as (ds & r' & E & Hn).
  - apply demo_policy.
  - apply Forall_replicate. split; [by apply demo_call_ok | reflexivity].
  - apply demo_wf.
  - vm_compute. reflexivity.
  - exists ds, r'. split; [exact E | exact Hn].
Defined.

(** A server on which the bucket has just been emptied. *)
Definition demo_spent : mini := script_store 1 2 demo_key (clock_ms demo_server) 0 demo_server.

Lemma demo_spent_wf : bucket_wf 1 2 demo_spent demo_key.
Proof.
  destruct (store_level 1 2 demo_policy demo_key 0 demo_server) as [_ Hw]; [|exact Hw].
  vm_compute. split; discriminate.
Qed.

Lemma retry_exact_witness :
  exists dec dec' r1 r2,
    Allow demo_limiter Delivered 0 (demo_request "/api/users" 1 2) demo_spent = Some (Ok dec, r1)
    /\ Allow demo_limiter Delivered 0 (demo_request "/api/users" 1 2) (redis_tick 1000000 r1)
       = Some (Ok dec', r2)
    /\ (Allowed dec' = true <->
        RetryAfter dec <= (clock_ms (redis_tick 1000000 r1) - clock_ms r1) * Millisecond).
Proof.
  set (q := demo_request "/api/users" 1 2).
  assert (match Allow demo_limiter Delivered 0 q demo_spent with
          | Some (Ok dec, r1) =>
              Allowed dec = false /\ (clock_ms (redis_tick 1000000 r1) <? 2 ^ 53) = true
              /\ match Allow demo_limiter Delivered 0 q (redis_tick 1000000 r1) with
                 | Some (Ok _, _) => True
                 | _ => False
                 end
          | _ => False
          end) as Hrun by (vm_compute; repeat split).
  destruct (Allow demo_limiter Delivered 0 q demo_spent) as [[[dec|] r1]|] eqn:E1; [|destruct Hrun..].
  destruct Hrun as (Hden & Hc & Hrun).
  destruct (Allow demo_limiter Delivered 0 q (redis_tick 1000000 r1)) as [[[dec'|] r2]|] eqn:E2;
    [|destruct Hrun..].
  exists dec, dec', r1, r2. split; [reflexivity|]. split; [exact E2|].
  apply (retry_exact 1 2 demo_limiter 0 0 q 1000000 demo_spent r1 r2 dec dec').
  - apply demo_policy.
  - by apply demo_call_ok.
  - apply demo_spent_wf.
  - done.
  - by apply Z.ltb_lt.
  - exact E1.
  - exact Hden.
  - exact E2.
Defined.

(** Ten seconds in two steps, past the key's lifetime of five seconds. *)
Lemma idle_refill_witness :
  let r' := fold_left (fun r d => redis_tick d r) [5500000; 4500000] demo_spent in
  redis_HGET r' demo_key "tokens" = None
  /\ level 1 2 r' demo_key
     = Z.min (2 * microToken)
         (level 1 2 demo_spent demo_key + (clock_ms r' - clock_ms demo_spent) * (1 * 1000)).
Proof.
  split; [vm_compute; reflexivity|].
  apply (idle_refill 1 2 demo_key [5500000; 4500000] demo_spent).
  - apply demo_policy.
  - repeat constructor; done.
  - apply demo_spent_wf.
Defined.

Lemma bucket_isolation_witness :
  exists d r',
    Allow demo_limiter Delivered 0 (demo_request "/api/orders" 1 2) demo_spent = Some (d, r')
    /\ level 1 2 r' demo_key = level 1 2 demo_spent demo_key.
Proof.
  set (q := demo_request "/api/orders" 1 2).
  assert (is_Some (Allow demo_limiter Delivered 0 q demo_spent)) as [[d r'] E]
    by (vm_compute; eexists; reflexivity).
  exists d, r'. split; [exact E|].
  apply (bucket_isolation 1 2 demo_limiter Delivered 0 q d demo_spent r' "key-1" "/api/users").
  - vm_compute. by intros H%list_elem_of_In; repeat destruct H as [H|H].
  - vm_compute. by intros H%list_elem_of_In; repeat destruct H as [H|H].
  - intros E'. discriminate E'.
  - intros _. vm_compute. discriminate.
  - exact E.
Defined.

Lemma Allow_errors_witness :
  Allow demo_limiter Delivered 0 (demo_request "" 1 2) demo_server
  = Some (Err (ErrNew "rate-limit identity and route are required"), demo_server).
Proof.
  apply (Allow_errors demo_limiter Delivered 0 (demo_request "" 1 2) demo_server).
  - reflexivity.
  - right. reflexivity.
Defined.
