(* ===== verification/Event.v ===== *)
(** * Usage events ([internal/usage/event.go])

    The record of an authenticated request, its validation, and the version-4
    UUID that names it. *)

From Stdlib Require Import ZArith Lia.
From stdpp Require Import base tactics numbers list strings.
From S2P Require Import Prelude GoLib.

Record Event := {
  ID : string;
  RequestID : string;
  APIKeyID : string;
  ClientID : string;
  EvRoute : string;
  Method : string;
  StatusCode : Z;
  DurationMicros : Z;
  ResponseBytes : Z;
  OccurredAt : Z;
}.

#[export] Instance Event_eq_dec : EqDecision Event.
Proof. solve_decision. Defined.

Definition blank (s : string) : bool := bool_decide (TrimSpace s = "").

(** [Event.Validate]: the first failing case of the switch, in its order. *)
Definition Validate (e : Event) : res unit :=
  if blank (ID e) then Err (ErrNew "event ID is required")
  else if blank (APIKeyID e) then Err (ErrNew "API key ID is required")
  else if blank (ClientID e) then Err (ErrNew "client ID is required")
  else if negb (HasPrefix (EvRoute e) "/") then Err (ErrNew "normalized route is required")
  else if blank (Method e) then Err (ErrNew "HTTP method is required")
  else if (StatusCode e <? 100) || (599 <? StatusCode e) then
    Err (ErrNew "status code must be between 100 and 599")
  else if DurationMicros e <? 0 then Err (ErrNew "duration cannot be negative")
  else if ResponseBytes e <? 0 then Err (ErrNew "response bytes cannot be negative")
  else if time_IsZero (OccurredAt e) then Err (ErrNew "occurrence time is required")
  else Ok tt.

(** [value[i] = (value[i] & mask) | bits]. *)
Definition set_bits (i : nat) (mask bits : Z) (value : list Z) : list Z :=
  alter (fun b => Z.lor (Z.land b mask) bits) i value.

Definition uuid_bytes (value : list Z) : list Z :=
  set_bits 8 63 128 (set_bits 6 15 64 value).

Definition uuid_text (value : list Z) : string :=
  let encoded := hex_encode value in
  slice encoded 0 8 +:+ "-" +:+ slice encoded 8 12 +:+ "-" +:+ slice encoded 12 16
    +:+ "-" +:+ slice encoded 16 20 +:+ "-" +:+ slice encoded 20 32.

(** [NewEventID]; the argument is what [rand.Read] fills the 16 bytes with. *)
Definition NewEventID (random : res (list Z)) : res string :=
  match random with
  | Err e => Err (ErrWrap "generate usage event ID: " e)
  | Ok value => Ok (uuid_text (uuid_bytes value))
  end.

(** The format the test suite checks with a regular expression:
    [^[0-9a-f]{8}-[0-9a-f]{4}-4[0-9a-f]{3}-[89ab][0-9a-f]{3}-[0-9a-f]{12}$]. *)
Definition is_hex (c : Ascii.ascii) : bool :=
  let b := ascii_byte c in
  (48 <=? b) && (b <=? 57) || (97 <=? b) && (b <=? 102).

Definition uuid_char_ok (i : nat) (c : Ascii.ascii) : bool :=
  let b := ascii_byte c in
  if existsb (Nat.eqb i) [8; 13; 18; 23]%nat then b =? 45
  else if Nat.eqb i 14 then b =? 52
  else if Nat.eqb i 19 then existsb (Z.eqb b) [56; 57; 97; 98]
  else is_hex c.

Fixpoint uuid_chars_ok (i : nat) (s : string) : bool :=
  match s with
  | EmptyString => Nat.eqb i 36
  | String c s' => uuid_char_ok i c && uuid_chars_ok (S i) s'
  end.

Definition is_uuid_v4 (s : string) : bool := uuid_chars_ok 0 s.

(** ** Lemmas *)

Lemma Validate_ok_iff e :
  Validate e = Ok tt <->
  blank (ID e) = false /\ blank (APIKeyID e) = false /\ blank (ClientID e) = false
  /\ HasPrefix (EvRoute e) "/" = true /\ blank (Method e) = false
  /\ 100 <= StatusCode e <= 599 /\ 0 <= DurationMicros e /\ 0 <= ResponseBytes e
  /\ OccurredAt e <> time_zero.
Proof.
  unfold Validate, time_IsZero.
  destruct (blank (ID e)), (blank (APIKeyID e)), (blank (ClientID e)),
    (HasPrefix (EvRoute e) "/"), (blank (Method e)); simpl; try (split; [done | intuition congruence]).
  destruct (Z.ltb_spec (StatusCode e) 100), (Z.ltb_spec 599 (StatusCode e)),
    (Z.ltb_spec (DurationMicros e) 0), (Z.ltb_spec (ResponseBytes e) 0),
    (Z.eqb_spec (OccurredAt e) time_zero); simpl;
    (split; [try done; intros _; repeat split; (done || lia) | intros Hall; try done; exfalso]);
    decompose [and] Hall; (congruence || lia).
Qed.

Lemma is_hex_digit d : 0 <= d < 16 -> is_hex (digit_char d) = true.
Proof.
  intros Hd. unfold is_hex, digit_char.
  destruct (Z.ltb_spec d 10); rewrite byte_ascii_byte by (unfold is_byte; lia); lia.
Qed.

Lemma byte_nibbles b : is_byte b -> 0 <= b / 16 < 16 /\ 0 <= b mod 16 < 16.
Proof.
  unfold is_byte. intros Hb. pose proof (Z.mod_pos_bound b 16).
  split; [split; [apply Z.div_pos|apply Z.div_lt_upper_bound]|]; lia.
Qed.

(** A statement about a byte holds if it holds of the 256 of them. *)
Lemma byte_cases (P : Z -> Prop) `{forall b, Decision (P b)} :
  bool_decide (Forall P (seqZ 0 256)) = true -> forall b, is_byte b -> P b.
Proof.
  intros HP%bool_decide_eq_true_1 b Hb. rewrite Forall_forall in HP.
  apply HP, elem_of_seqZ. unfold is_byte in Hb. lia.
Qed.

#[export] Instance is_byte_dec b : Decision (is_byte b).
Proof. unfold is_byte. apply _. Defined.

Lemma version_bits b :
  is_byte b -> is_byte (Z.lor (Z.land b 15) 64) /\ Z.lor (Z.land b 15) 64 / 16 = 4.
Proof. revert b. apply (byte_cases (fun b => _ /\ _)). vm_compute. reflexivity. Qed.

Lemma variant_bits b :
  is_byte b ->
  is_byte (Z.lor (Z.land b 63) 128) /\ 8 <= Z.lor (Z.land b 63) 128 / 16 <= 11.
Proof. revert b. apply (byte_cases (fun b => _ /\ _)). vm_compute. reflexivity. Qed.

Lemma variant_char d :
  8 <= d <= 11 -> existsb (Z.eqb (ascii_byte (digit_char d))) [56; 57; 97; 98] = true.
Proof. intros Hd. assert (d = 8 \/ d = 9 \/ d = 10 \/ d = 11) as [->|[->|[->| ->]]] by lia; done. Qed.

(** A text that starts with a printable ASCII character is not blank. *)
Definition graphic (c : Ascii.ascii) : bool := (33 <=? ascii_byte c) && (ascii_byte c <=? 126).

Lemma graphic_not_space c e : graphic c = true -> e ∈ space_encodings -> forall r, e +:+ r <> "" ->
  match e +:+ r with String d _ => d <> c | EmptyString => True end.
Proof.
  intros Hc He r _. revert e He. apply Forall_forall.
  repeat (constructor; [intros <-; vm_compute in Hc; discriminate|]). constructor.
Qed.

Lemma trim_left_graphic c s : graphic c = true -> TrimLeftSpace (String c s) = String c s.
Proof.
  intros Hc. unfold TrimLeftSpace. cbn [String.length trim_by].
  destruct (strip_any space_encodings (String c s)) as [r|] eqn:E; [|done].
  exfalso. apply strip_any_Some in E as (e & He & Eq).
  pose proof (graphic_not_space c e Hc He r) as Hn. rewrite <- Eq in Hn. by apply Hn.
Qed.

Lemma blank_graphic c s : graphic c = true -> blank (String c s) = false.
Proof.
  intros Hc. unfold blank. apply bool_decide_eq_false_2. unfold TrimSpace.
  rewrite trim_left_graphic by done. intros H.
  destruct (TrimRightSpace_nil _ H) as [|(e & r & He & E)]; [done|].
  pose proof (graphic_not_space c e Hc He r) as Hn. rewrite <- E in Hn. by apply Hn.
Qed.

Lemma hex_graphic c : is_hex c = true -> graphic c = true.
Proof. unfold is_hex, graphic. intros. lia. Qed.

(** The text of 16 bytes is their 32 hexadecimal digits with four hyphens. *)
Lemma uuid_text_ok value :
  length value = 16%nat -> Forall is_byte value ->
  (forall b, nth_error value 6 = Some b -> b / 16 = 4) ->
  (forall b, nth_error value 8 = Some b -> 8 <= b / 16 <= 11) ->
  is_uuid_v4 (uuid_text value) = true /\ blank (uuid_text value) = false.
Proof.
  intros Hlen Hb H6 H8.
  do 16 (destruct value as [|?b value]; [discriminate Hlen|]).
  destruct value as [|? ?]; [|discriminate Hlen]. clear Hlen. simpl in H6, H8.
  specialize (H6 _ eq_refl). specialize (H8 _ eq_refl).
  repeat (apply Forall_cons in Hb as [?Hb Hb]).
  repeat match goal with H : is_byte _ |- _ => apply byte_nibbles in H as [? ?] end.
  split.
  - unfold is_uuid_v4, uuid_text, slice. cbn [hex_encode String.substring Nat.sub].
    repeat rewrite ?append_cons, ?append_nil_l.
    cbn -[digit_char is_hex Z.div Z.modulo ascii_byte existsb uuid_char_ok].
    unfold uuid_char_ok. cbn [existsb Nat.eqb orb].
    rewrite H6, !is_hex_digit by done. apply variant_char in H8. simpl in H8. by rewrite H8.
  - unfold uuid_text, slice. simpl. rewrite append_cons. by apply blank_graphic, hex_graphic, is_hex_digit.
Qed.

Lemma uuid_bytes_ok value :
  length value = 16%nat -> Forall is_byte value ->
  length (uuid_bytes value) = 16%nat /\ Forall is_byte (uuid_bytes value)
  /\ (forall b, nth_error (uuid_bytes value) 6 = Some b -> b / 16 = 4)
  /\ (forall b, nth_error (uuid_bytes value) 8 = Some b -> 8 <= b / 16 <= 11).
Proof.
  intros Hlen Hb.
  do 16 (destruct value as [|?b value]; [discriminate Hlen|]).
  destruct value as [|? ?]; [|discriminate Hlen].
  repeat (apply Forall_cons in Hb as [?Hb Hb]). simpl.
  split; [done|]. split; [|split; intros b' [= <-]].
  - repeat (constructor; [by (done || apply version_bits || apply variant_bits)|]). constructor.
  - by apply version_bits.
  - by apply variant_bits.
Qed.

Lemma uuid_text_inj v w :
  length v = 16%nat -> length w = 16%nat -> Forall is_byte v -> Forall is_byte w ->
  uuid_text v = uuid_text w -> v = w.
Proof.
  intros Hv Hw Bv Bw E.
  do 16 (destruct v as [|?b v]; [discriminate Hv|]). destruct v as [|? ?]; [|discriminate Hv].
  do 16 (destruct w as [|?c w]; [discriminate Hw|]). destruct w as [|? ?]; [|discriminate Hw].
  apply hex_encode_inj; [done..|]. revert E. unfold uuid_text, slice.
  cbn [hex_encode String.substring Nat.sub]. repeat rewrite ?append_cons, ?append_nil_l.
  intros E. injection E. intros. congruence.
Qed.

(** Every 16 bytes of entropy give a well-formed version-4 UUID, which
    passes the non-blank test of [Validate]; two identifiers are equal only if
    the random bytes agree on all but the six version and variant bits, so 122
    bits of entropy reach the database's conflict guard; and a failing entropy
    source gives an error and no identifier. *)
Theorem NewEventID_spec v w e :
  length v = 16%nat -> length w = 16%nat -> Forall is_byte v -> Forall is_byte w ->
  (exists id, NewEventID (Ok v) = Ok id /\ is_uuid_v4 id = true /\ blank id = false)
  /\ (NewEventID (Ok v) = NewEventID (Ok w) <-> uuid_bytes v = uuid_bytes w)
  /\ is_ok (NewEventID (Err e)) = false.
Proof.
  intros Hv Hw Bv Bw. destruct (uuid_bytes_ok v Hv Bv) as (Lv & Bv' & H6 & H8).
  destruct (uuid_bytes_ok w Hw Bw) as (Lw & Bw' & _). destruct (uuid_text_ok _ Lv Bv' H6 H8).
  split; [by eexists|]. split; [|done]. unfold NewEventID. split; [|by intros ->].
  intros [= E]. by apply uuid_text_inj.
Qed.

Lemma NewEventID_spec_witness :
  (exists id, NewEventID (Ok (replicate 16 1)) = Ok id /\ is_uuid_v4 id = true)
  /\ (NewEventID (Ok (replicate 16 1)) = NewEventID (Ok (replicate 16 2))
      <-> uuid_bytes (replicate 16 1) = uuid_bytes (replicate 16 2)).
Proof.
  destruct (NewEventID_spec (replicate 16 1) (replicate 16 2) (ErrNew "no entropy"))
    as [(id & E & Hid & _) [Heq _]]; try reflexivity; try (apply Forall_replicate; unfold is_byte; lia).
  split; [exists id; split; [exact E|exact Hid]|exact Heq].
Defined.
