(* ===== verification/Metrics.v ===== *)
(** * The metrics registry ([internal/metrics/metrics.go])

    Atomic counters at their machine width, the map of responses by status
    code, and the Prometheus text [ServeHTTP] writes.  An operation is a
    sequence of atomic updates, and an interleaving of goroutines is a merge
    of their sequences.  [ServeHTTP] loads the counters one after another; its
    text is given here for counters that do not move while it runs. *)

From Stdlib Require Import ZArith Lia QArith Qcanon.
From stdpp Require Import base tactics numbers list gmap strings sorting.
From S2P Require Import Prelude GoLib Float64.

Local Open Scope Z_scope.

Record Registry := {
  requests : Z;
  inFlight : Z;
  durationNano : Z;
  usageQueueCapacity : Z;
  usageQueueDepth : Z;
  usageEnqueued : Z;
  usageDropped : Z;
  usageRetries : Z;
  usageBatches : Z;
  usagePersisted : Z;
  usageDeadLettered : Z;
  usageDeadLetterFailures : Z;
  responses : gmap Z Z;
}.

Definition NewRegistry : Registry :=
  {| requests := 0; inFlight := 0; durationNano := 0; usageQueueCapacity := 0;
     usageQueueDepth := 0; usageEnqueued := 0; usageDropped := 0; usageRetries := 0;
     usageBatches := 0; usagePersisted := 0; usageDeadLettered := 0;
     usageDeadLetterFailures := 0; responses := ∅ |}.

(** ** Field updates *)

Definition upd_http (rq fl du : Z -> Z) (rs : gmap Z Z -> gmap Z Z) (r : Registry) : Registry :=
  {| requests := rq (requests r); inFlight := fl (inFlight r); durationNano := du (durationNano r);
     usageQueueCapacity := usageQueueCapacity r; usageQueueDepth := usageQueueDepth r;
     usageEnqueued := usageEnqueued r; usageDropped := usageDropped r;
     usageRetries := usageRetries r; usageBatches := usageBatches r;
     usagePersisted := usagePersisted r; usageDeadLettered := usageDeadLettered r;
     usageDeadLetterFailures := usageDeadLetterFailures r; responses := rs (responses r) |}.

Definition upd_queue (cap dep : Z -> Z) (r : Registry) : Registry :=
  {| requests := requests r; inFlight := inFlight r; durationNano := durationNano r;
     usageQueueCapacity := cap (usageQueueCapacity r); usageQueueDepth := dep (usageQueueDepth r);
     usageEnqueued := usageEnqueued r; usageDropped := usageDropped r;
     usageRetries := usageRetries r; usageBatches := usageBatches r;
     usagePersisted := usagePersisted r; usageDeadLettered := usageDeadLettered r;
     usageDeadLetterFailures := usageDeadLetterFailures r; responses := responses r |}.

Definition upd_usage (enq drop retry bat per dead fail : Z -> Z) (r : Registry) : Registry :=
  {| requests := requests r; inFlight := inFlight r; durationNano := durationNano r;
     usageQueueCapacity := usageQueueCapacity r; usageQueueDepth := usageQueueDepth r;
     usageEnqueued := enq (usageEnqueued r); usageDropped := drop (usageDropped r);
     usageRetries := retry (usageRetries r); usageBatches := bat (usageBatches r);
     usagePersisted := per (usagePersisted r); usageDeadLettered := dead (usageDeadLettered r);
     usageDeadLetterFailures := fail (usageDeadLetterFailures r); responses := responses r |}.

(** [atomic.Uint64.Add] and [atomic.Int64.Add]. *)
Definition addu (n c : Z) : Z := wrapu64 (c + n).
Definition addi (n c : Z) : Z := wrap64 (c + n).

(** ** Operations *)

Definition SetUsageQueueCapacity (capacity : Z) : Registry -> Registry :=
  upd_queue (fun _ => capacity) id.
Definition SetUsageQueueDepth (depth : Z) : Registry -> Registry :=
  upd_queue id (fun _ => depth).
Definition RecordUsageEnqueued : Registry -> Registry :=
  upd_usage (addu 1) id id id id id id.
Definition RecordUsageDropped (count : Z) : Registry -> Registry :=
  upd_usage id (fun c => if 0 <? count then addu (wrapu64 count) c else c) id id id id id.
Definition RecordUsageRetry : Registry -> Registry :=
  upd_usage id id (addu 1) id id id id.
Definition RecordUsageBatch (events : Z) : Registry -> Registry :=
  upd_usage id id id (addu 1) (fun c => if 0 <? events then addu (wrapu64 events) c else c) id id.
Definition RecordUsageDeadLettered (count : Z) : Registry -> Registry :=
  upd_usage id id id id id (fun c => if 0 <? count then addu (wrapu64 count) c else c) id.
Definition RecordUsageDeadLetterFailure (count : Z) : Registry -> Registry :=
  upd_usage id id id id id id (fun c => if 0 <? count then addu (wrapu64 count) c else c).

Definition bump (code : Z) (m : gmap Z Z) : gmap Z Z :=
  <[code := wrapu64 (default 0 (m !! code) + 1)]> m.

(** The atomic updates [Begin] and the function it returns are made of; the
    update of the map is one critical section of [mu]. *)
Inductive atom :=
| AddRequests
| AddInFlight (delta : Z)
| AddDuration (duration : Z)
| AddResponse (status : Z).

Definition apply_atom (a : atom) : Registry -> Registry :=
  match a with
  | AddRequests => upd_http (addu 1) id id id
  | AddInFlight d => upd_http id (addi d) id id
  | AddDuration d => upd_http id id (addu (wrapu64 d)) id
  | AddResponse s => upd_http id id id (bump s)
  end.

Definition apply_atoms (l : list atom) (r : Registry) : Registry := foldl (flip apply_atom) r l.

(** [Begin] counts a request in, and the function it returns counts it out. *)
Definition Begin : list atom := [AddRequests; AddInFlight 1].
Definition finish (status duration : Z) : list atom :=
  [AddInFlight (-1); AddDuration duration; AddResponse status].

(** ** The Prometheus text *)

(** A line of the exposition format: a comment or a sample. *)
Inductive line :=
| Comment (text : string)
| Sample (name value : string).

(** The verb [%.6f]: the exact value to six decimals, ties to even. *)
Fixpoint fixed_digits (k : nat) (m : Z) : string :=
  match k with
  | O => EmptyString
  | S k' => fixed_digits k' (m / 10) +:+ String (digit_char (m mod 10)) EmptyString
  end.

Definition format_6f (q : Qc) : string :=
  let n := round_half_even (Qnum q * 1000000) (Zpos (Qden q)) in
  Itoa (n / 1000000) +:+ "." +:+ fixed_digits 6 (n mod 1000000).

(** [float64(r.durationNano.Load()) / float64(time.Second)]. *)
Definition duration_seconds (nanos : Z) : Qc :=
  default (Qc_of_Z 0) (fdiv (f64 nanos) (f64 Second)).

Definition quoted (s : string) : string :=
  String (byte_ascii 34) (s +:+ String (byte_ascii 34) EmptyString).

(** The keys of the map, sorted by [sort.Ints]. *)
Definition codes (r : Registry) : list Z := merge_sort Z.le (map_to_list (responses r)).*1.

Definition code_sample (r : Registry) (code : Z) : line :=
  Sample ("gateway_http_responses_total{code=" +:+ quoted (Itoa code) +:+ "}")
    (Itoa (default 0 (responses r !! code))).

Definition block (name help kind : string) (samples : list line) : list line :=
  [Comment ("# HELP " +:+ name +:+ " " +:+ help); Comment ("# TYPE " +:+ name +:+ " " +:+ kind)]
  ++ samples.

Definition single (name help kind value : string) : list line :=
  block name help kind [Sample name value].

Definition metric_lines (r : Registry) : list line :=
  single "gateway_http_requests_total" "Total requests handled by protected API routes." "counter"
    (Itoa (requests r))
  ++ single "gateway_http_requests_in_flight" "Requests currently being handled." "gauge"
       (Itoa (inFlight r))
  ++ single "gateway_http_request_duration_seconds_sum" "Total request duration in seconds." "counter"
       (format_6f (duration_seconds (durationNano r)))
  ++ block "gateway_http_responses_total" "Responses grouped by HTTP status code." "counter"
       (code_sample r <$> codes r)
  ++ single "gateway_usage_queue_capacity" "Maximum number of usage events that can wait in memory." "gauge"
       (Itoa (usageQueueCapacity r))
  ++ single "gateway_usage_queue_depth" "Usage events currently waiting in the bounded queue." "gauge"
       (Itoa (usageQueueDepth r))
  ++ single "gateway_usage_events_enqueued_total" "Usage events accepted by the queue." "counter"
       (Itoa (usageEnqueued r))
  ++ single "gateway_usage_events_dropped_total"
       "Usage events lost to validation, backpressure, shutdown, or dead-letter failure." "counter"
       (Itoa (usageDropped r))
  ++ single "gateway_usage_retries_total" "Usage batch retry delays entered after storage failures." "counter"
       (Itoa (usageRetries r))
  ++ single "gateway_usage_batches_persisted_total" "Usage batches persisted successfully." "counter"
       (Itoa (usageBatches r))
  ++ single "gateway_usage_events_persisted_total"
       "Usage events acknowledged by idempotent batch storage." "counter"
       (Itoa (usagePersisted r))
  ++ single "gateway_usage_events_dead_lettered_total"
       "Usage events stored after exhausting normal retries." "counter"
       (Itoa (usageDeadLettered r))
  ++ single "gateway_usage_dead_letter_failures_total"
       "Usage events that could not be written to dead-letter storage." "counter"
       (Itoa (usageDeadLetterFailures r)).

Definition newline : Ascii.ascii := byte_ascii 10.
Definition space : Ascii.ascii := byte_ascii 32.

Definition line_text (l : line) : string :=
  match l with
  | Comment t => t
  | Sample n v => n +:+ String space v
  end.

Definition lines_text (ls : list line) : string :=
  foldr (fun l rest => line_text l +:+ String newline rest) EmptyString ls.

(** The body [ServeHTTP] writes. *)
Definition ServeHTTP (r : Registry) : string := lines_text (metric_lines r).

(** ** A scraper *)

(** Splits at the first occurrence of a character. *)
Fixpoint cut (sep : Ascii.ascii) (s : string) : option (string * string) :=
  match s with
  | EmptyString => None
  | String c s' =>
      if Ascii.eqb c sep then Some (EmptyString, s')
      else '(a, b) ← cut sep s'; Some (String c a, b)
  end.

(** Reads the samples of a text, a line at a time. *)
Fixpoint scrape (fuel : nat) (s : string) : list (string * string) :=
  match fuel, cut newline s with
  | S f, Some (l, rest) =>
      (if HasPrefix l "#" then [] else match cut space l with Some nv => [nv] | None => [] end)
      ++ scrape f rest
  | _, _ => []
  end.

Definition scrape_text (s : string) : list (string * string) := scrape (String.length s) s.

(** The samples of a list of lines. *)
Definition samples (ls : list line) : list (string * string) :=
  omap (fun l => match l with Sample n v => Some (n, v) | Comment _ => None end) ls.

(** ** The text read back *)

Definition not_newline (c : Ascii.ascii) : bool := negb (Ascii.eqb c newline).
Definition name_char (c : Ascii.ascii) : bool := negb (Ascii.eqb c newline) && negb (Ascii.eqb c space).

Definition line_ok (l : line) : bool :=
  match l with
  | Comment t => HasPrefix t "#" && chars not_newline t
  | Sample n v =>
      match n with EmptyString => false | String c _ => negb (Ascii.eqb c (byte_ascii 35)) end
      && chars name_char n && chars not_newline v
  end.

Lemma cut_append sep a b :
  chars (fun c => negb (Ascii.eqb c sep)) a = true -> cut sep (a +:+ String sep b) = Some (a, b).
Proof.
  induction a as [|c a IH]; cbn [chars].
  - intros _. rewrite append_nil_l. simpl. by rewrite Ascii.eqb_refl.
  - intros [Hc Ha]%andb_prop. rewrite append_cons. cbn [cut].
    apply negb_true_iff in Hc. rewrite Hc, IH by done. done.
Qed.

Lemma line_text_not_newline l : line_ok l = true -> chars not_newline (line_text l) = true.
Proof.
  destruct l as [t|n v]; simpl; intros Hok; bool_to_prop; [done|].
  rewrite chars_app. simpl. apply andb_true_intro. split; [|by rewrite H0].
  eapply chars_mono; [|done]. intros c [? _]%andb_prop. done.
Qed.

Lemma scrape_lines fuel ls :
  (length ls <= fuel)%nat ->
  Forall (fun l => line_ok l = true) ls -> scrape fuel (lines_text ls) = samples ls.
Proof.
  intros Hf Hls. revert fuel Hf.
  induction Hls as [|l ls Hl Hls IH]; intros [|fuel] Hf; simpl in Hf; [done..|lia|].
  cbn [lines_text foldr length scrape samples]. fold (lines_text ls).
  rewrite cut_append by by apply line_text_not_newline. rewrite IH by lia.
  destruct l as [t|n v]; simpl in Hl |- *; bool_to_prop.
  - by rewrite H.
  - destruct n as [|c n]; [done|].
    assert (HasPrefix (String c n +:+ String space v) "#" = false) as ->.
    { apply not_true_iff_false. intros [r E]%HasPrefix_spec. rewrite !append_cons in E.
      by simplify_eq. }
    rewrite cut_append; [done|]. eapply chars_mono; [|done]. intros x [_ ?]%andb_prop. done.
Qed.

Lemma lines_text_length ls : (length ls <= String.length (lines_text ls))%nat.
Proof.
  induction ls as [|l ls IH]; [done|]. unfold lines_text in *. cbn [foldr length].
  rewrite string_length_app. cbn [String.length]. lia.
Qed.

Lemma numeric_not_newline c : numeric_char c = true -> not_newline c = true.
Proof.
  intros Hc. unfold not_newline. destruct (Ascii.eqb_spec c newline) as [->|]; done.
Qed.

Lemma numeric_name_char c : numeric_char c = true -> name_char c = true.
Proof.
  intros Hc. unfold name_char.
  destruct (Ascii.eqb_spec c newline) as [->|]; [done|].
  destruct (Ascii.eqb_spec c space) as [->|]; done.
Qed.

Lemma Itoa_not_newline z : chars not_newline (Itoa z) = true.
Proof. eapply chars_mono; [apply numeric_not_newline | apply Itoa_chars]. Qed.

Lemma fixed_digits_chars k m : chars numeric_char (fixed_digits k m) = true.
Proof.
  revert m. induction k as [|k IH]; intros m; [done|]. cbn [fixed_digits].
  rewrite chars_app, IH. cbn [chars andb].
  by rewrite numeric_digit by (pose proof (Z.mod_pos_bound m 10); lia).
Qed.

Lemma format_6f_chars q : chars numeric_char (format_6f q) = true.
Proof. unfold format_6f. by rewrite !chars_app, Itoa_chars, fixed_digits_chars. Qed.

Lemma single_ok name help kind value :
  forallb line_ok (single name help kind "0") = true -> chars not_newline value = true ->
  Forall (fun l => line_ok l = true) (single name help kind value).
Proof.
  unfold single, block. cbn [app forallb line_ok]. intros H Hv. bool_to_prop.
  repeat constructor; cbn [line_ok]; rewrite ?Hv; repeat (apply andb_true_intro; split); done.
Qed.

Lemma code_sample_ok r code : line_ok (code_sample r code) = true.
Proof.
  unfold code_sample, quoted. cbn [line_ok]. rewrite Itoa_not_newline, andb_true_r.
  apply andb_true_intro. split; [by rewrite append_cons|].
  rewrite chars_app, append_cons. cbn [chars]. rewrite !chars_app.
  rewrite (chars_mono _ name_char (Itoa code) numeric_name_char (Itoa_chars code)). done.
Qed.

Ltac itoa_line := apply single_ok; [vm_compute; reflexivity | apply Itoa_not_newline].

Lemma metric_lines_ok r : Forall (fun l => line_ok l = true) (metric_lines r).
Proof.
  unfold metric_lines.
  do 2 (apply Forall_app_2; [itoa_line|]).
  apply Forall_app_2.
  { apply single_ok; [vm_compute; reflexivity|].
    eapply chars_mono; [apply numeric_not_newline | apply format_6f_chars]. }
  apply Forall_app_2.
  { unfold block. repeat (apply Forall_cons; split; [vm_compute; reflexivity|]).
    apply Forall_fmap, Forall_true. intros c. apply code_sample_ok. }
  do 8 (apply Forall_app_2; [itoa_line|]). itoa_line.
Qed.

Lemma samples_app l1 l2 : samples (l1 ++ l2) = samples l1 ++ samples l2.
Proof. apply omap_app. Qed.

(** The codes are the keys of the map, each once, in increasing order. *)
Lemma codes_spec r :
  StronglySorted Z.lt (codes r) /\ forall c, c ∈ codes r <-> is_Some (responses r !! c).
Proof.
  assert (forall c, c ∈ codes r <-> is_Some (responses r !! c)) as Hin.
  { intros c. unfold codes. rewrite merge_sort_Permutation, list_elem_of_fmap. split.
    - intros ([c' n] & -> & Hn%elem_of_map_to_list). by exists n.
    - intros [n Hn]. exists (c, n). split; [done|]. by apply elem_of_map_to_list. }
  split; [|done].
  assert (NoDup (codes r)) as Hnd.
  { unfold codes. rewrite merge_sort_Permutation. apply NoDup_fst_map_to_list. }
  assert (StronglySorted Z.le (codes r)) as Hs by apply (StronglySorted_merge_sort Z.le).
  revert Hnd Hs. generalize (codes r). clear. induction 2 as [|c l Hl IH Hc]; [constructor|].
  apply NoDup_cons in Hnd as [Hni Hnd]. constructor; [by apply IH|].
  rewrite Forall_forall in Hc |- *. intros d Hd. specialize (Hc d Hd).
  assert (c <> d) by congruence. lia.
Qed.

(** C30: a scraper that reads the text of [ServeHTTP] line by line gets exactly
    the registry's counters under their names: the fixed ones in order, and one
    sample per recorded status code, each code once and in increasing order. *)
Theorem ServeHTTP_roundtrip r :
  scrape_text (ServeHTTP r) =
    [("gateway_http_requests_total", Itoa (requests r));
     ("gateway_http_requests_in_flight", Itoa (inFlight r));
     ("gateway_http_request_duration_seconds_sum", format_6f (duration_seconds (durationNano r)))]
    ++ ((fun c => ("gateway_http_responses_total{code=" +:+ quoted (Itoa c) +:+ "}",
                   Itoa (default 0 (responses r !! c)))) <$> codes r)
    ++ [("gateway_usage_queue_capacity", Itoa (usageQueueCapacity r));
        ("gateway_usage_queue_depth", Itoa (usageQueueDepth r));
        ("gateway_usage_events_enqueued_total", Itoa (usageEnqueued r));
        ("gateway_usage_events_dropped_total", Itoa (usageDropped r));
        ("gateway_usage_retries_total", Itoa (usageRetries r));
        ("gateway_usage_batches_persisted_total", Itoa (usageBatches r));
        ("gateway_usage_events_persisted_total", Itoa (usagePersisted r));
        ("gateway_usage_events_dead_lettered_total", Itoa (usageDeadLettered r));
        ("gateway_usage_dead_letter_failures_total", Itoa (usageDeadLetterFailures r))]
  /\ StronglySorted Z.lt (codes r) /\ (forall c, c ∈ codes r <-> is_Some (responses r !! c)).
Proof.
  split; [|apply codes_spec]. unfold scrape_text, ServeHTTP.
  rewrite scrape_lines by (apply lines_text_length || apply metric_lines_ok).
  unfold metric_lines. rewrite !samples_app. unfold single, block. rewrite !samples_app.
  cbn [samples omap list_omap app]. do 3 f_equal.
  f_equal. induction (codes r) as [|c l IH]; [done|]. cbn. by f_equal.
Qed.

(** ** Conservation of the request counters *)

Definition n_requests (a : atom) : Z := match a with AddRequests => 1 | _ => 0 end.
Definition n_inFlight (a : atom) : Z := match a with AddInFlight d => d | _ => 0 end.
Definition n_duration (a : atom) : Z := match a with AddDuration d => d | _ => 0 end.
Definition n_response (c : Z) (a : atom) : Z :=
  match a with AddResponse s => if decide (s = c) then 1 else 0 | _ => 0 end.

(** Every field after a sequence of atomic updates is the wrapped sum of what
    the updates add to it, whatever their order. *)
Lemma apply_atoms_sums l :
  let r := apply_atoms l NewRegistry in
  requests r = wrapu64 (sumZ n_requests l) /\ inFlight r = wrap64 (sumZ n_inFlight l)
  /\ durationNano r = wrapu64 (sumZ n_duration l)
  /\ forall c, responses r !! c =
       if decide (sumZ (n_response c) l = 0) then None else Some (wrapu64 (sumZ (n_response c) l)).
Proof.
  induction l as [|a l (Hr & Hi & Hd & Hs)] using rev_ind; [done|].
  unfold apply_atoms in *. rewrite foldl_app. cbn [foldl flip].
  set (r := foldl _ _ _) in *. rewrite !sumZ_app.
  destruct a; cbn [apply_atom upd_http requests inFlight durationNano responses
    n_requests n_inFlight n_duration sumZ fold_right]; rewrite ?Z.add_0_r; unfold addu, addi, id;
    (split_and!; [try done; by rewrite Hr, wrapu64_add_l
                 |try done; by rewrite Hi, wrap64_add_l
                 |try done; by rewrite Hd, wrapu64_add_r, wrapu64_add_l|]);
    intros c; rewrite sumZ_app; cbn [n_response sumZ fold_right]; rewrite ?Z.add_0_r;
    [apply Hs..|].
  unfold bump. assert (0 <= sumZ (n_response c) l).
  { apply sumZ_nonneg. intros a _. destruct a; simpl; [lia..|]. case_decide; lia. }
  destruct (decide (status = c)) as [->|Hne].
  - rewrite lookup_insert_eq, Hs. rewrite (decide_False (P := _ + _ = 0)) by lia.
    case_decide as E; [by rewrite E|]. cbn. by rewrite wrapu64_add_l.
  - rewrite lookup_insert_ne by done. rewrite !Z.add_0_r. apply Hs.
Qed.

(** Whatever way the atomic updates of concurrent requests are
    interleaved, the registry ends with the number of requests begun, begun
    but not finished, the total duration of the finished ones and, for every
    status code, the number of requests that finished with it, each modulo its
    machine width; a code nobody finished with has no entry. *)
Theorem interleaving_counts (begun : nat) (finished : list (Z * Z)) (atoms : list atom) :
  atoms ≡ₚ concat (replicate begun Begin) ++ concat ((fun f => finish f.1 f.2) <$> finished) ->
  let r := apply_atoms atoms NewRegistry in
  let with_code c := filter (fun f => f.1 = c) finished in
  requests r = wrapu64 (Z.of_nat begun)
  /\ inFlight r = wrap64 (Z.of_nat begun - Z.of_nat (length finished))
  /\ durationNano r = wrapu64 (sumZ snd finished)
  /\ forall c, responses r !! c =
       if decide (with_code c = []) then None else Some (wrapu64 (Z.of_nat (length (with_code c)))).
Proof.
  intros Hp r with_code.
  assert (forall f, sumZ f atoms =
    Z.of_nat begun * sumZ f Begin + sumZ (fun a => sumZ f (finish a.1 a.2)) finished) as Hsum.
  { intros f. rewrite (sumZ_perm f _ _ Hp), sumZ_app, sumZ_concat. f_equal.
    clear. induction begun as [|n IH]; [done|]. cbn [replicate concat]. rewrite sumZ_app, IH. lia. }
  destruct (apply_atoms_sums atoms) as (Hr & Hi & Hd & Hs).
  rewrite Hsum in Hr, Hi, Hd. fold r in Hr, Hi, Hd, Hs.
  cbn in Hr, Hi, Hd. rewrite sumZ_const in Hr, Hi. split_and!.
  - rewrite Hr. f_equal. lia.
  - rewrite Hi. f_equal. lia.
  - rewrite Hd. f_equal. rewrite Z.mul_0_r. apply sumZ_ext. intros. lia.
  - intros c. rewrite Hs, Hsum. change (sumZ (n_response c) Begin) with 0.
    rewrite Z.mul_0_r, Z.add_0_l.
    assert (sumZ (fun a => sumZ (n_response c) (finish a.1 a.2)) finished
            = Z.of_nat (length (with_code c))) as ->.
    { subst with_code. clear. induction finished as [|a l IH]; [done|].
      cbn [sumZ fold_right]. unfold sumZ in IH at 1. rewrite IH, filter_cons. cbn.
      case_decide; simpl; lia. }
    destruct (with_code c); [done|]. by rewrite !decide_False.
Qed.

Lemma interleaving_counts_witness :
  let atoms := [AddRequests; AddRequests; AddInFlight 1; AddInFlight 1; AddInFlight (-1);
                AddResponse 429; AddDuration 7] in
  let r := apply_atoms atoms NewRegistry in
  requests r = 2 /\ inFlight r = 1 /\ responses r !! 429 = Some 1 /\ responses r !! 200 = None.
Proof.
  intros atoms r.
  destruct (interleaving_counts 2 [(429, 7)] atoms) as (H1 & H2 & _ & H4).
  - subst atoms. cbn. solve_Permutation.
  - split; [exact H1|]. split; [exact H2|]. split; [exact (H4 429) | exact (H4 200)].
Defined.
