(* ===== verification/Pipeline.v ===== *)
(** * The asynchronous usage pipeline ([internal/usage/pipeline.go])

    A bounded channel, any number of goroutines in [Enqueue], any number in
    [Close], and the worker [run].  Every goroutine has a program counter, and
    [step] is one atomic action of one of them: a channel or lock operation, a
    call of the observer or of the store, a test of a shared variable.  An
    interleaving is a list of actions.  What the code does not decide (which
    ready case a [select] takes, when a timer fires, when a deadline expires,
    what the store answers) is carried by the action. *)

From Stdlib Require Import ZArith Lia.
From stdpp Require Import base tactics numbers list strings.
From S2P Require Import Prelude GoLib Event Metrics.

(** ** Interfaces *)

(** The interface [Observer]. *)
Class Observer (O : Type) := {
  o_SetUsageQueueCapacity : Z -> O -> O;
  o_SetUsageQueueDepth : Z -> O -> O;
  o_RecordUsageEnqueued : O -> O;
  o_RecordUsageDropped : Z -> O -> O;
  o_RecordUsageRetry : O -> O;
  o_RecordUsageBatch : Z -> O -> O;
  o_RecordUsageDeadLettered : Z -> O -> O;
  o_RecordUsageDeadLetterFailure : Z -> O -> O;
}.

#[export] Instance Registry_Observer : Observer Registry := {
  o_SetUsageQueueCapacity := SetUsageQueueCapacity;
  o_SetUsageQueueDepth := SetUsageQueueDepth;
  o_RecordUsageEnqueued := RecordUsageEnqueued;
  o_RecordUsageDropped := RecordUsageDropped;
  o_RecordUsageRetry := RecordUsageRetry;
  o_RecordUsageBatch := RecordUsageBatch;
  o_RecordUsageDeadLettered := RecordUsageDeadLettered;
  o_RecordUsageDeadLetterFailure := RecordUsageDeadLetterFailure;
}.

(** [noopObserver], which stands in for a nil observer. *)
#[export] Instance noopObserver : Observer unit := {
  o_SetUsageQueueCapacity := fun _ o => o;
  o_SetUsageQueueDepth := fun _ o => o;
  o_RecordUsageEnqueued := fun o => o;
  o_RecordUsageDropped := fun _ o => o;
  o_RecordUsageRetry := fun o => o;
  o_RecordUsageBatch := fun _ o => o;
  o_RecordUsageDeadLettered := fun _ o => o;
  o_RecordUsageDeadLetterFailure := fun _ o => o;
}.

(** The interface [Store]: the state of the storage and the two calls.  The
    first argument is what the call meets outside the program (a database
    error, a cancelled context, the server's clock). *)
Class UsageStore (F D : Type) := {
  s_PersistUsage : F -> list Event -> D -> res unit * D;
  s_PersistUsageDeadLetters : F -> list Event -> string -> Z -> D -> res unit * D;
}.

(** What the pipeline relies on: an acknowledged event is in the storage, and
    no call removes one. *)
Class UsageStoreLaws (F D : Type) `{UsageStore F D} := {
  stored : D -> Event -> Prop;
  dead_lettered : D -> Event -> Prop;
  PersistUsage_stores f b s s' e :
    s_PersistUsage f b s = (Ok tt, s') -> e ∈ b -> stored s' e;
  PersistUsage_keeps f b s e :
    (stored s e -> stored (s_PersistUsage f b s).2 e)
    /\ (dead_lettered s e -> dead_lettered (s_PersistUsage f b s).2 e);
  DeadLetters_stores f b m n s s' e :
    s_PersistUsageDeadLetters f b m n s = (Ok tt, s') -> e ∈ b -> dead_lettered s' e;
  DeadLetters_keeps f b m n s e :
    (stored s e -> stored (s_PersistUsageDeadLetters f b m n s).2 e)
    /\ (dead_lettered s e -> dead_lettered (s_PersistUsageDeadLetters f b m n s).2 e);
}.

Record Config := {
  QueueCapacity : Z;
  BatchSize : Z;
  FlushInterval : Z;
  MaxAttempts : Z;
  RetryBaseDelay : Z;
}.

(** ** Retry delays *)

Definition maximum : Z := 30 * Second.

(** The loop of [retryDelay], with the number of iterations its counter
    allows, and the test after it. *)
Fixpoint retry_loop (n : nat) (delay : Z) : Z :=
  match n with
  | S n' =>
      if delay <? maximum then
        if go_div maximum 2 <? delay then maximum else retry_loop n' (wrap64 (delay * 2))
      else if maximum <? delay then maximum else delay
  | O => if maximum <? delay then maximum else delay
  end.

Definition retryDelay (base failedAttempt : Z) : Z :=
  retry_loop (Z.to_nat (failedAttempt - 1)) base.

(** ** Goroutines *)

(** A call of [Enqueue]. *)
Inductive producer :=
| P_start (e : Event)             (* before [Validate] *)
| P_invalid (e : Event)           (* about to count a rejected event, no lock held *)
| P_rlock (e : Event)             (* at [RLock] *)
| P_locked (e : Event)            (* about to test [closed] *)
| P_select (e : Event)            (* at the [select] *)
| P_sent                          (* about to [RecordUsageEnqueued] *)
| P_counted                       (* about to read [len(p.queue)] *)
| P_depth (n : Z)                 (* about to [SetUsageQueueDepth] *)
| P_drop (e : Event)              (* about to count a dropped event, lock held *)
| P_unlock (b : bool)             (* about to [RUnlock] *)
| P_ret (b : bool).

(** A call of [Close]. *)
Inductive closer :=
| C_start                         (* at [closeOnce.Do] *)
| C_lock                          (* at [Lock] *)
| C_pending                       (* in [Lock], waiting for the readers *)
| C_held                          (* about to set [closed] *)
| C_flagged                       (* about to close the channel *)
| C_unlock                        (* about to [Unlock] *)
| C_wait                          (* at the [select] on [done] and [ctx.Done] *)
| C_cancel                        (* about to [cancel] *)
| C_drain                         (* waiting for [done] after [cancel] *)
| C_ret (ok : bool).

(** Where a flush was called from. *)
Inductive site := AtSize | AtTimer | AtClose.

(** The worker. *)
Inductive worker :=
| W_select
| W_got (e : Event)               (* about to read [len(p.queue)] *)
| W_depth (e : Event) (n : Z)     (* about to [SetUsageQueueDepth], then append *)
| W_persist (k : site) (attempt : Z)
| W_persisted (k : site)          (* about to [RecordUsageBatch] *)
| W_failed (k : site) (attempt : Z) (err : gerror)
| W_waiting (k : site) (attempt delay : Z) (err : gerror)
| W_abandon (k : site)            (* cancelled while waiting *)
| W_exhausted (k : site) (err : gerror)
| W_dead_ok (k : site)
| W_dead_fail (k : site)          (* about to [RecordUsageDeadLetterFailure] *)
| W_dead_drop (k : site)
| W_drop (n : Z)                  (* cancelled: about to count the events left *)
| W_zero                          (* about to [SetUsageQueueDepth(0)] *)
| W_stop                          (* the deferred [timer.Stop] and [cancel] *)
| W_close                         (* the deferred [close(p.done)] *)
| W_done.

Inductive flush_timer := Stopped | Armed | Fired.

(** [sync.Once]: not called, running in the call of that index, done. *)
Inductive once := Fresh | Running (i : nat) | Done.

(** The writer side of the [sync.RWMutex].  A waiting writer blocks new
    readers. *)
Inductive writer := Free | Pending | Held.

(** What became of an event the channel accepted. *)
Inductive fate := Persisted | DeadLettered | Lost.

#[export] Instance fate_eq_dec : EqDecision fate.
Proof. solve_decision. Defined.
#[export] Instance flush_timer_eq_dec : EqDecision flush_timer.
Proof. solve_decision. Defined.
#[export] Instance writer_eq_dec : EqDecision writer.
Proof. solve_decision. Defined.

(** ** State *)

(** The shared part of [Pipeline]: the channel, [closed], the lock, the once,
    the context, [done], and whether a goroutine has panicked. *)
Record shared := {
  queue : list Event;
  chan_closed : bool;
  closed : bool;
  readers : Z;
  lock : writer;
  close_once : once;
  cancelled : bool;
  done_closed : bool;
  panicked : bool;
}.

Definition set_queue (v : list Event) (s : shared) : shared :=
  {| queue := v; chan_closed := chan_closed s; closed := closed s;
     readers := readers s; lock := lock s; close_once := close_once s;
     cancelled := cancelled s; done_closed := done_closed s; panicked := panicked s |}.
Definition set_chan_closed (v : bool) (s : shared) : shared :=
  {| queue := queue s; chan_closed := v; closed := closed s; readers := readers s;
     lock := lock s; close_once := close_once s; cancelled := cancelled s;
     done_closed := done_closed s; panicked := panicked s |}.
Definition set_closed (v : bool) (s : shared) : shared :=
  {| queue := queue s; chan_closed := chan_closed s; closed := v;
     readers := readers s; lock := lock s; close_once := close_once s;
     cancelled := cancelled s; done_closed := done_closed s; panicked := panicked s |}.
Definition set_readers (v : Z) (s : shared) : shared :=
  {| queue := queue s; chan_closed := chan_closed s; closed := closed s; readers := v;
     lock := lock s; close_once := close_once s; cancelled := cancelled s;
     done_closed := done_closed s; panicked := panicked s |}.
Definition set_lock (v : writer) (s : shared) : shared :=
  {| queue := queue s; chan_closed := chan_closed s; closed := closed s;
     readers := readers s; lock := v; close_once := close_once s;
     cancelled := cancelled s; done_closed := done_closed s; panicked := panicked s |}.
Definition set_close_once (v : once) (s : shared) : shared :=
  {| queue := queue s; chan_closed := chan_closed s; closed := closed s;
     readers := readers s; lock := lock s; close_once := v; cancelled := cancelled s;
     done_closed := done_closed s; panicked := panicked s |}.
Definition set_cancelled (v : bool) (s : shared) : shared :=
  {| queue := queue s; chan_closed := chan_closed s; closed := closed s;
     readers := readers s; lock := lock s; close_once := close_once s; cancelled := v;
     done_closed := done_closed s; panicked := panicked s |}.
Definition set_done_closed (v : bool) (s : shared) : shared :=
  {| queue := queue s; chan_closed := chan_closed s; closed := closed s;
     readers := readers s; lock := lock s; close_once := close_once s;
     cancelled := cancelled s; done_closed := v; panicked := panicked s |}.
Definition set_panicked (v : bool) (s : shared) : shared :=
  {| queue := queue s; chan_closed := chan_closed s; closed := closed s;
     readers := readers s; lock := lock s; close_once := close_once s;
     cancelled := cancelled s; done_closed := done_closed s; panicked := v |}.

(** [obs] is the observer and [disk] the storage.  The last three fields are
    history: the events the channel accepted in order, what became of the ones
    the worker is through with, and the ones [Enqueue] rejected. *)
Record state (O D : Type) := {
  sh : shared;
  obs : O;
  disk : D;
  wk : worker;
  batch : list Event;
  timer : flush_timer;
  producers : list producer;
  closers : list (closer * bool);
  sent : list Event;
  disposed : list (Event * fate);
  rejected : list Event;
}.
Arguments sh {O D}.
Arguments obs {O D}.
Arguments disk {O D}.
Arguments wk {O D}.
Arguments batch {O D}.
Arguments timer {O D}.
Arguments producers {O D}.
Arguments closers {O D}.
Arguments sent {O D}.
Arguments disposed {O D}.
Arguments rejected {O D}.

Section Machine.
Context {O D F : Type} `{Observer O} `{UsageStore F D}.
Variable cfg : Config.

Notation state := (state O D).

Definition set_sh (v : shared) (s : state) : state :=
  {| sh := v; obs := obs s; disk := disk s; wk := wk s; batch := batch s;
     timer := timer s; producers := producers s; closers := closers s; sent := sent s;
     disposed := disposed s; rejected := rejected s |}.
Definition set_obs (v : O) (s : state) : state :=
  {| sh := sh s; obs := v; disk := disk s; wk := wk s; batch := batch s;
     timer := timer s; producers := producers s; closers := closers s; sent := sent s;
     disposed := disposed s; rejected := rejected s |}.
Definition set_disk (v : D) (s : state) : state :=
  {| sh := sh s; obs := obs s; disk := v; wk := wk s; batch := batch s;
     timer := timer s; producers := producers s; closers := closers s; sent := sent s;
     disposed := disposed s; rejected := rejected s |}.
Definition set_wk (v : worker) (s : state) : state :=
  {| sh := sh s; obs := obs s; disk := disk s; wk := v; batch := batch s;
     timer := timer s; producers := producers s; closers := closers s; sent := sent s;
     disposed := disposed s; rejected := rejected s |}.
Definition set_batch (v : list Event) (s : state) : state :=
  {| sh := sh s; obs := obs s; disk := disk s; wk := wk s; batch := v;
     timer := timer s; producers := producers s; closers := closers s; sent := sent s;
     disposed := disposed s; rejected := rejected s |}.
Definition set_timer (v : flush_timer) (s : state) : state :=
  {| sh := sh s; obs := obs s; disk := disk s; wk := wk s; batch := batch s;
     timer := v; producers := producers s; closers := closers s; sent := sent s;
     disposed := disposed s; rejected := rejected s |}.
Definition set_producers (v : list producer) (s : state) : state :=
  {| sh := sh s; obs := obs s; disk := disk s; wk := wk s; batch := batch s;
     timer := timer s; producers := v; closers := closers s; sent := sent s;
     disposed := disposed s; rejected := rejected s |}.
Definition set_closers (v : list (closer * bool)) (s : state) : state :=
  {| sh := sh s; obs := obs s; disk := disk s; wk := wk s; batch := batch s;
     timer := timer s; producers := producers s; closers := v; sent := sent s;
     disposed := disposed s; rejected := rejected s |}.
Definition set_sent (v : list Event) (s : state) : state :=
  {| sh := sh s; obs := obs s; disk := disk s; wk := wk s; batch := batch s;
     timer := timer s; producers := producers s; closers := closers s; sent := v;
     disposed := disposed s; rejected := rejected s |}.
Definition set_disposed (v : list (Event * fate)) (s : state) : state :=
  {| sh := sh s; obs := obs s; disk := disk s; wk := wk s; batch := batch s;
     timer := timer s; producers := producers s; closers := closers s; sent := sent s;
     disposed := v; rejected := rejected s |}.
Definition set_rejected (v : list Event) (s : state) : state :=
  {| sh := sh s; obs := obs s; disk := disk s; wk := wk s; batch := batch s;
     timer := timer s; producers := producers s; closers := closers s; sent := sent s;
     disposed := disposed s; rejected := v |}.

Definition upd_sh (f : shared -> shared) (s : state) : state := set_sh (f (sh s)) s.
Definition observe (f : O -> O) (s : state) : state := set_obs (f (obs s)) s.
Definition goto_producer (i : nat) (p : producer) (s : state) : state :=
  set_producers (<[i := p]> (producers s)) s.
Definition goto_closer (i : nat) (c : closer) (s : state) : state :=
  set_closers (alter (fun x => (c, x.2)) i (closers s)) s.
Definition panic (s : state) : state := upd_sh (set_panicked true) s.

(** ** [Enqueue] *)

(** One action of the call of [Enqueue] at index [i]. *)
Definition producer_step (i : nat) (p : producer) (s : state) : option state :=
  match p with
  | P_start e =>
      Some (goto_producer i (if is_ok (Validate e) then P_rlock e else P_invalid e) s)
  | P_invalid e =>
      Some (goto_producer i (P_ret false)
             (observe (o_RecordUsageDropped 1) (set_rejected (rejected s ++ [e]) s)))
  | P_rlock e =>
      match lock (sh s) with
      | Free => Some (goto_producer i (P_locked e) (upd_sh (set_readers (readers (sh s) + 1)) s))
      | _ => None
      end
  | P_locked e =>
      Some (goto_producer i (if closed (sh s) then P_drop e else P_select e) s)
  | P_select e =>
      if chan_closed (sh s) then Some (panic s)
      else if Z.of_nat (length (queue (sh s))) <? QueueCapacity cfg then
        Some (goto_producer i P_sent
               (set_sent (sent s ++ [e]) (upd_sh (set_queue (queue (sh s) ++ [e])) s)))
      else Some (goto_producer i (P_drop e) s)
  | P_sent => Some (goto_producer i P_counted (observe o_RecordUsageEnqueued s))
  | P_counted => Some (goto_producer i (P_depth (Z.of_nat (length (queue (sh s))))) s)
  | P_depth n => Some (goto_producer i (P_unlock true) (observe (o_SetUsageQueueDepth n) s))
  | P_drop e =>
      Some (goto_producer i (P_unlock false)
             (observe (o_RecordUsageDropped 1) (set_rejected (rejected s ++ [e]) s)))
  | P_unlock b =>
      Some (goto_producer i (P_ret b) (upd_sh (set_readers (readers (sh s) - 1)) s))
  | P_ret _ => None
  end.

(** ** [Close] *)

(** One action of the call of [Close] at index [i]; [expired] says whether its
    context is done, [pick] which case its [select] takes. *)
Definition closer_step (i : nat) (c : closer) (expired pick : bool) (s : state) : option state :=
  match c with
  | C_start =>
      match close_once (sh s) with
      | Fresh => Some (goto_closer i C_lock (upd_sh (set_close_once (Running i)) s))
      | Running _ => None
      | Done => Some (goto_closer i C_wait s)
      end
  | C_lock => Some (goto_closer i C_pending (upd_sh (set_lock Pending) s))
  | C_pending =>
      if readers (sh s) =? 0 then Some (goto_closer i C_held (upd_sh (set_lock Held) s)) else None
  | C_held => Some (goto_closer i C_flagged (upd_sh (set_closed true) s))
  | C_flagged =>
      if chan_closed (sh s) then Some (panic s)
      else Some (goto_closer i C_unlock (upd_sh (set_chan_closed true) s))
  | C_unlock =>
      Some (goto_closer i C_wait (upd_sh (set_close_once Done) (upd_sh (set_lock Free) s)))
  | C_wait =>
      if pick then if done_closed (sh s) then Some (goto_closer i (C_ret true) s) else None
      else if expired then Some (goto_closer i C_cancel s) else None
  | C_cancel => Some (goto_closer i C_drain (upd_sh (set_cancelled true) s))
  | C_drain => if done_closed (sh s) then Some (goto_closer i (C_ret false) s) else None
  | C_ret _ => None
  end.

(** ** [run] and [persist] *)

(** [timer.Stop]: whether the call stopped the timer, and the timer after it.
    Since Go 1.23 a value nobody has received yet is withdrawn. *)
Definition timer_Stop (t : flush_timer) : bool * flush_timer :=
  match t with Stopped => (false, Stopped) | _ => (true, Stopped) end.

(** [timer.Reset]. *)
Definition timer_Reset (t : flush_timer) : flush_timer := Armed.

(** [resetTimer]: stop, drain the channel if the timer was not running, start
    again. *)
Definition resetTimer (t : flush_timer) : flush_timer :=
  let '(active, t1) := timer_Stop t in
  let t2 := if active then t1 else match t1 with Fired => Stopped | _ => t1 end in
  timer_Reset t2.

(** What the worker does after [flush] returns. *)
Definition after_flush (k : site) (s : state) : state :=
  match k with
  | AtSize => set_wk W_select (set_timer (resetTimer (timer s)) s)
  | AtTimer => set_wk W_select (set_timer (timer_Reset (timer s)) s)
  | AtClose => set_wk W_zero s
  end.

(** [flush], up to the first storage call of [persist].  A loop without
    iterations would leave [lastErr] nil, and [lastErr.Error()] panics. *)
Definition flush (k : site) (s : state) : state :=
  match batch s with
  | [] => after_flush k s
  | _ => if 1 <=? MaxAttempts cfg then set_wk (W_persist k 1) s else panic s
  end.

(** [persist] returns and [batch = batch[:0]]; the events had fate [f]. *)
Definition settle (k : site) (f : fate) (s : state) : state :=
  after_flush k (set_batch [] (set_disposed (disposed s ++ ((., f) <$> batch s)) s)).

Definition batch_len (s : state) : Z := Z.of_nat (length (batch s)).

(** The case a [select] of the worker takes. *)
Inductive choice := OnCancel | OnQueue | OnTimer.

Definition worker_step (ch : choice) (f : F) (s : state) : option state :=
  match wk s with
  | W_select =>
      match ch with
      | OnCancel =>
          if cancelled (sh s) then
            Some (set_wk (W_drop (batch_len s + Z.of_nat (length (queue (sh s))))) s)
          else None
      | OnQueue =>
          match queue (sh s) with
          | e :: q => Some (set_wk (W_got e) (upd_sh (set_queue q) s))
          | [] => if chan_closed (sh s) then Some (flush AtClose s) else None
          end
      | OnTimer =>
          match timer s with
          | Fired => Some (flush AtTimer (set_timer Stopped s))
          | _ => None
          end
      end
  | W_got e => Some (set_wk (W_depth e (Z.of_nat (length (queue (sh s))))) s)
  | W_depth e n =>
      let s' := set_batch (batch s ++ [e]) (observe (o_SetUsageQueueDepth n) s) in
      Some (if BatchSize cfg <=? batch_len s' then flush AtSize s' else set_wk W_select s')
  | W_persist k a =>
      let '(r, d) := s_PersistUsage f (batch s) (disk s) in
      Some (set_wk (match r with Ok _ => W_persisted k | Err e => W_failed k a e end) (set_disk d s))
  | W_persisted k => Some (settle k Persisted (observe (o_RecordUsageBatch (batch_len s)) s))
  | W_failed k a e =>
      if a =? MaxAttempts cfg then Some (set_wk (W_exhausted k e) s)
      else Some (set_wk (W_waiting k a (retryDelay (RetryBaseDelay cfg) a) e)
                  (observe o_RecordUsageRetry s))
  | W_waiting k a _ e =>
      match ch with
      | OnTimer =>
          let a' := wrap64 (a + 1) in
          Some (set_wk (if a' <=? MaxAttempts cfg then W_persist k a' else W_exhausted k e) s)
      | OnCancel => if cancelled (sh s) then Some (set_wk (W_abandon k) s) else None
      | OnQueue => None
      end
  | W_abandon k => Some (settle k Lost (observe (o_RecordUsageDropped (batch_len s)) s))
  | W_exhausted k e =>
      let '(r, d) := s_PersistUsageDeadLetters f (batch s) (error_text e) (MaxAttempts cfg) (disk s) in
      Some (set_wk (if is_ok r then W_dead_ok k else W_dead_fail k) (set_disk d s))
  | W_dead_ok k =>
      Some (settle k DeadLettered (observe (o_RecordUsageDeadLettered (batch_len s)) s))
  | W_dead_fail k =>
      Some (set_wk (W_dead_drop k) (observe (o_RecordUsageDeadLetterFailure (batch_len s)) s))
  | W_dead_drop k => Some (settle k Lost (observe (o_RecordUsageDropped (batch_len s)) s))
  | W_drop n =>
      let s' := if 0 <? n then observe (o_RecordUsageDropped n) s else s in
      Some (set_wk W_zero
             (set_disposed (disposed s ++ ((., Lost) <$> batch s ++ queue (sh s))) s'))
  | W_zero => Some (set_wk W_stop (observe (o_SetUsageQueueDepth 0) s))
  | W_stop => Some (set_wk W_close (set_timer (timer_Stop (timer s)).2 (upd_sh (set_cancelled true) s)))
  | W_close =>
      if done_closed (sh s) then Some (panic s)
      else Some (set_wk W_done (upd_sh (set_done_closed true) s))
  | W_done => None
  end.

(** ** The system *)

Inductive action :=
| A_enqueue (e : Event)           (* a goroutine calls [Enqueue] *)
| A_producer (i : nat)
| A_close                         (* a goroutine calls [Close] *)
| A_closer (i : nat) (pick : bool)
| A_deadline (i : nat)            (* the context of that [Close] is done *)
| A_timer                         (* the flush interval has passed *)
| A_worker (ch : choice) (f : F).

(** One action; [None] when the goroutine is blocked, finished or absent, and
    after a panic, which ends the process. *)
Definition step (a : action) (s : state) : option state :=
  if panicked (sh s) then None else
  match a with
  | A_enqueue e => Some (set_producers (producers s ++ [P_start e]) s)
  | A_producer i => p ← producers s !! i; producer_step i p s
  | A_close => Some (set_closers (closers s ++ [(C_start, false)]) s)
  | A_closer i pick => '(c, expired) ← closers s !! i; closer_step i c expired pick s
  | A_deadline i => Some (set_closers (alter (fun x => (x.1, true)) i (closers s)) s)
  | A_timer => match timer s with Armed => Some (set_timer Fired s) | _ => None end
  | A_worker ch f => worker_step ch f s
  end.

Fixpoint run (acts : list action) (s : state) : option state :=
  match acts with
  | [] => Some s
  | a :: acts' => s' ← step a s; run acts' s'
  end.

(** [NewPipeline]: the checks in order, and the state it starts. *)
Definition initial (o : O) (d : D) : state :=
  {| sh := {| queue := []; chan_closed := false; closed := false; readers := 0; lock := Free;
              close_once := Fresh; cancelled := false; done_closed := false; panicked := false |};
     obs := o_SetUsageQueueCapacity (QueueCapacity cfg) o; disk := d;
     wk := W_select; batch := []; timer := Armed; producers := []; closers := [];
     sent := []; disposed := []; rejected := [] |}.

Definition NewPipeline (store : option D) (o : O) : res state :=
  match store with
  | None => Err (ErrNew "usage store is nil")
  | Some d =>
      if QueueCapacity cfg <=? 0 then Err (ErrNew "usage queue capacity must be positive")
      else if (BatchSize cfg <=? 0) || (QueueCapacity cfg <? BatchSize cfg) then
        Err (ErrNew "usage batch size must be positive and no larger than queue capacity")
      else if (FlushInterval cfg <=? 0) || (MaxAttempts cfg <=? 0) || (RetryBaseDelay cfg <=? 0) then
        Err (ErrNew "usage flush interval, attempts, and retry delay must be positive")
      else Ok (initial o d)
  end.

(** The states a pipeline that starts in [s0] can be in. *)
Inductive reachable (s0 : state) : state -> Prop :=
| reach_start : reachable s0 s0
| reach_step a s s' : reachable s0 s -> step a s = Some s' -> reachable s0 s'.

End Machine.
Arguments action : clear implicits.

(** ** Retry delays *)

Lemma retry_loop_exact n d :
  0 < d <= 2 ^ 62 -> retry_loop n d = Z.min (d * 2 ^ Z.of_nat n) maximum.
Proof.
  revert d. induction n as [|n IH]; intros d Hd; cbn [retry_loop].
  - rewrite Z.mul_1_r. destruct (Z.ltb_spec maximum d); lia.
  - change (go_div maximum 2) with (15 * Second). unfold maximum, Second in *.
    rewrite Nat2Z.inj_succ, Z.pow_succ_r by lia.
    assert (0 < 2 ^ Z.of_nat n) by (apply Z.pow_pos_nonneg; lia).
    destruct (Z.ltb_spec d (30 * 1000000000)).
    + destruct (Z.ltb_spec (15 * 1000000000) d); [nia|].
      rewrite wrap64_id by (unfold in_int64; lia). rewrite IH by lia. f_equal. lia.
    + destruct (Z.ltb_spec (30 * 1000000000) d); nia.
Qed.

(** The delay before retry [n] is the base delay doubled [n - 1] times and
    capped at 30 seconds, for every base a [time.Duration] can hold: doubling
    never wraps, so the delay never collapses to a small or negative value. *)
Theorem retryDelay_exact base n :
  0 < base < 2 ^ 63 -> 1 <= n -> retryDelay base n = Z.min (base * 2 ^ (n - 1)) maximum.
Proof.
  intros Hb Hn. unfold retryDelay. destruct (Z.le_gt_cases base (2 ^ 62)) as [Hle|Hgt].
  - rewrite retry_loop_exact by lia. by rewrite Z2Nat.id by lia.
  - assert (0 < 2 ^ (n - 1)) by (apply Z.pow_pos_nonneg; lia).
    unfold maximum, Second in *.
    destruct (Z.to_nat (n - 1)); cbn [retry_loop]; unfold maximum, Second in *;
      rewrite ?(proj2 (Z.ltb_ge base _)), (proj2 (Z.ltb_lt _ base)) by lia; nia.
Qed.

Lemma retryDelay_exact_witness : retryDelay (200 * Millisecond) 9 = 30 * Second.
Proof. rewrite (retryDelay_exact (200 * Millisecond) 9); [reflexivity | split; reflexivity | lia]. Defined.

(** ** The synchronisation invariant *)

(** Whether a call of [Enqueue] holds the read lock, and whether it is between
    its test of [closed] and the end of its send. *)
Definition holds_lock (p : producer) : Z :=
  match p with
  | P_start _ | P_invalid _ | P_rlock _ | P_ret _ => 0
  | _ => 1
  end.

Definition sending (p : producer) : bool :=
  match p with P_select _ | P_sent | P_counted | P_depth _ => true | _ => false end.

(** The write lock, [closed] and the channel's state, as the progress of the
    once determines them. *)
Definition once_view (o : once) (cs : list (closer * bool)) : option (writer * bool * bool) :=
  match o with
  | Fresh => Some (Free, false, false)
  | Running i =>
      match cs !! i with
      | Some (C_lock, _) => Some (Free, false, false)
      | Some (C_pending, _) => Some (Pending, false, false)
      | Some (C_held, _) => Some (Held, false, false)
      | Some (C_flagged, _) => Some (Held, true, false)
      | Some (C_unlock, _) => Some (Held, true, true)
      | _ => None
      end
  | Done => Some (Free, true, true)
  end.

Definition closer_ok (o : once) (i : nat) (c : closer) : Prop :=
  match c with
  | C_start => o <> Running i
  | C_lock | C_pending | C_held | C_flagged | C_unlock => o = Running i
  | C_wait | C_cancel | C_drain | C_ret _ => o = Done
  end.

(** The worker positions that follow the end of the queue or a cancellation. *)
Definition ending (w : worker) : bool :=
  match w with
  | W_persist AtClose _ | W_persisted AtClose | W_failed AtClose _ _ | W_waiting AtClose _ _ _
  | W_abandon AtClose | W_exhausted AtClose _ | W_dead_ok AtClose | W_dead_fail AtClose
  | W_dead_drop AtClose | W_drop _ | W_zero | W_stop | W_close | W_done => true
  | _ => false
  end.

Definition is_done (w : worker) : bool := match w with W_done => true | _ => false end.

Lemma holds_lock_nonneg (l : list producer) : 0 <= sumZ holds_lock l.
Proof. apply sumZ_nonneg. intros p _. destruct p; simpl; lia. Qed.

Lemma sumZ_lookup_le (l : list producer) i p :
  l !! i = Some p -> holds_lock p <= sumZ holds_lock l.
Proof.
  intros Hp. rewrite <- (take_drop_middle l i p Hp), sumZ_app. simpl.
  pose proof (holds_lock_nonneg (take i l)). pose proof (holds_lock_nonneg (drop (S i) l)). lia.
Qed.
(** Without readers nobody is sending. *)
Lemma no_readers_no_sender l :
  sumZ holds_lock l = 0 -> Forall (fun p => sending p = false) l.
Proof.
  intros H0. apply Forall_lookup. intros i p Hp. apply sumZ_lookup_le in Hp.
  destruct p; try done; cbn in Hp; lia.
Qed.

#[local] Arguments sumZ : simpl never.

Section Sync.
Context {O D F : Type} `{Observer O} `{UsageStore F D}.
Variable cfg : Config.

Notation state := (state O D).

(** What [NewPipeline] checked, and the width of the [int] field. *)
Definition valid_config : Prop :=
  0 < QueueCapacity cfg /\ 0 < BatchSize cfg <= QueueCapacity cfg
  /\ 0 < MaxAttempts cfg < 2 ^ 63 /\ 0 < RetryBaseDelay cfg.

Lemma NewPipeline_valid (store : option D) (o : O) s0 :
  NewPipeline cfg store o = Ok s0 -> in_int64 (MaxAttempts cfg) -> valid_config
  /\ exists d, store = Some d /\ s0 = initial cfg o d.
Proof.
  unfold NewPipeline, valid_config, in_int64. intros Hnew Hmax. split_guards; bool_to_prop.
  split; [lia | by eexists].
Qed.

Hypothesis Hcfg : valid_config.

Record sync_inv (s : state) : Prop := {
  sy_panic : panicked (sh s) = false;
  sy_readers : readers (sh s) = sumZ holds_lock (producers s);
  sy_view : once_view (close_once (sh s)) (closers s)
            = Some (lock (sh s), closed (sh s), chan_closed (sh s));
  sy_closers : forall i c x, closers s !! i = Some (c, x) -> closer_ok (close_once (sh s)) i c;
  sy_held : lock (sh s) = Held -> readers (sh s) = 0;
  sy_sending : Forall (fun p => sending p = true -> closed (sh s) = false) (producers s);
  sy_cancelled : cancelled (sh s) = true -> chan_closed (sh s) = true;
  sy_ending : ending (wk s) = true -> chan_closed (sh s) = true;
  sy_done : done_closed (sh s) = is_done (wk s);
}.


Lemma initial_sync o d : sync_inv (initial cfg o d).
Proof. by split. Qed.

(** A closed channel means the flag is set and nobody is sending. *)
Lemma chan_closed_closed s : sync_inv s -> chan_closed (sh s) = true -> closed (sh s) = true.
Proof.
  intros Hs Hc. pose proof (sy_view _ Hs) as Hv. rewrite Hc in Hv.
  unfold once_view in Hv. split_guards; try done; congruence.
Qed.

Lemma chan_closed_not_sending s i p :
  sync_inv s -> chan_closed (sh s) = true -> producers s !! i = Some p -> sending p = false.
Proof.
  intros Hs Hc Hp. apply not_true_iff_false. intros Hsend.
  pose proof (Forall_lookup_1 _ _ _ _ (sy_sending _ Hs) Hp Hsend) as Hcl.
  rewrite (chan_closed_closed s) in Hcl by done. done.
Qed.

Lemma producer_step_sync i p s s' :
  sync_inv s -> producers s !! i = Some p -> producer_step cfg i p s = Some s' -> sync_inv s'.
Proof.
  intros Hs Hp Hstep. pose proof (sumZ_lookup_le _ _ _ Hp) as Hle.
  pose proof (Forall_lookup_1 _ _ _ _ (sy_sending _ Hs) Hp) as Hsnd.
  assert (sending p = true -> chan_closed (sh s) = false) as Hopen.
  { intros E. apply not_true_iff_false. intros E'.
    by rewrite (chan_closed_not_sending s i p) in E. }
  destruct Hs as [H1 H2 H3 H4 H5 H6 H7 H8 H9].
  destruct p; cbn in Hstep, Hle, Hsnd, Hopen; rewrite ?Hopen in Hstep by done; split_guards;
    (split; cbn; try done; try by (erewrite sumZ_insert by done; cbn; lia));
    try match goal with E : closed (sh s) = _ |- _ => rewrite E end;
    try (apply Forall_insert; cbn; first [done | congruence | naive_solver]); try (intros; congruence); try (intros HH; specialize (H5 HH); lia).
Qed.

(** The once moves on only in the call that runs it. *)
Lemma closer_ok_frame o o' i j c :
  i <> j -> (o' = o \/ (o = Fresh /\ o' = Running i) \/ (o = Running i /\ o' = Done)) ->
  closer_ok o j c -> closer_ok o' j c.
Proof. intros Hne [->|[[-> ->]|[-> ->]]]; destruct c; cbn; congruence. Qed.

Lemma closers_frame (cs : list (closer * bool)) o o' i c x c' :
  cs !! i = Some (c, x) -> (forall j d y, cs !! j = Some (d, y) -> closer_ok o j d) ->
  (o' = o \/ (o = Fresh /\ o' = Running i) \/ (o = Running i /\ o' = Done)) ->
  closer_ok o' i c' ->
  forall j d y, alter (fun z => (c', z.2)) i cs !! j = Some (d, y) -> closer_ok o' j d.
Proof.
  intros Hi Hall Ho Hc j d y Hj. destruct (decide (i = j)) as [<-|Hne].
  - rewrite list_lookup_alter_eq, Hi in Hj. by simplify_eq/=.
  - rewrite list_lookup_alter_ne in Hj by done. eapply closer_ok_frame; eauto.
Qed.

Lemma closer_step_sync i c x pick s s' :
  sync_inv s -> closers s !! i = Some (c, x) -> closer_step i c x pick s = Some s' -> sync_inv s'.
Proof.
  intros [H1 H2 H3 H4 H5 H6 H7 H8 H9] Hi Hstep. pose proof (H4 _ _ _ Hi) as Hok.
  destruct c; cbn in Hstep, Hok; try (rewrite Hok in H3; cbn in H3; rewrite ?Hi in H3);
    simplify_eq/=; split_guards;
    try (rewrite <- ?Hok in * ); bool_to_prop;
    (split; cbn; try done; try congruence;
     try (unfold once_view; rewrite ?Hok, ?list_lookup_alter_eq, ?Hi; cbn; congruence);
     try (eapply closers_frame; [done | done | naive_solver | cbn; congruence])).
  - by match goal with E : close_once _ = Done |- _ => rewrite E; cbn; congruence end.
  - eapply Forall_impl; [apply no_readers_no_sender; rewrite <- H2; apply H5; congruence|].
    cbn. congruence.
Qed.

(** What the worker leaves alone. *)
Lemma worker_step_frame ch f s s' :
  worker_step cfg ch f s = Some s' ->
  producers s' = producers s /\ closers s' = closers s /\ sent s' = sent s
  /\ rejected s' = rejected s
  /\ readers (sh s') = readers (sh s) /\ lock (sh s') = lock (sh s)
  /\ close_once (sh s') = close_once (sh s) /\ closed (sh s') = closed (sh s)
  /\ chan_closed (sh s') = chan_closed (sh s).
Proof.
  unfold worker_step, settle, flush, after_flush, panic. intros Hstep.
  repeat case_match; simplify_eq/=; done.
Qed.

Lemma worker_step_sync ch f s s' :
  sync_inv s -> worker_step cfg ch f s = Some s' -> sync_inv s'.
Proof.
  intros [H1 H2 H3 H4 H5 H6 H7 H8 H9] Hstep.
  destruct (worker_step_frame _ _ _ _ Hstep) as (E1 & E2 & _ & _ & E3 & E4 & E5 & E6 & E7).
  split; rewrite ?E1, ?E2, ?E3, ?E4, ?E5, ?E6, ?E7; try done;
    revert Hstep; unfold worker_step, settle, flush, after_flush, panic; intros Hstep;
    repeat case_match; simplify_eq/=; try done; intros; auto;
    destruct Hcfg; bool_to_prop; lia.
Qed.

Lemma step_sync a s s' : sync_inv s -> step cfg a s = Some s' -> sync_inv s'.
Proof.
  intros Hs Hstep. unfold step in Hstep. rewrite (sy_panic _ Hs) in Hstep.
  destruct a as [e|i| |i pick|i| |ch f].
  - simplify_eq/=. destruct Hs. split; cbn; try done.
    + rewrite sumZ_app. cbn. rewrite sy_readers0. unfold sumZ at 3. cbn. lia.
    + apply Forall_app_2; [done|]. by constructor.
  - apply bind_Some in Hstep as (p & Hp & Hstep). by eapply producer_step_sync.
  - simplify_eq/=. destruct Hs. split; cbn; try done.
    + rewrite <- sy_view0. unfold once_view. destruct (close_once (sh s)) as [|i|] eqn:Eo; [done| |done].
      destruct (closers s !! i) as [c|] eqn:Hi; 
        [by rewrite lookup_app_l, Hi by by eapply lookup_lt_Some|].
      cbn in sy_view0. by rewrite Hi in sy_view0.
    + intros i c x [Hi|[Hlen Hi]]%lookup_app_Some; [by eapply sy_closers0|].
      destruct (i - _)%nat eqn:Ei; simplify_eq/=. intros E. rewrite E in sy_view0. cbn in sy_view0.
      by rewrite lookup_ge_None_2 in sy_view0 by lia.
  - apply bind_Some in Hstep as ([c x] & Hp & Hstep). by eapply closer_step_sync.
  - simplify_eq/=. destruct Hs. split; cbn; try done.
    + rewrite <- sy_view0. unfold once_view. destruct (close_once (sh s)) as [|j|] eqn:Eo; [done| |done].
      destruct (decide (i = j)) as [<-|Hne].
      * rewrite list_lookup_alter_eq. by destruct (closers s !! i) as [[[] ?]|].
      * by rewrite list_lookup_alter_ne.
    + intros j c x. destruct (decide (i = j)) as [<-|Hne].
      * rewrite list_lookup_alter_eq. destruct (closers s !! i) as [[c' y]|] eqn:Hi; [|done].
        intros; simplify_eq/=. by eapply sy_closers0.
      * rewrite list_lookup_alter_ne by done. apply sy_closers0.
  - case_match; simplify_eq/=. by destruct Hs.
  - by eapply worker_step_sync.
Qed.
End Sync.
