(* ===== verification/PipelineSafety.v ===== *)
(** * Accounting and shutdown of the usage pipeline

    Theorems about [Pipeline]: every accepted event is disposed of exactly
    once and in order, the counters agree with what happened, the bounds of
    the queue and of a batch hold, no goroutine panics, [Enqueue] never waits
    for the worker, and [Close] returns with nothing left in memory. *)

From Stdlib Require Import ZArith Lia.
From stdpp Require Import base tactics numbers list strings.
From S2P Require Import Prelude GoLib Event Metrics Pipeline.

#[local] Arguments sumZ : simpl never.

(** ** Ownership of events *)

Section Data.
Context {O D F : Type} `{Observer O} `{UsageStore F D}.
Variable cfg : Config.
Hypothesis Hcfg : valid_config cfg.

Notation state := (state O D).

(** The accepted events the worker is not through with, oldest first. *)
Definition pending (s : state) : list Event :=
  match wk s with
  | W_got e | W_depth e _ => batch s ++ e :: queue (sh s)
  | W_zero | W_stop | W_close | W_done => []
  | _ => batch s ++ queue (sh s)
  end.

(** In a flush the batch is neither empty nor too long, and the last flush
    finds the queue empty. *)
Definition flushing (k : site) (s : state) : Prop :=
  0 < batch_len s <= BatchSize cfg /\ (k = AtClose -> queue (sh s) = []).

Definition worker_ok (s : state) : Prop :=
  match wk s with
  | W_select | W_got _ | W_depth _ _ => batch_len s < BatchSize cfg
  | W_persist k a | W_failed k a _ => flushing k s /\ 1 <= a <= MaxAttempts cfg
  | W_waiting k a d _ =>
      flushing k s /\ 1 <= a < MaxAttempts cfg /\ d = retryDelay (RetryBaseDelay cfg) a
  | W_persisted k | W_abandon k | W_exhausted k _ | W_dead_ok k | W_dead_fail k
  | W_dead_drop k => flushing k s
  | W_drop n => batch_len s < BatchSize cfg /\ n = batch_len s + Z.of_nat (length (queue (sh s)))
  | W_zero | W_stop | W_close | W_done => batch_len s <= BatchSize cfg
  end.

Record data_inv (s : state) : Prop := {
  da_queue : Z.of_nat (length (queue (sh s))) <= QueueCapacity cfg;
  da_worker : worker_ok s;
  da_account : sent s = (disposed s).*1 ++ pending s;
}.

Lemma worker_ok_batch s : worker_ok s -> batch_len s <= BatchSize cfg.
Proof. unfold worker_ok, flushing. intros Hw. case_match; try lia; naive_solver lia. Qed.

Lemma initial_data o d : data_inv (initial cfg o d).
Proof. destruct Hcfg as (? & ? & ?). split; cbn; [lia| |done]. unfold batch_len. cbn. lia. Qed.

(** Actions that move neither the channel, nor the worker, nor the history. *)
Lemma data_inv_frame s s' :
  queue (sh s') = queue (sh s) -> wk s' = wk s -> batch s' = batch s -> sent s' = sent s ->
  disposed s' = disposed s -> data_inv s -> data_inv s'.
Proof.
  intros E1 E2 E3 E4 E5 [H1 H2 H3].
  split; [by rewrite E1 | | rewrite E4, E5, H3; unfold pending; by rewrite E1, E2, E3].
  revert H2. unfold worker_ok, flushing, batch_len. by rewrite E1, E2, E3.
Qed.

(** A send appends to what the worker still has to do. *)
Lemma pending_send s e :
  ending (wk s) = false ->
  pending (upd_sh (set_queue (queue (sh s) ++ [e])) s) = pending s ++ [e].
Proof.
  unfold pending. cbn. intros He. destruct (wk s); try done; by rewrite <- app_assoc.
Qed.

Lemma producer_step_data i p s s' :
  sync_inv s -> data_inv s -> producers s !! i = Some p ->
  producer_step cfg i p s = Some s' -> data_inv s'.
Proof.
  intros Hsy Hda Hp Hstep. destruct p; cbn in Hstep;
    try (simplify_eq/=; by apply (data_inv_frame s)); split_guards;
    try by apply (data_inv_frame s).
  bool_to_prop.
  assert (ending (wk s) = false) as He.
  { apply not_true_iff_false. intros He. apply (sy_ending _ Hsy) in He. congruence. }
  destruct Hda as [Hq Hw Ha].
  eapply (data_inv_frame (set_sent (sent s ++ [e]) (upd_sh (set_queue (queue (sh s) ++ [e])) s)));
    [done..|]. split; cbn.
  - rewrite length_app. cbn. lia.
  - revert Hw He. unfold worker_ok, flushing, batch_len. cbn.
    destruct (wk s) as [| | |[]|[]|[]|[]|[]|[]|[]|[]|[]| | | | |]; cbn; naive_solver.
  - rewrite Ha, <- app_assoc. f_equal. symmetry. by apply pending_send.
Qed.

Lemma closer_step_data i c x pick s s' :
  data_inv s -> closer_step i c x pick s = Some s' -> data_inv s'.
Proof.
  intros Hda Hstep. destruct c; cbn in Hstep; split_guards; by apply (data_inv_frame s).
Qed.

Lemma fst_fates (f : fate) (l : list Event) : ((., f) <$> l).*1 = l.
Proof. induction l; cbn; congruence. Qed.

Lemma after_flush_data k s :
  batch s = [] -> Z.of_nat (length (queue (sh s))) <= QueueCapacity cfg ->
  sent s = (disposed s).*1 ++ match k with AtClose => [] | _ => queue (sh s) end ->
  data_inv (after_flush k s).
Proof.
  intros Hb Hq Ha. destruct Hcfg as (? & ? & ?).
  destruct k; (split; [done| |unfold pending; cbn; by rewrite ?Hb]); cbn; try done;
    unfold batch_len; cbn; rewrite Hb; cbn; lia.
Qed.

(** The end of a flush moves the batch to the history. *)
Lemma settle_data k f s :
  data_inv s -> flushing k s -> pending s = batch s ++ queue (sh s) -> data_inv (settle k f s).
Proof.
  intros [Hq _ Ha] [_ Hk] Hp. apply after_flush_data; [done..|]. cbn.
  rewrite Ha, Hp, fmap_app, fst_fates, <- app_assoc. do 2 f_equal.
  destruct k; [done..|by apply Hk].
Qed.

Lemma flush_data k s :
  Z.of_nat (length (queue (sh s))) <= QueueCapacity cfg -> batch_len s <= BatchSize cfg ->
  (k = AtClose -> queue (sh s) = []) ->
  sent s = (disposed s).*1 ++ batch s ++ queue (sh s) -> data_inv (flush cfg k s).
Proof.
  intros Hq Hb Hk Ha. destruct Hcfg as (? & ? & ? & ?). unfold flush. destruct (batch s) eqn:Eb.
  - apply after_flush_data; [done..|]. rewrite Ha. f_equal.
    destruct k; [done..|by apply Hk].
  - rewrite (proj2 (Z.leb_le _ _)) by lia. split; [done| |unfold pending; cbn; by rewrite Eb].
    cbn. unfold flushing, batch_len in *. cbn. rewrite Eb in *. cbn in *.
    split_and!; (done || lia).
Qed.

Lemma worker_step_data ch f s s' :
  sync_inv s -> data_inv s -> worker_step cfg ch f s = Some s' -> data_inv s'.
Proof.
  intros Hsy Hda Hstep. pose proof Hda as [Hq Hw Ha]. pose proof Hcfg as (? & ? & ? & ?).
  assert (forall s1 k f', data_inv s1 -> flushing k s1 -> pending s1 = batch s1 ++ queue (sh s1) ->
            forall g, data_inv (settle k f' (observe g s1))) as Hsettle.
  { intros s1 k f' Hd Hf Hp g. apply settle_data; [by apply (data_inv_frame s1)|done|done]. }
  unfold worker_step in Hstep. unfold worker_ok in Hw. unfold pending in Ha.
  destruct (wk s) as [|e|e n|k a|k|k a err|k a d err|k|k err|k|k|k|n| | | |] eqn:Ew; cbn in Hw.
  - destruct ch; cbn in Hstep.
    + case_match; simplify_eq/=. split; [done| |by unfold pending]. done.
    + destruct (queue (sh s)) as [|e q] eqn:Eq.
      * case_match; simplify_eq/=. apply flush_data; rewrite ?Eq; cbn; try done. lia.
      * simplify_eq/=. split; cbn in *; [lia|done|]. by unfold pending.
    + case_match; simplify_eq/=. by apply flush_data; cbn; try (unfold batch_len; cbn; fold (batch_len s); lia).
  - simplify_eq/=. split; [done|done|by unfold pending].
  - simplify_eq/=. set (s1 := set_batch _ _).
    assert (batch_len s1 <= BatchSize cfg).
    { subst s1. unfold batch_len in *. cbn. rewrite length_app. cbn. lia. }
    assert (sent s1 = (disposed s1).*1 ++ batch s1 ++ queue (sh s1)) as Ha1
      by (cbn; by rewrite <- app_assoc).
    destruct (Z.leb_spec (BatchSize cfg) (batch_len s1)); [by apply flush_data|].
    by split.
  - destruct (s_PersistUsage f (batch s) (disk s)) as [r d]. simplify_eq/=.
    destruct r; (split; [done| |by unfold pending]); cbn; tauto.
  - simplify_eq/=. apply Hsettle; [done|done|by unfold pending; rewrite Ew].
  - destruct (Z.eqb_spec a (MaxAttempts cfg)); simplify_eq/=;
      (split; [done| |by unfold pending]); cbn; [tauto|]. split; [tauto|]. lia.
  - destruct ch; simplify_eq/=; [|].
    + case_match; simplify_eq/=. split; [done| |by unfold pending]. tauto.
    + rewrite wrap64_id by (unfold in_int64; lia). rewrite (proj2 (Z.leb_le _ _)) by lia.
      split; [done| |by unfold pending]. cbn. split; [tauto|lia].
  - simplify_eq/=. apply Hsettle; [done|done|by unfold pending; rewrite Ew].
  - destruct (s_PersistUsageDeadLetters _ _ _ _ _) as [r d]. simplify_eq/=.
    destruct r; (split; [done| |by unfold pending]); done.
  - simplify_eq/=. apply Hsettle; [done|done|by unfold pending; rewrite Ew].
  - simplify_eq/=. split; [done|done|by unfold pending].
  - simplify_eq/=. apply Hsettle; [done|done|by unfold pending; rewrite Ew].
  - simplify_eq/=. destruct Hw as [Hlt _]. unfold batch_len in Hlt.
    destruct (0 <? n); (split; [done|unfold worker_ok, batch_len; cbn; lia|]); unfold pending; cbn;
      by rewrite Ha, fmap_app, fst_fates, app_nil_r.
  - simplify_eq/=. by split.
  - simplify_eq/=. by split.
  - case_match; simplify_eq/=; first [by apply (data_inv_frame s) | by split].
  - done.
Qed.

Lemma step_data a s s' : sync_inv s -> data_inv s -> step cfg a s = Some s' -> data_inv s'.
Proof.
  intros Hsy Hda Hstep. unfold step in Hstep. rewrite (sy_panic _ Hsy) in Hstep.
  destruct a as [e|i| |i pick|i| |ch f].
  - simplify_eq/=. by apply (data_inv_frame s).
  - apply bind_Some in Hstep as (p & Hp & Hstep). by eapply producer_step_data.
  - simplify_eq/=. by apply (data_inv_frame s).
  - apply bind_Some in Hstep as ([c x] & Hp & Hstep). by eapply closer_step_data.
  - simplify_eq/=. by apply (data_inv_frame s).
  - case_match; simplify_eq/=. by apply (data_inv_frame s).
  - by eapply worker_step_data.
Qed.
End Data.

(** ** The counters *)

Section Counters.
Context {D F : Type} `{UsageStore F D}.
Variable cfg : Config.
Hypothesis Hcfg : valid_config cfg.

Notation state := (state Registry D).

(** How many accepted events had a fate. *)
Definition fated (f : fate) (l : list (Event * fate)) : Z :=
  Z.of_nat (length (filter (fun x => x.2 = f) l)).

Definition uncounted (p : producer) : Z := match p with P_sent => 1 | _ => 0 end.

Definition accounted (r : Registry) (sent_counted rejections : Z) (l : list (Event * fate)) : Prop :=
  usageEnqueued r = wrapu64 sent_counted
  /\ usagePersisted r = wrapu64 (fated Persisted l)
  /\ usageDeadLettered r = wrapu64 (fated DeadLettered l)
  /\ usageDropped r = wrapu64 (rejections + fated Lost l).

Definition counter_inv (s : state) : Prop :=
  accounted (obs s) (Z.of_nat (length (sent s)) - sumZ uncounted (producers s))
    (Z.of_nat (length (rejected s))) (disposed s).

#[local] Arguments fated : simpl never.

Lemma fated_app f l1 l2 : fated f (l1 ++ l2) = fated f l1 + fated f l2.
Proof. unfold fated. rewrite filter_app, length_app. lia. Qed.

Lemma fated_fates f g (l : list Event) :
  fated f ((., g) <$> l) = if decide (g = f) then Z.of_nat (length l) else 0.
Proof.
  unfold fated. induction l as [|e l IH]; [by case_decide|].
  rewrite fmap_cons, filter_cons. cbn [snd length]. case_decide; cbn [length]; lia.
Qed.

Lemma record_add n x :
  0 <= n -> (if 0 <? n then addu (wrapu64 n) (wrapu64 x) else wrapu64 x) = wrapu64 (x + n).
Proof.
  intros Hn. unfold addu. destruct (Z.ltb_spec 0 n); [by autorewrite with goint|]. f_equal. lia.
Qed.

Lemma batch_len_nonneg (s : state) : 0 <= batch_len s.
Proof. unfold batch_len. lia. Qed.

(** A flush changes no counter and no history. *)
Lemma flush_counters k s :
  counter_inv s -> counter_inv (flush cfg k s).
Proof. unfold flush, after_flush. intros Hc. repeat case_match; done. Qed.

Lemma after_flush_counters k s : counter_inv s -> counter_inv (after_flush k s).
Proof. unfold after_flush. intros Hc. by case_match. Qed.

(** What each call of the observer does to the account. *)
Lemma account_dropped r n m l k :
  accounted r n m l -> 0 <= k -> accounted (RecordUsageDropped k r) n (m + k) l.
Proof.
  intros (H1 & H2 & H3 & H4) Hk. split_and!; cbn; try done.
  rewrite H4, record_add by done. f_equal. lia.
Qed.

Lemma account_lost r n m l b :
  accounted r n m l ->
  accounted (RecordUsageDropped (Z.of_nat (length b)) r) n m (l ++ ((., Lost) <$> b)).
Proof.
  intros (H1 & H2 & H3 & H4). split_and!; cbn; rewrite ?fated_app, ?fated_fates;
    repeat case_decide; rewrite ?Z.add_0_r; try done.
  rewrite H4, record_add by lia. f_equal. lia.
Qed.

Lemma account_batch r n m l b :
  accounted r n m l ->
  accounted (RecordUsageBatch (Z.of_nat (length b)) r) n m (l ++ ((., Persisted) <$> b)).
Proof.
  intros (H1 & H2 & H3 & H4). split_and!; cbn; rewrite ?fated_app, ?fated_fates;
    repeat case_decide; rewrite ?Z.add_0_r; try done.
  rewrite H2, record_add by lia. done.
Qed.

Lemma account_dead r n m l b :
  accounted r n m l ->
  accounted (RecordUsageDeadLettered (Z.of_nat (length b)) r) n m (l ++ ((., DeadLettered) <$> b)).
Proof.
  intros (H1 & H2 & H3 & H4). split_and!; cbn; rewrite ?fated_app, ?fated_fates;
    repeat case_decide; rewrite ?Z.add_0_r; try done.
  rewrite H3, record_add by lia. done.
Qed.

Lemma account_enqueued r n m l :
  accounted r n m l -> accounted (RecordUsageEnqueued r) (n + 1) m l.
Proof.
  intros (H1 & H2 & H3 & H4). split_and!; cbn; try done.
  rewrite H1. unfold addu. by rewrite wrapu64_add_l.
Qed.

Lemma producer_step_counters i p s s' :
  counter_inv s -> producers s !! i = Some p -> producer_step cfg i p s = Some s' -> counter_inv s'.
Proof.
  unfold counter_inv. intros Hc Hp Hstep.
  destruct p; cbn in Hstep; split_guards; try done;
    erewrite sumZ_insert by done; cbn; rewrite ?Z.sub_0_r, ?Z.add_0_r, ?length_app; cbn; try done.
  - rewrite Nat2Z.inj_add. by apply account_dropped.
  - replace (_ - (_ + 1)) with (Z.of_nat (length (sent s)) - sumZ uncounted (producers s)) by lia.
    done.
  - replace (_ - (_ - 1)) with (Z.of_nat (length (sent s)) - sumZ uncounted (producers s) + 1) by lia.
    by apply account_enqueued.
  - rewrite Nat2Z.inj_add. by apply account_dropped.
Qed.

Lemma worker_step_counters ch f s s' :
  data_inv cfg s -> counter_inv s -> worker_step cfg ch f s = Some s' -> counter_inv s'.
Proof.
  intros [_ Hw _] Hc Hstep. unfold worker_step in Hstep. unfold worker_ok in Hw.
  destruct (wk s) eqn:Ew; cbn in Hw.
  - destruct ch; repeat case_match; simplify_eq/=; try done; by apply flush_counters.
  - by simplify_eq/=.
  - simplify_eq/=. case_match; [apply flush_counters|]; done.
  - case_match. by simplify_eq/=.
  - simplify_eq/=. by apply after_flush_counters, account_batch.
  - case_match; by simplify_eq/=.
  - repeat case_match; by simplify_eq/=.
  - simplify_eq/=. by apply after_flush_counters, account_lost.
  - case_match. by simplify_eq/=.
  - simplify_eq/=. by apply after_flush_counters, account_dead.
  - by simplify_eq/=.
  - simplify_eq/=. by apply after_flush_counters, account_lost.
  - simplify_eq/=. destruct Hw as [_ ->].
    pose proof (account_lost _ _ _ _ (batch s ++ queue (sh s)) Hc) as Hl.
    rewrite length_app, Nat2Z.inj_add in Hl. fold (batch_len s) in Hl.
    case_match eqn:E; [exact Hl|]. bool_to_prop. unfold counter_inv. cbn.
    assert (batch s ++ queue (sh s) = []) as ->.
    { apply length_zero_iff_nil. rewrite length_app. unfold batch_len in E. lia. }
    cbn. by rewrite app_nil_r.
  - by simplify_eq/=.
  - by simplify_eq/=.
  - case_match; by simplify_eq/=.
  - done.
Qed.

Lemma step_counters a s s' :
  sync_inv s -> data_inv cfg s -> counter_inv s -> step cfg a s = Some s' -> counter_inv s'.
Proof.
  intros Hsy Hda Hc Hstep. unfold step in Hstep. rewrite (sy_panic _ Hsy) in Hstep.
  destruct a as [e|i| |i pick|i| |ch f].
  - simplify_eq/=. unfold counter_inv in *. cbn. rewrite sumZ_app. cbn. by rewrite Z.add_0_r.
  - apply bind_Some in Hstep as (p & Hp & Hstep). by eapply producer_step_counters.
  - by simplify_eq/=.
  - apply bind_Some in Hstep as ([c x] & Hp & Hstep). destruct c; cbn in Hstep; by split_guards.
  - by simplify_eq/=.
  - case_match; by simplify_eq/=.
  - by eapply worker_step_counters.
Qed.

(** *** The depth gauge *)

Definition in_queue_range (n : Z) : Prop := 0 <= n <= QueueCapacity cfg.

Definition worker_depth_ok (w : worker) : Prop :=
  match w with W_depth _ n => in_queue_range n | _ => True end.
Definition drained (w : worker) : bool :=
  match w with W_stop | W_close | W_done => true | _ => false end.

Record depth_inv (s : state) : Prop := {
  de_capacity : usageQueueCapacity (obs s) = QueueCapacity cfg;
  de_depth : in_queue_range (usageQueueDepth (obs s));
  de_producers :
    Forall (fun p => match p with P_depth n => in_queue_range n | _ => True end) (producers s);
  de_worker : worker_depth_ok (wk s);
  de_end : drained (wk s) = true -> usageQueueDepth (obs s) = 0;
}.

Lemma queue_in_range (s : state) :
  data_inv cfg s -> in_queue_range (Z.of_nat (length (queue (sh s)))).
Proof. intros [Hq _ _]. unfold in_queue_range. lia. Qed.

Lemma flush_depth k s : depth_inv s -> depth_inv (flush cfg k s).
Proof.
  intros []. unfold flush, after_flush, panic.
  destruct (batch s); [destruct k|destruct (_ <=? _)]; by split.
Qed.

Lemma after_flush_depth k s : depth_inv s -> depth_inv (after_flush k s).
Proof. intros []. unfold after_flush. destruct k; by split. Qed.

Lemma producer_step_depth i p s s' :
  sync_inv s -> data_inv cfg s -> depth_inv s -> producers s !! i = Some p ->
  producer_step cfg i p s = Some s' -> depth_inv s'.
Proof.
  intros Hsy Hda [Hc Hd Hp Hw He] Hi Hstep. pose proof (queue_in_range s Hda).
  pose proof (Forall_lookup_1 _ _ _ _ Hp Hi) as Hpi.
  assert (sending p = true -> ending (wk s) = false) as Hend.
  { intros E. apply not_true_iff_false. intros E'. apply (sy_ending _ Hsy) in E'.
    by rewrite (chan_closed_not_sending s i p) in E. }
  destruct p; cbn in Hstep, Hpi, Hend; split_guards;
    (split; cbn; try done; try (apply Forall_insert; done)).
  specialize (Hend eq_refl). by destruct (wk s).
Qed.

Lemma worker_step_depth ch f s s' :
  data_inv cfg s -> depth_inv s -> worker_step cfg ch f s = Some s' -> depth_inv s'.
Proof.
  intros Hda Hde Hstep. pose proof (queue_in_range s Hda). unfold worker_step in Hstep.
  pose proof Hde as [Hc Hd Hp Hw He]. destruct (wk s) eqn:Ew; cbn in Hw, He.
  - destruct ch; repeat case_match; simplify_eq/=; try done;
      try apply flush_depth; split; cbn; try done; by rewrite Ew.
  - simplify_eq/=. by split.
  - simplify_eq/=. case_match; [apply flush_depth|];
      split; cbn; try done; by rewrite Ew.
  - case_match. simplify_eq/=. split; cbn; try done; by case_match.
  - simplify_eq/=. apply after_flush_depth. split; cbn; try done; by rewrite Ew.
  - case_match; simplify_eq/=; by split.
  - repeat case_match; simplify_eq/=; split; cbn; try done; by case_match.
  - simplify_eq/=. apply after_flush_depth. split; cbn; try done; by rewrite Ew.
  - case_match. simplify_eq/=. split; cbn; try done; by case_match.
  - simplify_eq/=. apply after_flush_depth. split; cbn; try done; by rewrite Ew.
  - simplify_eq/=. by split.
  - simplify_eq/=. apply after_flush_depth. split; cbn; try done; by rewrite Ew.
  - simplify_eq/=. case_match; by split.
  - simplify_eq/=. split; cbn; try done. destruct Hcfg. unfold in_queue_range. lia.
  - simplify_eq/=. by split.
  - case_match; simplify_eq/=; (split; cbn; try done; by rewrite Ew).
  - done.
Qed.

Lemma step_depth a s s' :
  sync_inv s -> data_inv cfg s -> depth_inv s -> step cfg a s = Some s' -> depth_inv s'.
Proof.
  intros Hsy Hda Hde Hstep. unfold step in Hstep. rewrite (sy_panic _ Hsy) in Hstep.
  destruct a as [e|i| |i pick|i| |ch f].
  - simplify_eq/=. destruct Hde. split; cbn; try done. apply Forall_app_2; [done|]. by constructor.
  - apply bind_Some in Hstep as (p & Hp & Hstep). by eapply producer_step_depth.
  - simplify_eq/=. by destruct Hde.
  - apply bind_Some in Hstep as ([c x] & Hp & Hstep).
    destruct Hde, c; cbn in Hstep; split_guards; by split.
  - simplify_eq/=. by destruct Hde.
  - case_match; simplify_eq/=. by destruct Hde.
  - by eapply worker_step_depth.
Qed.

(** *** Shutdown without a deadline *)

Definition expired (c : closer) : bool :=
  match c with C_cancel | C_drain | C_ret false => true | _ => false end.

(** A call of [Close] leaves its first [select] through the context only when
    the context is done. *)
Definition deadline_inv (s : state) : Prop :=
  Forall (fun x => expired x.1 = true -> x.2 = true) (closers s).

Definition patient (s : state) : Prop := Forall (fun x : closer * bool => x.2 = false) (closers s).

Definition cancel_path (w : worker) : bool :=
  match w with W_abandon _ | W_drop _ => true | _ => false end.
Definition cancels (w : worker) : bool := match w with W_close | W_done => true | _ => false end.
Definition failing (s : state) : Z := match wk s with W_dead_drop _ => batch_len s | _ => 0 end.

(** As long as no context has expired, the worker is never cancelled and every
    lost event is one the dead-letter table refused. *)
Record grace_inv (s : state) : Prop := {
  gr_cancelled : cancelled (sh s) = true -> cancels (wk s) = true;
  gr_path : cancel_path (wk s) = false;
  gr_failures : usageDeadLetterFailures (obs s) = wrapu64 (fated Lost (disposed s) + failing s);
}.

Lemma Forall_alter_closers (P : closer * bool -> Prop) g i cs :
  Forall P cs -> (forall x, cs !! i = Some x -> P x -> P (g x)) -> Forall P (alter g i cs).
Proof.
  intros Hall Hg. apply Forall_lookup. intros j y Hj. rewrite Forall_lookup in Hall.
  destruct (decide (i = j)) as [<-|Hne].
  - rewrite list_lookup_alter_eq in Hj. apply fmap_Some in Hj as (x & Hx & ->). by eauto.
  - rewrite list_lookup_alter_ne in Hj by done. by eauto.
Qed.

Lemma step_deadline a s s' :
  sync_inv s -> deadline_inv s -> step cfg a s = Some s' -> deadline_inv s'.
Proof.
  unfold deadline_inv. intros Hsy Hd Hstep. unfold step in Hstep.
  rewrite (sy_panic _ Hsy) in Hstep. destruct a as [e|i| |i pick|i| |ch f].
  - by simplify_eq/=.
  - apply bind_Some in Hstep as (p & Hp & Hstep). destruct p; cbn in Hstep; by split_guards.
  - simplify_eq/=. apply Forall_app_2; [done|]. by constructor.
  - apply bind_Some in Hstep as ([c x] & Hp & Hstep).
    destruct c; cbn in Hstep; split_guards;
      first [done | apply Forall_alter_closers; [done|]; intros; simplify_eq/=; auto].
  - simplify_eq/=. apply Forall_alter_closers; [done|]. by intros [].
  - case_match; by simplify_eq/=.
  - apply worker_step_frame in Hstep as (_ & -> & _). done.
Qed.

(** [Close] returns only after [done] is closed. *)
Definition returned_inv (s : state) : Prop :=
  Forall (fun x => match x.1 with C_ret _ => done_closed (sh s) = true | _ => True end) (closers s).

Lemma worker_step_done ch f (s s' : state) :
  worker_step cfg ch f s = Some s' -> done_closed (sh s) = true -> done_closed (sh s') = true.
Proof.
  unfold worker_step, settle, flush, after_flush, panic. intros Hstep Hd.
  repeat case_match; simplify_eq/=; done.
Qed.

Lemma step_returned a s s' :
  sync_inv s -> returned_inv s -> step cfg a s = Some s' -> returned_inv s'.
Proof.
  unfold returned_inv. intros Hsy Hd Hstep. unfold step in Hstep.
  rewrite (sy_panic _ Hsy) in Hstep. destruct a as [e|i| |i pick|i| |ch f].
  - by simplify_eq/=.
  - apply bind_Some in Hstep as (p & Hp & Hstep). destruct p; cbn in Hstep; by split_guards.
  - simplify_eq/=. apply Forall_app_2; [done|]. by constructor.
  - apply bind_Some in Hstep as ([c x] & Hp & Hstep).
    destruct c; cbn in Hstep; split_guards;
      try match goal with E : done_closed _ = _ |- _ => rewrite E end;
      first [done | apply Forall_alter_closers; [done|]; intros; simplify_eq/=; auto].
  - simplify_eq/=. apply Forall_alter_closers; [done|]. by intros [].
  - case_match; by simplify_eq/=.
  - pose proof (worker_step_done _ _ _ _ Hstep) as Hw.
    apply worker_step_frame in Hstep as (_ & -> & _). eapply Forall_impl; [done|].
    intros [c x]. by destruct c.
Qed.

(** Contexts stay expired. *)
Lemma step_patient a s s' : step cfg a s = Some s' -> patient s' -> patient s.
Proof.
  unfold patient, step. intros Hstep Hp. case_match; [done|].
  destruct a as [e|i| |i pick|i| |ch f].
  - by simplify_eq/=.
  - apply bind_Some in Hstep as (p & _ & Hstep). destruct p; cbn in Hstep; by split_guards.
  - simplify_eq/=. by apply Forall_app in Hp as [? _].
  - apply bind_Some in Hstep as ([c x] & _ & Hstep).
    assert (forall c' cs, Forall (fun x : closer * bool => x.2 = false)
              (alter (fun y => (c', y.2)) i cs) -> Forall (fun x : closer * bool => x.2 = false) cs) as Halter.
    { clear. intros c' cs. rewrite !Forall_lookup. intros Hall j y Hj.
      destruct (decide (i = j)) as [<-|Hne].
      - apply (Hall i (c', y.2)). by rewrite list_lookup_alter_eq, Hj.
      - apply (Hall j). by rewrite list_lookup_alter_ne. }
    destruct c; cbn in Hstep; split_guards; eauto.
  - simplify_eq/=. rewrite Forall_lookup in Hp |- *. intros j y Hj.
    destruct (decide (i = j)) as [<-|Hne].
    + specialize (Hp i (y.1, true)). rewrite list_lookup_alter_eq, Hj in Hp. by specialize (Hp eq_refl).
    + apply (Hp j). by rewrite list_lookup_alter_ne.
  - case_match; by simplify_eq/=.
  - by apply worker_step_frame in Hstep as (_ & <- & _).
Qed.

Lemma settle_grace k f s :
  (cancelled (sh s) = true -> False) ->
  usageDeadLetterFailures (obs s) = wrapu64 (fated Lost (disposed s ++ ((., f) <$> batch s))) ->
  grace_inv (settle k f s).
Proof.
  intros Hc Hf. unfold settle, after_flush.
  destruct k; split; cbn; try done; unfold failing; cbn; by rewrite Z.add_0_r.
Qed.

Lemma flush_grace k s :
  (cancelled (sh s) = true -> False) ->
  usageDeadLetterFailures (obs s) = wrapu64 (fated Lost (disposed s)) -> cancel_path (wk s) = false ->
  (forall k, wk s <> W_dead_drop k) -> grace_inv (flush cfg k s).
Proof.
  intros Hc Hf Hp Hw. unfold flush, after_flush, panic.
  destruct (batch s); [destruct k|destruct (_ <=? _)]; split; cbn; try done; unfold failing; cbn;
    rewrite ?Z.add_0_r; try done.
  destruct (wk s); rewrite ?Z.add_0_r; try done. by edestruct Hw.
Qed.

Lemma worker_step_grace ch f s s' :
  grace_inv s -> worker_step cfg ch f s = Some s' -> grace_inv s'.
Proof.
  intros [Hc Hp Hf] Hstep. unfold worker_step in Hstep. unfold failing in Hf.
  destruct (wk s) eqn:Ew; cbn in Hc, Hp; rewrite ?Z.add_0_r in Hf;
    try (assert (cancelled (sh s) = true -> False) as Hc' by (intros Hx; by apply Hc in Hx)).
  - destruct ch; cbn in Hstep.
    + by rewrite (not_true_is_false _ Hc') in Hstep.
    + destruct (queue (sh s)); [case_match|]; simplify_eq/=;
        [apply flush_grace; try done; by rewrite Ew
        |split; cbn; try done; unfold failing; cbn; by rewrite Z.add_0_r].
    + case_match; simplify_eq/=. apply flush_grace; try done; cbn; by rewrite Ew.
  - simplify_eq/=. split; cbn; try done. unfold failing. cbn. by rewrite Z.add_0_r.
  - simplify_eq/=. case_match.
    + apply flush_grace; try done; cbn; by rewrite Ew.
    + split; cbn; try done. unfold failing. cbn. by rewrite Z.add_0_r.
  - destruct (s_PersistUsage _ _ _) as [[] ?]; simplify_eq/=;
      (split; cbn; [done..|]; unfold failing; cbn; by rewrite Z.add_0_r).
  - simplify_eq/=. apply settle_grace; [done|]. cbn. rewrite fated_app, fated_fates.
    case_decide; [done|]. by rewrite Z.add_0_r.
  - case_match; simplify_eq/=; split; cbn; try done; unfold failing; cbn; by rewrite Z.add_0_r.
  - destruct ch; [|done|].
    + by rewrite (not_true_is_false _ Hc') in Hstep.
    + injection Hstep as <-. destruct (_ <=? _);
        (split; cbn; [done..|]; unfold failing; cbn; by rewrite Z.add_0_r).
  - done.
  - destruct (s_PersistUsageDeadLetters _ _ _ _ _) as [[] ?]; simplify_eq/=;
      (split; cbn; [done..|]; unfold failing; cbn; by rewrite Z.add_0_r).
  - simplify_eq/=. apply settle_grace; [done|]. cbn. rewrite fated_app, fated_fates.
    case_decide; [done|]. by rewrite Z.add_0_r.
  - simplify_eq/=. split; cbn; [done..|]. unfold failing. cbn.
    rewrite Hf, record_add by apply batch_len_nonneg. done.
  - simplify_eq/=. apply settle_grace; [done|]. cbn. rewrite fated_app, fated_fates.
    case_decide; [|done]. done.
  - done.
  - simplify_eq/=. split; cbn; try done. unfold failing. cbn. by rewrite Z.add_0_r.
  - simplify_eq/=. split; cbn; try done. unfold failing. cbn. by rewrite Z.add_0_r.
  - case_match; simplify_eq/=; split; cbn; rewrite ?Ew; try done; unfold failing; cbn;
      rewrite ?Ew; by rewrite Z.add_0_r.
  - done.
Qed.

Lemma step_grace a s s' :
  sync_inv s -> deadline_inv s -> patient s' -> grace_inv s -> step cfg a s = Some s' -> grace_inv s'.
Proof.
  intros Hsy Hd Hp Hg Hstep. pose proof (step_patient _ _ _ Hstep Hp) as Hps.
  unfold step in Hstep. rewrite (sy_panic _ Hsy) in Hstep.
  destruct a as [e|i| |i pick|i| |ch f].
  - simplify_eq/=. by destruct Hg.
  - apply bind_Some in Hstep as (p & _ & Hstep).
    destruct Hg as [Hg1 Hg2 Hg3], p; cbn in Hstep; split_guards; by split.
  - simplify_eq/=. by destruct Hg.
  - apply bind_Some in Hstep as ([c x] & Hi & Hstep).
    pose proof (Forall_lookup_1 _ _ _ _ Hps Hi) as Hx.
    pose proof (Forall_lookup_1 _ _ _ _ Hd Hi) as Hxc. cbn in Hx, Hxc.
    destruct Hg as [Hg1 Hg2 Hg3], c; cbn in Hstep, Hxc; split_guards; try by split.
    by specialize (Hxc eq_refl).
  - simplify_eq/=. by destruct Hg.
  - case_match; simplify_eq/=. by destruct Hg.
  - by eapply worker_step_grace.
Qed.
End Counters.

(** ** The storage *)

Section Stored.
Context {O D F : Type} `{Observer O} `{UsageStoreLaws F D}.
Variable cfg : Config.

Notation state := (state O D).

(** The storage holds what [f] says it does with the event. *)
Definition holds (d : D) (f : fate) (e : Event) : Prop :=
  match f with Persisted => stored d e | DeadLettered => dead_lettered d e | Lost => True end.

Definition batch_holds (d : D) (w : worker) (b : list Event) : Prop :=
  match w with
  | W_persisted _ => Forall (holds d Persisted) b
  | W_dead_ok _ => Forall (holds d DeadLettered) b
  | _ => True
  end.

Record store_inv (s : state) : Prop := {
  st_disposed : Forall (fun x => holds (disk s) x.2 x.1) (disposed s);
  st_batch : batch_holds (disk s) (wk s) (batch s);
}.

Lemma holds_PersistUsage f b d g e : holds d g e -> holds (s_PersistUsage f b d).2 g e.
Proof. destruct g; [apply PersistUsage_keeps..|done]. Qed.

Lemma holds_DeadLetters f b m n d g e :
  holds d g e -> holds (s_PersistUsageDeadLetters f b m n d).2 g e.
Proof. destruct g; [apply DeadLetters_keeps..|done]. Qed.

Lemma flush_store k s :
  Forall (fun x => holds (disk s) x.2 x.1) (disposed s) ->
  (forall b, batch_holds (disk s) (wk s) b) -> store_inv (flush cfg k s).
Proof.
  intros Hd Hw. unfold flush, after_flush, panic.
  destruct (batch s); [destruct k|destruct (_ <=? _)]; split; cbn; (done || apply Hw).
Qed.

Lemma settle_store k f s :
  Forall (fun x => holds (disk s) x.2 x.1) (disposed s) -> Forall (holds (disk s) f) (batch s) ->
  store_inv (settle k f s).
Proof.
  intros Hd Hb. unfold settle, after_flush.
  destruct k; split; cbn; try done; (apply Forall_app_2; [done|by apply Forall_fmap]).
Qed.

Lemma worker_step_store ch f s s' :
  store_inv s -> worker_step cfg ch f s = Some s' -> store_inv s'.
Proof.
  intros [Hd Hb] Hstep. unfold worker_step in Hstep.
  assert (Forall (holds (disk s) Lost) (batch s)) as Hlost by by apply Forall_true.
  destruct (wk s) eqn:Ew; cbn in Hb;
    try (simplify_eq/=; first [by split | by apply settle_store]).
  - destruct ch; cbn in Hstep; repeat case_match; simplify_eq/=;
      first [by split | by apply flush_store; [|cbn; rewrite Ew]].
  - simplify_eq/=. case_match; [|by split]. by apply flush_store; [|cbn; rewrite Ew].
  - destruct (s_PersistUsage f (batch s) (disk s)) as [r d] eqn:E. simplify_eq/=.
    split; cbn.
    + eapply Forall_impl; [done|]. intros x Hx.
      pose proof (holds_PersistUsage f (batch s) _ _ _ Hx) as Hk. by rewrite E in Hk.
    + destruct r as [[]|]; [|done]. apply Forall_forall. intros e He. by eapply PersistUsage_stores.
  - case_match; simplify_eq/=; by split.
  - destruct ch; repeat case_match; simplify_eq/=; split; cbn; try done; by case_match.
  - destruct (s_PersistUsageDeadLetters _ _ _ _ _) as [r d] eqn:E. simplify_eq/=.
    split; cbn.
    + eapply Forall_impl; [done|]. intros x Hx.
      pose proof (holds_DeadLetters f (batch s) (error_text err) (MaxAttempts cfg) _ _ _ Hx) as Hk.
      by rewrite E in Hk.
    + destruct r as [[]|]; [|done]. apply Forall_forall. intros e He. by eapply DeadLetters_stores.
  - simplify_eq/=. split; [|done]. cbn.
    assert (Forall (fun x => holds (disk s) x.2 x.1) (disposed s ++ ((., Lost) <$> batch s ++ queue (sh s)))).
    { apply Forall_app_2; [done|]. apply Forall_fmap. by apply Forall_true. }
    by case_match.
  - case_match; simplify_eq/=; split; cbn; try done. by rewrite Ew.
Qed.

Lemma step_store a s s' :
  sync_inv s -> store_inv s -> step cfg a s = Some s' -> store_inv s'.
Proof.
  intros Hsy Hst Hstep. unfold step in Hstep. rewrite (sy_panic _ Hsy) in Hstep.
  destruct a as [e|i| |i pick|i| |ch f].
  - simplify_eq/=. by destruct Hst.
  - apply bind_Some in Hstep as (p & _ & Hstep).
    destruct Hst, p; cbn in Hstep; split_guards; by split.
  - simplify_eq/=. by destruct Hst.
  - apply bind_Some in Hstep as ([c x] & _ & Hstep).
    destruct Hst, c; cbn in Hstep; split_guards; by split.
  - simplify_eq/=. by destruct Hst.
  - case_match; simplify_eq/=. by destruct Hst.
  - by eapply worker_step_store.
Qed.
End Stored.

(** ** Reachable states *)

Section Reachable.
Context {O D F : Type} `{Observer O} `{UsageStore F D}.
Variables (cfg : Config) (d : D) (o : O) (s0 : state O D).
Hypothesis Hnew : NewPipeline cfg (Some d) o = Ok s0.
Hypothesis Hint : in_int64 (MaxAttempts cfg).

Lemma started : valid_config cfg /\ s0 = initial cfg o d.
Proof.
  destruct (NewPipeline_valid cfg _ _ _ Hnew Hint) as (? & d' & [= <-] & ->). done.
Qed.

(** Rule induction, with the two invariants everything else needs. *)
Lemma reachable_inv (P : state O D -> Prop) :
  P s0 -> (forall a s s', sync_inv s -> data_inv cfg s -> P s -> step cfg a s = Some s' -> P s') ->
  forall s, reachable cfg s0 s -> sync_inv s /\ data_inv cfg s /\ P s.
Proof.
  destruct started as [Hcfg Hs0]. intros HP Hstep s.
  induction 1 as [|a s s' _ (Hsy & Hda & Hp) Hst].
  - split_and!; [rewrite Hs0; apply initial_sync | rewrite Hs0; by apply initial_data | done].
  - split_and!; [by eapply step_sync | by eapply step_data | by eapply Hstep].
Qed.

Lemma reachable_sync s : reachable cfg s0 s -> sync_inv s.
Proof. intros Hr. by apply (reachable_inv (fun _ => True)) in Hr as (? & _). Qed.

Lemma reachable_data s : reachable cfg s0 s -> data_inv cfg s.
Proof. intros Hr. by apply (reachable_inv (fun _ => True)) in Hr as (_ & ? & _). Qed.

Lemma run_reachable acts s : run cfg acts s0 = Some s -> reachable cfg s0 s.
Proof.
  assert (forall s1, reachable cfg s0 s1 -> run cfg acts s1 = Some s -> reachable cfg s0 s) as Hgen.
  { induction acts as [|a acts IH]; intros s1 Hr Hrun; cbn in Hrun; [congruence|].
    apply bind_Some in Hrun as (s2 & Hst & Hrun). eapply IH; [|done]. by econstructor. }
  apply Hgen. constructor.
Qed.
End Reachable.

(** ** A storage in memory *)

(** The storage the witnesses run on: a call fails with the given error or
    appends to the lists of events and of dead letters. *)
#[export] Instance memory_store : UsageStore (option gerror) (list Event * list Event) := {
  s_PersistUsage f b d :=
    match f with Some e => (Err e, d) | None => (Ok tt, (d.1 ++ b, d.2)) end;
  s_PersistUsageDeadLetters f b _ _ d :=
    match f with Some e => (Err e, d) | None => (Ok tt, (d.1, d.2 ++ b)) end;
}.

#[export, refine] Instance memory_store_laws :
  UsageStoreLaws (option gerror) (list Event * list Event) := {
  stored d e := e ∈ d.1;
  dead_lettered d e := e ∈ d.2;
}.
Proof.
  - intros [] b d d' e; cbn; intros; simplify_eq/=. by apply elem_of_app; right.
  - intros [] b d e; cbn; [done|]. split; [|done]. intros ?. apply elem_of_app. by left.
  - intros [] b m n d d' e; cbn; intros; simplify_eq/=. by apply elem_of_app; right.
  - intros [] b m n d e; cbn; [done|]. split; [done|]. intros ?. apply elem_of_app. by left.
Defined.

Definition demo_config : Config :=
  {| QueueCapacity := 2; BatchSize := 2; FlushInterval := Second; MaxAttempts := 2;
     RetryBaseDelay := 10 * Millisecond |}.

Definition demo_event (id : string) : Event :=
  {| ID := id; RequestID := "r"; APIKeyID := "k"; ClientID := "c"; EvRoute := "/users";
     Method := "GET"; StatusCode := 200; DurationMicros := 5; ResponseBytes := 10; OccurredAt := 0 |}.

(** A call of [Enqueue] at index [i] that nothing interrupts. *)
Definition enqueue_all {F} (e : Event) (i : nat) : list (action F) :=
  A_enqueue e :: replicate 8 (A_producer i).

(** A call of [Close] at index [i], up to its [select]. *)
Definition close_all {F} (i : nat) : list (action F) :=
  A_close :: replicate 6 (A_closer i true).

Definition demo_start : state Registry (list Event * list Event) :=
  initial demo_config NewRegistry ([], []).

(** Two events are persisted after a retry, a third by the last flush. *)
Definition demo_acts : list (action (option gerror)) :=
  let w := A_worker OnQueue None in
  enqueue_all (demo_event "a") 0 ++ enqueue_all (demo_event "b") 1
  ++ replicate 6 w ++ [A_worker OnQueue (Some (ErrNew "down")); w; A_worker OnTimer None; w; w]
  ++ enqueue_all (demo_event "c") 2 ++ close_all 0
  ++ replicate 9 w ++ [A_closer 0 true].

Definition demo_end : state Registry (list Event * list Event) :=
  default demo_start (run demo_config demo_acts demo_start).

Lemma demo_runs : run demo_config demo_acts demo_start = Some demo_end.
Proof. vm_compute. reflexivity. Qed.

Lemma demo_reachable : reachable demo_config demo_start demo_end.
Proof. exact (run_reachable demo_config demo_start _ _ demo_runs). Qed.

Lemma demo_new : NewPipeline demo_config (Some ([], [])) NewRegistry = Ok demo_start.
Proof. reflexivity. Qed.

Lemma demo_int : in_int64 (MaxAttempts demo_config).
Proof. split; vm_compute; congruence. Qed.

(** ** What [Enqueue] returns *)

(** The calls whose event was accepted, and the ones whose event is counted
    as dropped. *)
Definition accepted (p : producer) : Z :=
  match p with P_sent | P_counted | P_depth _ | P_unlock true | P_ret true => 1 | _ => 0 end.
Definition refused (p : producer) : Z :=
  match p with P_unlock false | P_ret false => 1 | _ => 0 end.

Section Verdicts.
Context {O D F : Type} `{Observer O} `{UsageStore F D}.
Variable cfg : Config.

Definition verdict_inv (s : state O D) : Prop :=
  Z.of_nat (length (sent s)) = sumZ accepted (producers s)
  /\ Z.of_nat (length (rejected s)) = sumZ refused (producers s).

Lemma step_verdict a s s' :
  sync_inv s -> verdict_inv s -> step cfg a s = Some s' -> verdict_inv s'.
Proof.
  unfold verdict_inv. intros Hsy [Ha Hr] Hstep. unfold step in Hstep.
  rewrite (sy_panic _ Hsy) in Hstep. destruct a as [e|i| |i pick|i| |ch f].
  - simplify_eq/=. rewrite !sumZ_app, !sumZ_one. cbn. lia.
  - apply bind_Some in Hstep as (p & Hp & Hstep).
    destruct p; cbn in Hstep; split_guards; try done; erewrite !sumZ_insert by done; cbn;
      rewrite ?length_app; cbn; lia.
  - by simplify_eq/=.
  - apply bind_Some in Hstep as ([c x] & _ & Hstep). destruct c; cbn in Hstep; by split_guards.
  - by simplify_eq/=.
  - case_match; by simplify_eq/=.
  - by apply worker_step_frame in Hstep as (-> & _ & -> & -> & _).
Qed.
End Verdicts.

(** ** Claims *)

(** C6: accepted events leave the pipeline in the order they were accepted and
    each exactly once: at every moment the accepted events are those already
    disposed of, followed by the batch in hand and the queue. *)
Theorem fifo_exactly_once {O D F} `{Observer O} `{UsageStore F D} cfg d o s0 s :
  NewPipeline cfg (Some d) o = Ok s0 -> in_int64 (MaxAttempts cfg) -> reachable cfg s0 s ->
  sent s = (disposed s).*1 ++ pending s.
Proof. intros Hnew Hint Hr. by eapply da_account, reachable_data. Qed.

Lemma fifo_exactly_once_witness :
  ID <$> sent demo_end = ["a"; "b"; "c"] /\ sent demo_end = (disposed demo_end).*1 ++ pending demo_end.
Proof.
  split; [vm_compute; reflexivity|].
  exact (fifo_exactly_once demo_config _ _ _ _ demo_new demo_int demo_reachable).
Defined.

(** C22: no interleaving of calls of [Enqueue] and [Close] with the worker
    panics (no send on the closed channel, no double close), the queue never
    holds more than its capacity and a batch never more than [BatchSize]
    events, and the depth gauge stays between zero and the capacity. *)
Theorem pipeline_bounds {D F} `{UsageStore F D} cfg d s0 s :
  NewPipeline cfg (Some d) NewRegistry = Ok s0 -> in_int64 (MaxAttempts cfg) ->
  reachable cfg s0 s ->
  panicked (sh s) = false
  /\ Z.of_nat (length (queue (sh s))) <= QueueCapacity cfg
  /\ batch_len s <= BatchSize cfg
  /\ usageQueueCapacity (obs s) = QueueCapacity cfg
  /\ 0 <= usageQueueDepth (obs s) <= QueueCapacity cfg.
Proof.
  intros Hnew Hint Hr. destruct (started _ _ _ _ Hnew Hint) as [Hcfg Hs0].
  apply (reachable_inv cfg d NewRegistry s0 Hnew Hint (depth_inv cfg)) in Hr
    as (Hsy & Hda & [Hc Hd _ _ _]).
  - split_and!; (done || apply Hsy || apply Hda || apply Hd || idtac).
    eapply worker_ok_batch, Hda.
  - subst s0. split; cbn; try done. unfold in_queue_range. destruct Hcfg. lia.
  - intros a s1 s2 Hsy Hda Hde Hst. by eapply step_depth.
Qed.

Lemma pipeline_bounds_witness :
  panicked (sh demo_end) = false /\ Z.of_nat (length (queue (sh demo_end))) <= 2
  /\ batch_len demo_end <= 2 /\ usageQueueCapacity (obs demo_end) = 2
  /\ 0 <= usageQueueDepth (obs demo_end) <= 2.
Proof. exact (pipeline_bounds demo_config _ _ _ demo_new demo_int demo_reachable). Defined.

Section Claims.
Context {D F : Type} `{UsageStore F D}.
Variables (cfg : Config) (d : D) (s0 : state Registry D).
Hypothesis Hnew : NewPipeline cfg (Some d) NewRegistry = Ok s0.
Hypothesis Hint : in_int64 (MaxAttempts cfg).

(** Everything known of a reachable state at once. *)
Lemma reachable_all s :
  reachable cfg s0 s ->
  sync_inv s /\ data_inv cfg s /\ counter_inv s /\ depth_inv cfg s /\ verdict_inv s
  /\ deadline_inv s /\ returned_inv s /\ (patient s -> grace_inv s).
Proof.
  intros Hr. destruct (started _ _ _ _ Hnew Hint) as [Hcfg Hs0].
  assert (0 <= QueueCapacity cfg) by (destruct Hcfg; lia).
  apply (reachable_inv cfg d NewRegistry s0 Hnew Hint (fun s => counter_inv s /\ depth_inv cfg s
    /\ verdict_inv s /\ deadline_inv s /\ returned_inv s /\ (patient s -> grace_inv s))) in Hr;
    [tauto| |].
  - subst s0. split_and!; done || by constructor.
  - intros a s1 s2 Hsy Hda (Hc & Hde & Hv & Hdl & Hrt & Hg) Hst. split_and!.
    + by eapply step_counters.
    + by eapply step_depth.
    + by eapply step_verdict.
    + by eapply step_deadline.
    + by eapply step_returned.
    + intros Hp. eapply step_grace; try done. by eapply Hg, step_patient.
Qed.

(** Once the worker has returned nothing is pending and nobody is sending. *)
Lemma worker_gone s :
  reachable cfg s0 s -> wk s = W_done ->
  sent s = (disposed s).*1 /\ usageQueueDepth (obs s) = 0 /\ sumZ uncounted (producers s) = 0.
Proof.
  intros Hr Hw. destruct (reachable_all s Hr) as (Hsy & Hda & _ & Hde & _).
  pose proof (da_account _ _ Hda) as Ha. unfold pending in Ha. rewrite Hw, app_nil_r in Ha.
  pose proof (de_end _ _ Hde) as He. rewrite Hw in He. split_and!; [done|by apply He|].
  rewrite (sumZ_ext _ (fun _ => 0)); [by rewrite sumZ_const|].
  intros p [i Hi]%list_elem_of_lookup.
  assert (chan_closed (sh s) = true) as Hc by (apply (sy_ending _ Hsy); by rewrite Hw).
  pose proof (chan_closed_not_sending s i p Hsy Hc Hi). by destruct p.
Qed.
End Claims.

Lemma fated_total (l : list (Event * fate)) :
  Z.of_nat (length l) = fated Persisted l + fated DeadLettered l + fated Lost l.
Proof.
  unfold fated. induction l as [|[e f] l IH]; [done|]. rewrite !filter_cons. cbn [snd].
  destruct f; repeat case_decide; try done; cbn [length]; lia.
Qed.

(** C21: the exported counters are the truth: at every moment, up to the width
    of the counters, [enqueued] is the number of events the channel accepted
    less the calls that have not counted theirs yet, [persisted] and
    [dead-lettered] are the events with that fate, and [dropped] is the number
    of rejected and of lost events; and [Enqueue] returns true to exactly as
    many callers as there are accepted events, false to exactly as many as
    there are rejected ones. *)
Theorem pipeline_counters {D F} `{UsageStore F D} cfg d s0 s :
  NewPipeline cfg (Some d) NewRegistry = Ok s0 -> in_int64 (MaxAttempts cfg) ->
  reachable cfg s0 s ->
  usageEnqueued (obs s) = wrapu64 (Z.of_nat (length (sent s)) - sumZ uncounted (producers s))
  /\ usagePersisted (obs s) = wrapu64 (fated Persisted (disposed s))
  /\ usageDeadLettered (obs s) = wrapu64 (fated DeadLettered (disposed s))
  /\ usageDropped (obs s) = wrapu64 (Z.of_nat (length (rejected s)) + fated Lost (disposed s))
  /\ Z.of_nat (length (sent s)) = sumZ accepted (producers s)
  /\ Z.of_nat (length (rejected s)) = sumZ refused (producers s).
Proof.
  intros Hnew Hint Hr.
  destruct (reachable_all _ _ _ Hnew Hint s Hr) as (_ & _ & (H1 & H2 & H3 & H4) & _ & [H5 H6] & _).
  done.
Qed.

Lemma pipeline_counters_witness :
  usagePersisted (obs demo_end) = 3
  /\ usagePersisted (obs demo_end) = wrapu64 (fated Persisted (disposed demo_end)).
Proof.
  split; [vm_compute; reflexivity|].
  destruct (pipeline_counters demo_config _ _ _ demo_new demo_int demo_reachable) as (_ & E & _).
  exact E.
Defined.



(** A shutdown no deadline cuts short loses nothing but what the
    dead-letter table refused: if no context handed to [Close] has expired,
    the worker is never cancelled early, and once it has returned the lost
    events are exactly those counted as dead-letter failures. *)
Theorem graceful_close {D F} `{UsageStore F D} cfg d s0 s :
  NewPipeline cfg (Some d) NewRegistry = Ok s0 -> in_int64 (MaxAttempts cfg) ->
  reachable cfg s0 s -> patient s ->
  (cancelled (sh s) = true -> wk s = W_close \/ wk s = W_done)
  /\ (wk s = W_done -> usageDeadLetterFailures (obs s) = wrapu64 (fated Lost (disposed s))).
Proof.
  intros Hnew Hint Hr Hp.
  destruct (reachable_all _ _ _ Hnew Hint s Hr) as (_ & _ & _ & _ & _ & _ & _ & Hg).
  destruct (Hg Hp) as [Hc _ Hf]. split.
  - intros Hcan. specialize (Hc Hcan). destruct (wk s); naive_solver.
  - intros Hw. unfold failing in Hf. rewrite Hw, Z.add_0_r in Hf. done.
Qed.

Lemma graceful_close_witness :
  patient demo_end /\ usageDeadLetterFailures (obs demo_end) = wrapu64 (fated Lost (disposed demo_end)).
Proof.
  assert (patient demo_end) as Hp by (vm_compute; repeat constructor).
  assert (wk demo_end = W_done) as Hw by (vm_compute; reflexivity).
  destruct (graceful_close demo_config _ _ _ demo_new demo_int demo_reachable Hp) as [_ E].
  split; [exact Hp | exact (E Hw)].
Defined.

(** C20: an event the pipeline reports as persisted is in the storage, and one
    it reports as dead-lettered is in the dead-letter table, and they stay
    there; this for every storage that keeps what it acknowledges. *)
Theorem persisted_stored {O D F} `{Observer O} `{UsageStoreLaws F D} cfg d (o : O) s0 s e :
  NewPipeline cfg (Some d) o = Ok s0 -> in_int64 (MaxAttempts cfg) -> reachable cfg s0 s ->
  ((e, Persisted) ∈ disposed s -> stored (disk s) e)
  /\ ((e, DeadLettered) ∈ disposed s -> dead_lettered (disk s) e).
Proof.
  intros Hnew Hint Hr. destruct (started _ _ _ _ Hnew Hint) as [Hcfg Hs0].
  apply (reachable_inv cfg d o s0 Hnew Hint store_inv) in Hr as (_ & _ & [Hd _]).
  - rewrite Forall_forall in Hd. split; intros He; exact (Hd _ He).
  - subst s0. by split.
  - intros a s1 s2 Hsy _ Hst. by apply step_store.
Qed.

Lemma persisted_stored_witness :
  (demo_event "b", Persisted) ∈ disposed demo_end /\ demo_event "b" ∈ (disk demo_end).1.
Proof.
  assert ((demo_event "b", Persisted) ∈ disposed demo_end) as He
    by (vm_compute; right; left).
  split; [exact He|].
  exact (proj1 (persisted_stored demo_config _ _ _ _ (demo_event "b") demo_new demo_int demo_reachable) He).
Defined.
