(* ===== verification/PipelineLiveness.v ===== *)
(** * Progress of the usage pipeline

    Once the channel is closed the worker returns after a bounded number of
    its own steps, whatever the storage answers, and a call of [Enqueue] can
    always run to its end without a step of the worker. *)

From Stdlib Require Import ZArith Lia.
From stdpp Require Import base tactics numbers list strings.
From S2P Require Import Prelude GoLib Event Metrics Pipeline PipelineSafety.

#[local] Arguments sumZ : simpl never.

(** ** Draining *)

Section Drain.
Context {O D F : Type} `{Observer O} `{UsageStore F D}.
Variable cfg : Config.
Hypothesis Hcfg : valid_config cfg.

Notation state := (state O D).

(** An upper bound of the steps of one flush: three per attempt, and the
    dead-letter call with its two counters. *)
Definition flush_cost : Z := 3 * MaxAttempts cfg + 2.

Definition select_cost (s : state) : Z :=
  5 + flush_cost + (if decide (timer s = Fired) then flush_cost + 1 else 0)
  + (flush_cost + 4) * Z.of_nat (length (queue (sh s))).

Definition after_cost (k : site) (s : state) : Z :=
  match k with AtClose => 3 | _ => select_cost s end.

(** An upper bound of the steps the worker still takes once the channel is
    closed and if the flush timer does not fire again. *)
Definition work (s : state) : Z :=
  match wk s with
  | W_select => select_cost s
  | W_got _ => select_cost s + flush_cost + 3
  | W_depth _ _ => select_cost s + flush_cost + 2
  | W_persist k a => after_cost k s + 3 * (MaxAttempts cfg - a) + 5
  | W_failed k a _ => after_cost k s + 3 * (MaxAttempts cfg - a) + 4
  | W_waiting k a _ _ => after_cost k s + 3 * (MaxAttempts cfg - a) + 3
  | W_exhausted k _ => after_cost k s + 3
  | W_dead_fail k => after_cost k s + 2
  | W_dead_drop k | W_dead_ok k | W_persisted k | W_abandon k => after_cost k s + 1
  | W_drop _ => 4
  | W_zero => 3
  | W_stop => 2
  | W_close => 1
  | W_done => 0
  end.

Lemma select_cost_pos s : 5 < select_cost s.
Proof.
  unfold select_cost, flush_cost. destruct Hcfg as (? & ? & ? & ?).
  pose proof (Nat2Z.is_nonneg (length (queue (sh s)))). case_decide; nia.
Qed.

Lemma after_cost_pos k s : 3 <= after_cost k s.
Proof. pose proof (select_cost_pos s). destruct k; cbn; lia. Qed.

Lemma work_nonneg s : data_inv cfg s -> 0 <= work s.
Proof.
  intros [_ Hw _]. pose proof (select_cost_pos s). destruct Hcfg as (? & ? & ? & ?).
  pose proof (fun k => after_cost_pos k s) as Hk.
  unfold work, worker_ok, flush_cost in *. destruct (wk s); try lia;
    match goal with k : site |- _ => specialize (Hk k); lia end.
Qed.

(** Stopping or restarting the flush timer is no work. *)
Lemma select_cost_timer t s : t <> Fired -> select_cost (set_timer t s) <= select_cost s.
Proof.
  intros Ht. unfold select_cost, flush_cost. cbn. destruct Hcfg as (? & ? & ? & ?).
  rewrite (decide_False (P := t = Fired)) by done. case_decide; lia.
Qed.

Lemma work_after_flush k s : work (after_flush k s) <= after_cost k s.
Proof.
  destruct k; cbn; [|by apply select_cost_timer|lia].
  apply select_cost_timer. by destruct (timer s).
Qed.

Lemma work_flush k s : work (flush cfg k s) <= after_cost k s + flush_cost.
Proof.
  pose proof (work_after_flush k s). destruct Hcfg as (? & ? & ? & ?). unfold flush.
  destruct (batch s); [unfold flush_cost; lia|]. rewrite (proj2 (Z.leb_le _ _)) by lia.
  change (work (set_wk (W_persist k 1) s)) with (after_cost k s + 3 * (MaxAttempts cfg - 1) + 5).
  unfold flush_cost. lia.
Qed.

Lemma work_settle k f g s : work (settle k f (observe g s)) <= after_cost k s.
Proof. etrans; [apply work_after_flush|]. by destruct k. Qed.

Lemma worker_step_work ch f s s' :
  sync_inv s -> data_inv cfg s -> worker_step cfg ch f s = Some s' -> work s' < work s.
Proof.
  intros Hsy [_ Hw _] Hstep. pose proof (select_cost_pos s) as Hs.
  pose proof (sy_done _ Hsy) as Hdone. pose proof Hcfg as (? & ? & ? & ?).
  unfold worker_step in Hstep. unfold worker_ok in Hw. unfold work at 2.
  destruct (wk s) as [|e|e n|k a|k|k a err|k a d err|k|k err|k|k|k|n| | | |] eqn:Ew.
  - destruct ch; cbn in Hstep.
    + case_match; simplify_eq/=. cbn. lia.
    + destruct (queue (sh s)) as [|e q] eqn:Eq.
      * case_match; simplify_eq/=. pose proof (work_flush AtClose s). cbn in *.
        unfold select_cost in *. rewrite Eq in *. case_decide; cbn in *; unfold flush_cost in *; lia.
      * simplify_eq/=. unfold work, select_cost. cbn. rewrite Eq. cbn [length].
        rewrite Nat2Z.inj_succ. lia.
    + destruct (timer s) eqn:Et; simplify_eq/=. pose proof (work_flush AtTimer (set_timer Stopped s)) as Hf.
      cbn [after_cost] in Hf. unfold select_cost in *. cbn [timer sh set_timer] in Hf.
      rewrite decide_False in Hf by done. rewrite Et, decide_True by done. lia.
  - simplify_eq/=. unfold work. cbn. change (select_cost (set_wk _ s)) with (select_cost s). lia.
  - simplify_eq/=. set (s1 := set_batch _ _). pose proof (work_flush AtSize s1) as Hf.
    change (after_cost AtSize s1) with (select_cost s) in Hf. case_match; [lia|].
    change (work (set_wk W_select s1)) with (select_cost s). unfold flush_cost. lia.
  - destruct (s_PersistUsage _ _ _) as [[]  ?]; simplify_eq/=; unfold work; cbn.
    + change (after_cost k _) with (after_cost k s). lia.
    + change (after_cost k _) with (after_cost k s) at 1. lia.
  - simplify_eq/=. pose proof (work_settle k Persisted (o_RecordUsageBatch (batch_len s)) s). lia.
  - destruct (Z.eqb_spec a (MaxAttempts cfg)); simplify_eq/=; unfold work; cbn;
      change (after_cost k _) with (after_cost k s) at 1; lia.
  - destruct ch; simplify_eq/=.
    + case_match; simplify_eq/=. unfold work. cbn. change (after_cost k _) with (after_cost k s) at 1. lia.
    + rewrite wrap64_id by (unfold in_int64; lia). rewrite (proj2 (Z.leb_le _ _)) by lia.
      unfold work. cbn. change (after_cost k _) with (after_cost k s) at 1. lia.
  - simplify_eq/=. pose proof (work_settle k Lost (o_RecordUsageDropped (batch_len s)) s). lia.
  - destruct (s_PersistUsageDeadLetters _ _ _ _ _) as [[]  ?]; simplify_eq/=; unfold work; cbn;
      change (after_cost k _) with (after_cost k s) at 1; lia.
  - simplify_eq/=. pose proof (work_settle k DeadLettered (o_RecordUsageDeadLettered (batch_len s)) s). lia.
  - simplify_eq/=. unfold work. cbn. change (after_cost k _) with (after_cost k s) at 1. lia.
  - simplify_eq/=. pose proof (work_settle k Lost (o_RecordUsageDropped (batch_len s)) s). lia.
  - simplify_eq/=. cbn. lia.
  - simplify_eq/=. cbn. lia.
  - simplify_eq/=. cbn. lia.
  - rewrite Hdone in Hstep. simplify_eq/=. cbn. lia.
  - done.
Qed.

(** The worker is never stuck once the channel is closed. *)
Lemma worker_enabled f s :
  sync_inv s -> chan_closed (sh s) = true -> wk s <> W_done ->
  exists ch s', step cfg (A_worker ch f) s = Some s'.
Proof.
  intros Hsy Hc Hw. unfold step. rewrite (sy_panic _ Hsy).
  exists (match wk s with W_waiting _ _ _ _ => OnTimer | _ => OnQueue end).
  unfold worker_step. rewrite Hc. destruct (wk s); try done; repeat case_match; by eexists.
Qed.

Definition is_worker (a : action F) : Z := match a with A_worker _ _ => 1 | _ => 0 end.
Definition is_tick (a : action F) : Z := match a with A_timer => 1 | _ => 0 end.

Lemma work_frame s s' :
  wk s' = wk s -> timer s' = timer s -> queue (sh s') = queue (sh s) -> work s' = work s.
Proof. intros E1 E2 E3. unfold work, after_cost, select_cost. by rewrite E1, E2, E3. Qed.

(** After the close only a tick of the flush timer adds work. *)
Lemma step_work a s s' :
  sync_inv s -> data_inv cfg s -> chan_closed (sh s) = true -> step cfg a s = Some s' ->
  chan_closed (sh s') = true
  /\ work s' + is_worker a <= work s + (flush_cost + 1) * is_tick a.
Proof.
  intros Hsy Hda Hc Hstep. unfold step in Hstep. rewrite (sy_panic _ Hsy) in Hstep.
  destruct a as [e|i| |i pick|i| |ch f]; cbn [is_worker is_tick]; rewrite ?Z.mul_0_r, ?Z.mul_1_r, ?Z.add_0_r.
  - simplify_eq/=. by rewrite (work_frame s).
  - apply bind_Some in Hstep as (p & Hp & Hstep).
    pose proof (chan_closed_not_sending s i p Hsy Hc Hp) as Hns.
    destruct p; cbn in Hstep, Hns; split_guards; try done; by rewrite (work_frame s).
  - simplify_eq/=. by rewrite (work_frame s).
  - apply bind_Some in Hstep as ([c x] & _ & Hstep).
    destruct c; cbn in Hstep; rewrite ?Hc in Hstep; split_guards; by rewrite (work_frame s).
  - simplify_eq/=. by rewrite (work_frame s).
  - destruct (timer s) eqn:Et; simplify_eq/=. split; [done|]. destruct Hcfg as (? & ? & ? & ?).
    assert (select_cost (set_timer Fired s) = select_cost s + flush_cost + 1) as E.
    { unfold select_cost. cbn [timer set_timer sh].
      rewrite decide_True, Et, decide_False by done. lia. }
    unfold work. cbn [wk set_timer]. destruct (wk s); try (rewrite E; lia); try (unfold flush_cost; lia);
      destruct k; cbn [after_cost]; try (rewrite E; lia); unfold flush_cost; lia.
  - pose proof (worker_step_work _ _ _ _ Hsy Hda Hstep).
    destruct (worker_step_frame _ _ _ _ _ Hstep) as (_ & _ & _ & _ & _ & _ & _ & _ & E).
    rewrite E. split; [done|lia].
Qed.

Lemma run_work acts s s' :
  sync_inv s -> data_inv cfg s -> chan_closed (sh s) = true -> run cfg acts s = Some s' ->
  sumZ is_worker acts <= work s + (flush_cost + 1) * sumZ is_tick acts.
Proof.
  revert s. induction acts as [|a acts IH]; intros s Hsy Hda Hc Hrun; cbn in Hrun.
  - unfold sumZ. cbn. pose proof (work_nonneg s Hda). lia.
  - apply bind_Some in Hrun as (s1 & Hst & Hrun).
    destruct (step_work a s s1 Hsy Hda Hc Hst) as [Hc1 Hw].
    assert (sync_inv s1) as Hsy1 by by eapply step_sync.
    assert (data_inv cfg s1) as Hda1 by by eapply (step_data cfg Hcfg a s).
    specialize (IH s1 Hsy1 Hda1 Hc1 Hrun).
    change (sumZ is_worker (a :: acts)) with (is_worker a + sumZ is_worker acts).
    change (sumZ is_tick (a :: acts)) with (is_tick a + sumZ is_tick acts). lia.
Qed.

(** A schedule of the worker alone reaches its end, whatever the storage
    answers. *)
Lemma worker_finishes (fs : nat -> F) s :
  sync_inv s -> data_inv cfg s -> chan_closed (sh s) = true ->
  exists chs s', Z.of_nat (length chs) <= work s
    /\ run cfg (imap (fun i ch => A_worker ch (fs i)) chs) s = Some s' /\ wk s' = W_done.
Proof.
  remember (Z.to_nat (work s)) as n eqn:En. revert fs s En.
  induction (lt_wf n) as [n _ IH]. intros fs s En Hsy Hda Hc.
  pose proof (work_nonneg s Hda) as Hn. destruct (decide (is_done (wk s) = true)) as [Hd|Hd].
  { exists [], s. split; [done|]. split; [done|]. by destruct (wk s). }
  destruct (worker_enabled (fs 0%nat) s Hsy Hc) as (ch & s1 & Hst); [by intros E; rewrite E in Hd|].
  destruct (step_work _ s s1 Hsy Hda Hc Hst) as [Hc1 Hw]. cbn [is_worker is_tick] in Hw.
  assert (sync_inv s1) as Hsy1 by by eapply step_sync.
  assert (data_inv cfg s1) as Hda1 by by eapply (step_data cfg Hcfg _ s).
  pose proof (work_nonneg s1 Hda1).
  destruct (IH (Z.to_nat (work s1)) ltac:(lia) (fun i => fs (S i)) s1 eq_refl Hsy1 Hda1 Hc1)
    as (chs & s' & Hlen & Hrun & Hend).
  exists (ch :: chs), s'. split; [cbn [length]; lia|]. split; [|done].
  cbn [imap run]. rewrite Hst. exact Hrun.
Qed.
End Drain.

(** C23: shutdown terminates.  From any state in which the channel is closed,
    and whatever the storage answers to each call, the worker alone reaches
    its return in at most [work s] steps; and in every interleaving with other
    goroutines it takes at most that many steps plus a fixed number per tick
    of the flush timer, so no schedule keeps it running for ever between
    ticks. *)
Theorem close_terminates {O D F} `{Observer O} `{UsageStore F D} cfg d (o : O) s0 s :
  NewPipeline cfg (Some d) o = Ok s0 -> in_int64 (MaxAttempts cfg) -> reachable cfg s0 s ->
  chan_closed (sh s) = true ->
  (forall fs : nat -> F, exists chs s', Z.of_nat (length chs) <= work cfg s
     /\ run cfg (imap (fun i ch => A_worker ch (fs i)) chs) s = Some s' /\ wk s' = W_done)
  /\ (forall acts s', run cfg acts s = Some s' ->
       sumZ is_worker acts <= work cfg s + (3 * MaxAttempts cfg + 3) * sumZ is_tick acts).
Proof.
  intros Hnew Hint Hr Hc. destruct (started _ _ _ _ Hnew Hint) as [Hcfg _].
  pose proof (reachable_sync _ _ _ _ Hnew Hint s Hr). pose proof (reachable_data _ _ _ _ Hnew Hint s Hr).
  split; [intros fs; by apply worker_finishes|]. intros acts s' Hrun.
  replace (3 * MaxAttempts cfg + 3) with (flush_cost cfg + 1) by (unfold flush_cost; lia).
  by eapply run_work.
Qed.

(** The demonstration run, just after [Close] has closed the channel. *)
Definition demo_closing : state Registry (list Event * list Event) :=
  default demo_start (run demo_config (take 45 demo_acts) demo_start).

Lemma demo_closing_runs : run demo_config (take 45 demo_acts) demo_start = Some demo_closing.
Proof. vm_compute. reflexivity. Qed.

Lemma close_terminates_witness :
  work demo_config demo_closing = 25
  /\ exists chs s', Z.of_nat (length chs) <= work demo_config demo_closing
     /\ run demo_config (imap (fun i ch => A_worker ch (Some (ErrNew "down"))) chs) demo_closing = Some s'
     /\ wk s' = W_done.
Proof.
  split; [vm_compute; reflexivity|].
  destruct (close_terminates demo_config _ _ _ demo_closing demo_new demo_int
              (run_reachable demo_config demo_start _ _ demo_closing_runs)) as [Hd _].
  - vm_compute. reflexivity.
  - exact (Hd (fun _ => Some (ErrNew "down"))).
Defined.

(** ** Enqueue *)

(** The steps a call of [Enqueue] has left, and the steps a call of [Close]
    has left before it releases the lock. *)
Definition producer_left (p : producer) : Z :=
  match p with
  | P_start _ => 8 | P_rlock _ => 7 | P_locked _ => 6 | P_select _ => 5 | P_sent => 4
  | P_counted => 3 | P_depth _ => 2 | P_drop _ => 2 | P_unlock _ => 1 | P_invalid _ => 1
  | P_ret _ => 0
  end.
Definition closer_left (c : closer * bool) : Z :=
  match c.1 with
  | C_lock => 5 | C_pending => 4 | C_held => 3 | C_flagged => 2 | C_unlock => 1 | _ => 0
  end.

Definition calls_left {O D} (s : state O D) : Z :=
  sumZ producer_left (producers s) + sumZ closer_left (closers s).

Definition by_caller {F} (a : action F) : bool :=
  match a with A_producer _ | A_closer _ _ => true | _ => false end.

Definition returned (p : producer) : bool := match p with P_ret _ => true | _ => false end.

Lemma holder_exists l :
  sumZ holds_lock l <> 0 -> exists k p, l !! k = Some p /\ holds_lock p = 1.
Proof.
  intros Hn. destruct (decide (Exists (fun p => holds_lock p = 1) l)) as [He|He].
  - apply Exists_exists in He as (p & [k Hk]%list_elem_of_lookup & Hp). by exists k, p.
  - exfalso. apply Hn. rewrite (sumZ_ext _ (fun _ => 0)); [by rewrite sumZ_const|].
    intros p Hp. apply not_Exists_Forall in He; [|intros ?; apply _].
    rewrite Forall_forall in He. specialize (He p Hp). destruct p; cbn in *; lia.
Qed.

Section Progress.
Context {O D F : Type} `{Observer O} `{UsageStore F D}.
Variable cfg : Config.
Hypothesis Hcfg : valid_config cfg.

Notation state := (state O D).

Lemma calls_left_nonneg (s : state) : 0 <= calls_left s.
Proof.
  unfold calls_left.
  assert (0 <= sumZ producer_left (producers s)) by (apply sumZ_nonneg; intros [] _; cbn; lia).
  assert (0 <= sumZ closer_left (closers s)) by (apply sumZ_nonneg; intros [[] ?] _; cbn; lia).
  lia.
Qed.

(** A call that is past the lock can always take a step. *)
Lemma producer_moves k p (s : state) :
  sync_inv s -> producers s !! k = Some p -> returned p = false ->
  (forall e, p = P_rlock e -> lock (sh s) = Free) ->
  exists s', step cfg (A_producer k) s = Some s' /\ calls_left s' < calls_left s
    /\ is_Some (producers s' !! k) /\ forall j, j <> k -> producers s' !! j = producers s !! j.
Proof.
  intros Hsy Hp Hret Hfree. unfold step. rewrite (sy_panic _ Hsy), Hp. cbn [mbind option_bind].
  assert (sending p = true -> chan_closed (sh s) = false) as Hopen.
  { intros E. apply not_true_iff_false. intros E'. by rewrite (chan_closed_not_sending s k p) in E. }
  assert (forall q (s1 : state), producers s1 = producers s -> closers s1 = closers s ->
    producer_left q < producer_left p ->
    calls_left (goto_producer k q s1) < calls_left s
    /\ is_Some (producers (goto_producer k q s1) !! k)
    /\ forall j, j <> k -> producers (goto_producer k q s1) !! j = producers s !! j) as Hgo.
  { intros q s1 E1 E2 Hlt. unfold calls_left, goto_producer. cbn. rewrite E1, E2.
    rewrite (sumZ_insert _ _ _ _ _ Hp). split; [lia|].
    rewrite list_lookup_insert_eq by by eapply lookup_lt_Some. split; [done|].
    intros j Hj. by rewrite list_lookup_insert_ne. }
  destruct p; cbn [producer_step]; try done;
    try (rewrite (Hopen eq_refl)); try (rewrite (Hfree _ eq_refl)); repeat case_match;
    (eexists; split; [reflexivity|]; apply Hgo; [done..|cbn; lia]).
Qed.

(** A call of [Close] that runs the once takes a step, unless it waits for the
    readers. *)
Lemma closer_moves j c x (s : state) :
  sync_inv s -> closers s !! j = Some (c, x) -> 0 < closer_left (c, x) ->
  (c = C_pending -> readers (sh s) = 0) ->
  exists s', step cfg (A_closer j true) s = Some s' /\ calls_left s' < calls_left s
    /\ producers s' = producers s.
Proof.
  intros Hsy Hj Hleft Hr. unfold step. rewrite (sy_panic _ Hsy), Hj. cbn [mbind option_bind].
  pose proof (sy_closers _ Hsy _ _ _ Hj) as Hok. pose proof (sy_view _ Hsy) as Hv.
  assert (forall c' (s1 : state), producers s1 = producers s -> closers s1 = closers s ->
    closer_left (c', x) < closer_left (c, x) -> calls_left (goto_closer j c' s1) < calls_left s) as Hgo.
  { intros c' s1 E1 E2 Hlt. unfold calls_left, goto_closer. cbn. rewrite E1, E2.
    assert (alter (fun y => (c', y.2)) j (closers s) = <[j := (c', x)]> (closers s)) as ->.
    { rewrite list_insert_alter. apply list_alter_ext; [|done]. intros y Hy. by simplify_eq/=. }
    rewrite (sumZ_insert _ _ _ _ _ Hj). lia. }
  destruct c; cbn in Hleft, Hok; try lia; cbn [closer_step];
    rewrite ?Hr by done; rewrite ?Z.eqb_refl;
    try (eexists; split; [reflexivity|]; split; [|done]; apply Hgo; [done..|cbn; lia]).
  rewrite Hok in Hv. cbn in Hv. rewrite Hj in Hv. simplify_eq/=.
  match goal with E : false = chan_closed _ |- _ => rewrite <- E end.
  eexists; split; [reflexivity|]; split; [|done]; apply Hgo; [done..|cbn; lia].
Qed.

Lemma progress_step i p (s : state) :
  sync_inv s -> producers s !! i = Some p -> returned p = false ->
  exists (a : action F) s', by_caller a = true /\ step cfg a s = Some s'
    /\ calls_left s' < calls_left s /\ is_Some (producers s' !! i).
Proof.
  intros Hsy Hp Hret.
  assert (forall k q, producers s !! k = Some q -> returned q = false ->
    (forall e, q = P_rlock e -> lock (sh s) = Free) ->
    exists (a : action F) s', by_caller a = true /\ step cfg a s = Some s'
    /\ calls_left s' < calls_left s /\ is_Some (producers s' !! i)) as Hprod.
  { intros k q Hk Hq Hfree. destruct (producer_moves k q s Hsy Hk Hq Hfree) as (s' & Hst & Hlt & Hsome & Hne).
    exists (A_producer k), s'. split_and!; try done.
    destruct (decide (i = k)) as [<-|Hik]; [done|]. rewrite Hne by done. by eexists. }
  destruct (lock (sh s)) eqn:El; [by apply (Hprod i p)|..];
    (destruct p; try (by eapply (Hprod i)));
    (pose proof (sy_view _ Hsy) as Hv; rewrite El in Hv; unfold once_view in Hv;
     destruct (close_once (sh s)) as [|j|]; [done| |done];
     destruct (closers s !! j) as [[c x]|] eqn:Hj; [|done]).
  - destruct (decide (readers (sh s) = 0)) as [Hr|Hr].
    + destruct (closer_moves j c x s Hsy Hj) as (s' & Hst & Hlt & E); [by destruct c|done|].
      exists (A_closer j true), s'. rewrite E. split_and!; done || by eexists.
    + rewrite (sy_readers _ Hsy) in Hr. destruct (holder_exists _ Hr) as (k & q & Hk & Hq).
      apply (Hprod k q Hk); [by destruct q|]. by intros ? ->.
  - assert (readers (sh s) = 0) by by apply (sy_held _ Hsy).
    destruct (closer_moves j c x s Hsy Hj) as (s' & Hst & Hlt & E); [by destruct c|done|].
    exists (A_closer j true), s'. rewrite E. split_and!; done || by eexists.
Qed.

Lemma enqueue_finishes i (s : state) :
  sync_inv s -> is_Some (producers s !! i) ->
  exists (acts : list (action F)) s' b, Forall (fun a => by_caller a = true) acts
    /\ Z.of_nat (length acts) <= calls_left s
    /\ run cfg acts s = Some s' /\ producers s' !! i = Some (P_ret b).
Proof.
  remember (Z.to_nat (calls_left s)) as n eqn:En. revert s En.
  induction (lt_wf n) as [n _ IH]. intros s En Hsy [p Hp].
  pose proof (calls_left_nonneg s). destruct (returned p) eqn:Hret.
  - destruct p; try done. exists [], s, b. split; [constructor|]. done.
  - destruct (progress_step i p s Hsy Hp Hret) as (a & s1 & Ha & Hst & Hlt & Hsome).
    pose proof (calls_left_nonneg s1).
    destruct (IH (Z.to_nat (calls_left s1)) ltac:(lia) s1 eq_refl (step_sync cfg Hcfg _ _ _ Hsy Hst) Hsome)
      as (acts & s' & b & Hall & Hlen & Hrun & Hend).
    exists (a :: acts), s', b. split; [by constructor|]. split; [cbn [length]; lia|].
    split; [|done]. cbn [run]. by rewrite Hst.
Qed.
End Progress.

(** C24: [Enqueue] is non-blocking.  From every reachable state every call of
    [Enqueue] in progress can be run to its return by steps of the callers of
    [Enqueue] and [Close] alone, at most eight for every pending call of
    [Enqueue] and five for every pending call of [Close]: it never has to wait
    for the worker, the storage or a timer. *)
Theorem enqueue_nonblocking {O D F} `{Observer O} `{UsageStore F D} cfg d (o : O) s0 s i p :
  NewPipeline cfg (Some d) o = Ok s0 -> in_int64 (MaxAttempts cfg) -> reachable cfg s0 s ->
  producers s !! i = Some p ->
  exists (acts : list (action F)) s' b, Forall (fun a => by_caller a = true) acts
    /\ Z.of_nat (length acts) <= 8 * Z.of_nat (length (producers s)) + 5 * Z.of_nat (length (closers s))
    /\ run cfg acts s = Some s' /\ producers s' !! i = Some (P_ret b).
Proof.
  intros Hnew Hint Hr Hp. destruct (started _ _ _ _ Hnew Hint) as [Hcfg _].
  destruct (enqueue_finishes cfg Hcfg i s (reachable_sync _ _ _ _ Hnew Hint s Hr))
    as (acts & s' & b & Hall & Hlen & Hrun & Hend); [by eexists|].
  exists acts, s', b. split_and!; try done. etrans; [exact Hlen|]. unfold calls_left.
  apply Z.add_le_mono; apply sumZ_le_const; [intros [] _|intros [[] ?] _]; cbn; lia.
Qed.

(** A call waits for the lock while a call of [Close] holds it. *)
Definition demo_locked : state Registry (list Event * list Event) :=
  default demo_start (run demo_config
    [A_enqueue (demo_event "a"); A_producer 0; A_close; A_closer 0 true; A_closer 0 true;
     A_closer 0 true] demo_start).

Lemma demo_locked_runs :
  run demo_config
    [A_enqueue (demo_event "a"); A_producer 0; A_close; A_closer 0 true; A_closer 0 true;
     A_closer 0 true] demo_start = Some demo_locked.
Proof. vm_compute. reflexivity. Qed.

Lemma enqueue_nonblocking_witness :
  lock (sh demo_locked) = Held /\ step demo_config (A_producer 0) demo_locked = None
  /\ exists (acts : list (action (option gerror))) s' b, Forall (fun a => by_caller a = true) acts
    /\ Z.of_nat (length acts) <= 13
    /\ run demo_config acts demo_locked = Some s' /\ producers s' !! 0%nat = Some (P_ret b).
Proof.
  split; [vm_compute; reflexivity|]. split; [vm_compute; reflexivity|].
  apply (enqueue_nonblocking demo_config _ _ _ demo_locked 0 (P_rlock (demo_event "a")) demo_new demo_int
           (run_reachable demo_config demo_start _ _ demo_locked_runs)).
  vm_compute. reflexivity.
Defined.
