(* ===== verification/Auth.v ===== *)
(** * Authentication ([internal/auth/auth.go])

    The service that turns a raw API key into a principal through the store's
    [LookupActiveKey], the digest under which keys are stored, and the
    generation of keys. *)

From Stdlib Require Import ZArith Lia.
From stdpp Require Import base tactics numbers list strings.
From S2P Require Import Prelude GoLib Sha256 Event.

Record Principal := {
  KeyID : string;
  PrClientID : string;
  ClientName : string;
  Plan : string;
  PrRatePerSecond : Z;
  PrBurstCapacity : Z;
}.

(** [Principal{}]. *)
Definition zero_principal : Principal :=
  {| KeyID := ""; PrClientID := ""; ClientName := ""; Plan := "";
     PrRatePerSecond := 0; PrBurstCapacity := 0 |}.

(** The interface [Store]: what [LookupActiveKey] answers to a digest and a
    route at the time of the call. *)
Definition KeyStore : Type := list Z -> string -> res Principal.

Record Service := {
  svc_store : KeyStore;
  svc_pepper : list Z;
}.

Definition NewService (store : option KeyStore) (pepper : string) : res Service :=
  match store with
  | None => Err (ErrNew "authentication store is nil")
  | Some st =>
      if slen pepper <? 16 then Err (ErrNew "API key pepper must contain at least 16 characters")
      else Ok {| svc_store := st; svc_pepper := bytes_of pepper |}
  end.

Definition Digest (pepper : list Z) (rawKey : string) : list Z :=
  hmac_sha256 pepper (bytes_of rawKey).

Definition Authenticate (s : Service) (rawKey route : string) : res Principal :=
  if bool_decide (TrimSpace rawKey = "") then Err ErrInvalidKey
  else
    match svc_store s (Digest (svc_pepper s) rawKey) route with
    | Err e => Err e
    | Ok p => Ok p
    end.

(** ** Base64 *)

(** The alphabet of [base64.URLEncoding]. *)
Definition url_char (d : Z) : Ascii.ascii :=
  if d <? 26 then byte_ascii (65 + d)
  else if d <? 52 then byte_ascii (97 + (d - 26))
  else if d <? 62 then byte_ascii (48 + (d - 52))
  else if d =? 62 then byte_ascii 45 else byte_ascii 95.

(** [base64.RawURLEncoding.EncodeToString]: three bytes make four characters,
    a rest of one or two bytes two or three, without padding. *)
Fixpoint base64_encode (l : list Z) : string :=
  match l with
  | [] => EmptyString
  | [a] =>
      String (url_char (Z.shiftr a 2))
        (String (url_char (Z.shiftl (Z.land a 3) 4)) EmptyString)
  | [a; b] =>
      String (url_char (Z.shiftr a 2))
        (String (url_char (Z.lor (Z.shiftl (Z.land a 3) 4) (Z.shiftr b 4)))
          (String (url_char (Z.shiftl (Z.land b 15) 2)) EmptyString))
  | a :: b :: c :: rest =>
      String (url_char (Z.shiftr a 2))
        (String (url_char (Z.lor (Z.shiftl (Z.land a 3) 4) (Z.shiftr b 4)))
          (String (url_char (Z.lor (Z.shiftl (Z.land b 15) 2) (Z.shiftr c 6)))
            (String (url_char (Z.land c 63)) (base64_encode rest))))
  end.

(** ** Keys *)

Definition Prefix (rawKey : string) : string :=
  let prefixLength := 18%nat in
  let prefixLength := if (String.length rawKey <? prefixLength)%nat
                      then String.length rawKey else prefixLength in
  slice rawKey 0 prefixLength.

(** [GenerateKey]; the argument is what [rand.Read] fills the 32 bytes with. *)
Definition GenerateKey (random : res (list Z)) : res (string * string) :=
  match random with
  | Err e => Err (ErrWrap "generate API key entropy: " e)
  | Ok bytes =>
      let rawKey := "gw_live_" +:+ base64_encode bytes in
      Ok (rawKey, Prefix rawKey)
  end.

(** ** Reading Base64 back *)

Definition url_value (c : Ascii.ascii) : Z :=
  let b := ascii_byte c in
  if (65 <=? b) && (b <=? 90) then b - 65
  else if (97 <=? b) && (b <=? 122) then b - 71
  else if (48 <=? b) && (b <=? 57) then b + 4
  else if b =? 45 then 62 else 63.

Fixpoint base64_decode (s : string) : list Z :=
  match s with
  | String c1 (String c2 rest2) =>
      let v1 := url_value c1 in
      let v2 := url_value c2 in
      let a := v1 * 4 + v2 / 16 in
      match rest2 with
      | EmptyString => [a]
      | String c3 rest3 =>
          let v3 := url_value c3 in
          let b := v2 mod 16 * 16 + v3 / 4 in
          match rest3 with
          | EmptyString => [a; b]
          | String c4 rest =>
              let v4 := url_value c4 in
              a :: b :: (v3 mod 4 * 64 + v4) :: base64_decode rest
          end
      end
  | _ => []
  end.

(** A statement about small numbers holds if it holds of each. *)
Lemma range_cases (n : Z) (P : Z -> Prop) `{forall d, Decision (P d)} :
  bool_decide (Forall P (seqZ 0 n)) = true -> forall d, 0 <= d < n -> P d.
Proof.
  intros HP%bool_decide_eq_true_1 d Hd. rewrite Forall_forall in HP.
  apply HP, elem_of_seqZ. lia.
Qed.

Lemma url_value_char d : 0 <= d < 64 -> url_value (url_char d) = d.
Proof. revert d. apply (range_cases 64 _). vm_compute. reflexivity. Qed.

Lemma lor_sextet x y : 0 <= x < 16 -> 0 <= y < 16 ->
  Z.lor (Z.shiftl x 4) y = x * 16 + y /\ (y < 4 -> Z.lor (Z.shiftl x 2) y = x * 4 + y).
Proof.
  intros Hx. revert y. revert x Hx.
  assert (forall x, 0 <= x < 16 -> Forall (fun y => Z.lor (Z.shiftl x 4) y = x * 16 + y
    /\ (y < 4 -> Z.lor (Z.shiftl x 2) y = x * 4 + y)) (seqZ 0 16)) as Hall.
  { apply (range_cases 16 _). vm_compute. reflexivity. }
  intros x Hx y Hy. specialize (Hall x Hx). rewrite Forall_forall in Hall.
  apply Hall, elem_of_seqZ. lia.
Qed.

(** The bit operations of the encoder as arithmetic. *)
Lemma byte_bits a :
  is_byte a ->
  Z.shiftr a 2 = a / 4 /\ Z.land a 3 = a mod 4 /\ Z.shiftr a 4 = a / 16 /\ Z.land a 15 = a mod 16
  /\ Z.shiftr a 6 = a / 64 /\ Z.land a 63 = a mod 64.
Proof.
  intros _. rewrite !Z.shiftr_div_pow2 by lia.
  change (Z.land a 3) with (Z.land a (Z.ones 2)). change (Z.land a 15) with (Z.land a (Z.ones 4)).
  change (Z.land a 63) with (Z.land a (Z.ones 6)). rewrite (Z.land_ones a 2), (Z.land_ones a 4), (Z.land_ones a 6) by lia. done.
Qed.

Lemma byte_parts a : is_byte a ->
  0 <= a / 4 < 64 /\ 0 <= a mod 4 < 4 /\ 0 <= a / 16 < 16 /\ 0 <= a mod 16 < 16
  /\ 0 <= a / 64 < 4 /\ 0 <= a mod 64 < 64
  /\ a = a / 4 * 4 + a mod 4 /\ a = a / 16 * 16 + a mod 16 /\ a = a / 64 * 64 + a mod 64.
Proof. unfold is_byte. intros. Z.to_euclidean_division_equations. lia. Qed.

Lemma unpack k x y : 0 <= y < k -> (x * k + y) / k = x /\ (x * k + y) mod k = y.
Proof.
  intros Hy. rewrite Z.div_add_l, Z.div_small by lia.
  rewrite (Z.add_comm (x * k) y), Z.mod_add, Z.mod_small by lia. lia.
Qed.


Lemma base64_round l : Forall is_byte l -> base64_decode (base64_encode l) = l.
Proof.
  assert (forall n l, (length l <= n)%nat -> Forall is_byte l -> base64_decode (base64_encode l) = l)
    as Hgen; [|intros; by apply (Hgen (length l))].
  clear l. induction n as [|n IH]; intros l Hn Hl; [destruct l; [done|cbn in Hn; lia]|].
  assert (forall a b, is_byte a -> is_byte b ->
    url_value (url_char (a / 4)) * 4
      + url_value (url_char (Z.lor (Z.shiftl (a mod 4) 4) (b / 16))) / 16 = a
    /\ url_value (url_char (Z.lor (Z.shiftl (a mod 4) 4) (b / 16))) mod 16 = b / 16) as H1.
  { intros a b (? & ? & ? & ? & ? & ? & ? & ? & ?)%byte_parts (? & ? & ? & ? & ? & ? & ? & ? & ?)%byte_parts.
    destruct (lor_sextet (a mod 4) (b / 16)) as [-> _]; [lia..|].
    rewrite !url_value_char by lia. destruct (unpack 16 (a mod 4) (b / 16)) as [-> ->]; lia. }
  assert (forall b c, is_byte b -> is_byte c ->
    url_value (url_char (Z.lor (Z.shiftl (b mod 16) 2) (c / 64))) / 4 = b mod 16
    /\ url_value (url_char (Z.lor (Z.shiftl (b mod 16) 2) (c / 64))) mod 4 = c / 64) as H2.
  { intros b c (? & ? & ? & ? & ? & ? & ? & ? & ?)%byte_parts (? & ? & ? & ? & ? & ? & ? & ? & ?)%byte_parts.
    destruct (lor_sextet (b mod 16) (c / 64)) as [_ E]; [lia..|].
    rewrite E, !url_value_char by lia. apply unpack. lia. }
  assert (forall a, Z.shiftl (a mod 4) 4 = Z.lor (Z.shiftl (a mod 4) 4) (0 / 16)
    /\ Z.shiftl (a mod 16) 2 = Z.lor (Z.shiftl (a mod 16) 2) (0 / 64)) as H0
    by (intros; cbn; by rewrite !Z.lor_0_r).
  assert (is_byte 0) as Hz by (unfold is_byte; lia).
  destruct l as [|a [|b [|c l]]]; [done|..].
  - apply Forall_cons in Hl as [Hl _]. cbn -[Z.shiftl Z.shiftr Z.land Z.lor Z.mul Z.add Z.div Z.modulo url_char url_value].
    destruct (byte_bits a Hl) as (-> & -> & _). rewrite (proj1 (H0 a)). by rewrite (proj1 (H1 a 0 Hl Hz)).
  - apply Forall_cons in Hl as [Ha [Hb _]%Forall_cons].
    cbn -[Z.shiftl Z.shiftr Z.land Z.lor Z.mul Z.add Z.div Z.modulo url_char url_value].
    destruct (byte_bits a Ha) as (-> & -> & _). destruct (byte_bits b Hb) as (_ & _ & -> & -> & _).
    rewrite (proj2 (H0 b)). destruct (H1 a b Ha Hb) as [-> ->]. destruct (H2 b 0 Hb Hz) as [-> _].
    do 2 f_equal. pose proof (byte_parts b Hb). lia.
  - apply Forall_cons in Hl as [Ha [Hb [Hc Hl]%Forall_cons]%Forall_cons].
    cbn -[Z.shiftl Z.shiftr Z.land Z.lor Z.mul Z.add Z.div Z.modulo url_char url_value].
    destruct (byte_bits a Ha) as (-> & -> & _). destruct (byte_bits b Hb) as (_ & _ & -> & -> & _).
    destruct (byte_bits c Hc) as (_ & _ & _ & _ & -> & ->).
    destruct (H1 a b Ha Hb) as [-> ->]. destruct (H2 b c Hb Hc) as [-> ->].
    pose proof (byte_parts b Hb). pose proof (byte_parts c Hc).
    rewrite url_value_char, IH by (lia || (cbn in Hn; lia) || done). repeat f_equal; lia.
Qed.

Lemma base64_length l :
  Z.of_nat (String.length (base64_encode l)) = (4 * Z.of_nat (length l) + 2) / 3.
Proof.
  assert (forall n l, (length l <= n)%nat ->
    Z.of_nat (String.length (base64_encode l)) = (4 * Z.of_nat (length l) + 2) / 3) as Hgen;
    [|by apply (Hgen (length l))].
  clear l. induction n as [|n IH]; intros l Hn; [destruct l; [done|cbn in Hn; lia]|].
  destruct l as [|a [|b [|c l]]]; [done..|].
  cbn [base64_encode String.length length] in *. rewrite !Nat2Z.inj_succ, IH by lia.
  replace (4 * Z.succ _ + 2) with (4 * Z.of_nat (length l) + 2 + 4 * 3) by lia.
  rewrite Z.div_add by lia. lia.
Qed.

Lemma substring_append s t n :
  (n <= String.length s)%nat -> String.substring 0 n (s +:+ t) = String.substring 0 n s.
Proof.
  revert n. induction s as [|c s IH]; intros [|n] Hn; rewrite ?append_nil_l, ?append_cons;
    cbn in Hn |- *; [by destruct t|lia|done|]. f_equal. apply IH. lia.
Qed.

Lemma substring_length s n :
  (n <= String.length s)%nat -> String.length (String.substring 0 n s) = n.
Proof. revert n. induction s as [|c s IH]; intros [|n] Hn; cbn in *; try lia. rewrite IH; lia. Qed.

Lemma substring_prefix s n : HasPrefix s (String.substring 0 n s) = true.
Proof.
  unfold HasPrefix. revert n. induction s as [|c s IH]; intros [|n]; try done. cbn.
  destruct (Ascii.ascii_dec c c); [apply IH|done].
Qed.

(** A generated key starts with its marker, so it is not blank. *)
Lemma GenerateKey_blank bytes raw prefix :
  GenerateKey (Ok bytes) = Ok (raw, prefix) -> blank raw = false /\ prefix = Prefix raw.
Proof.
  intros [= <- <-]. split; [|done]. rewrite append_cons. by apply blank_graphic.
Qed.

(** 32 bytes of entropy give a 51-character key from whose text all 256
    bits can be read back, that is not blank, and whose display prefix is its
    first 18 characters, so that it shows the marker and ten characters of the
    secret; a failing entropy source gives an error and no key. *)
Theorem GenerateKey_spec bytes e :
  length bytes = 32%nat -> Forall is_byte bytes ->
  (exists key prefix secret, GenerateKey (Ok bytes) = Ok (key, prefix)
     /\ key = "gw_live_" +:+ secret /\ base64_decode secret = bytes
     /\ String.length key = 51%nat /\ blank key = false
     /\ String.length prefix = 18%nat /\ HasPrefix key prefix = true
     /\ HasPrefix prefix "gw_live_" = true)
  /\ is_ok (GenerateKey (Err e)) = false.
Proof.
  intros Hlen Hb. split; [|done].
  set (key := "gw_live_" +:+ base64_encode bytes).
  assert (String.length key = 51%nat) as Hk.
  { subst key. rewrite string_length_app. pose proof (base64_length bytes) as H.
    rewrite Hlen in H. change ((4 * Z.of_nat 32 + 2) / 3) with 43 in H. cbn [String.length]. lia. }
  exists key, (Prefix key), (base64_encode bytes). unfold Prefix. rewrite Hk. unfold slice.
  split_and!; try done.
  - unfold GenerateKey, Prefix. fold key. by rewrite Hk.
  - by apply base64_round.
  - subst key. rewrite append_cons. by apply blank_graphic.
  - by apply substring_length; rewrite Hk; lia.
  - apply substring_prefix.
  - subst key. unfold HasPrefix. rewrite !append_cons. cbn. by destruct (String.substring _ _ _).
Qed.

Lemma GenerateKey_spec_witness :
  exists key prefix, GenerateKey (Ok (replicate 32 255)) = Ok (key, prefix)
    /\ String.length key = 51%nat /\ String.length prefix = 18%nat.
Proof.
  destruct (GenerateKey_spec (replicate 32 255) (ErrNew "no entropy"))
    as [(key & prefix & secret & E & _ & _ & Hk & _ & Hp & _) _].
  - reflexivity.
  - apply Forall_replicate. unfold is_byte. lia.
  - exists key, prefix. split; [exact E|]. split; [exact Hk|exact Hp].
Defined.
