(* ===== verification/Sql.v ===== *)
(** * The SQL the store relies on

    What the statements of [internal/store] use of PostgreSQL and of the pgx
    driver: the text type, [LIKE], the range of [INTEGER], [BIGINT] and
    [TIMESTAMPTZ], and the atomicity of a statement under connection faults.
    [Server] holds what is a parameter of the server: the input syntax of
    [uuid] and the hour a timestamp falls into, which depends on the session's
    time zone. *)

From Stdlib Require Import ZArith Lia.
From stdpp Require Import base tactics numbers list strings.
From S2P Require Import Prelude GoLib.

(** ** Server parameters *)

Class Server := {
  (** The canonical text of a [uuid], or nothing for a text that is none. *)
  to_uuid : string -> option string;
  to_uuid_canonical s u : to_uuid s = Some u -> to_uuid u = Some u;
  (** [date_trunc('hour', t)], in microseconds since the Unix epoch. *)
  trunc_hour : Z -> Z;
}.

(** ** Text *)

(** Well-formed UTF-8, without the zero byte, which [text] cannot hold. *)
Fixpoint valid_text (l : list Z) : bool :=
  let cont b := (128 <=? b) && (b <=? 191) in
  match l with
  | [] => true
  | a :: l1 =>
      if (1 <=? a) && (a <=? 127) then valid_text l1
      else match l1 with
      | b :: l2 =>
          if (194 <=? a) && (a <=? 223) then cont b && valid_text l2
          else match l2 with
          | c :: l3 =>
              if (224 <=? a) && (a <=? 239) then
                cont b && cont c && (if a =? 224 then 160 <=? b else true)
                && (if a =? 237 then b <=? 159 else true) && valid_text l3
              else match l3 with
              | d :: l4 =>
                  (240 <=? a) && (a <=? 244) && cont b && cont c && cont d
                  && (if a =? 240 then 144 <=? b else true)
                  && (if a =? 244 then b <=? 143 else true) && valid_text l4
              | [] => false
              end
          | [] => false
          end
      | [] => false
      end
  end.

Definition text_ok (s : string) : bool := valid_text (bytes_of s).

(** [t LIKE p] for a text of ASCII characters: [%] matches any sequence, [_]
    any one character, and a backslash makes the next character literal. *)
Definition percent : Ascii.ascii := byte_ascii 37.
Definition underscore : Ascii.ascii := byte_ascii 95.
Definition backslash : Ascii.ascii := byte_ascii 92.

Fixpoint like (p : string) : string -> bool :=
  match p with
  | EmptyString => fun t => match t with EmptyString => true | _ => false end
  | String c p' =>
      if Ascii.eqb c percent then
        fix any (t : string) : bool :=
          like p' t || match t with String _ t' => any t' | EmptyString => false end
      else if Ascii.eqb c underscore then
        fun t => match t with String _ t' => like p' t' | EmptyString => false end
      else if Ascii.eqb c backslash then
        match p' with
        | String d p'' =>
            fun t => match t with String x t' => Ascii.eqb x d && like p'' t' | EmptyString => false end
        | EmptyString => fun _ => false
        end
      else
        fun t => match t with String x t' => Ascii.eqb x c && like p' t' | EmptyString => false end
  end.

(** A character [LIKE] takes literally. *)
Definition literal (c : Ascii.ascii) : bool :=
  negb (Ascii.eqb c percent) && negb (Ascii.eqb c underscore) && negb (Ascii.eqb c backslash).

(** ** Numbers and timestamps *)

Definition int4_ok (z : Z) : bool := (- 2 ^ 31 <=? z) && (z <? 2 ^ 31).
Definition int8_ok (z : Z) : bool := (- 2 ^ 63 <=? z) && (z <? 2 ^ 63).

(** A [TIMESTAMPTZ] holds microseconds; pgx drops the rest of a [time.Time]. *)
Definition micros (t : Z) : Z := t / 1000.
Definition timestamp_ok (us : Z) : bool :=
  (-210866803200000000 <=? us) && (us <? 9224318016000000000).

(** ** Statements *)

(** What one statement meets: the server's clock, the identifier
    [gen_random_uuid()] gives, and a connection fault, with whether the
    statement had committed when the connection failed. *)
Record Env := {
  now : Z;
  fresh : string;
  fault : option (gerror * bool);
}.

(** A statement is atomic: an error leaves the tables as they were, except
    that a fault after the commit hides a success. *)
Definition exec {T A} (env : Env) (body : T -> res (A * T)) (t : T) : res A * T :=
  match fault env, body t with
  | Some (e, false), _ => (Err e, t)
  | Some (e, true), Ok (_, t') => (Err e, t')
  | Some (e, true), Err _ => (Err e, t)
  | None, Ok (a, t') => (Ok a, t')
  | None, Err e => (Err e, t)
  end.

Definition check (b : bool) (msg : string) : res unit :=
  if b then Ok tt else Err (ErrNew msg).

Lemma check_ok b msg : check b msg = Ok tt <-> b = true.
Proof. unfold check. by destruct b. Qed.

Lemma check_bind {A} b msg (k : res A) a :
  (_ <-- check b msg ;; k) = Ok a <-> b = true /\ k = Ok a.
Proof. unfold check. destruct b; cbn; naive_solver. Qed.

(** Either the body's effect is taken whole or nothing happens. *)
Lemma exec_cases {T A} env (body : T -> res (A * T)) t :
  (exec env body t).2 = t
  \/ exists a, body t = Ok (a, (exec env body t).2).
Proof.
  unfold exec. destruct (fault env) as [[e []]|], (body t) as [[a t']|]; cbn; eauto.
Qed.

Lemma exec_ok {T A} env (body : T -> res (A * T)) t a t' :
  exec env body t = (Ok a, t') -> fault env = None /\ body t = Ok (a, t').
Proof. unfold exec. intros. by split_guards. Qed.

(** ** [LIKE] and prefixes *)

Lemma like_any_true t : like (String percent EmptyString) t = true.
Proof. induction t as [|c t IH]; [done|exact IH]. Qed.

Lemma like_prefix p t :
  chars literal p = true -> like (p +:+ String percent EmptyString) t = HasPrefix t p.
Proof.
  unfold HasPrefix. revert t. induction p as [|c p IH]; intros t Hp.
  - rewrite append_nil_l, like_any_true. by destruct t.
  - cbn [chars] in Hp. apply andb_prop in Hp as [Hc Hp]. unfold literal in Hc.
    bool_to_prop. rewrite append_cons. cbn [like].
    repeat match goal with E : Ascii.eqb _ _ = false |- _ => rewrite E; clear E end.
    destruct t as [|x t]; [done|]. rewrite IH by done. cbn [String.prefix].
    destruct (Ascii.eqb_spec x c) as [->|Hne]; [cbn [andb]; by destruct (Ascii.ascii_dec c c)|].
    by destruct (Ascii.ascii_dec c x) as [->|].
Qed.
