(* ===== verification/Store.v ===== *)
(** * The relational store ([internal/store/postgres.go])

    The tables of [migrations/001_api_keys.sql] as lists of rows and every
    statement of the administration and lookup paths.  Columns no statement
    reads ([created_at] apart from [clients], [updated_at], [last_used_at], the
    identifier of a route quota) are left out. *)

From Stdlib Require Import ZArith Lia.
From stdpp Require Import base tactics numbers list strings sets.
From S2P Require Import Prelude GoLib Sha256 Event Auth Sql RateLimit.

(** ** Tables *)

Record plan := {
  pl_id : string;
  pl_slug : string;
  pl_name : string;
  pl_rate : Z;
  pl_burst : Z;
}.

Record client := {
  cl_id : string;
  cl_plan_id : string;
  cl_name : string;
  cl_active : bool;
  cl_created : Z;
}.

Record api_key := {
  ak_id : string;
  ak_client_id : string;
  ak_name : string;
  ak_prefix : string;
  ak_hash : list Z;
  ak_revoked : option Z;
}.

Record route_quota := {
  rq_client_id : string;
  rq_prefix : string;
  rq_rate : Z;
  rq_burst : Z;
}.

Record Keys := {
  plans : list plan;
  clients : list client;
  api_keys : list api_key;
  quotas : list route_quota;
}.

Definition set_plans (v : list plan) (t : Keys) : Keys :=
  {| plans := v; clients := clients t; api_keys := api_keys t; quotas := quotas t |}.
Definition set_clients (v : list client) (t : Keys) : Keys :=
  {| plans := plans t; clients := v; api_keys := api_keys t; quotas := quotas t |}.
Definition set_api_keys (v : list api_key) (t : Keys) : Keys :=
  {| plans := plans t; clients := clients t; api_keys := v; quotas := quotas t |}.
Definition set_quotas (v : list route_quota) (t : Keys) : Keys :=
  {| plans := plans t; clients := clients t; api_keys := api_keys t; quotas := v |}.

(** ** Connecting *)

(** [Open]: parsing the URL, building the pool and pinging it may each fail. *)
Definition Open (parse create ping : option gerror) : res unit :=
  match parse, create, ping with
  | Some e, _, _ => Err (ErrWrap "parse database URL: " e)
  | None, Some e, _ => Err (ErrWrap "create PostgreSQL pool: " e)
  | None, None, Some e => Err (ErrWrap "ping PostgreSQL: " e)
  | None, None, None => Ok tt
  end.

(** The first row that satisfies a condition. *)
Definition row {A} (p : A -> bool) (l : list A) : option A := head (filter (fun a => p a = true) l).

(** [UPDATE ... WHERE]. *)
Definition update {A} (p : A -> bool) (f : A -> A) (l : list A) : list A :=
  (fun a => if p a then f a else a) <$> l.

Definition same (s s' : string) : bool := bool_decide (s = s').

(** The check [slug ~ '^[a-z0-9][a-z0-9_-]{1,31}$']. *)
Definition slug_head (c : Ascii.ascii) : bool :=
  let b := ascii_byte c in (97 <=? b) && (b <=? 122) || (48 <=? b) && (b <=? 57).
Definition slug_char (c : Ascii.ascii) : bool :=
  slug_head c || (ascii_byte c =? 95) || (ascii_byte c =? 45).
Definition slug_ok (s : string) : bool :=
  match s with
  | EmptyString => false
  | String c r => slug_head c && chars slug_char r && (1 <=? slen r) && (slen r <=? 31)
  end.

(** The checks of the two quota columns, [INTEGER NOT NULL CHECK (... > 0)]. *)
Definition quota_check (rate burst : Z) : res unit :=
  _ <-- check (int4_ok rate && int4_ok burst) "integer out of range" ;;
  check ((0 <? rate) && (0 <? burst)) "violates check constraint".

Section Statements.
Context `{Server}.

(** [$n::uuid]. *)
Definition cast_uuid (s : string) : res string :=
  match to_uuid s with Some u => Ok u | None => Err (ErrNew "invalid input syntax for type uuid") end.

(** ** Lookup *)

Definition active (k : api_key) : bool := match ak_revoked k with None => true | Some _ => false end.

(** The row of the lateral subquery: of the client's quotas whose prefix
    matches the route, the first with the longest prefix. *)
Definition longest (best : option route_quota) (q : route_quota) : option route_quota :=
  match best with
  | Some b => if (String.length (rq_prefix b) <? String.length (rq_prefix q))%nat then Some q else best
  | None => Some q
  end.

Definition quota_matches (client_id route : string) (q : route_quota) : bool :=
  same (rq_client_id q) client_id && like (rq_prefix q +:+ "%") route.

Definition route_quota_for (t : Keys) (client_id route : string) : option route_quota :=
  foldl longest None (filter (fun q => quota_matches client_id route q = true) (quotas t)).

(** The rows of the lookup query. *)
Definition lookup_rows (t : Keys) (digest : list Z) (route : string) : list Principal :=
  k ← filter (fun k => bool_decide (ak_hash k = digest) && active k = true) (api_keys t);
  c ← filter (fun c => same (cl_id c) (ak_client_id k) && cl_active c = true) (clients t);
  p ← filter (fun p => same (pl_id p) (cl_plan_id c) = true) (plans t);
  let q := route_quota_for t (cl_id c) route in
  [{| KeyID := ak_id k; PrClientID := cl_id c; ClientName := cl_name c; Plan := pl_slug p;
      PrRatePerSecond := match q with Some q => rq_rate q | None => pl_rate p end;
      PrBurstCapacity := match q with Some q => rq_burst q | None => pl_burst p end |}].

Definition LookupActiveKey (env : Env) (t : Keys) (digest : list Z) (route : string) : res Principal :=
  match fault env with
  | Some (e, _) => Err (ErrWrap "lookup API key: " e)
  | None =>
      match lookup_rows t digest route with
      | [] => Err ErrInvalidKey
      | p :: _ => Ok p
      end
  end.

(** ** Administration *)

Definition UpsertPlan (env : Env) (slug name : string) (rate burst : Z) : Keys -> res string * Keys :=
  exec env (fun t =>
    _ <-- check (text_ok slug && text_ok name) "invalid byte sequence for encoding UTF8" ;;
    _ <-- quota_check rate burst ;;
    _ <-- check (slug_ok slug) "violates check constraint" ;;
    match row (fun p => same (pl_slug p) slug) (plans t) with
    | Some p =>
        Ok (pl_id p, set_plans (update (fun p => same (pl_slug p) slug)
          (fun p => {| pl_id := pl_id p; pl_slug := pl_slug p; pl_name := name;
                       pl_rate := rate; pl_burst := burst |}) (plans t)) t)
    | None =>
        _ <-- check (bool_decide (fresh env ∉ pl_id <$> plans t)) "duplicate key value" ;;
        Ok (fresh env, set_plans (plans t ++ [{| pl_id := fresh env; pl_slug := slug;
          pl_name := name; pl_rate := rate; pl_burst := burst |}]) t)
    end).

(** The error text quotes the slug with [%q], which is [strconv.Quote]. *)
Variable Quote : string -> string.

Definition no_rows : gerror := ErrNew "no rows in result set".

(** The statement of [CreateClient]; no rows when no plan has the slug. *)
Definition insert_client (env : Env) (name planSlug : string) : Keys -> res string * Keys :=
  exec env (fun t =>
    _ <-- check (text_ok name && text_ok planSlug) "invalid byte sequence for encoding UTF8" ;;
    match row (fun p => same (pl_slug p) planSlug) (plans t) with
    | None => Err no_rows
    | Some p =>
        _ <-- check (bool_decide (fresh env ∉ cl_id <$> clients t)) "duplicate key value" ;;
        Ok (fresh env, set_clients (clients t ++ [{| cl_id := fresh env; cl_plan_id := pl_id p;
          cl_name := name; cl_active := true; cl_created := now env |}]) t)
    end).

Definition CreateClient (env : Env) (name planSlug : string) (t : Keys) : res string * Keys :=
  let '(r, t') := insert_client env name planSlug t in
  match r with
  | Err e =>
      if decide (e = no_rows) then
        (Err (ErrNew ("plan " +:+ Quote planSlug +:+ " does not exist")), t')
      else (Err e, t')
  | Ok id => (Ok id, t')
  end.

(** The oldest client with that name on that plan. *)
Definition oldest (best : option client) (c : client) : option client :=
  match best with
  | Some b => if cl_created c <? cl_created b then Some c else best
  | None => Some c
  end.

Definition find_client (t : Keys) (name planSlug : string) : option client :=
  foldl oldest None (filter (fun c =>
    same (cl_name c) name
    && existsb (fun p => same (pl_id p) (cl_plan_id c) && same (pl_slug p) planSlug) (plans t) = true)
    (clients t)).

(** [EnsureClient] makes two statements, each with its own environment. *)
Definition EnsureClient (env1 env2 : Env) (name planSlug : string) (t : Keys) : res string * Keys :=
  match fault env1 with
  | Some (e, _) => (Err e, t)
  | None =>
      if text_ok name && text_ok planSlug then
        match find_client t name planSlug with
        | Some c => (Ok (cl_id c), t)
        | None => CreateClient env2 name planSlug t
        end
      else (Err (ErrNew "invalid byte sequence for encoding UTF8"), t)
  end.

(** The checks and the insertion [CreateAPIKey] and [EnsureAPIKey] share. *)
Definition key_checks (clientID name prefix : string) (digest : list Z) : res string :=
  _ <-- check (text_ok name && text_ok prefix) "invalid byte sequence for encoding UTF8" ;;
  id <-- cast_uuid clientID ;;
  _ <-- check (bool_decide (length digest = 32%nat)) "violates check constraint" ;;
  Ok id.

Definition insert_key (env : Env) (client_id name prefix : string) (digest : list Z) (t : Keys)
    : res (string * Keys) :=
  _ <-- check (bool_decide (fresh env ∉ ak_id <$> api_keys t)) "duplicate key value" ;;
  _ <-- check (bool_decide (prefix ∉ ak_prefix <$> api_keys t)) "duplicate key value" ;;
  _ <-- check (bool_decide (digest ∉ ak_hash <$> api_keys t)) "duplicate key value" ;;
  _ <-- check (bool_decide (client_id ∈ cl_id <$> clients t)) "violates foreign key constraint" ;;
  Ok (fresh env, set_api_keys (api_keys t ++ [{| ak_id := fresh env; ak_client_id := client_id;
    ak_name := name; ak_prefix := prefix; ak_hash := digest; ak_revoked := None |}]) t).

Definition CreateAPIKey (env : Env) (clientID name prefix : string) (digest : list Z)
    : Keys -> res string * Keys :=
  exec env (fun t =>
    client_id <-- key_checks clientID name prefix digest ;;
    insert_key env client_id name prefix digest t).

Definition revive (k : api_key) : api_key :=
  {| ak_id := ak_id k; ak_client_id := ak_client_id k; ak_name := ak_name k;
     ak_prefix := ak_prefix k; ak_hash := ak_hash k; ak_revoked := None |}.

Definition EnsureAPIKey (env : Env) (clientID name prefix : string) (digest : list Z)
    : Keys -> res string * Keys :=
  exec env (fun t =>
    client_id <-- key_checks clientID name prefix digest ;;
    match row (fun k => bool_decide (ak_hash k = digest)) (api_keys t) with
    | Some k =>
        Ok (ak_id k, set_api_keys (update (fun k => bool_decide (ak_hash k = digest)) revive (api_keys t)) t)
    | None => insert_key env client_id name prefix digest t
    end).

Definition SetRouteQuota (env : Env) (clientID route : string) (rate burst : Z)
    : Keys -> res unit * Keys :=
  exec env (fun t =>
    _ <-- check (text_ok route) "invalid byte sequence for encoding UTF8" ;;
    client_id <-- cast_uuid clientID ;;
    _ <-- quota_check rate burst ;;
    _ <-- check (like "/%" route) "violates check constraint" ;;
    let new := {| rq_client_id := client_id; rq_prefix := route; rq_rate := rate; rq_burst := burst |} in
    let here q := same (rq_client_id q) client_id && same (rq_prefix q) route in
    match row here (quotas t) with
    | Some _ => Ok (tt, set_quotas (update here (fun _ => new) (quotas t)) t)
    | None =>
        _ <-- check (bool_decide (client_id ∈ cl_id <$> clients t)) "violates foreign key constraint" ;;
        Ok (tt, set_quotas (quotas t ++ [new]) t)
    end).

Definition revoke (at_ : Z) (k : api_key) : api_key :=
  {| ak_id := ak_id k; ak_client_id := ak_client_id k; ak_name := ak_name k;
     ak_prefix := ak_prefix k; ak_hash := ak_hash k; ak_revoked := Some at_ |}.

(** [WHERE key_prefix = $1 AND revoked_at IS NULL]. *)
Definition hit (prefix : string) (k : api_key) : bool := same (ak_prefix k) prefix && active k.

(** [RevokeKey] returns the number of rows affected. *)
Definition RevokeKey (env : Env) (prefix : string) : Keys -> res Z * Keys :=
  exec env (fun t =>
    _ <-- check (text_ok prefix) "invalid byte sequence for encoding UTF8" ;;
    Ok (Z.of_nat (length (filter (fun k => hit prefix k = true) (api_keys t))),
        set_api_keys (update (hit prefix) (revoke (now env)) (api_keys t)) t)).

End Statements.

(** ** The constraints of the schema *)

Record schema_ok (t : Keys) : Prop := {
  ok_plan_ids : NoDup (pl_id <$> plans t);
  ok_slugs : NoDup (pl_slug <$> plans t);
  ok_plans : Forall (fun p => slug_ok (pl_slug p) = true /\ valid_policy (pl_rate p) (pl_burst p)) (plans t);
  ok_client_ids : NoDup (cl_id <$> clients t);
  ok_client_plans : Forall (fun c => cl_plan_id c ∈ pl_id <$> plans t) (clients t);
  ok_key_ids : NoDup (ak_id <$> api_keys t);
  ok_prefixes : NoDup (ak_prefix <$> api_keys t);
  ok_hashes : NoDup (ak_hash <$> api_keys t);
  ok_keys : Forall (fun k => length (ak_hash k) = 32%nat /\ ak_client_id k ∈ cl_id <$> clients t)
              (api_keys t);
  ok_quota_keys : NoDup ((fun q => (rq_client_id q, rq_prefix q)) <$> quotas t);
  ok_quotas : Forall (fun q => valid_policy (rq_rate q) (rq_burst q)
                /\ HasPrefix (rq_prefix q) "/" = true /\ rq_client_id q ∈ cl_id <$> clients t) (quotas t);
}.

Definition no_keys : Keys := {| plans := []; clients := []; api_keys := []; quotas := [] |}.

(** *** Rows and updates *)

Lemma row_Some {A} (p : A -> bool) l a : row p l = Some a -> p a = true /\ a ∈ l.
Proof. unfold row. intros Ha. apply head_Some_elem_of, list_elem_of_filter in Ha. done. Qed.

Lemma row_None {A} (p : A -> bool) l a : row p l = None -> a ∈ l -> p a = false.
Proof.
  unfold row. intros Hn%head_None Ha. apply not_true_iff_false. intros Hp.
  assert (a ∈ filter (fun a => p a = true) l) as Hin by by apply list_elem_of_filter.
  rewrite Hn in Hin. by apply elem_of_nil in Hin.
Qed.

(** An update that keeps a column keeps the list of its values. *)
Lemma update_column {A B} (g : A -> B) p f l :
  (forall a, p a = true -> g (f a) = g a) -> g <$> update p f l = g <$> l.
Proof.
  intros Hg. unfold update. rewrite <- list_fmap_compose. apply list_fmap_ext.
  intros i a _. cbn. destruct (p a) eqn:E; [by apply Hg|done].
Qed.

Lemma update_Forall {A} (P : A -> Prop) p f l :
  Forall P l -> (forall a, p a = true -> P a -> P (f a)) -> Forall P (update p f l).
Proof.
  intros Hl Hf. unfold update. apply Forall_fmap. eapply Forall_impl; [done|].
  intros a Ha. cbn. destruct (p a) eqn:E; auto.
Qed.

Lemma same_true s s' : same s s' = true <-> s = s'.
Proof. unfold same. apply bool_decide_eq_true. Qed.

Lemma quota_check_ok rate burst : quota_check rate burst = Ok tt <-> valid_policy rate burst.
Proof.
  unfold quota_check, valid_policy. rewrite check_bind, check_ok. unfold int4_ok.
  split; intros; bool_to_prop; [lia|]. split; repeat (apply andb_true_intro; split); lia.
Qed.

Lemma NoDup_snoc {A} (l : list A) x : NoDup (l ++ [x]) <-> NoDup l /\ x ∉ l.
Proof.
  rewrite NoDup_app. split; [intros (? & Hd & _)|intros [? Hx]].
  - split; [done|]. intros Hx. apply (Hd x Hx). by left.
  - split_and!; [done| |apply NoDup_singleton].
    intros y Hy ->%list_elem_of_singleton. done.
Qed.

Lemma like_slash route : like "/%" route = HasPrefix route "/".
Proof. apply (like_prefix "/" route eq_refl). Qed.

(** ** Every statement keeps the constraints *)

Section Preservation.
Context `{Server}.
Variable Quote : string -> string.

(** A statement whose successful body keeps the constraints keeps them. *)
Lemma exec_schema {A} env (body : Keys -> res (A * Keys)) t :
  schema_ok t -> (forall a t', body t = Ok (a, t') -> schema_ok t') ->
  schema_ok (exec env body t).2.
Proof.
  intros Ht Hb. destruct (exec_cases env body t) as [->|[a Ha]]; [done|]. by eapply Hb.
Qed.

Lemma UpsertPlan_schema env slug name rate burst t :
  schema_ok t -> schema_ok (UpsertPlan env slug name rate burst t).2.
Proof.
  intros Ht. apply exec_schema; [done|]. intros a t' Hb.
  apply check_bind in Hb as [_ Hb]. destruct (quota_check rate burst) as [[]|] eqn:Eq; [|done].
  apply quota_check_ok in Eq. cbn [res_bind] in Hb. apply check_bind in Hb as [Hslug Hb].
  destruct Ht. destruct (row _ _) as [p|] eqn:Er; simplify_eq.
  - split; cbn; rewrite ?(update_column pl_id), ?(update_column pl_slug) by done; try done.
    apply update_Forall; [done|]. cbn. tauto.
  - apply check_bind in Hb as [Hf%bool_decide_eq_true_1 Hb]. simplify_eq.
    assert (slug ∉ pl_slug <$> plans t) as Hs.
    { intros (p & -> & Hp)%list_elem_of_fmap. pose proof (row_None _ _ _ Er Hp) as Hr.
      cbn in Hr. by rewrite (proj2 (same_true _ _) eq_refl) in Hr. }
    split; cbn; rewrite ?fmap_app; try done; cbn; try by apply NoDup_snoc.
    + apply Forall_app_2; [done|]. by apply Forall_singleton.
    + eapply Forall_impl; [done|]. cbn. intros c Hc. apply elem_of_app. by left.
Qed.

Lemma CreateClient_schema env name planSlug t :
  schema_ok t -> schema_ok (CreateClient Quote env name planSlug t).2.
Proof.
  intros Ht. assert (schema_ok (insert_client env name planSlug t).2) as Hi.
  { apply exec_schema; [done|]. intros a t' Hb. apply check_bind in Hb as [_ Hb].
    destruct (row _ _) as [p|] eqn:Er; [|done]. apply row_Some in Er as [_ Hp].
    apply check_bind in Hb as [Hf%bool_decide_eq_true_1 Hb]. simplify_eq.
    assert (forall x, x ∈ cl_id <$> clients t ->
      x ∈ cl_id <$> clients t ++ [{| cl_id := fresh env; cl_plan_id := pl_id p; cl_name := name;
        cl_active := true; cl_created := now env |}]) as Hmono.
    { intros x Hx. rewrite fmap_app. apply elem_of_app. by left. }
    destruct Ht. split; cbn -[fmap]; try done.
    - rewrite fmap_app. by apply NoDup_snoc.
    - apply Forall_app_2; [done|]. apply Forall_singleton. cbn [cl_plan_id]. by apply list_elem_of_fmap_2.
    - eapply Forall_impl; [done|]. naive_solver.
    - eapply Forall_impl; [done|]. naive_solver. }
  unfold CreateClient. destruct (insert_client _ _ _ _) as [[|] t']; [done|]. by case_decide.
Qed.

Lemma EnsureClient_schema env1 env2 name planSlug t :
  schema_ok t -> schema_ok (EnsureClient Quote env1 env2 name planSlug t).2.
Proof.
  intros Ht. unfold EnsureClient. repeat case_match; try done. by apply CreateClient_schema.
Qed.

Lemma insert_key_schema env client_id name prefix digest t a t' :
  schema_ok t -> length digest = 32%nat ->
  insert_key env client_id name prefix digest t = Ok (a, t') -> schema_ok t'.
Proof.
  intros [] Hlen Hb. unfold insert_key in Hb.
  do 4 (apply check_bind in Hb as [?Hc%bool_decide_eq_true_1 Hb]). simplify_eq.
  split; cbn; rewrite ?fmap_app; try done; try by apply NoDup_snoc.
  apply Forall_app_2; [done|]. by apply Forall_singleton.
Qed.

Lemma key_checks_ok clientID name prefix digest id :
  key_checks clientID name prefix digest = Ok id ->
  to_uuid clientID = Some id /\ length digest = 32%nat.
Proof.
  unfold key_checks, cast_uuid. intros Hb. apply check_bind in Hb as [_ Hb].
  destruct (to_uuid clientID); [|done]. cbn [res_bind] in Hb.
  apply check_bind in Hb as [Hl%bool_decide_eq_true_1 Hb]. by simplify_eq.
Qed.

Lemma CreateAPIKey_schema env clientID name prefix digest t :
  schema_ok t -> schema_ok (CreateAPIKey env clientID name prefix digest t).2.
Proof.
  intros Ht. apply exec_schema; [done|]. intros a t' Hb.
  destruct (key_checks _ _ _ _) as [id|] eqn:Ek; [|done]. apply key_checks_ok in Ek as [_ Hl].
  by eapply insert_key_schema.
Qed.

Lemma EnsureAPIKey_schema env clientID name prefix digest t :
  schema_ok t -> schema_ok (EnsureAPIKey env clientID name prefix digest t).2.
Proof.
  intros Ht. apply exec_schema; [done|]. intros a t' Hb.
  destruct (key_checks _ _ _ _) as [id|] eqn:Ek; [|done]. apply key_checks_ok in Ek as [_ Hl].
  cbn [res_bind] in Hb. destruct (row _ _) as [k|]; [|by eapply insert_key_schema]. simplify_eq.
  destruct Ht. split; cbn; rewrite ?(update_column ak_id), ?(update_column ak_prefix),
    ?(update_column ak_hash) by done; try done. by apply update_Forall.
Qed.

Lemma SetRouteQuota_schema env clientID route rate burst t :
  schema_ok t -> schema_ok (SetRouteQuota env clientID route rate burst t).2.
Proof.
  intros Ht. apply exec_schema; [done|]. intros a t' Hb. apply check_bind in Hb as [_ Hb].
  unfold cast_uuid in Hb. destruct (to_uuid clientID) as [id|]; [|done]. cbn [res_bind] in Hb.
  destruct (quota_check rate burst) as [[]|] eqn:Eq; [|done]. apply quota_check_ok in Eq.
  cbn [res_bind] in Hb. apply check_bind in Hb as [Hs Hb]. rewrite like_slash in Hs.
  destruct Ht. destruct (row _ _) as [q|] eqn:Er.
  - simplify_eq. split; cbn; try done.
    + rewrite update_column; [done|]. intros q' [->%same_true ->%same_true]%andb_prop. done.
    + apply update_Forall; [done|]. cbn. intros q' [<-%same_true _]%andb_prop. tauto.
  - apply check_bind in Hb as [Hfk%bool_decide_eq_true_1 Hb]. simplify_eq. split; cbn; try done.
    + rewrite fmap_app. apply NoDup_snoc. split; [done|].
      intros (q & [= -> ->] & Hq)%list_elem_of_fmap. pose proof (row_None _ _ _ Er Hq) as Hr.
      cbn in Hr. by rewrite !(proj2 (same_true _ _) eq_refl) in Hr.
    + apply Forall_app_2; [done|]. by apply Forall_singleton.
Qed.

Lemma RevokeKey_schema env prefix t : schema_ok t -> schema_ok (RevokeKey env prefix t).2.
Proof.
  intros Ht. apply exec_schema; [done|]. intros a t' Hb. apply check_bind in Hb as [_ Hb].
  simplify_eq. destruct Ht. split; cbn; rewrite ?(update_column ak_id), ?(update_column ak_prefix),
    ?(update_column ak_hash) by done; try done. by apply update_Forall.
Qed.

(** The administrative calls, with what each statement of theirs meets. *)
Inductive call :=
| UpsertPlan_ (env : Env) (slug name : string) (rate burst : Z)
| CreateClient_ (env : Env) (name planSlug : string)
| EnsureClient_ (env1 env2 : Env) (name planSlug : string)
| CreateAPIKey_ (env : Env) (clientID name prefix : string) (digest : list Z)
| EnsureAPIKey_ (env : Env) (clientID name prefix : string) (digest : list Z)
| SetRouteQuota_ (env : Env) (clientID route : string) (rate burst : Z)
| RevokeKey_ (env : Env) (prefix : string).

Definition perform (c : call) (t : Keys) : Keys :=
  match c with
  | UpsertPlan_ env slug name rate burst => (UpsertPlan env slug name rate burst t).2
  | CreateClient_ env name planSlug => (CreateClient Quote env name planSlug t).2
  | EnsureClient_ env1 env2 name planSlug => (EnsureClient Quote env1 env2 name planSlug t).2
  | CreateAPIKey_ env c n p d => (CreateAPIKey env c n p d t).2
  | EnsureAPIKey_ env c n p d => (EnsureAPIKey env c n p d t).2
  | SetRouteQuota_ env c r rate burst => (SetRouteQuota env c r rate burst t).2
  | RevokeKey_ env p => (RevokeKey env p t).2
  end.

Lemma perform_schema c t : schema_ok t -> schema_ok (perform c t).
Proof.
  destruct c; cbn; auto using UpsertPlan_schema, CreateClient_schema, EnsureClient_schema,
    CreateAPIKey_schema, EnsureAPIKey_schema, SetRouteQuota_schema, RevokeKey_schema.
Qed.

Lemma performs_schema cs t : schema_ok t -> schema_ok (foldl (flip perform) t cs).
Proof. revert t. induction cs as [|c cs IH]; intros t Ht; [done|]. by apply IH, perform_schema. Qed.
End Preservation.

(** ** What a lookup returns *)

Lemma column_inj {A B} (g : A -> B) l a b :
  NoDup (g <$> l) -> a ∈ l -> b ∈ l -> g a = g b -> a = b.
Proof.
  intros Hnd [i Hi]%list_elem_of_lookup [j Hj]%list_elem_of_lookup Hg.
  assert (i = j) as <-; [|congruence].
  eapply NoDup_lookup; [done| |]; rewrite list_lookup_fmap; [by rewrite Hi|by rewrite Hj, Hg].
Qed.

(** The principal of a key, its client and its plan. *)
Definition principal_of `{Server} (t : Keys) (k : api_key) (c : client) (p : plan) (route : string) : Principal :=
  let q := route_quota_for t (cl_id c) route in
  {| KeyID := ak_id k; PrClientID := cl_id c; ClientName := cl_name c; Plan := pl_slug p;
     PrRatePerSecond := match q with Some q => rq_rate q | None => pl_rate p end;
     PrBurstCapacity := match q with Some q => rq_burst q | None => pl_burst p end |}.

Definition authenticates (t : Keys) (digest : list Z) (k : api_key) (c : client) (p : plan) : Prop :=
  k ∈ api_keys t /\ ak_hash k = digest /\ ak_revoked k = None
  /\ c ∈ clients t /\ cl_id c = ak_client_id k /\ cl_active c = true
  /\ p ∈ plans t /\ pl_id p = cl_plan_id c.

Section Lookup.
Context `{Server}.

Lemma lookup_rows_elem t digest route pr :
  pr ∈ lookup_rows t digest route <->
  exists k c p, authenticates t digest k c p /\ pr = principal_of t k c p route.
Proof.
  unfold lookup_rows, authenticates, active.
  rewrite list_elem_of_bind. split.
  - intros (k & Hrest & [Hk Hkt]%list_elem_of_filter). apply andb_prop in Hk as [Hh Ha].
    apply bool_decide_eq_true_1 in Hh.
    apply list_elem_of_bind in Hrest as (c & Hrest & [Hc Hct]%list_elem_of_filter).
    apply andb_prop in Hc as [Hc%same_true Hca].
    apply list_elem_of_bind in Hrest as (p & Hp & [Hpc%same_true Hpt]%list_elem_of_filter).
    apply list_elem_of_singleton in Hp. exists k, c, p. split; [|done].
    split_and!; try done. by destruct (ak_revoked k).
  - intros (k & c & p & (Hk & Hh & Hr & Hc & Hck & Hca & Hp & Hpc) & ->).
    exists k. split; [|apply list_elem_of_filter; split; [|done];
      rewrite Hr; by rewrite bool_decide_eq_true_2].
    apply list_elem_of_bind. exists c. split; [|apply list_elem_of_filter; split; [|done];
      rewrite Hca, andb_true_r; by apply same_true].
    apply list_elem_of_bind. exists p. split; [by apply list_elem_of_singleton|].
    apply list_elem_of_filter. split; [|done]. by apply same_true.
Qed.

Lemma authenticates_unique t digest k c p k' c' p' :
  schema_ok t -> authenticates t digest k c p -> authenticates t digest k' c' p' ->
  k' = k /\ c' = c /\ p' = p.
Proof.
  intros [] (Hk & Hh & _ & Hc & Hck & _ & Hp & Hpc) (Hk' & Hh' & _ & Hc' & Hck' & _ & Hp' & Hpc').
  assert (k' = k) as -> by (eapply (column_inj ak_hash); [done..|congruence]).
  assert (c' = c) as -> by (eapply (column_inj cl_id); [done..|congruence]).
  split_and!; [done..|]. eapply (column_inj pl_id); [done..|congruence].
Qed.

Lemma lookup_ok t digest route env pr :
  schema_ok t -> fault env = None ->
  LookupActiveKey env t digest route = Ok pr <->
  exists k c p, authenticates t digest k c p /\ pr = principal_of t k c p route.
Proof.
  intros Ht Hf. rewrite <- lookup_rows_elem. unfold LookupActiveKey. rewrite Hf.
  destruct (lookup_rows t digest route) as [|pr' l] eqn:El.
  - split; [done|]. by intros ?%elem_of_nil.
  - split; [intros [= ->]; by left|]. intros Hin. f_equal. rewrite <- El in Hin.
    assert (pr' ∈ lookup_rows t digest route) as Hin' by (rewrite El; by left).
    apply lookup_rows_elem in Hin as (k & c & p & Ha & ->).
    apply lookup_rows_elem in Hin' as (k' & c' & p' & Ha' & ->).
    by destruct (authenticates_unique _ _ _ _ _ _ _ _ Ht Ha Ha') as (-> & -> & ->).
Qed.

Lemma lookup_err t digest route env e :
  fault env = None -> LookupActiveKey env t digest route = Err e -> e = ErrInvalidKey.
Proof. unfold LookupActiveKey. intros -> ?. by split_guards. Qed.

(** *** The longest prefix *)

Lemma longest_fold l best :
  match foldl longest best l with
  | None => best = None /\ l = []
  | Some q => (Some q = best \/ q ∈ l)
      /\ (forall q', Some q' = best \/ q' ∈ l ->
           (String.length (rq_prefix q') <= String.length (rq_prefix q))%nat)
  end.
Proof.
  revert best. induction l as [|a l IH]; intros best; cbn [foldl].
  - destruct best; [|done]. split; [by left|]. intros q' [[= ->]|?%elem_of_nil]; [done|done].
  - specialize (IH (longest best a)). destruct (foldl longest (longest best a) l) as [q|].
    + destruct IH as [Hq Hmax]. split.
      * destruct Hq as [Hq|Hq]; [|right; by right]. unfold longest in Hq.
        destruct best as [b|]; [case_match|]; simplify_eq; try (right; left); by left.
      * assert (forall q', (Some q' = best \/ q' = a) -> exists q'', Some q'' = longest best a
          /\ (String.length (rq_prefix q') <= String.length (rq_prefix q''))%nat) as Hb.
        { intros q' Hq'. unfold longest. destruct best as [b|].
          - destruct (Nat.ltb_spec (String.length (rq_prefix b)) (String.length (rq_prefix a)));
              destruct Hq' as [[= ->]| ->]; eexists; split; (reflexivity || lia).
          - destruct Hq' as [?| ->]; [done|]. eexists. split; [reflexivity|lia]. }
        intros q' [Hq'|[->|Hq']%elem_of_cons]; [destruct (Hb q') as (q'' & E & Hle); [by left|]
          |destruct (Hb a) as (q'' & E & Hle); [by right|]|by apply Hmax; right];
          (etrans; [exact Hle|]; apply Hmax; by left).
    + destruct IH as [Hn _]. unfold longest in Hn. destruct best; [case_match|]; done.
Qed.
End Lookup.

(** The quota of a principal is one the schema admits. *)
Lemma principal_policy `{Server} t k c p route :
  schema_ok t -> p ∈ plans t ->
  valid_policy (PrRatePerSecond (principal_of t k c p route)) (PrBurstCapacity (principal_of t k c p route)).
Proof.
  intros Ht Hp. unfold principal_of. cbn.
  pose proof (longest_fold (filter (fun q => quota_matches (cl_id c) route q = true) (quotas t)) None) as Hl.
  unfold route_quota_for. destruct (foldl longest None _) as [q|].
  - destruct Hl as [[?|[_ Hq]%list_elem_of_filter] _]; [done|].
    destruct Ht. rewrite Forall_forall in ok_quotas0. by apply ok_quotas0.
  - destruct Ht. rewrite Forall_forall in ok_plans0. by apply ok_plans0.
Qed.

(** Prefixes of one text are told apart by their length. *)
Lemma prefix_length_inj t p q :
  HasPrefix t p = true -> HasPrefix t q = true -> String.length p = String.length q -> p = q.
Proof.
  intros [r Hp]%HasPrefix_spec [r' Hq]%HasPrefix_spec Hlen. rewrite Hp in Hq. clear Hp t.
  revert q Hq Hlen. induction p as [|c p IH]; intros [|d q] Hq Hlen; cbn in Hlen; try done.
  rewrite !append_cons in Hq. injection Hq as -> Hq. f_equal. apply IH; [done|lia].
Qed.

Lemma quota_matches_spec client_id route q :
  chars literal (rq_prefix q) = true ->
  quota_matches client_id route q = true <->
  rq_client_id q = client_id /\ HasPrefix route (rq_prefix q) = true.
Proof.
  intros Hl. unfold quota_matches. rewrite like_prefix by done.
  rewrite andb_true_iff, same_true. done.
Qed.


(** A server for the witnesses: a [uuid] is any text of 36 characters, and the
    session's time zone is UTC. *)
#[export] Program Instance utc_server : Server := {
  to_uuid s := if (String.length s =? 36)%nat then Some s else None;
  trunc_hour us := us / 3600000000 * 3600000000;
}.
Next Obligation. cbn. intros s u Hs. destruct (_ =? _)%nat eqn:E; [|done]. injection Hs as <-. by rewrite E. Qed.

Definition calm : Env := {| now := 1700000000000000; fresh := "00000000-0000-4000-8000-000000000001"; fault := None |}.

Definition demo_id : string := "11111111-1111-4111-8111-111111111111".

(** A client on a plan of 10 requests per second, with an override for one
    route. *)
Definition demo_keys : Keys :=
  {| plans := [{| pl_id := "p"; pl_slug := "basic"; pl_name := "Basic"; pl_rate := 10; pl_burst := 20 |}];
     clients := [{| cl_id := demo_id; cl_plan_id := "p"; cl_name := "demo"; cl_active := true; cl_created := 0 |}];
     api_keys := [];
     quotas := [{| rq_client_id := demo_id; rq_prefix := "/api"; rq_rate := 5; rq_burst := 5 |};
                {| rq_client_id := demo_id; rq_prefix := "/api/orders"; rq_rate := 2; rq_burst := 4 |}] |}.

Lemma demo_keys_ok : schema_ok demo_keys.
Proof.
  split; cbn; try (apply bool_decide_eq_true_1; vm_compute; reflexivity);
    repeat constructor; try (vm_compute; congruence); set_solver.
Qed.


(** C15: whatever administrative calls have been made on an empty schema, with
    whatever connection faults, a key and a route determine at most one
    principal; it belongs to an active client and an unrevoked key, and its
    quota is a pair of positive [INTEGER]s, which is what the limiter's
    arithmetic needs. *)
Theorem lookup_sound `{Server} Quote cs env digest route pr :
  let t := foldl (flip (perform Quote)) no_keys cs in
  fault env = None ->
  LookupActiveKey env t digest route = Ok pr ->
  valid_policy (PrRatePerSecond pr) (PrBurstCapacity pr)
  /\ exists k c p, authenticates t digest k c p /\ KeyID pr = ak_id k /\ PrClientID pr = cl_id c
     /\ forall k' c' p', authenticates t digest k' c' p' -> k' = k /\ c' = c /\ p' = p.
Proof.
  intros t Hf Hok. assert (schema_ok t) as Ht.
  { apply performs_schema. by split; cbn; constructor. }
  apply lookup_ok in Hok as (k & c & p & Ha & ->); [|done..]. split.
  - destruct Ha as (_ & _ & _ & _ & _ & _ & Hp & _). by apply principal_policy.
  - exists k, c, p. split; [done|]. split; [done|]. split; [done|].
    intros k' c' p' Ha'. by eapply authenticates_unique.
Qed.

Definition demo_calls (digest : list Z) : list call :=
  [UpsertPlan_ calm "basic" "Basic" 10 20; CreateClient_ calm "demo" "basic";
   CreateAPIKey_ calm (fresh calm) "key" "gw_live_0123456789" digest].

Lemma lookup_sound_witness :
  let t := foldl (flip (perform id)) no_keys (demo_calls (replicate 32 7)) in
  exists pr, LookupActiveKey calm t (replicate 32 7) "/api/users" = Ok pr
    /\ valid_policy (PrRatePerSecond pr) (PrBurstCapacity pr).
Proof.
  intros t.
  assert (LookupActiveKey calm t (replicate 32 7) "/api/users" =
    Ok {| KeyID := fresh calm; PrClientID := fresh calm; ClientName := "demo"; Plan := "basic";
          PrRatePerSecond := 10; PrBurstCapacity := 20 |}) as E by (vm_compute; reflexivity).
  eexists. split; [exact E|].
  exact (proj1 (lookup_sound id (demo_calls (replicate 32 7)) calm (replicate 32 7) "/api/users" _ eq_refl E)).
Defined.

(** ** The life of a key *)

Section Lifecycle.
Context `{Server}.

Lemma CreateAPIKey_ok env clientID name prefix digest t id t' :
  CreateAPIKey env clientID name prefix digest t = (Ok id, t') ->
  text_ok prefix = true /\ exists client_id, to_uuid clientID = Some client_id
  /\ client_id ∈ cl_id <$> clients t /\ prefix ∉ ak_prefix <$> api_keys t
  /\ digest ∉ ak_hash <$> api_keys t /\ id ∉ ak_id <$> api_keys t
  /\ t' = set_api_keys (api_keys t ++ [{| ak_id := id; ak_client_id := client_id; ak_name := name;
      ak_prefix := prefix; ak_hash := digest; ak_revoked := None |}]) t.
Proof.
  intros Hc. apply exec_ok in Hc as [_ Hb].
  destruct (key_checks clientID name prefix digest) as [cid|] eqn:Ek; [|done].
  pose proof (key_checks_ok _ _ _ _ _ Ek) as [Hu _].
  unfold key_checks in Ek. apply check_bind in Ek as [[_ Htp]%andb_prop _].
  split; [done|]. exists cid. cbn [res_bind] in Hb. unfold insert_key in Hb.
  do 4 (apply check_bind in Hb as [?Hx%bool_decide_eq_true_1 Hb]). by simplify_eq.
Qed.

(** Revoking a prefix that one row has. *)
Lemma RevokeKey_one env prefix t k :
  schema_ok t -> fault env = None -> text_ok prefix = true ->
  k ∈ api_keys t -> ak_prefix k = prefix -> ak_revoked k = None ->
  exists t', RevokeKey env prefix t = (Ok 1, t')
    /\ (forall k', k' ∈ api_keys t' -> ak_prefix k' = prefix -> is_Some (ak_revoked k'))
    /\ (fun k => (ak_hash k, ak_prefix k)) <$> api_keys t'
       = (fun k => (ak_hash k, ak_prefix k)) <$> api_keys t.
Proof.
  intros Ht Hf Htx Hk Hp Hr. unfold RevokeKey, exec. rewrite Hf, Htx. cbn [check res_bind].
  assert (hit prefix k = true) as Hh.
  { unfold hit, active. rewrite Hr, (proj2 (same_true _ _) Hp). done. }
  assert (filter (fun k => hit prefix k = true) (api_keys t) = [k]) as Hone.
  { apply Permutation_singleton_r, NoDup_Permutation.
    - apply NoDup_filter. eapply NoDup_fmap_1, ok_key_ids, Ht.
    - apply NoDup_singleton.
    - intros k'. rewrite list_elem_of_filter, list_elem_of_singleton. split.
      + intros [[Hk'%same_true _]%andb_prop Hin].
        eapply (column_inj ak_prefix); [apply Ht|done..|congruence].
      + by intros ->. }
  rewrite Hone. eexists. split_and!; [reflexivity|..].
  - cbn. intros k' (k0 & -> & Hk0)%list_elem_of_fmap. destruct (hit prefix k0) eqn:E; cbn; [by eexists|].
    intros Hpk. unfold hit, active in E. rewrite (proj2 (same_true _ _) Hpk) in E. cbn in E.
    destruct (ak_revoked k0); [by eexists|done].
  - cbn. by apply update_column.
Qed.

Lemma RevokeKey_none env prefix t :
  fault env = None -> text_ok prefix = true ->
  (forall k, k ∈ api_keys t -> ak_prefix k = prefix -> is_Some (ak_revoked k)) ->
  (RevokeKey env prefix t).1 = Ok 0.
Proof.
  intros Hf Htx Hrev. unfold RevokeKey, exec. rewrite Hf, Htx. cbn [check res_bind fst].
  assert (filter (fun k => hit prefix k = true) (api_keys t) = []) as ->; [|done].
  apply elem_of_nil_inv. intros k [[Hp%same_true Ha]%andb_prop Hin]%list_elem_of_filter.
  unfold active in Ha. destruct (Hrev k Hin Hp) as [? E]. by rewrite E in Ha.
Qed.
End Lifecycle.

(** The authentication service over the tables as they stand. *)
Definition service_on `{Server} (env : Env) (t : Keys) (pepper : string) : Service :=
  {| svc_store := LookupActiveKey env t; svc_pepper := bytes_of pepper |}.

(** Only a row with the digest that is not revoked authenticates. *)
Lemma Authenticate_revoked `{Server} env t pepper raw route :
  fault env = None -> blank raw = false ->
  (forall k, k ∈ api_keys t -> ak_hash k = Digest (bytes_of pepper) raw -> is_Some (ak_revoked k)) ->
  Authenticate (service_on env t pepper) raw route = Err ErrInvalidKey.
Proof.
  intros Hf Hb Hrev. unfold Authenticate, service_on. cbn. unfold blank in Hb. rewrite Hb.
  unfold LookupActiveKey. rewrite Hf.
  destruct (lookup_rows _ _ _) as [|pr l] eqn:El; [done|].
  assert (pr ∈ lookup_rows t (Digest (bytes_of pepper) raw) route) as Hin by (rewrite El; left).
  apply lookup_rows_elem in Hin as (k & c & p & (Hk & Hh & Hr & _) & _).
  destruct (Hrev k Hk Hh). congruence.
Qed.

Lemma Authenticate_active `{Server} env t pepper raw route k c p :
  schema_ok t -> fault env = None -> blank raw = false ->
  authenticates t (Digest (bytes_of pepper) raw) k c p ->
  Authenticate (service_on env t pepper) raw route = Ok (principal_of t k c p route).
Proof.
  intros Ht Hf Hb Ha. unfold Authenticate, service_on. cbn. unfold blank in Hb. rewrite Hb.
  rewrite (proj2 (lookup_ok t _ route env (principal_of t k c p route) Ht Hf)); [done|].
  by exists k, c, p.
Qed.

(** C12: the life of a key.  A generated key stored for an active client
    authenticates as that client; revoking its display prefix affects exactly
    that one row and from then on the key is refused as invalid on every
    route, and revoking again affects nothing. *)
Theorem key_lifecycle `{Server} t bytes raw prefix pepper env1 env2 clientID name id t1 c route :
  schema_ok t -> length bytes = 32%nat -> Forall is_byte bytes ->
  GenerateKey (Ok bytes) = Ok (raw, prefix) ->
  CreateAPIKey env1 clientID name prefix (Digest (bytes_of pepper) raw) t = (Ok id, t1) ->
  c ∈ clients t -> to_uuid clientID = Some (cl_id c) -> cl_active c = true -> fault env2 = None ->
  (exists pr, Authenticate (service_on env2 t1 pepper) raw route = Ok pr
     /\ KeyID pr = id /\ PrClientID pr = cl_id c)
  /\ exists t2, RevokeKey env2 prefix t1 = (Ok 1, t2)
     /\ (forall route', Authenticate (service_on env2 t2 pepper) raw route' = Err ErrInvalidKey)
     /\ (RevokeKey env2 prefix t2).1 = Ok 0.
Proof.
  intros Ht Hlen Hbytes Hgen Hcreate Hc Hcid Hact Hf.
  assert (blank raw = false) as Hblank.
  { destruct (GenerateKey_blank bytes raw prefix Hgen). done. }
  pose proof (CreateAPIKey_schema env1 clientID name prefix (Digest (bytes_of pepper) raw) t Ht) as Ht1.
  rewrite Hcreate in Ht1. cbn in Ht1.
  destruct (CreateAPIKey_ok _ _ _ _ _ _ _ _ Hcreate)
    as (Htx & cid & Hcid' & _ & Hpre & Hhash & _ & Et1).
  rewrite Hcid in Hcid'. injection Hcid' as <-.
  set (k := {| ak_id := id; ak_client_id := cl_id c; ak_name := name; ak_prefix := prefix;
               ak_hash := Digest (bytes_of pepper) raw; ak_revoked := None |}) in *.
  assert (k ∈ api_keys t1) as Hk1 by (rewrite Et1; cbn; apply elem_of_app; right; by left).
  split.
  - destruct Ht as [_ _ _ _ Hfk _ _ _ _ _ _]. rewrite Forall_forall in Hfk.
    destruct (proj1 (list_elem_of_fmap _ _ _) (Hfk c Hc)) as (p & Ep & Hp).
    exists (principal_of t1 k c p route). split; [|done].
    apply Authenticate_active; [done..|]. unfold authenticates. rewrite Et1. cbn.
    split_and!; try done. apply elem_of_app. right. by left.
  - destruct (RevokeKey_one env2 prefix t1 k Ht1 Hf Htx Hk1 eq_refl eq_refl)
      as (t2 & Hrev & Hall & Hcol).
    exists t2. split; [done|]. split; [|by apply RevokeKey_none].
    intros route'. apply Authenticate_revoked; [done..|]. intros k' Hk' Hkh.
    apply Hall; [done|].
    assert ((ak_hash k', ak_prefix k') ∈ (fun k => (ak_hash k, ak_prefix k)) <$> api_keys t1) as Hin
      by (rewrite <- Hcol; by apply (list_elem_of_fmap_2 (fun k => (ak_hash k, ak_prefix k)))).
    apply list_elem_of_fmap in Hin as (k1 & [= Eh Ep] & Hk1').
    assert (k1 = k) as -> by (eapply (column_inj ak_hash); [apply Ht1|done..|cbn; congruence]). done.
Qed.

Lemma key_lifecycle_witness :
  let raw := "gw_live_" +:+ base64_encode (replicate 32 7) in
  let pepper := "0123456789abcdef" in
  exists t1 t2,
    CreateAPIKey calm demo_id "k" (Prefix raw) (Digest (bytes_of pepper) raw) demo_keys = (Ok (fresh calm), t1)
    /\ (exists pr, Authenticate (service_on calm t1 pepper) raw "/api/users" = Ok pr)
    /\ RevokeKey calm (Prefix raw) t1 = (Ok 1, t2)
    /\ Authenticate (service_on calm t2 pepper) raw "/api/orders" = Err ErrInvalidKey.
Proof.
  intros raw pepper.
  set (t1 := (CreateAPIKey calm demo_id "k" (Prefix raw) (Digest (bytes_of pepper) raw) demo_keys).2).
  assert (CreateAPIKey calm demo_id "k" (Prefix raw) (Digest (bytes_of pepper) raw) demo_keys
          = (Ok (fresh calm), t1)) as Hc by (vm_compute; reflexivity).
  destruct (key_lifecycle demo_keys (replicate 32 7) raw (Prefix raw) pepper calm calm demo_id "k"
    (fresh calm) t1 {| cl_id := demo_id; cl_plan_id := "p"; cl_name := "demo"; cl_active := true;
                       cl_created := 0 |} "/api/users" demo_keys_ok) as [(pr & Hpr & _) (t2 & Hr & Ha & _)].
  - reflexivity.
  - apply Forall_replicate. unfold is_byte. lia.
  - reflexivity.
  - exact Hc.
  - left.
  - reflexivity.
  - reflexivity.
  - reflexivity.
  - exists t1, t2. split; [exact Hc|]. split; [exists pr; exact Hpr|]. split; [exact Hr|exact (Ha _)].
Defined.

(** A stored underscore is a wildcard: this prefix of no route overrides the
    quota of [/api/orders]. *)
Lemma underscore_matches :
  quota_matches demo_id "/api/orders"
    {| rq_client_id := demo_id; rq_prefix := "/api/_rders"; rq_rate := 1; rq_burst := 1 |} = true
  /\ HasPrefix "/api/orders" "/api/_rders" = false.
Proof. split; vm_compute; reflexivity. Qed.
