(* ===== verification/StoreUsage.v ===== *)
(** * Usage storage ([internal/store/usage.go])

    [PersistUsage] builds one statement with ten numbered placeholders per
    event, inserts the events whose identifier is new and adds the inserted
    ones to the hourly aggregates; [PersistUsageDeadLetters] keeps what could
    not be persisted.  The tables are those of
    [migrations/002_usage_logging.sql] as finite maps over their primary keys;
    the columns [created_at], [updated_at] and [failed_at] are left out. *)

From Stdlib Require Import ZArith Lia.
From stdpp Require Import base tactics numbers list gmap strings sets.
From S2P Require Import Prelude GoLib Event Pipeline PipelineSafety Sql.

(** ** Tables *)

Record usage_row := {
  ue_request_id : string;
  ue_api_key_id : string;
  ue_client_id : string;
  ue_route : string;
  ue_method : string;
  ue_status : Z;
  ue_duration : Z;
  ue_bytes : Z;
  ue_occurred_at : Z;
}.

(** [bucket_start], [client_id], [route] and [status_code]. *)
Definition hour_key : Type := Z * string * string * Z.

Record totals := {
  request_count : Z;
  total_duration : Z;
  total_bytes : Z;
  rate_limited : Z;
}.

Record dead_row := {
  dl_payload : string;
  dl_last_error : string;
  dl_attempts : Z;
}.

Record Usage := {
  usage_events : gmap string usage_row;
  usage_hourly : gmap hour_key totals;
  dead_letters : gmap string dead_row;
}.

#[export] Instance totals_eq_dec : EqDecision totals.
Proof. solve_decision. Defined.

Definition no_usage : Usage := {| usage_events := ∅; usage_hourly := ∅; dead_letters := ∅ |}.

(** ** Building the statement *)

(** A query argument, and a value after its cast. *)
Inductive arg := AText (s : string) | AInt (z : Z) | ATime (t : Z).
Inductive value := VUuid (s : string) | VText (s : string) | VInt (z : Z) | VTime (us : Z).

Definition fields : nat := 10.
Definition casts : list string :=
  ["::uuid"; "::text"; "::uuid"; "::uuid"; "::text"; "::text"; "::smallint"; "::bigint"; "::bigint";
   "::timestamptz"].

Definition event_arguments (e : Event) : list arg :=
  [AText (ID e); AText (RequestID e); AText (APIKeyID e); AText (ClientID e); AText (EvRoute e);
   AText (Method e); AInt (StatusCode e); AInt (DurationMicros e); AInt (ResponseBytes e);
   ATime (OccurredAt e)].

(** The placeholders of the row at an index: [$n] with its cast. *)
Definition placeholders (index : nat) : list (nat * string) :=
  let start := (index * fields + 1)%nat in
  imap (fun offset cast => ((start + offset)%nat, cast)) casts.

(** The loop over the batch; [Validate] fails fast. *)
Fixpoint build (index : nat) (events : list Event)
    (values : list (list (nat * string))) (arguments : list arg)
    : res (list (list (nat * string)) * list arg) :=
  match events with
  | [] => Ok (values, arguments)
  | e :: rest =>
      match Validate e with
      | Err err => Err (ErrWrap "validate usage event: " err)
      | Ok _ => build (S index) rest (values ++ [placeholders index]) (arguments ++ event_arguments e)
      end
  end.

Section Persist.
Context `{Server}.

Definition cast_value (cast : string) (a : arg) : res value :=
  match a with
  | AText s =>
      if bool_decide (cast = "::uuid") then
        match to_uuid s with
        | Some u => Ok (VUuid u)
        | None => Err (ErrNew "invalid input syntax for type uuid")
        end
      else if bool_decide (cast = "::text") then
        _ <-- check (text_ok s) "invalid byte sequence for encoding UTF8" ;; Ok (VText s)
      else Err (ErrNew "cannot encode argument")
  | AInt z =>
      if bool_decide (cast = "::smallint") then
        _ <-- check ((-32768 <=? z) && (z <=? 32767)) "smallint out of range" ;; Ok (VInt z)
      else if bool_decide (cast = "::bigint") then
        _ <-- check (int8_ok z) "bigint out of range" ;; Ok (VInt z)
      else Err (ErrNew "cannot encode argument")
  | ATime t =>
      if bool_decide (cast = "::timestamptz") then
        _ <-- check (timestamp_ok (micros t)) "timestamp out of range" ;; Ok (VTime (micros t))
      else Err (ErrNew "cannot encode argument")
  end.

(** The value of [$n] with its cast. *)
Definition bind_one (arguments : list arg) (p : nat * string) : res value :=
  match arguments !! (p.1 - 1)%nat with
  | Some a => cast_value p.2 a
  | None => Err (ErrNew "there is no parameter")
  end.

Fixpoint collect {A B} (f : A -> res B) (l : list A) : res (list B) :=
  match l with
  | [] => Ok []
  | a :: l' => b <-- f a ;; bs <-- collect f l' ;; Ok (b :: bs)
  end.

Definition row_of_values (vs : list value) : res (string * usage_row) :=
  match vs with
  | [VUuid id; VText rq; VUuid key; VUuid cl; VText rt; VText m; VInt st; VInt du; VInt by_; VTime at_] =>
      Ok (id, {| ue_request_id := rq; ue_api_key_id := key; ue_client_id := cl; ue_route := rt;
                 ue_method := m; ue_status := st; ue_duration := du; ue_bytes := by_;
                 ue_occurred_at := at_ |})
  | _ => Err (ErrNew "column types do not match")
  end.

(** The common table expression [incoming]. *)
Definition incoming (values : list (list (nat * string))) (arguments : list arg)
    : res (list (string * usage_row)) :=
  collect (fun ps => vs <-- collect (bind_one arguments) ps ;; row_of_values vs) values.

(** The checks of [usage_events]. *)
Definition row_ok (r : usage_row) : bool :=
  HasPrefix (ue_route r) "/" && (100 <=? ue_status r) && (ue_status r <=? 599)
  && (0 <=? ue_duration r) && (0 <=? ue_bytes r).

(** [INSERT ... ON CONFLICT (event_id) DO NOTHING RETURNING ...]: the table
    after it and the rows inserted. *)
Fixpoint insert_new (rows : list (string * usage_row)) (t : gmap string usage_row)
    : gmap string usage_row * list usage_row :=
  match rows with
  | [] => (t, [])
  | (id, r) :: rest =>
      match t !! id with
      | Some _ => insert_new rest t
      | None => let '(t', ins) := insert_new rest (<[id := r]> t) in (t', r :: ins)
      end
  end.

Definition key_of (r : usage_row) : hour_key :=
  (trunc_hour (ue_occurred_at r), ue_client_id r, ue_route r, ue_status r).

Definition contribution (r : usage_row) : totals :=
  {| request_count := 1; total_duration := ue_duration r; total_bytes := ue_bytes r;
     rate_limited := if ue_status r =? 429 then 1 else 0 |}.

Definition add_totals (a b : totals) : totals :=
  {| request_count := request_count a + request_count b;
     total_duration := total_duration a + total_duration b;
     total_bytes := total_bytes a + total_bytes b;
     rate_limited := rate_limited a + rate_limited b |}.

Definition plus_totals (a : option totals) (b : totals) : totals :=
  match a with Some a' => add_totals a' b | None => b end.

(** The grouped sums of the inserted rows. *)
Definition groups (rows : list usage_row) : gmap hour_key totals :=
  foldr (fun r m => <[key_of r := plus_totals (m !! key_of r) (contribution r)]> m) ∅ rows.

Definition totals_ok (a : totals) : bool :=
  int8_ok (request_count a) && int8_ok (total_duration a) && int8_ok (total_bytes a)
  && int8_ok (rate_limited a).

(** [INSERT INTO usage_hourly ... ON CONFLICT DO UPDATE SET x = x + EXCLUDED.x]. *)
Definition add_groups (h g : gmap hour_key totals) : gmap hour_key totals :=
  union_with (fun a b => Some (add_totals a b)) h g.

(** The statement: all of it or, on an error, nothing. *)
Definition persist_statement (values : list (list (nat * string))) (arguments : list arg) (t : Usage)
    : res (unit * Usage) :=
  _ <-- check (Z.of_nat (length arguments) <=? 65535)
      "extended protocol limited to 65535 parameters" ;;
  rows <-- incoming values arguments ;;
  _ <-- check (forallb (fun x => row_ok x.2) rows) "violates check constraint" ;;
  let '(events', inserted) := insert_new rows (usage_events t) in
  let g := groups inserted in
  _ <-- check (bool_decide (map_Forall (fun _ a => totals_ok a = true) g)) "bigint out of range" ;;
  _ <-- check (bool_decide (map_Forall (fun k a =>
          totals_ok (plus_totals (usage_hourly t !! k) a) = true) g)) "bigint out of range" ;;
  Ok (tt, {| usage_events := events'; usage_hourly := add_groups (usage_hourly t) g;
             dead_letters := dead_letters t |}).

Definition PersistUsage (env : Env) (events : list Event) (t : Usage) : res unit * Usage :=
  match events with
  | [] => (Ok tt, t)
  | _ =>
      match build 0 events [] [] with
      | Err e => (Err e, t)
      | Ok (values, arguments) =>
          let '(r, t') := exec env (persist_statement values arguments) t in
          match r with
          | Err e => (Err (ErrWrap "persist usage batch: " e), t')
          | Ok _ => (Ok tt, t')
          end
      end
  end.

(** ** Dead letters *)

(** [json.Marshal] of an event, and the text of a [jsonb]. *)
Variable Marshal : Event -> res string.
Variable to_jsonb : string -> option string.

Fixpoint encode_all (events : list Event) : res (list (string * string)) :=
  match events with
  | [] => Ok []
  | e :: rest =>
      match Marshal e with
      | Err err => Err (ErrWrap "encode dead-letter event: " err)
      | Ok payload => l <-- encode_all rest ;; Ok ((ID e, payload) :: l)
      end
  end.

Definition dead_row_of (lastError : string) (attempts : Z) (x : string * string) : res (string * dead_row) :=
  match to_uuid x.1, to_jsonb x.2 with
  | Some id, Some payload =>
      Ok (id, {| dl_payload := payload; dl_last_error := lastError; dl_attempts := attempts |})
  | None, _ => Err (ErrNew "invalid input syntax for type uuid")
  | _, None => Err (ErrNew "invalid input syntax for type json")
  end.

(** [ON CONFLICT DO UPDATE] refuses to touch a row twice in one statement. *)
Definition dead_statement (l : list (string * string)) (lastError : string) (attempts : Z) (t : Usage)
    : res (unit * Usage) :=
  _ <-- check (Z.of_nat (4 * length l) <=? 65535) "extended protocol limited to 65535 parameters" ;;
  rows <-- collect (dead_row_of lastError attempts) l ;;
  _ <-- check (text_ok lastError) "invalid byte sequence for encoding UTF8" ;;
  _ <-- check (int4_ok attempts) "integer out of range" ;;
  _ <-- check (0 <? attempts) "violates check constraint" ;;
  _ <-- check (bool_decide (NoDup rows.*1)) "ON CONFLICT DO UPDATE command cannot affect row a second time" ;;
  Ok (tt, {| usage_events := usage_events t; usage_hourly := usage_hourly t;
             dead_letters := foldr (fun x m => <[x.1 := x.2]> m) (dead_letters t) rows |}).

Definition PersistUsageDeadLetters (env : Env) (events : list Event) (lastError : string) (attempts : Z)
    (t : Usage) : res unit * Usage :=
  match events with
  | [] => (Ok tt, t)
  | _ =>
      match encode_all events with
      | Err e => (Err e, t)
      | Ok l =>
          let '(r, t') := exec env (dead_statement l lastError attempts) t in
          match r with
          | Err e => (Err (ErrWrap "persist usage dead letters: " e), t')
          | Ok _ => (Ok tt, t')
          end
      end
  end.

End Persist.

#[global] Arguments PersistUsage : simpl never.
#[global] Arguments PersistUsageDeadLetters : simpl never.

(** ** The rows of a batch *)

Section Rows.
Context `{Server}.

(** What the row of an event should be: its fields, cast one by one. *)
Definition row_of_event (e : Event) : res (string * usage_row) :=
  vs <-- collect (fun x => cast_value x.1 x.2) (zip casts (event_arguments e)) ;;
  row_of_values vs.

Lemma build_spec events index vs args :
  build index events vs args =
  match collect Validate events with
  | Ok _ => Ok (vs ++ (placeholders <$> seq index (length events)),
                args ++ concat (event_arguments <$> events))
  | Err e => Err (ErrWrap "validate usage event: " e)
  end.
Proof.
  revert index vs args. induction events as [|e events IH]; intros index vs args; cbn.
  - by rewrite !app_nil_r.
  - destruct (Validate e) as [[]|err]; [|done]. cbn [res_bind]. rewrite IH.
    destruct (collect Validate events); cbn; [|done]. by rewrite <- !app_assoc.
Qed.

(** The placeholders of a row pick the arguments of its event. *)
Lemma bind_row before e after index :
  length before = (index * fields)%nat ->
  collect (bind_one (before ++ event_arguments e ++ after)) (placeholders index)
  = collect (fun x => cast_value x.1 x.2) (zip casts (event_arguments e)).
Proof.
  intros Hlen. set (args := before ++ event_arguments e ++ after).
  assert (forall k a, event_arguments e !! k = Some a ->
    args !! (index * fields + 1 + k - 1)%nat = Some a) as Hk.
  { intros k a Hk. subst args. rewrite lookup_app_r by lia.
    replace (_ - length before)%nat with k by lia.
    rewrite lookup_app_l; [done|]. by eapply lookup_lt_Some. }
  cbv [placeholders casts event_arguments imap zip zip_with compose] in *. cbn [collect].
  unfold bind_one. cbn [fst snd].
  rewrite (Hk 0%nat _ eq_refl), (Hk 1%nat _ eq_refl), (Hk 2%nat _ eq_refl), (Hk 3%nat _ eq_refl),
    (Hk 4%nat _ eq_refl), (Hk 5%nat _ eq_refl), (Hk 6%nat _ eq_refl), (Hk 7%nat _ eq_refl),
    (Hk 8%nat _ eq_refl), (Hk 9%nat _ eq_refl). done.
Qed.

Lemma incoming_rows events before index :
  length before = (index * fields)%nat ->
  incoming (placeholders <$> seq index (length events)) (before ++ concat (event_arguments <$> events))
  = collect row_of_event events.
Proof.
  unfold incoming. revert before index. induction events as [|e events IH]; intros before index Hlen; [done|].
  cbn [length seq fmap list_fmap concat collect]. rewrite bind_row by done.
  fold (row_of_event e). destruct (row_of_event e); [|done]. cbn [res_bind].
  rewrite app_assoc, IH; [done|]. rewrite length_app, Hlen. cbn. lia.
Qed.

Lemma concat_arguments_length events :
  length (concat (event_arguments <$> events)) = (10 * length events)%nat.
Proof. induction events as [|e l IH]; [done|]. cbn [fmap list_fmap concat length]. rewrite length_app, IH. cbn. lia. Qed.
End Rows.

(** ** Aggregates *)

Section Aggregates.
Context `{Server}.

(** What an hourly row should hold: the sums over the raw events of its key,
    and no row without events. *)
Definition hour_totals (k : hour_key) (rows : list usage_row) : option totals :=
  match filter (fun r => key_of r = k) rows with
  | [] => None
  | l => Some {| request_count := Z.of_nat (length l);
                 total_duration := sumZ ue_duration l;
                 total_bytes := sumZ ue_bytes l;
                 rate_limited := Z.of_nat (length (filter (fun r => ue_status r = 429) l)) |}
  end.

Lemma add_totals_comm a b : add_totals a b = add_totals b a.
Proof. unfold add_totals. f_equal; lia. Qed.

Lemma hour_totals_cons k r rows :
  hour_totals k (r :: rows) =
  if decide (key_of r = k) then Some (plus_totals (hour_totals k rows) (contribution r))
  else hour_totals k rows.
Proof.
  unfold hour_totals. rewrite filter_cons. case_decide; [|done].
  assert (Z.of_nat (length (filter (fun r => ue_status r = 429) [r]))
          = if ue_status r =? 429 then 1 else 0) as Hone.
  { rewrite filter_cons. destruct (Z.eqb_spec (ue_status r) 429); case_decide; done. }
  destruct (filter _ rows) as [|r' l]; f_equal; unfold plus_totals, add_totals, contribution; cbn [request_count
    total_duration total_bytes rate_limited].
  - rewrite !sumZ_one. by rewrite Hone.
  - change (r :: r' :: l) with ([r] ++ (r' :: l)). rewrite !sumZ_app, !sumZ_one, filter_app, !length_app.
    rewrite !Nat2Z.inj_add, Hone. cbn [length]. f_equal; lia.
Qed.

Lemma groups_lookup rows k : groups rows !! k = hour_totals k rows.
Proof.
  induction rows as [|r rows IH]; [apply lookup_empty|]. rewrite hour_totals_cons. cbn [groups foldr].
  fold (groups rows). destruct (decide (key_of r = k)) as [<-|Hne].
  - by rewrite lookup_insert_eq, IH.
  - by rewrite lookup_insert_ne.
Qed.

Lemma hour_totals_app k l1 l2 :
  hour_totals k (l1 ++ l2) =
  union_with (fun a b => Some (add_totals a b)) (hour_totals k l2) (hour_totals k l1).
Proof.
  induction l1 as [|r l1 IH]; cbn [app].
  { change (hour_totals k []) with (@None totals). by destruct (hour_totals k l2). }
  rewrite !hour_totals_cons, IH. case_decide; [|done].
  destruct (hour_totals k l1), (hour_totals k l2); cbn; try done; f_equal;
    unfold add_totals; cbn; f_equal; lia.
Qed.

Lemma hour_totals_perm k l1 l2 : l1 ≡ₚ l2 -> hour_totals k l1 = hour_totals k l2.
Proof.
  induction 1 as [|r l1 l2 _ IH|r r' l|l1 l2 l3 _ IH1 _ IH2]; [done|..].
  - by rewrite !hour_totals_cons, IH.
  - rewrite !hour_totals_cons. repeat case_decide; try done.
    destruct (hour_totals k l); cbn; f_equal; unfold add_totals; cbn; f_equal; lia.
  - congruence.
Qed.

(** ** Insertion *)

Lemma insert_new_spec rows m m' ins :
  insert_new rows m = (m', ins) ->
  m ⊆ m' /\ (map_to_list m').*2 ≡ₚ ins ++ (map_to_list m).*2
  /\ (forall id r, (id, r) ∈ rows -> is_Some (m' !! id))
  /\ (forall id, is_Some (m' !! id) -> is_Some (m !! id) \/ id ∈ rows.*1)
  /\ insert_new rows m' = (m', []).
Proof.
  revert m m' ins. induction rows as [|[id r] rows IH]; intros m m' ins Hi; cbn in Hi.
  - simplify_eq. split_and!; try done; [|by left]. by intros ? ? ?%elem_of_nil.
  - destruct (m !! id) as [r0|] eqn:Em.
    + destruct (IH _ _ _ Hi) as (Hsub & Hp & Hall & Honly & Hidem).
      pose proof (lookup_weaken _ _ _ _ Em Hsub) as Em'.
      split_and!; try done.
      * intros id' r' [[= -> ->]|Hin]%elem_of_cons; [by eexists|by eapply Hall].
      * intros id' Hid. destruct (Honly id' Hid); [by left|]. right. by right.
      * cbn. by rewrite Em'.
    + destruct (insert_new rows (<[id:=r]> m)) as [m1 ins1] eqn:Ei. simplify_eq.
      destruct (IH _ _ _ Ei) as (Hsub & Hp & Hall & Honly & Hidem).
      assert (m' !! id = Some r) as Em' by (eapply lookup_weaken; [apply lookup_insert_eq|done]).
      split_and!.
      * etrans; [by apply insert_subseteq|done].
      * rewrite Hp, map_to_list_insert by done. cbn. by rewrite Permutation_middle.
      * intros id' r' [[= -> ->]|Hin]%elem_of_cons; [by eexists|by eapply Hall].
      * intros id' Hid. destruct (Honly id' Hid) as [Hs|Hin]; [|right; by right].
        destruct (decide (id = id')) as [->|Hne]; [right; by left|].
        rewrite lookup_insert_ne in Hs by done. by left.
      * cbn. by rewrite Em'.
Qed.

Lemma add_groups_empty h : add_groups h ∅ = h.
Proof. apply map_eq. intros k. unfold add_groups. rewrite lookup_union_with, lookup_empty. by destruct (h !! k). Qed.

(** The statement without its plumbing. *)
Lemma persist_statement_ok values arguments t x t' :
  persist_statement values arguments t = Ok (x, t') ->
  exists rows m' ins, incoming values arguments = Ok rows
    /\ insert_new rows (usage_events t) = (m', ins)
    /\ Forall (fun y => row_ok y.2 = true) rows
    /\ t' = {| usage_events := m'; usage_hourly := add_groups (usage_hourly t) (groups ins);
               dead_letters := dead_letters t |}.
Proof.
  unfold persist_statement. intros Hb. apply check_bind in Hb as [_ Hb].
  destruct (incoming values arguments) as [rows|]; [|done]. cbn [res_bind] in Hb.
  apply check_bind in Hb as [Hrows Hb]. destruct (insert_new rows _) as [m' ins] eqn:Ei.
  apply check_bind in Hb as [_ Hb]. apply check_bind in Hb as [_ Hb]. simplify_eq.
  exists rows, m', ins. split_and!; try done. by apply forallb_Forall in Hrows.
Qed.
End Aggregates.

(** ** Claims *)

Section Claims.
Context `{Server}.

(** What a call of [PersistUsage] leaves behind: the tables as they were, or
    the effect of the whole statement. *)
Lemma PersistUsage_cases env e es t :
  (PersistUsage env (e :: es) t).2 = t
  \/ exists values arguments x, build 0 (e :: es) [] [] = Ok (values, arguments)
     /\ persist_statement values arguments t = Ok (x, (PersistUsage env (e :: es) t).2).
Proof.
  unfold PersistUsage. destruct (build 0 (e :: es) [] []) as [[values arguments]|]; [|by left].
  destruct (exec_cases env (persist_statement values arguments) t) as [E|[x E]];
    destruct (exec env _ t) as [[]  t']; cbn in *; subst; [by left..| |]; right; by eauto.
Qed.

Lemma PersistUsage_ok env e es t t' :
  PersistUsage env (e :: es) t = (Ok tt, t') ->
  fault env = None /\ exists values arguments x, build 0 (e :: es) [] [] = Ok (values, arguments)
     /\ persist_statement values arguments t = Ok (x, t').
Proof.
  unfold PersistUsage. intros Hp. destruct (build 0 (e :: es) [] []) as [[values arguments]|]; [|done].
  destruct (exec env _ t) as [[x|] t1] eqn:Ex; [|done]. simplify_eq.
  apply exec_ok in Ex as [Hf Hb]. split; [done|]. by exists values, arguments, x.
Qed.

(** The statement run again on its own result changes nothing. *)
Lemma persist_statement_again values arguments t x t' :
  persist_statement values arguments t = Ok (x, t') ->
  persist_statement values arguments t' = Ok (tt, t').
Proof.
  intros Hb. destruct (persist_statement_ok _ _ _ _ _ Hb) as (rows & m' & ins & Hin & Hnew & Hrows & ->).
  unfold persist_statement in Hb |- *. apply check_bind in Hb as [Hlen _]. rewrite Hlen.
  cbn [check res_bind usage_events usage_hourly dead_letters]. rewrite Hin. cbn [res_bind].
  assert (forallb (fun y : string * usage_row => row_ok y.2) rows = true) as ->
    by by apply forallb_Forall.
  cbn [check res_bind]. destruct (insert_new_spec _ _ _ _ Hnew) as (_ & _ & _ & _ & ->).
  rewrite !bool_decide_eq_true_2 by apply map_Forall_empty. cbn [check res_bind groups foldr].
  by rewrite add_groups_empty.
Qed.
End Claims.

(** C7: retrying a batch is idempotent, also when the first attempt failed
    ambiguously.  If a batch can be persisted at all, then after any attempt at
    it, whether it succeeded, was refused, or lost its connection before or
    after the commit, a further attempt succeeds and leaves exactly the tables
    one clean attempt leaves: no event is stored or counted twice. *)
Theorem persist_idempotent `{Server} env1 env2 events t t2 :
  PersistUsage env2 events t = (Ok tt, t2) ->
  PersistUsage env2 events (PersistUsage env1 events t).2 = (Ok tt, t2).
Proof.
  destruct events as [|e es]; [done|]. intros H2.
  destruct (PersistUsage_ok _ _ _ _ _ H2) as (Hf & values & arguments & x & Hb & Hst).
  destruct (PersistUsage_cases env1 e es t) as [E|(v1 & a1 & x1 & Hb1 & Hst1)]; [by rewrite E|].
  rewrite Hb in Hb1. injection Hb1 as <- <-. rewrite Hst in Hst1. injection Hst1 as _ <-.
  unfold PersistUsage, exec. rewrite Hb, Hf.
  by rewrite (persist_statement_again _ _ _ _ _ Hst).
Qed.

(** C8: the hourly table is always the exact aggregate of the raw events.
    Whatever batches and dead letters have been written to empty tables, with
    whatever faults, every hourly row holds the count, the two sums and the
    number of rate-limited requests of the raw events of its hour, client,
    route and status, and a key without raw events has no row. *)
Theorem hourly_exact `{Server} Marshal to_jsonb
    (calls : list (Env * list Event + Env * list Event * string * Z)) k :
  let t := foldl (fun t c => match c with
                  | inl (env, events) => (PersistUsage env events t).2
                  | inr (env, events, msg, n) =>
                      (PersistUsageDeadLetters Marshal to_jsonb env events msg n t).2
                  end) no_usage calls in
  usage_hourly t !! k = hour_totals k (map_to_list (usage_events t)).*2.
Proof.
  induction calls as [|c calls IH] using rev_ind; [apply lookup_empty|].
  rewrite foldl_app. cbn zeta in IH. cbn [foldl]. set (t := foldl _ _ _) in *.
  destruct c as [[env [|e es]]|[[[env events] msg] n]]; [done|..].
  - destruct (PersistUsage_cases env e es t) as [->|(v & a & x & _ & Hst)]; [done|].
    destruct (persist_statement_ok _ _ _ _ _ Hst) as (rows & m' & ins & _ & Hnew & _ & ->).
    destruct (insert_new_spec _ _ _ _ Hnew) as (_ & Hp & _). cbn.
    rewrite (hour_totals_perm k _ _ Hp), hour_totals_app.
    unfold add_groups. by rewrite lookup_union_with, groups_lookup, IH.
  - unfold PersistUsageDeadLetters. destruct events; [done|].
    destruct (encode_all _ _) as [l|]; [|done].
    destruct (exec_cases env (dead_statement to_jsonb l msg n) t) as [E|[x E]];
      destruct (exec env _ t) as [[] t']; cbn in *; subst; try done.
    all: unfold dead_statement in E; apply check_bind in E as [_ E];
      destruct (collect _ l) as [rows|]; [|done]; cbn [res_bind] in E;
      do 4 (apply check_bind in E as [_ E]); by simplify_eq.
Qed.

(** ** Acceptance and refusal *)

Section Acceptance.
Context `{Server}.

(** Whether the fields of an event have the types of their columns. *)
Definition is_uuid (s : string) : bool := match to_uuid s with Some _ => true | None => false end.

Definition storable (e : Event) : bool :=
  is_uuid (ID e) && text_ok (RequestID e) && is_uuid (APIKeyID e) && is_uuid (ClientID e)
  && text_ok (EvRoute e) && text_ok (Method e) && int8_ok (DurationMicros e)
  && int8_ok (ResponseBytes e) && timestamp_ok (micros (OccurredAt e)).

Lemma cast_text_uuid x : cast_value "::uuid" (AText x) =
  match to_uuid x with Some u => Ok (VUuid u) | None => Err (ErrNew "invalid input syntax for type uuid") end.
Proof. done. Qed.
Lemma cast_text_text x : cast_value "::text" (AText x) =
  (_ <-- check (text_ok x) "invalid byte sequence for encoding UTF8" ;; Ok (VText x)).
Proof. done. Qed.
Lemma cast_int_small z : cast_value "::smallint" (AInt z) =
  (_ <-- check ((-32768 <=? z) && (z <=? 32767)) "smallint out of range" ;; Ok (VInt z)).
Proof. done. Qed.
Lemma cast_int_big z : cast_value "::bigint" (AInt z) =
  (_ <-- check (int8_ok z) "bigint out of range" ;; Ok (VInt z)).
Proof. done. Qed.
Lemma cast_time t : cast_value "::timestamptz" (ATime t) =
  (_ <-- check (timestamp_ok (micros t)) "timestamp out of range" ;; Ok (VTime (micros t))).
Proof. done. Qed.

Ltac open_row :=
  unfold row_of_event; cbn [zip zip_with casts event_arguments collect fst snd];
  rewrite ?cast_text_uuid, ?cast_text_text, ?cast_int_small, ?cast_int_big, ?cast_time.

Lemma row_of_event_ok e :
  storable e = true -> 100 <= StatusCode e <= 599 ->
  exists id key cl, to_uuid (ID e) = Some id /\ row_of_event e =
    Ok (id, {| ue_request_id := RequestID e; ue_api_key_id := key; ue_client_id := cl;
               ue_route := EvRoute e; ue_method := Method e; ue_status := StatusCode e;
               ue_duration := DurationMicros e; ue_bytes := ResponseBytes e;
               ue_occurred_at := micros (OccurredAt e) |}).
Proof.
  unfold storable, is_uuid. intros Hst Hs. bool_to_prop. open_row.
  destruct (to_uuid (ID e)) as [id|], (to_uuid (APIKeyID e)) as [key|], (to_uuid (ClientID e)) as [cl|];
    try done.
  assert ((-32768 <=? StatusCode e) && (StatusCode e <=? 32767) = true) as -> by (apply andb_true_intro; lia).
  repeat match goal with E : _ = true |- _ => rewrite E; clear E end.
  exists id, key, cl. done.
Qed.

Lemma collect_Forall {A B} (f : A -> res B) l :
  is_ok (collect f l) = true -> Forall (fun a => is_ok (f a) = true) l.
Proof.
  induction l as [|a l IH]; [done|]. cbn. destruct (f a) eqn:E; [|done]. cbn.
  destruct (collect f l); [|done]. constructor; [by rewrite E|by apply IH].
Qed.

Lemma collect_err {A B} (f : A -> res B) l a :
  a ∈ l -> is_ok (f a) = false -> is_ok (collect f l) = false.
Proof.
  induction l as [|b l IH]; [by intros ?%elem_of_nil|]. intros [->|Ha]%elem_of_cons Hf; cbn.
  - by destruct (f b).
  - destruct (f b); [|done]. cbn. by destruct (collect f l); [apply IH|].
Qed.

Lemma row_of_event_err e : storable e = false -> is_ok (row_of_event e) = false.
Proof.
  intros Hst. unfold row_of_event. destruct (collect _ _) as [vs|] eqn:E; [exfalso|done].
  apply (f_equal is_ok), collect_Forall in E. revert E.
  cbn [zip zip_with casts event_arguments]. rewrite !Forall_cons. cbn [fst snd].
  rewrite !cast_text_uuid, !cast_text_text, !cast_int_small, !cast_int_big, !cast_time.
  apply not_true_iff_false in Hst. intros E. apply Hst. clear Hst. unfold storable, is_uuid.
  destruct E as (E1 & E2 & E3 & E4 & E5 & E6 & _ & E7 & E8 & E9 & _).
  destruct (to_uuid (ID e)), (to_uuid (APIKeyID e)), (to_uuid (ClientID e)); try done.
  destruct (text_ok (RequestID e)); [|done]. destruct (text_ok (EvRoute e)); [|done].
  destruct (text_ok (Method e)); [|done]. destruct (int8_ok (DurationMicros e)); [|done].
  destruct (int8_ok (ResponseBytes e)); [|done]. by destruct (timestamp_ok _).
Qed.

(** The statement of a valid batch, with its placeholders resolved. *)
Lemma PersistUsage_run env e es t :
  Forall (fun e => is_ok (Validate e) = true) (e :: es) -> fault env = None ->
  exists err values arguments,
    PersistUsage env (e :: es) t =
      match persist_statement values arguments t with
      | Ok (_, t') => (Ok tt, t')
      | Err _ => (Err err, t)
      end
    /\ length arguments = (10 * length (e :: es))%nat
    /\ incoming values arguments = collect row_of_event (e :: es).
Proof.
  intros Hv Hf. unfold PersistUsage. rewrite build_spec.
  assert (collect Validate (e :: es) = Ok (replicate (length (e :: es)) tt)) as ->.
  { clear Hf. induction Hv as [|e' l He _ IH]; [done|]. cbn [collect length replicate].
    destruct (Validate e') as [[]|]; [|done]. cbn [res_bind]. by rewrite IH. }
  rewrite !app_nil_l. unfold exec. rewrite Hf.
  destruct (persist_statement _ _ t) as [[x t']|err] eqn:E;
    [exists (ErrNew "")|exists (ErrWrap "persist usage batch: " err)]; do 2 eexists;
    (split; [by rewrite E|]; split; [apply concat_arguments_length|]; by apply (incoming_rows _ [] 0)).
Qed.
End Acceptance.

(** C28: a batch is refused as a whole.  A batch with an event that fails
    [Validate], an event with a field its column cannot hold (a request ID
    that is not UTF-8, an identifier that is not a [uuid]), or more than 6553
    events is rejected with an error, and no other event of it is stored. *)
Theorem persist_refuses `{Server} env events t e :
  fault env = None -> e ∈ events ->
  is_ok (Validate e) = false \/ storable e = false \/ 6553 < Z.of_nat (length events) ->
  exists err, PersistUsage env events t = (Err err, t).
Proof.
  intros Hf He Hbad. destruct events as [|e0 es]; [by apply elem_of_nil in He|].
  destruct (decide (Forall (fun e => is_ok (Validate e) = true) (e0 :: es))) as [Hv|Hv].
  - destruct (PersistUsage_run env e0 es t Hv Hf) as (err & values & arguments & E & Hlen & Hin).
    exists err. rewrite E. unfold persist_statement. rewrite Hlen, Hin.
    destruct Hbad as [Hbad|[Hbad|Hbad]].
    + rewrite Forall_forall in Hv. by rewrite (Hv e He) in Hbad.
    + pose proof (collect_err row_of_event (e0 :: es) e He (row_of_event_err e Hbad)) as Hc.
      destruct (collect row_of_event (e0 :: es)); [done|]. by destruct (check _ _).
    + rewrite (proj2 (Z.leb_gt _ _)) by lia. done.
  - assert (exists e', e' ∈ e0 :: es /\ is_ok (Validate e') = false) as (e' & He' & Hbad').
    { apply not_Forall_Exists in Hv; [|intros ?; apply _].
      apply Exists_exists in Hv as (e' & Hin & Hne). exists e'. split; [done|].
      by apply not_true_is_false. }
    pose proof (collect_err Validate (e0 :: es) e' He' Hbad') as Hc.
    unfold PersistUsage. rewrite build_spec. destruct (collect Validate (e0 :: es)); [done|].
    by eexists.
Qed.

Section Room.
Context `{Server}.

Definition zero_totals : totals :=
  {| request_count := 0; total_duration := 0; total_bytes := 0; rate_limited := 0 |}.

(** The aggregates have room for a batch: no [BIGINT] can overflow. *)
Definition room (t : Usage) (events : list Event) : Prop :=
  forall k, let T := default zero_totals (usage_hourly t !! k) in
  0 <= request_count T /\ request_count T + Z.of_nat (length events) < 2 ^ 63
  /\ 0 <= total_duration T /\ total_duration T + sumZ DurationMicros events < 2 ^ 63
  /\ 0 <= total_bytes T /\ total_bytes T + sumZ ResponseBytes events < 2 ^ 63
  /\ 0 <= rate_limited T /\ rate_limited T + Z.of_nat (length events) < 2 ^ 63.

Lemma insert_new_sublist rows m : (insert_new rows m).2 `sublist_of` rows.*2.
Proof.
  revert m. induction rows as [|[id r] rows IH]; intros m; [done|]. cbn.
  destruct (m !! id); [by constructor|].
  specialize (IH (<[id:=r]> m)). destruct (insert_new rows _). by constructor.
Qed.

(** The totals of a sublist of some rows are bounded by the sums over them. *)
Lemma hour_totals_bound k ins rows T :
  hour_totals k ins = Some T -> ins `sublist_of` rows -> Forall (fun r => row_ok r = true) rows ->
  0 <= request_count T <= Z.of_nat (length rows) /\ 0 <= total_duration T <= sumZ ue_duration rows
  /\ 0 <= total_bytes T <= sumZ ue_bytes rows /\ 0 <= rate_limited T <= Z.of_nat (length rows).
Proof.
  intros HT Hsub Hok.
  assert (forall r, r ∈ rows -> 0 <= ue_duration r /\ 0 <= ue_bytes r) as Hpos.
  { intros r Hr. rewrite Forall_forall in Hok. specialize (Hok r Hr). unfold row_ok in Hok.
    bool_to_prop. lia. }
  unfold hour_totals in HT. destruct (filter _ ins) as [|r l] eqn:Ef; [done|].
  assert (r :: l `sublist_of` rows) as Hsub'.
  { rewrite <- Ef. etrans; [apply sublist_filter|done]. }
  pose proof (sublist_length _ _ Hsub').
  pose proof (sublist_length _ _ (sublist_filter (fun r => ue_status r = 429) (r :: l))).
  pose proof (sumZ_sublist ue_duration _ _ Hsub' (fun a Ha => proj1 (Hpos a Ha))).
  pose proof (sumZ_sublist ue_bytes _ _ Hsub' (fun a Ha => proj2 (Hpos a Ha))).
  assert (forall a, a ∈ r :: l -> a ∈ rows) as Hin.
  { intros a Ha. by eapply elem_of_sublist. }
  assert (0 <= sumZ ue_duration (r :: l)) by (apply sumZ_nonneg; intros; by apply Hpos, Hin).
  assert (0 <= sumZ ue_bytes (r :: l)) by (apply sumZ_nonneg; intros; by apply Hpos, Hin).
  remember (r :: l) as rl. clear Heqrl. simplify_eq/=. lia.
Qed.

(** Each event of a good batch has its row, in order. *)
Lemma collect_rows events :
  Forall (fun e => Validate e = Ok tt /\ storable e = true) events ->
  exists rows, collect row_of_event events = Ok rows
    /\ Forall (fun x => row_ok x.2 = true) rows
    /\ length rows = length events
    /\ sumZ ue_duration rows.*2 = sumZ DurationMicros events
    /\ sumZ ue_bytes rows.*2 = sumZ ResponseBytes events
    /\ forall e, e ∈ events -> exists id r, to_uuid (ID e) = Some id /\ (id, r) ∈ rows.
Proof.
  induction 1 as [|e events [Hv Hst] _ (rows & Hc & Hok & Hl & Hd & Hb & Hall)].
  { exists []. split_and!; try done. by intros e ?%elem_of_nil. }
  apply Validate_ok_iff in Hv as (_ & _ & _ & Hr & _ & Hs & Hdur & Hbytes & _).
  destruct (row_of_event_ok e Hst Hs) as (id & key & cl & Hid & Hrow).
  eexists. cbn [collect]. rewrite Hrow. cbn [res_bind]. rewrite Hc. cbn [res_bind].
  split; [reflexivity|]. split_and!.
  - constructor; [|done]. unfold row_ok.
    cbn [snd ue_route ue_status ue_duration ue_bytes]. rewrite Hr.
    repeat (apply andb_true_intro; split); (done || lia).
  - cbn. by rewrite Hl.
  - rewrite fmap_cons, !sumZ_cons, Hd. done.
  - rewrite fmap_cons, !sumZ_cons, Hb. done.
  - intros e' [->|He']%elem_of_cons; [eexists _, _; split; [done|left]|].
    destruct (Hall e' He') as (id' & r' & ? & ?). exists id', r'. split; [done|by right].
Qed.
End Room.

Lemma PersistUsage_accepts `{Server} env events t :
  fault env = None -> Z.of_nat (length events) <= 6553 ->
  Forall (fun e => Validate e = Ok tt /\ storable e = true) events -> room t events ->
  exists t', PersistUsage env events t = (Ok tt, t')
    /\ usage_events t ⊆ usage_events t'
    /\ forall e, e ∈ events -> exists id, to_uuid (ID e) = Some id /\ is_Some (usage_events t' !! id).
Proof.
  intros Hf Hlen Hgood Hroom. destruct events as [|e0 es].
  { exists t. split; [done|]. split; [done|]. by intros e ?%elem_of_nil. }
  destruct (collect_rows _ Hgood) as (rows & Hc & Hok & Hl & Hd & Hb & Hall).
  destruct (PersistUsage_run env e0 es t) as (err & values & arguments & E & Hargs & Hin); [|done|].
  { eapply Forall_impl; [exact Hgood|]. by intros e [-> _]. }
  rewrite E. unfold persist_statement. rewrite Hargs, Hin, Hc.
  rewrite (proj2 (Z.leb_le _ _)) by lia. cbn [check res_bind].
  rewrite (proj2 (forallb_Forall (fun x : string * usage_row => row_ok x.2) rows)) by done.
  cbn [check res_bind]. pose proof (insert_new_sublist rows (usage_events t)) as Hsub.
  destruct (insert_new rows (usage_events t)) as [m' ins] eqn:Ei. cbn [snd] in Hsub.
  destruct (insert_new_spec _ _ _ _ Ei) as (Hsubset & _ & Hpresent & _).
  assert (Forall (fun r => row_ok r = true) rows.*2) as Hok2 by by apply Forall_fmap.
  assert (forall k a, groups ins !! k = Some a ->
    totals_ok a = true /\ totals_ok (plus_totals (usage_hourly t !! k) a) = true) as Hfit.
  { intros k a Ha. rewrite groups_lookup in Ha.
    destruct (hour_totals_bound k ins rows.*2 a Ha Hsub Hok2) as (B1 & B2 & B3 & B4).
    rewrite length_fmap, Hl in B1, B4. rewrite Hd in B2. rewrite Hb in B3.
    specialize (Hroom k). cbn zeta in Hroom. unfold totals_ok, int8_ok, plus_totals, add_totals.
    destruct (usage_hourly t !! k); cbn [from_option id request_count total_duration total_bytes rate_limited zero_totals] in *;
      split; repeat (apply andb_true_intro; split); lia. }
  rewrite !bool_decide_eq_true_2 by (intros k a Ha; by apply Hfit in Ha as [? ?]).
  cbn [check res_bind]. eexists. split; [reflexivity|]. cbn [usage_events]. split; [done|].
  intros e He. destruct (Hall e He) as (id & r & Hid & Hr). exists id. split; [done|].
  by eapply Hpresent.
Qed.


(** ** The pipeline's storage *)

Section Instance.
Context `{Server}.
Variable Marshal : Event -> res string.
Variable to_jsonb : string -> option string.

#[global] Instance postgres_store : UsageStore Env Usage := {
  s_PersistUsage := PersistUsage;
  s_PersistUsageDeadLetters := PersistUsageDeadLetters Marshal to_jsonb;
}.

Definition in_events (t : Usage) (e : Event) : Prop :=
  exists id, to_uuid (ID e) = Some id /\ is_Some (usage_events t !! id).
Definition in_dead_letters (t : Usage) (e : Event) : Prop :=
  exists id, to_uuid (ID e) = Some id /\ is_Some (dead_letters t !! id).

Lemma collect_elem {A B} (f : A -> res B) l bs a :
  collect f l = Ok bs -> a ∈ l -> exists b, f a = Ok b /\ b ∈ bs.
Proof.
  revert bs. induction l as [|a' l IH]; intros bs Hc; [by intros ?%elem_of_nil|]. cbn in Hc.
  destruct (f a') as [b|] eqn:Ef; [|done]. cbn in Hc. destruct (collect f l) as [bs'|]; [|done].
  cbn in Hc. simplify_eq. intros [->|Ha]%elem_of_cons; [by exists b; split; [|left]|].
  destruct (IH bs' eq_refl Ha) as (b' & ? & ?). exists b'. split; [done|by right].
Qed.

Lemma row_of_event_id e id r : row_of_event e = Ok (id, r) -> to_uuid (ID e) = Some id.
Proof.
  unfold row_of_event. cbn [zip zip_with casts event_arguments collect fst snd].
  rewrite cast_text_uuid. destruct (to_uuid (ID e)) as [u|]; [|done]. cbn [res_bind].
  match goal with |- context [res_bind ?c (fun bs => Ok (VUuid u :: bs))] => destruct c as [vs|] end; [|done].
  cbn [res_bind]. unfold row_of_values. repeat (case_match; try done). intros. by simplify_eq.
Qed.

Lemma persist_keeps f b t :
  usage_events t ⊆ usage_events (PersistUsage f b t).2
  /\ dead_letters (PersistUsage f b t).2 = dead_letters t
  /\ forall t' e, PersistUsage f b t = (Ok tt, t') -> e ∈ b -> in_events t' e.
Proof.
  destruct b as [|e0 es]; [split_and!; try done; by intros ? ? _ ?%elem_of_nil|].
  split_and!.
  - destruct (PersistUsage_cases f e0 es t) as [->|(v & a & x & _ & Hst)]; [done|].
    destruct (persist_statement_ok _ _ _ _ _ Hst) as (rows & m' & ins & _ & Hnew & _ & ->).
    by apply insert_new_spec in Hnew as [? _].
  - destruct (PersistUsage_cases f e0 es t) as [->|(v & a & x & _ & Hst)]; [done|].
    by destruct (persist_statement_ok _ _ _ _ _ Hst) as (rows & m' & ins & _ & _ & _ & ->).
  - intros t' e Hok He. destruct (PersistUsage_ok _ _ _ _ _ Hok) as (_ & v & a & x & Hb & Hst).
    destruct (persist_statement_ok _ _ _ _ _ Hst) as (rows & m' & ins & Hin & Hnew & _ & ->).
    rewrite build_spec in Hb. destruct (collect Validate (e0 :: es)); [|done].
    assert (incoming v a = collect row_of_event (e0 :: es)) as Hrows
      by (injection Hb as <- <-; exact (incoming_rows (e0 :: es) [] 0 eq_refl)).
    rewrite Hrows in Hin.
    destruct (collect_elem _ _ _ e Hin He) as ([id r] & Hrow & Hr).
    exists id. split; [by eapply row_of_event_id|].
    destruct (insert_new_spec _ _ _ _ Hnew) as (_ & _ & Hp & _). by eapply Hp.
Qed.

Lemma dead_statement_ok l msg n t x t' :
  dead_statement to_jsonb l msg n t = Ok (x, t') ->
  usage_events t' = usage_events t /\ usage_hourly t' = usage_hourly t
  /\ (forall id, is_Some (dead_letters t !! id) -> is_Some (dead_letters t' !! id))
  /\ forall y, y ∈ l -> exists id, to_uuid y.1 = Some id /\ is_Some (dead_letters t' !! id).
Proof.
  unfold dead_statement. intros E. apply check_bind in E as [_ E].
  destruct (collect _ l) as [rows|] eqn:Ec; [|done]. cbn [res_bind] in E.
  do 4 (apply check_bind in E as [_ E]). simplify_eq. cbn [usage_events usage_hourly dead_letters].
  assert (forall id, (id ∈ rows.*1 \/ is_Some (dead_letters t !! id)) ->
    is_Some (foldr (fun x m => <[x.1:=x.2]> m) (dead_letters t) rows !! id)) as Hfold.
  { clear. intros id. induction rows as [|[i r] rows IH]; cbn.
    - by intros [?%elem_of_nil|?].
    - intros Hid. destruct (decide (i = id)) as [->|Hne]; [rewrite lookup_insert_eq; by eexists|].
      rewrite lookup_insert_ne by done. apply IH. destruct Hid as [[?|?]%elem_of_cons|?]; [done|by left|by right]. }
  split_and!; [done..|by eauto|]. intros y Hy.
  destruct (collect_elem _ _ _ y Ec Hy) as ([id r] & Hrow & Hr). unfold dead_row_of in Hrow.
  destruct (to_uuid y.1) as [u|]; [|done]. destruct (to_jsonb y.2); simplify_eq.
  exists id. split; [done|]. apply Hfold. left. exact (list_elem_of_fmap_2 fst _ _ Hr).
Qed.

Lemma encode_all_ids events l e :
  encode_all Marshal events = Ok l -> e ∈ events -> exists p, (ID e, p) ∈ l.
Proof.
  revert l. induction events as [|e0 es IH]; intros l Hc; [by intros ?%elem_of_nil|]. cbn in Hc.
  destruct (Marshal e0) as [p|]; [|done]. destruct (encode_all Marshal es) as [l'|]; [|done].
  cbn in Hc. simplify_eq. intros [->|He]%elem_of_cons; [exists p; left|].
  destruct (IH l' eq_refl He) as [p' ?]. exists p'. by right.
Qed.

Lemma dead_keeps f b m n t :
  usage_events (PersistUsageDeadLetters Marshal to_jsonb f b m n t).2 = usage_events t
  /\ (forall id, is_Some (dead_letters t !! id) ->
       is_Some (dead_letters (PersistUsageDeadLetters Marshal to_jsonb f b m n t).2 !! id))
  /\ forall t' e, PersistUsageDeadLetters Marshal to_jsonb f b m n t = (Ok tt, t') -> e ∈ b ->
       in_dead_letters t' e.
Proof.
  unfold PersistUsageDeadLetters.
  destruct b as [|e0 es]; [split_and!; try done; by intros ? ? _ ?%elem_of_nil|].
  destruct (encode_all Marshal (e0 :: es)) as [l|] eqn:El; [|done].
  pose proof (exec_cases f (dead_statement to_jsonb l m n) t) as Hc.
  pose proof (exec_ok f (dead_statement to_jsonb l m n) t) as Hok.
  destruct (exec f _ t) as [r t1]. cbn [snd] in Hc.
  assert (usage_events t1 = usage_events t
    /\ (forall id, is_Some (dead_letters t !! id) -> is_Some (dead_letters t1 !! id))) as [H1 H2].
  { destruct Hc as [->|[x Hx]]; [done|]. by apply dead_statement_ok in Hx as (? & _ & ? & _). }
  destruct r as [x|]; cbn [snd]; split_and!; try done.
  intros t' e [= <-] He. destruct (Hok _ _ eq_refl) as [_ Hx].
  apply dead_statement_ok in Hx as (_ & _ & _ & Hall).
  destruct (encode_all_ids _ _ _ El He) as [p Hp]. exact (Hall _ Hp).
Qed.

(** PostgreSQL keeps what it acknowledges. *)
#[global, refine] Instance postgres_store_laws : UsageStoreLaws Env Usage := {
  stored := in_events;
  dead_lettered := in_dead_letters;
}.
Proof.
  - intros f b t t' e Hok He. cbn in Hok. by eapply (proj2 (proj2 (persist_keeps f b t))).
  - intros f b t e. cbn. destruct (persist_keeps f b t) as (Hsub & Hd & _). split.
    + intros (id & Hid & r & Hr). exists id. split; [done|]. exists r. by eapply lookup_weaken.
    + intros (id & Hid & Hr). exists id. split; [done|]. by rewrite Hd.
  - intros f b m n t t' e Hok He. cbn in Hok. by eapply (proj2 (proj2 (dead_keeps f b m n t))).
  - intros f b m n t e. cbn. destruct (dead_keeps f b m n t) as (Hev & Hd & _). split.
    + intros (id & Hid & Hr). exists id. split; [done|]. by rewrite Hev.
    + intros (id & Hid & Hr). exists id. split; [done|]. by apply Hd.
Defined.
End Instance.

(** ** Witnesses *)

#[local] Definition demo_uuid (c : string) : string := "aaaaaaaa-aaaa-4aaa-8aaa-aaaaaaaaaaa" +:+ c.

#[local] Instance demo_server : Server.
Proof.
  refine {| to_uuid s := if (String.length s =? 36)%nat then Some s else None;
            trunc_hour us := us / 3600000000 * 3600000000 |}.
  intros s u Hs. destruct (_ =? _)%nat eqn:E; [|done]. injection Hs as <-. by rewrite E.
Defined.

Definition stored_event (c rid : string) (status : Z) : Event :=
  {| ID := demo_uuid c; RequestID := rid; APIKeyID := demo_uuid "k"; ClientID := demo_uuid "c";
     EvRoute := "/api/users"; Method := "GET"; StatusCode := status; DurationMicros := 5;
     ResponseBytes := 10; OccurredAt := 1700000000 * Second |}.

Definition quiet : Env := {| now := 0; fresh := ""; fault := None |}.
Definition lost_reply : Env := {| now := 0; fresh := ""; fault := Some (ErrNew "connection reset", true) |}.

Definition demo_batch : list Event := [stored_event "1" "r1" 200; stored_event "2" "r2" 429].

Lemma demo_batch_good : Forall (fun e => Validate e = Ok tt /\ storable e = true) demo_batch.
Proof. repeat constructor; vm_compute; reflexivity. Qed.

Lemma empty_room : room no_usage demo_batch.
Proof. intros k. cbn. rewrite lookup_empty. cbn. lia. Qed.


Lemma persist_idempotent_witness :
  exists t2, PersistUsage quiet demo_batch no_usage = (Ok tt, t2)
  /\ PersistUsage quiet demo_batch (PersistUsage lost_reply demo_batch no_usage).2 = (Ok tt, t2).
Proof.
  destruct (PersistUsage_accepts quiet demo_batch no_usage) as (t2 & E & _).
  - reflexivity.
  - vm_compute. congruence.
  - exact demo_batch_good.
  - exact empty_room.
  - exists t2. split; [exact E|].
    exact (persist_idempotent lost_reply quiet demo_batch no_usage t2 E).
Defined.

Lemma bad_event_refused : storable (stored_event "3" (String (byte_ascii 255) EmptyString) 200) = false.
Proof. vm_compute. reflexivity. Qed.

(** One request whose ID is not UTF-8 takes the whole batch with it. *)
Lemma persist_refuses_witness :
  storable (stored_event "3" (String (byte_ascii 255) EmptyString) 200) = false
  /\ exists err, PersistUsage quiet (demo_batch ++ [stored_event "3" (String (byte_ascii 255) EmptyString) 200])
       no_usage = (Err err, no_usage).
Proof.
  split; [exact bad_event_refused|].
  apply (persist_refuses quiet _ no_usage (stored_event "3" (String (byte_ascii 255) EmptyString) 200)).
  - reflexivity.
  - right. right. left.
  - right. left. exact bad_event_refused.
Defined.
