(* ===== verification/Migrations.v ===== *)
(** * Schema migrations ([internal/store/postgres.go], [Migrate])

    Any number of processes run [Migrate] against one database.  A step is one
    statement of one process; a transaction's writes are kept in the process
    until it commits; the advisory lock blocks every process but its holder and
    is released with the transaction.  A statement may meet a connection fault,
    before or after it took effect.  What a migration's script does to the
    schema is PostgreSQL's business and a parameter. *)

From Stdlib Require Import ZArith Lia.
From stdpp Require Import base tactics numbers list gmap strings sorting.
From S2P Require Import Prelude GoLib.

(** ** Names *)

Definition strip_suffix (suffix s : string) : option string :=
  String.rev <$> strip_prefix (String.rev suffix) (String.rev s).

(** [strings.TrimPrefix] and [strings.TrimSuffix]. *)
Definition TrimPrefix (s p : string) : string := default s (strip_prefix p s).
Definition TrimSuffix (s p : string) : string := default s (strip_suffix p s).

Definition not_slash (c : Ascii.ascii) : bool := negb (ascii_byte c =? 47).

(** The pattern [migrations/*.sql] of [fs.Glob]. *)
Definition glob (path : string) : bool :=
  match strip_prefix "migrations/" path ≫= strip_suffix ".sql" with
  | Some v => chars not_slash v
  | None => false
  end.

Definition version_of (path : string) : string := TrimSuffix (TrimPrefix path "migrations/") ".sql".

Section Migrate.
Context {S : Type}.                                (* the schema *)
Context (run_script : string -> S -> res S).       (* a migration's script *)
Context (files : gmap string string).              (* the embedded files *)

(** The files in the order [sort.Strings] gives. *)
Definition paths : list string := merge_sort String.le (filter (fun p => glob p = true) (map_to_list files).*1).

Definition content (path : string) : string := default "" (files !! path).

(** ** Processes *)

(** A process is before the statement its constructor names; the index counts
    the files it has dealt with. *)
Inductive pc :=
| M_create                            (* CREATE TABLE IF NOT EXISTS schema_migrations *)
| M_begin (k : nat)                   (* the loop's test, and BEGIN *)
| M_lock (k : nat)                    (* pg_advisory_xact_lock *)
| M_check (k : nat)                   (* SELECT EXISTS *)
| M_skip (k : nat)                    (* COMMIT of a transaction that found the version *)
| M_apply (k : nat)                   (* the migration's script *)
| M_record (k : nat) (sc : S)         (* INSERT INTO schema_migrations *)
| M_commit (k : nat) (sc : S)         (* COMMIT *)
| M_ret (r : res unit).

(** The database, and the process that holds the advisory lock. *)
Record db := {
  m_created : bool;
  m_versions : list string;
  m_schema : S;
  m_holder : option nat;
  m_procs : list pc;
}.

Definition goto (i : nat) (p : pc) (s : db) : db :=
  {| m_created := m_created s; m_versions := m_versions s; m_schema := m_schema s; m_holder := m_holder s;
     m_procs := <[i := p]> (m_procs s) |}.
Definition set_created (s : db) : db :=
  {| m_created := true; m_versions := m_versions s; m_schema := m_schema s; m_holder := m_holder s;
     m_procs := m_procs s |}.
Definition set_holder (h : option nat) (s : db) : db :=
  {| m_created := m_created s; m_versions := m_versions s; m_schema := m_schema s; m_holder := h;
     m_procs := m_procs s |}.
Definition commit (v : string) (sc : S) (s : db) : db :=
  {| m_created := m_created s; m_versions := m_versions s ++ [v]; m_schema := sc; m_holder := m_holder s;
     m_procs := m_procs s |}.

(** The end of a transaction releases the lock. *)
Definition release (s : db) : db := set_holder None s.

(** Returning an error; the deferred rollback ends the transaction. *)
Definition fail (i : nat) (text : string) (e : gerror) (s : db) : db :=
  goto i (M_ret (Err (ErrWrap text e))) s.

(** One statement of process [i].  The fault, if any, comes with whether the
    statement had taken effect. *)
Definition migrate_step (i : nat) (fault : option (gerror * bool)) (s : db) : option db :=
  match m_procs s !! i with
  | None => None
  | Some M_create =>
      Some match fault with
           | None => goto i (M_begin 0) (set_created s)
           | Some (e, done) => fail i "create schema_migrations: " e (if done : bool then set_created s else s)
           end
  | Some (M_begin k) =>
      match paths !! k with
      | None => Some (goto i (M_ret (Ok tt)) s)
      | Some path =>
          Some match fault with
               | None => goto i (M_lock k) s
               | Some (e, _) => fail i ("begin migration " +:+ version_of path +:+ ": ") e s
               end
      end
  | Some (M_lock k) =>
      match fault, m_holder s with
      | Some (e, _), _ => Some (fail i "lock migrations: " e s)
      | None, None => Some (goto i (M_check k) (set_holder (Some i) s))
      | None, Some _ => None
      end
  | Some (M_check k) =>
      path ← paths !! k;
      Some match fault with
           | Some (e, _) => fail i ("check migration " +:+ version_of path +:+ ": ") e (release s)
           | None =>
               if decide (version_of path ∈ m_versions s) then goto i (M_skip k) s else goto i (M_apply k) s
           end
  | Some (M_skip k) =>
      Some match fault with
           | Some (e, _) => goto i (M_ret (Err e)) (release s)
           | None => goto i (M_begin (Datatypes.S k)) (release s)
           end
  | Some (M_apply k) =>
      path ← paths !! k;
      let text := "apply migration " +:+ version_of path +:+ ": " in
      Some match fault with
           | Some (e, _) => fail i text e (release s)
           | None =>
               match run_script (content path) (m_schema s) with
               | Err e => fail i text e (release s)
               | Ok sc => goto i (M_record k sc) s
               end
           end
  | Some (M_record k sc) =>
      path ← paths !! k;
      Some match fault with
           | Some (e, _) => fail i ("record migration " +:+ version_of path +:+ ": ") e (release s)
           | None => goto i (M_commit k sc) s
           end
  | Some (M_commit k sc) =>
      path ← paths !! k;
      Some match fault with
           | None => goto i (M_begin (Datatypes.S k)) (release (commit (version_of path) sc s))
           | Some (e, done) =>
               fail i ("commit migration " +:+ version_of path +:+ ": ") e
                 (release (if done : bool then commit (version_of path) sc s else s))
           end
  | Some (M_ret _) => None
  end.

(** A new call of [Migrate]. *)
Definition start (s : db) : db :=
  {| m_created := m_created s; m_versions := m_versions s; m_schema := m_schema s; m_holder := m_holder s;
     m_procs := m_procs s ++ [M_create] |}.

Definition empty_db (sc : S) : db :=
  {| m_created := false; m_versions := []; m_schema := sc; m_holder := None; m_procs := [] |}.

Inductive migrating (sc0 : S) : db -> Prop :=
| mig_empty : migrating sc0 (empty_db sc0)
| mig_start s : migrating sc0 s -> migrating sc0 (start s)
| mig_step i fault s s' : migrating sc0 s -> migrate_step i fault s = Some s' -> migrating sc0 s'.

(** ** What the files make of a schema *)

Fixpoint build (ps : list string) (sc : S) : res S :=
  match ps with
  | [] => Ok sc
  | p :: ps' => sc' <-- run_script (content p) sc ;; build ps' sc'
  end.

Lemma build_app ps qs sc : build (ps ++ qs) sc = (sc' <-- build ps sc ;; build qs sc').
Proof.
  revert sc. induction ps as [|p ps IH]; intros sc; [done|]. cbn [app build].
  destruct (run_script (content p) sc); [apply IH|done].
Qed.

Lemma strip_suffix_Some suffix s r : strip_suffix suffix s = Some r -> s = r +:+ suffix.
Proof.
  unfold strip_suffix. intros (q & Hq & ->)%fmap_Some. apply strip_prefix_Some in Hq.
  apply (f_equal String.rev) in Hq. by rewrite srev_involutive, srev_append, srev_involutive in Hq.
Qed.

Lemma glob_version p : glob p = true -> p = "migrations/" +:+ version_of p +:+ ".sql".
Proof.
  unfold glob, version_of, TrimPrefix, TrimSuffix.
  destruct (strip_prefix "migrations/" p) as [r|] eqn:E; [|done]. cbn [mbind option_bind default].
  destruct (strip_suffix ".sql" r) as [v|] eqn:E'; [|done]. intros _.
  unfold default, from_option, id. rewrite E'.
  apply strip_prefix_Some in E. apply strip_suffix_Some in E'. by rewrite E, E'.
Qed.

(** The versions in the order of the files: no two files share one. *)
Definition versions : list string := version_of <$> paths.

Lemma versions_NoDup : NoDup versions.
Proof.
  unfold versions, paths. eapply NoDup_fmap_2_strong.
  - intros x y. rewrite !merge_sort_Permutation, !list_elem_of_filter. intros [Hx _] [Hy _] E.
    by rewrite (glob_version x Hx), (glob_version y Hy), E.
  - rewrite merge_sort_Permutation. apply NoDup_filter, NoDup_fst_map_to_list.
Qed.

(** ** The invariant *)

Context (sc0 : S).

Definition holds (i : nat) (s : db) : Prop := m_holder s = Some i.

(** What holds of a process at each of its statements: the files it has dealt
    with are recorded; inside the lock it knows where the record ends. *)
Definition pc_ok (s : db) (i : nat) (p : pc) : Prop :=
  match p with
  | M_create => ~ holds i s
  | M_begin k | M_lock k => (k <= length (m_versions s))%nat /\ ~ holds i s
  | M_check k => (k <= length (m_versions s))%nat /\ holds i s
  | M_skip k => (k < length (m_versions s))%nat /\ holds i s
  | M_apply k => k = length (m_versions s) /\ holds i s
  | M_record k sc | M_commit k sc =>
      k = length (m_versions s) /\ holds i s
      /\ exists path, paths !! k = Some path /\ run_script (content path) (m_schema s) = Ok sc
  | M_ret (Ok _) => length (m_versions s) = length paths /\ ~ holds i s
  | M_ret (Err _) => ~ holds i s
  end.

Record mig_inv (s : db) : Prop := {
  mi_prefix : m_versions s = take (length (m_versions s)) versions;
  mi_schema : build (take (length (m_versions s)) paths) sc0 = Ok (m_schema s);
  mi_procs : forall i p, m_procs s !! i = Some p -> pc_ok s i p;
  mi_holder : forall i, m_holder s = Some i -> (i < length (m_procs s))%nat;
}.

Lemma versions_length : length versions = length paths.
Proof. apply length_fmap. Qed.

Lemma inv_bound s : mig_inv s -> (length (m_versions s) <= length paths)%nat.
Proof. intros [Hp _ _ _]. rewrite Hp at 1. rewrite length_take, versions_length. lia. Qed.

(** A file is recorded exactly when the record reaches it. *)
Lemma recorded_iff s k path :
  mig_inv s -> paths !! k = Some path ->
  version_of path ∈ m_versions s <-> (k < length (m_versions s))%nat.
Proof.
  intros Hi Hk. rewrite (mi_prefix _ Hi) at 1. set (n := length (m_versions s)).
  assert (versions !! k = Some (version_of path)) as Hv by (unfold versions; by rewrite list_lookup_fmap, Hk).
  split.
  - intros (j & Hj)%list_elem_of_lookup. apply lookup_take_Some in Hj as [Hj Hlt].
    by rewrite <- (NoDup_lookup _ _ _ _ versions_NoDup Hj Hv).
  - intros Hlt. apply list_elem_of_lookup. exists k. apply lookup_take_Some. done.
Qed.

(** Moving one process while the record and the schema stay. *)
Lemma inv_move s s' i p p' :
  mig_inv s -> m_procs s !! i = Some p ->
  m_versions s' = m_versions s -> m_schema s' = m_schema s -> m_procs s' = <[i := p']> (m_procs s) ->
  (m_holder s' = m_holder s \/ (m_holder s' = None /\ holds i s)
   \/ (m_holder s = None /\ m_holder s' = Some i)) ->
  pc_ok s' i p' -> mig_inv s'.
Proof.
  intros [H1 H2 H3 H4] Hp Hv Hs Hpr Hh Hok. split; rewrite ?Hv, ?Hs; try done.
  - rewrite Hpr. intros j q Hq. destruct (decide (j = i)) as [->|Hne].
    + rewrite list_lookup_insert_eq in Hq by by eapply lookup_lt_Some. by simplify_eq.
    + rewrite list_lookup_insert_ne in Hq by done. specialize (H3 j q Hq).
      assert (holds j s' <-> holds j s) as Hj.
      { unfold holds in *. destruct Hh as [->|[[-> ->]|[-> ->]]]; split; intros; simplify_eq; done. }
      destruct q as [| | | | | | | |[]]; cbn in *; rewrite ?Hv, ?Hs, ?Hj; done.
  - rewrite Hpr, length_insert. intros j Hj. destruct Hh as [E|[[E _]|[_ E]]]; rewrite E in Hj.
    + by apply H4.
    + done.
    + simplify_eq. by eapply lookup_lt_Some.
Qed.

(** The commit of a migration by the holder of the lock. *)
Lemma inv_commit s i k sc path p' :
  mig_inv s -> m_procs s !! i = Some (M_commit k sc) -> paths !! k = Some path ->
  (let s' := goto i p' (release (commit (version_of path) sc s)) in pc_ok s' i p') ->
  mig_inv (goto i p' (release (commit (version_of path) sc s))).
Proof.
  intros Hi Hp Hk Hok. pose proof (mi_procs _ Hi _ _ Hp) as (-> & Hh & path' & Hk' & Hrun).
  simplify_eq. destruct Hi as [H1 H2 H3 H4]. split; cbn [goto release commit set_holder m_versions m_schema].
  - rewrite length_app. cbn [length]. rewrite Nat.add_1_r. erewrite take_S_r; [by rewrite <- H1|].
    unfold versions. by rewrite list_lookup_fmap, Hk.
  - rewrite length_app. cbn [length]. rewrite Nat.add_1_r. erewrite take_S_r; [|done].
    rewrite build_app, H2. cbn [res_bind build]. by rewrite Hrun.
  - intros j q Hq. cbn in Hq. destruct (decide (j = i)) as [->|Hne].
    + rewrite list_lookup_insert_eq in Hq by by eapply lookup_lt_Some. by simplify_eq.
    + rewrite list_lookup_insert_ne in Hq by done. specialize (H3 j q Hq).
      assert (~ holds j s) as Hj by (unfold holds in *; congruence).
      apply lookup_lt_Some in Hk.
      destruct q as [| | | | | | | |[]]; cbn in *; rewrite ?length_app; cbn; naive_solver lia.
  - done.
Qed.

Lemma inv_start s : mig_inv s -> mig_inv (start s).
Proof.
  intros [H1 H2 H3 H4]. split; cbn; try done.
  - intros i p [Hp|[Hlen Hp]]%lookup_app_Some; [exact (H3 i p Hp)|].
    apply list_lookup_singleton_Some in Hp as [Hz <-]. cbn. unfold holds. cbn.
    intros Hh%H4. lia.
  - intros i Hi%H4. rewrite length_app. cbn. lia.
Qed.

Lemma inv_step s i fault s' : mig_inv s -> migrate_step i fault s = Some s' -> mig_inv s'.
Proof.
  intros Hi Hst. unfold migrate_step in Hst. destruct (m_procs s !! i) as [p|] eqn:Hp; [|done].
  pose proof (mi_procs _ Hi _ _ Hp) as Hok.
  assert (forall s1 p', goto i p' s1 = s' -> m_versions s1 = m_versions s -> m_schema s1 = m_schema s ->
    m_procs s1 = m_procs s ->
    (m_holder s1 = m_holder s \/ (m_holder s1 = None /\ holds i s) \/ (m_holder s = None /\ m_holder s1 = Some i)) ->
    pc_ok s1 i p' -> mig_inv s') as Hmove.
  { intros s1 p' <- Hv Hs Hpr Hh Hpc. apply (inv_move s (goto i p' s1) i p p'); [done|done|exact Hv|exact Hs| |exact Hh|].
    - cbn. by rewrite Hpr.
    - by destruct p' as [| | | | | | | |[]]. }
  destruct p as [|k|k|k|k|k|k sc|k sc|r]; cbn in Hok.
  - destruct fault as [[e []]|]; simplify_eq; (eapply Hmove; [reflexivity|done..|by left|]); cbn; try done.
    split; [lia|done].
  - destruct Hok as [Hk Hn]. destruct (paths !! k) as [path|] eqn:Epath.
    + destruct fault as [[e b]|]; simplify_eq; (eapply Hmove; [reflexivity|done..|by left|]); done.
    + simplify_eq. eapply Hmove; [reflexivity|done..|by left|]. cbn. split; [|done].
      apply lookup_ge_None in Epath. pose proof (inv_bound s Hi). lia.
  - destruct Hok as [Hk Hn]. destruct fault as [[e b]|]; simplify_eq.
    + eapply Hmove; [reflexivity|done..|by left|]; done.
    + destruct (m_holder s) eqn:Eh; simplify_eq. eapply Hmove; [reflexivity|done..|by right; right|]. done.
  - destruct Hok as [Hk Hh]. destruct (paths !! k) as [path|] eqn:Epath; [|done]. cbn in Hst.
    pose proof (recorded_iff s k path Hi Epath) as Hrec.
    destruct fault as [[e b]|]; [|case_decide as Hd]; simplify_eq.
    + eapply Hmove; [reflexivity|done..|by right; left|]; done.
    + eapply Hmove; [reflexivity|done..|by left|]. split; [by apply Hrec|done].
    + eapply Hmove; [reflexivity|done..|by left|]. split; [|done].
      destruct (decide (k < length (m_versions s))%nat); [|lia]. by rewrite Hrec in Hd.
  - destruct Hok as [Hk Hh]. destruct fault as [[e b]|]; simplify_eq;
      (eapply Hmove; [reflexivity|done..|by right; left|]); cbn; [done|]. split; [lia|done].
  - destruct Hok as [Hk Hh]. destruct (paths !! k) as [path|] eqn:Epath; [|done]. cbn in Hst.
    destruct fault as [[e b]|]; [|destruct (run_script (content path) (m_schema s)) as [sc|e] eqn:Er]; simplify_eq.
    + eapply Hmove; [reflexivity|done..|by right; left|]; done.
    + eapply Hmove; [reflexivity|done..|by left|]. split_and!; [done..|]. by exists path.
    + eapply Hmove; [reflexivity|done..|by right; left|]; done.
  - destruct Hok as (Hk & Hh & path & Epath & Hrun). rewrite Epath in Hst. cbn in Hst.
    destruct fault as [[e b]|]; simplify_eq.
    + eapply Hmove; [reflexivity|done..|by right; left|]; done.
    + eapply Hmove; [reflexivity|done..|by left|]. split_and!; [done..|]. by exists path.
  - destruct Hok as (Hk & Hh & path & Epath & Hrun). rewrite Epath in Hst. cbn in Hst.
    destruct fault as [[e []]|]; simplify_eq.
    + by eapply inv_commit.
    + eapply Hmove; [reflexivity|done..|by right; left|]; done.
    + eapply inv_commit; [done..|]. cbn. rewrite length_app. cbn. split; [lia|done].
  - done.
Qed.

Lemma migrating_inv s : migrating sc0 s -> mig_inv s.
Proof.
  induction 1 as [|s _ IH|i fault s s' _ IH Hst].
  - split; cbn; done.
  - by apply inv_start.
  - by eapply inv_step.
Qed.

(** ** A process left alone *)

(** [n] statements of process [i] without a fault. *)
Fixpoint alone (i n : nat) (s : db) : option db :=
  match n with
  | O => Some s
  | Datatypes.S n' => s' ← migrate_step i None s; alone i n' s'
  end.

Lemma alone_app i n m s s1 s2 : alone i n s = Some s1 -> alone i m s1 = Some s2 -> alone i (n + m) s = Some s2.
Proof.
  revert s. induction n as [|n IH]; intros s H1 H2; cbn in *; [by simplify_eq|].
  destruct (migrate_step i None s); [|done]. by apply IH.
Qed.

Lemma alone_inv i n s s' : mig_inv s -> alone i n s = Some s' -> mig_inv s'.
Proof.
  revert s. induction n as [|n IH]; intros s Hi Hs; cbn in Hs; [by simplify_eq|].
  destruct (migrate_step i None s) as [s1|] eqn:E; [|done]. eapply IH; [|done]. by eapply inv_step.
Qed.

(** A process that names its next statement. *)
Definition at_pc (i : nat) (p : pc) (s : db) : Prop := m_procs s !! i = Some p.

Lemma at_goto i p q s : at_pc i p s -> at_pc i q (goto i q s).
Proof. intros Hp. unfold at_pc, goto. cbn. by rewrite list_lookup_insert_eq by by eapply lookup_lt_Some. Qed.

(** Beginning a transaction and taking the lock. *)
Lemma alone_lock i k s path :
  at_pc i (M_begin k) s -> m_holder s = None -> paths !! k = Some path ->
  exists s', alone i 2 s = Some s' /\ at_pc i (M_check k) s'
    /\ m_versions s' = m_versions s /\ m_schema s' = m_schema s.
Proof.
  intros Hp Hh Hk. set (s1 := goto i (M_lock k) s). assert (at_pc i (M_lock k) s1) as Hp1 by by eapply at_goto.
  exists (goto i (M_check k) (set_holder (Some i) s1)). split_and!; try done; [|by eapply (at_goto i (M_lock k))].
  assert (migrate_step i None s = Some s1) as T1 by (unfold migrate_step; by rewrite Hp, Hk).
  cbn [alone]. rewrite T1. cbn [mbind option_bind]. unfold migrate_step. rewrite Hp1.
  change (m_holder s1) with (m_holder s). by rewrite Hh.
Qed.

(** A file that is recorded takes four statements and changes nothing. *)
Lemma alone_skip i k s path :
  at_pc i (M_begin k) s -> m_holder s = None -> paths !! k = Some path -> version_of path ∈ m_versions s ->
  exists s', alone i 4 s = Some s' /\ at_pc i (M_begin (Datatypes.S k)) s' /\ m_holder s' = None
    /\ m_versions s' = m_versions s /\ m_schema s' = m_schema s.
Proof.
  intros Hp Hh Hk Hin. destruct (alone_lock i k s path Hp Hh Hk) as (s2 & E2 & Hp2 & Hv & Hs).
  set (s3 := goto i (M_skip k) s2). assert (at_pc i (M_skip k) s3) as Hp3 by by eapply at_goto.
  exists (goto i (M_begin (Datatypes.S k)) (release s3)).
  split; [|split_and!; try done; by eapply (at_goto i (M_skip k))].
  assert (migrate_step i None s2 = Some s3) as T3.
  { unfold migrate_step. rewrite Hp2, Hk. cbn [mbind option_bind]. by rewrite decide_True by by rewrite Hv. }
  apply (alone_app i 2 2 s s2); [done|]. cbn [alone]. rewrite T3. cbn [mbind option_bind].
  unfold migrate_step. by rewrite Hp3.
Qed.

(** A file that is not recorded takes six statements: its script and its
    version are committed together. *)
Lemma alone_apply i k s path sc :
  at_pc i (M_begin k) s -> m_holder s = None -> paths !! k = Some path -> version_of path ∉ m_versions s ->
  run_script (content path) (m_schema s) = Ok sc ->
  exists s', alone i 6 s = Some s' /\ at_pc i (M_begin (Datatypes.S k)) s' /\ m_holder s' = None
    /\ m_versions s' = m_versions s ++ [version_of path] /\ m_schema s' = sc.
Proof.
  intros Hp Hh Hk Hin Hrun. destruct (alone_lock i k s path Hp Hh Hk) as (s2 & E2 & Hp2 & Hv & Hs).
  set (s3 := goto i (M_apply k) s2). assert (at_pc i (M_apply k) s3) as Hp3 by by eapply at_goto.
  set (s4 := goto i (M_record k sc) s3). assert (at_pc i (M_record k sc) s4) as Hp4 by by eapply at_goto.
  set (s5 := goto i (M_commit k sc) s4). assert (at_pc i (M_commit k sc) s5) as Hp5 by by eapply at_goto.
  exists (goto i (M_begin (Datatypes.S k)) (release (commit (version_of path) sc s5))).
  split; [|split_and!; try done; [by eapply (at_goto i (M_commit k sc))|cbn; by rewrite Hv]].
  assert (migrate_step i None s2 = Some s3) as T3.
  { unfold migrate_step. rewrite Hp2, Hk. cbn [mbind option_bind]. by rewrite decide_False by by rewrite Hv. }
  assert (migrate_step i None s3 = Some s4) as T4.
  { unfold migrate_step. rewrite Hp3, Hk. cbn [mbind option_bind]. change (m_schema s3) with (m_schema s2).
    by rewrite Hs, Hrun. }
  assert (migrate_step i None s4 = Some s5) as T5 by (unfold migrate_step; by rewrite Hp4, Hk).
  apply (alone_app i 2 4 s s2); [done|]. cbn [alone]. rewrite T3. cbn [mbind option_bind].
  rewrite T4. cbn [mbind option_bind]. rewrite T5. cbn [mbind option_bind]. unfold migrate_step. by rewrite Hp5, Hk.
Qed.

Lemma alone_file i k s path full :
  mig_inv s -> at_pc i (M_begin k) s -> m_holder s = None -> paths !! k = Some path -> build paths sc0 = Ok full ->
  exists n s', (n <= 6)%nat /\ alone i n s = Some s' /\ at_pc i (M_begin (Datatypes.S k)) s' /\ m_holder s' = None.
Proof.
  intros Hi Hp Hh Hk Hb. pose proof (mi_procs _ Hi _ _ Hp) as [Hle _].
  pose proof (recorded_iff s k path Hi Hk) as Hrec.
  destruct (decide (version_of path ∈ m_versions s)) as [Hin|Hin].
  - destruct (alone_skip i k s path) as (s' & E & Hp' & Hh' & _); [done..|]. exists 4%nat, s'. split_and!; [lia|done..].
  - assert (k = length (m_versions s)) as Ek.
    { destruct (decide (k < length (m_versions s))%nat) as [Hlt|]; [|lia]. by apply Hrec in Hlt. }
    assert (exists sc, run_script (content path) (m_schema s) = Ok sc) as [sc Hrun].
    { rewrite <- (take_drop_middle paths k path Hk), build_app in Hb.
      rewrite Ek, (mi_schema _ Hi) in Hb. cbn [res_bind build] in Hb.
      destruct (run_script (content path) (m_schema s)); [by eexists|done]. }
    destruct (alone_apply i k s path sc) as (s' & E & Hp' & Hh' & _); [done..|]. exists 6%nat, s'.
    split_and!; [lia|done..].
Qed.

Lemma alone_loop i s k full :
  mig_inv s -> at_pc i (M_begin k) s -> m_holder s = None -> (k <= length paths)%nat -> build paths sc0 = Ok full ->
  exists n s', (n <= 6 * (length paths - k) + 1)%nat /\ alone i n s = Some s' /\ at_pc i (M_ret (Ok tt)) s'.
Proof.
  remember (length paths - k)%nat as left eqn:El. revert s k El. induction left as [|left IH]; intros s k El Hi Hp Hh Hk Hb.
  - exists 1%nat, (goto i (M_ret (Ok tt)) s). split; [lia|]. split; [|by eapply at_goto].
    cbn [alone]. unfold migrate_step. rewrite Hp. rewrite (proj2 (lookup_ge_None paths k)) by lia. done.
  - destruct (lookup_lt_is_Some_2 paths k) as [path Hpath]; [lia|].
    destruct (alone_file i k s path full Hi Hp Hh Hpath Hb) as (n1 & s1 & Hn1 & E1 & Hp1 & Hh1).
    destruct (IH s1 (Datatypes.S k)) as (n2 & s2 & Hn2 & E2 & Hp2); [lia|by eapply alone_inv|done..|lia|done|].
    exists (n1 + n2)%nat, s2. split; [lia|]. split; [by eapply alone_app|done].
Qed.

(** C19: migrations are applied in order and each at most once, whatever
    processes run [Migrate] at the same time and whatever statements fail,
    also when a commit's outcome is unknown: the recorded versions are always
    a prefix of the files in order and the schema is what exactly those
    scripts make of the initial one; a call that returned without an error
    leaves every file recorded.  And [Migrate] gets there: while nobody holds
    the lock, a new call left alone returns without an error within six
    statements per file, if the scripts themselves succeed in order. *)
Theorem migrate_once s :
  migrating sc0 s ->
  (exists n, m_versions s = take n versions /\ build (take n paths) sc0 = Ok (m_schema s)
     /\ forall i, m_procs s !! i = Some (M_ret (Ok tt)) -> n = length paths)
  /\ (forall full, m_holder s = None -> build paths sc0 = Ok full ->
       exists n s', (n <= 6 * length paths + 2)%nat
         /\ alone (length (m_procs s)) n (start s) = Some s'
         /\ m_procs s' !! length (m_procs s) = Some (M_ret (Ok tt)) /\ m_schema s' = full).
Proof.
  intros Hm. pose proof (migrating_inv s Hm) as Hi. split.
  - exists (length (m_versions s)). split_and!; [apply Hi..|]. intros i Hr. by apply (mi_procs _ Hi) in Hr as [? _].
  - intros full Hh Hb. set (i := length (m_procs s)).
    assert (at_pc i M_create (start s)) as Hp by (unfold at_pc; cbn; by rewrite lookup_app_r, Nat.sub_diag by done).
    set (s1 := goto i (M_begin 0) (set_created (start s))).
    assert (alone i 1 (start s) = Some s1) as E1.
    { cbn [alone]. unfold migrate_step. by rewrite Hp. }
    destruct (alone_loop i s1 0 full) as (n & s' & Hn & E & Hr); [|by eapply (at_goto i M_create)|done|lia|done|].
    { eapply alone_inv, E1. by apply inv_start. }
    exists (1 + n)%nat, s'. split; [lia|].
    assert (alone i (1 + n) (start s) = Some s') as Eall by by eapply alone_app.
    split; [done|]. split; [done|].
    pose proof (alone_inv _ _ _ _ (inv_start s Hi) Eall) as Hi'.
    pose proof (mi_procs _ Hi' _ _ Hr) as [Hlen _]. pose proof (mi_schema _ Hi') as Hs.
    rewrite Hlen, firstn_all in Hs. congruence.
Qed.
End Migrate.

(** ** Witnesses *)

(** The embedded directory, with a script reduced to the table it creates
    first: creating a table twice fails. *)
Definition demo_files : gmap string string :=
  <["migrations/002_usage_logging.sql" := "usage_events"]>
    (<["migrations/001_api_keys.sql" := "plans"]> ∅).

Definition demo_script (table : string) (tables : list string) : res (list string) :=
  if decide (table ∈ tables) then Err (ErrNew "relation already exists") else Ok (tables ++ [table]).

(** Statements of several processes, one after another. *)
Fixpoint moves (l : list (nat * option (gerror * bool))) (s : db) : option (db (S := list string)) :=
  match l with
  | [] => Some s
  | (i, fault) :: l' => s' ← migrate_step demo_script demo_files i fault s; moves l' s'
  end.

Lemma moves_migrating l s s' :
  migrating demo_script demo_files [] s -> moves l s = Some s' -> migrating demo_script demo_files [] s'.
Proof.
  revert s. induction l as [|[i fault] l IH]; intros s Hs Hm; cbn [moves] in Hm; [by simplify_eq|].
  destruct (migrate_step demo_script demo_files i fault s) as [s1|] eqn:E; [|done].
  eapply IH; [|exact Hm]. by eapply mig_step.
Qed.

(** Two processes; the second meets a commit whose outcome it cannot see. *)
Definition demo_race : option db :=
  moves (((fun i => (i, None)) <$> [0; 1; 0; 1; 1; 1; 1; 1]%nat) ++ [(1%nat, Some (ErrNew "connection reset", true))])
    (start (start (empty_db []))).

Lemma demo_race_migrating : exists s, demo_race = Some s /\ migrating demo_script demo_files [] s.
Proof.
  destruct demo_race as [s|] eqn:E; [|vm_compute in E; discriminate E]. exists s. split; [done|].
  eapply moves_migrating, E. apply mig_start, mig_start, mig_empty.
Qed.

Lemma migrate_once_witness :
  exists s n s', migrating demo_script demo_files [] s /\ m_versions s = ["001_api_keys"]
    /\ alone demo_script demo_files (length (m_procs s)) n (start s) = Some s'
    /\ m_schema s' = ["plans"; "usage_events"].
Proof.
  destruct demo_race_migrating as (s & E & Hm). exists s.
  destruct (migrate_once demo_script demo_files [] s Hm) as [_ Hlive].
  destruct (Hlive ["plans"; "usage_events"]) as (n & s' & _ & E' & _ & Hs).
  - vm_compute in E. injection E as <-. reflexivity.
  - vm_compute. reflexivity.
  - exists n, s'. split; [exact Hm|]. split; [vm_compute in E; injection E as <-; reflexivity|].
    split; [exact E'|exact Hs].
Defined.
