(* ===== verification/Handler.v ===== *)
(** * The gateway's HTTP layer ([internal/gateway/handler.go])

    The response writer of [net/http], the status recorder around it, the
    middleware chain request ID, instrumentation, recovery, authentication,
    rate limiting, routing, and the operational endpoints.  A handler is a
    function from the state of one request to that state and whether it
    returned or panicked.  The authenticator, the limiter and what the upstream
    services do are arguments. *)

From Stdlib Require Import ZArith Lia QArith Qcanon.
From stdpp Require Import base tactics numbers list gmap strings.
From S2P Require Import Prelude GoLib Float64 Event Metrics Auth RateLimit.

Local Open Scope Z_scope.

(** ** Requests *)

Record HttpRequest := {
  path : string;
  method : string;
  api_key_header : string;        (* [r.Header.Get("X-API-Key")] *)
  request_id_header : string;     (* [r.Header.Get("X-Request-ID")] *)
  host : string;
}.

(** What a call of a dependency does. *)
Inductive outcome (A : Type) :=
| Returns (a : A)
| Panics.
Arguments Returns {A} a.
Arguments Panics {A}.

(** ** Responses *)

Notation headers := (gmap string (list string)).
Definition header_Set (k v : string) (h : headers) : headers := <[k := [v]]> h.
Definition header_Add (k v : string) (h : headers) : headers :=
  <[k := default [] (h !! k) ++ [v]]> h.

(** The writer of [net/http]: the header map, the interim responses already
    sent, the final status with the headers sent along, the declared length of
    the body, the bytes handlers tried to write, and the body. *)
Record ResponseWriter := {
  hdr : headers;
  interim : list Z;
  final : option (Z * headers);
  contentLength : option Z;
  written : Z;
  body : string;
}.

Definition new_writer : ResponseWriter :=
  {| hdr := ∅; interim := []; final := None; contentLength := None; written := 0; body := "" |}.

Definition set_hdr (h : headers) (w : ResponseWriter) : ResponseWriter :=
  {| hdr := h; interim := interim w; final := final w; contentLength := contentLength w;
     written := written w; body := body w |}.

(** The length the values of [Content-Length] declare: the first value, when
    it is the decimal text of a number that is not negative. *)
Definition length_of (vs : list string) : option Z :=
  match vs with
  | v :: _ => match Atoi v with
              | Ok n => if 0 <=? n then Some n else None
              | Err _ => None
              end
  | [] => None
  end.

Definition values (k : string) (h : headers) : list string := default [] (h !! k).

(** A final status: the headers are sent, and a [Content-Length] that declares
    nothing is removed from the map. *)
Definition set_final (code : Z) (w : ResponseWriter) : ResponseWriter :=
  let n := length_of (values "Content-Length" (hdr w)) in
  {| hdr := match n with Some _ => hdr w | None => delete "Content-Length" (hdr w) end;
     interim := interim w; final := Some (code, hdr w); contentLength := n;
     written := written w; body := body w |}.

(** [WriteHeader]: a code outside 100..999 panics, a 1xx code other than 101
    sends an interim response, the first other code is final and the following
    ones are ignored. *)
Definition rw_WriteHeader (code : Z) (w : ResponseWriter) : outcome ResponseWriter :=
  match final w with
  | Some _ => Returns w
  | None =>
      if (code <? 100) || (999 <? code) then Panics
      else if (code <=? 199) && negb (code =? 101) then
        Returns {| hdr := hdr w; interim := interim w ++ [code]; final := None;
                   contentLength := contentLength w; written := written w; body := body w |}
      else Returns (set_final code w)
  end.

(** The status the client gets: a handler that returns without writing sends
    an empty 200. *)
Definition client_status (w : ResponseWriter) : Z :=
  match final w with Some (c, _) => c | None => 200 end.

(** The statuses that take a body. *)
Definition bodyAllowed (code : Z) : bool :=
  negb ((100 <=? code) && (code <=? 199)) && negb (code =? 204) && negb (code =? 304).

Definition count_written (payload : string) (w : ResponseWriter) : ResponseWriter :=
  {| hdr := hdr w; interim := interim w; final := final w; contentLength := contentLength w;
     written := wrap64 (written w + slen payload); body := body w |}.

Definition append_body (payload : string) (w : ResponseWriter) : ResponseWriter :=
  {| hdr := hdr w; interim := interim w; final := final w; contentLength := contentLength w;
     written := written w; body := body w +:+ payload |}.

(** [Write] and whether it succeeded: an implicit status 200; an empty payload
    does nothing; a payload is refused under a status without a body and when
    it exceeds the declared length. *)
Definition rw_Write (payload : string) (w : ResponseWriter) : bool * ResponseWriter :=
  let w := match final w with Some _ => w | None => set_final 200 w end in
  if bool_decide (payload = "") then (true, w)
  else if negb (bodyAllowed (client_status w)) then (false, w)
  else
    let w := count_written payload w in
    match contentLength w with
    | Some n => if n <? written w then (false, w) else (true, append_body payload w)
    | None => (true, append_body payload w)
    end.

(** ** The state of one request *)

(** [statusRecorder]. *)
Record statusRecorder := {
  rw : ResponseWriter;
  status : Z;
  bytes : Z;
  wroteHeader : bool;
}.

(** A request as the proxy's director sends it on: the service, the [Host],
    [X-Forwarded-Host] and [X-Gateway-Request-ID] headers. *)
Record Forwarded := {
  fw_service : string;
  fw_host : string;
  fw_forwarded_host : string;
  fw_request_id : string;
}.

(** The recorder, the principal [usageCapture] holds, the limiter's state, and
    the requests sent to upstream services. *)
Record St (L : Type) := {
  recorder : statusRecorder;
  capture : Principal;
  lim : L;
  contacted : list Forwarded;
}.
Arguments recorder {L}.
Arguments capture {L}.
Arguments lim {L}.
Arguments contacted {L}.

Section Recorder.
Context {L : Type}.

(** The state after a step, and whether it returned ([true]) or panicked. *)
Definition handler : Type := St L -> bool * St L.

Definition set_recorder (r : statusRecorder) (s : St L) : St L :=
  {| recorder := r; capture := capture s; lim := lim s; contacted := contacted s |}.
Definition set_capture (p : Principal) (s : St L) : St L :=
  {| recorder := recorder s; capture := p; lim := lim s; contacted := contacted s |}.
Definition set_lim (l : L) (s : St L) : St L :=
  {| recorder := recorder s; capture := capture s; lim := l; contacted := contacted s |}.
Definition contact (fw : Forwarded) (s : St L) : St L :=
  {| recorder := recorder s; capture := capture s; lim := lim s;
     contacted := contacted s ++ [fw] |}.
Definition set_rw (w : ResponseWriter) (r : statusRecorder) : statusRecorder :=
  {| rw := w; status := status r; bytes := bytes r; wroteHeader := wroteHeader r |}.

Definition andthen (a b : handler) : handler :=
  fun s => let '(ok, s') := a s in if ok then b s' else (false, s').

(** [w.Header().Set]. *)
Definition setHeader (k v : string) : handler :=
  fun s => let r := recorder s in
  (true, set_recorder (set_rw (set_hdr (header_Set k v (hdr (rw r))) (rw r)) r) s).

(** [statusRecorder.WriteHeader]. *)
Definition WriteHeader (code : Z) : handler :=
  fun s => let r := recorder s in
  if wroteHeader r then (true, s)
  else
    let r1 := {| rw := rw r; status := code; bytes := bytes r; wroteHeader := true |} in
    match rw_WriteHeader code (rw r) with
    | Returns w => (true, set_recorder (set_rw w r1) s)
    | Panics => (false, set_recorder r1 s)
    end.

(** [statusRecorder.Write], and whether it returned without an error. *)
Definition Write (payload : string) : handler :=
  andthen (fun s => if wroteHeader (recorder s) then (true, s) else WriteHeader 200 s)
    (fun s => let r := recorder s in
     let '(ok, w) := rw_Write payload (rw r) in
     (ok, set_recorder {| rw := w; status := status r;
                          bytes := wrap64 (bytes r + if ok then slen payload else 0);
                          wroteHeader := wroteHeader r |} s)).

(** [_ = call]: the error is dropped. *)
Definition ignoring (h : handler) : handler := fun s => (true, (h s).2).

(** ** JSON *)

Definition quote : Ascii.ascii := byte_ascii 34.

(** A string of printable ASCII characters as JSON: the encoder escapes
    quotes, backslashes and the characters of HTML. *)
Fixpoint json_escape (s : string) : string :=
  match s with
  | EmptyString => EmptyString
  | String c s' =>
      let b := ascii_byte c in
      (if (b =? 34) || (b =? 92) then String (byte_ascii 92) (String c EmptyString)
       else if (b =? 60) || (b =? 62) || (b =? 38) then
         "\u00" +:+ hex_encode [b]
       else String c EmptyString) +:+ json_escape s'
  end.

Definition json_string (s : string) : string :=
  String quote (json_escape s +:+ String quote EmptyString).

(** A map with one or two keys, already in order, and the encoder's newline. *)
Fixpoint json_fields (l : list (string * string)) : string :=
  match l with
  | [] => EmptyString
  | [(k, v)] => json_string k +:+ ":" +:+ json_string v
  | (k, v) :: l' => json_string k +:+ ":" +:+ json_string v +:+ "," +:+ json_fields l'
  end.

Definition json_body (l : list (string * string)) : string :=
  "{" +:+ json_fields l +:+ "}" +:+ String (byte_ascii 10) EmptyString.

Definition writeJSON (code : Z) (payload : list (string * string)) : handler :=
  andthen (setHeader "Content-Type" "application/json")
    (andthen (WriteHeader code) (ignoring (Write (json_body payload)))).

Definition error_json (msg : string) : list (string * string) := [("error", msg)].

End Recorder.
#[global] Arguments handler : clear implicits.

(** ** Upstream services *)

(** What happens when the proxy sends the request on: it fails before a
    response, or a response arrives with interim codes before it, its headers,
    its status, its body in pieces, and whether the body arrives whole. *)
Inductive upstream :=
| Unreachable
| Responds (interims : list Z) (hs : list (string * string)) (code : Z) (pieces : list string) (whole : bool).

Section Proxy.
Context {L : Type}.

(** [httputil.ReverseProxy] forwards an interim response by writing its code
    and clearing the header map. *)
Definition forward_interim (code : Z) : handler L :=
  andthen (WriteHeader code)
    (fun s => (true, set_recorder (set_rw (set_hdr ∅ (rw (recorder s))) (recorder s)) s)).

Definition all_then (l : list (handler L)) (k : handler L) : handler L := foldr andthen k l.

Definition addHeader (k v : string) : handler L :=
  fun s => let r := recorder s in
  (true, set_recorder (set_rw (set_hdr (header_Add k v (hdr (rw r))) (rw r)) r) s).

Definition panicking : handler L := fun s => (false, s).
Definition returning : handler L := fun s => (true, s).

(** The director of [newProxy]. *)
Definition director (service target : string) (r : HttpRequest) (id : string) : Forwarded :=
  {| fw_service := service; fw_host := target; fw_forwarded_host := host r; fw_request_id := id |}.

(** [ModifyResponse] of [newProxy]: the service's name replaces whatever the
    upstream put under [X-Upstream-Service]. *)
Definition stamp (service : string) (hs : list (string * string)) : list (string * string) :=
  filter (fun h => h.1 <> "X-Upstream-Service") hs ++ [("X-Upstream-Service", service)].

(** The proxy [newProxy] builds: [ErrorHandler] answers 502; the upstream's
    headers are added to the response's; a body cut short, like a write that
    fails, panics with [http.ErrAbortHandler]. *)
Definition proxy_ServeHTTP (fw : Forwarded) (u : upstream) : handler L :=
  fun s =>
  let s := contact fw s in
  match u with
  | Unreachable => writeJSON 502 (error_json "upstream service unavailable") s
  | Responds interims hs code pieces whole =>
      all_then (forward_interim <$> interims)
        (all_then ((fun h => addHeader h.1 h.2) <$> stamp (fw_service fw) hs)
          (andthen (WriteHeader code)
            (all_then (Write <$> pieces) (if whole then returning else panicking)))) s
  end.

(** ** Routing *)

Definition under (p prefix : string) : bool :=
  bool_decide (p = prefix) || HasPrefix p (prefix +:+ "/").

Definition routeKey (p : string) : string :=
  if under p "/api/users" then "/api/users"
  else if under p "/api/orders" then "/api/orders"
  else "/api/unknown".

(** The two proxies have the hosts of the upstream URLs as targets. *)
Definition route (targets : string * string) (up : string -> upstream) (r : HttpRequest) (id : string)
    : handler L :=
  if under (path r) "/api/users" then
    proxy_ServeHTTP (director "user-service" targets.1 r id) (up "user-service")
  else if under (path r) "/api/orders" then
    proxy_ServeHTTP (director "order-service" targets.2 r id) (up "order-service")
  else writeJSON 404 (error_json "API route not found").

(** ** Middleware *)

(** The verb [%.0f] on a value of [float64]. *)
Definition format_0f (q : Qc) : string := Itoa (round_half_even (Qnum q) (Zpos (Qden q))).

(** The value of [Retry-After]. *)
Definition retry_seconds (retryAfter : Z) : Z :=
  let seconds := go_div (wrap64 (retryAfter + Second - 1)) Second in
  if seconds <? 1 then 1 else seconds.

Definition rateLimit (limiter : option (Request -> L -> outcome (res Decision) * L)) (failOpen : bool)
    (principal : option Principal) (p : string) (next : handler L) : handler L :=
  match limiter with
  | None => writeJSON 503 (error_json "rate limiter unavailable")
  | Some allow =>
      match principal with
      | None => writeJSON 500 (error_json "authenticated principal missing")
      | Some pr => fun s =>
          let '(o, l') := allow {| Identity := KeyID pr; Route := routeKey p;
                                   RatePerSecond := PrRatePerSecond pr;
                                   BurstCapacity := PrBurstCapacity pr |} (lim s) in
          let s := set_lim l' s in
          match o with
          | Panics => (false, s)
          | Returns (Err _) =>
              if failOpen then next s
              else writeJSON 503 (error_json "rate limiter unavailable") s
          | Returns (Ok d) =>
              andthen (setHeader "X-RateLimit-Limit" (FormatInt (Limit d) 10))
                (andthen (setHeader "X-RateLimit-Remaining" (FormatInt (Remaining d) 10))
                  (andthen (setHeader "X-RateLimit-Reset" (FormatInt (time_Unix (ResetAt d)) 10))
                    (andthen (setHeader "X-RateLimit-Policy"
                        (Itoa (PrBurstCapacity pr) +:+ ";r=" +:+ format_0f (f64 (PrRatePerSecond pr))))
                      (if negb (Allowed d) then
                         andthen (setHeader "Retry-After" (FormatInt (retry_seconds (RetryAfter d)) 10))
                           (writeJSON 429 (error_json "rate limit exceeded"))
                       else next)))) s
          end
      end
  end.

Definition authenticate (auth : option (string -> string -> outcome (res Principal)))
    (r : HttpRequest) (next : option Principal -> handler L) : handler L :=
  match auth with
  | None => writeJSON 503 (error_json "authentication service unavailable")
  | Some a =>
      match a (api_key_header r) (routeKey (path r)) with
      | Panics => panicking
      | Returns (Err e) =>
          if is_invalid_key e then
            andthen (setHeader "WWW-Authenticate" "ApiKey")
              (writeJSON 401 (error_json "missing or invalid API key"))
          else writeJSON 503 (error_json "authentication service unavailable")
      | Returns (Ok p) => fun s => next (Some p) (set_capture p s)
      end
  end.

(** The deferred function swallows the panic and answers 500. *)
Definition recoverPanic (next : handler L) : handler L :=
  fun s => let '(ok, s') := next s in
  if ok then (true, s') else writeJSON 500 (error_json "internal server error") s'.

(** [requestID]: the trimmed header, or the clock in base 36. *)
Definition newRequestID (now : Z) : string := FormatInt (time_UnixNano now) 36.

Definition request_id (r : HttpRequest) (now : Z) : string :=
  let id := TrimSpace (request_id_header r) in
  if bool_decide (id = "") then newRequestID now else id.

(** [Duration.Microseconds]. *)
Definition duration_Microseconds (d : Z) : Z := Z.quot d 1000.

Definition usage_event (r : HttpRequest) (id event_id : string) (p : Principal) (rec : statusRecorder)
    (started duration : Z) : Event :=
  {| ID := event_id; RequestID := id; APIKeyID := KeyID p; ClientID := PrClientID p;
     EvRoute := routeKey (path r); Method := method r; StatusCode := status rec;
     DurationMicros := duration_Microseconds duration; ResponseBytes := bytes rec;
     OccurredAt := started |}.

(** [enqueueUsage]: the event handed to the recorder, if any. *)
Definition enqueueUsage (usage : bool) (random : res (list Z)) (r : HttpRequest) (id : string)
    (p : Principal) (rec : statusRecorder) (started duration : Z) : option Event :=
  if negb usage || bool_decide (KeyID p = "") || bool_decide (PrClientID p = "") then None
  else match NewEventID random with
       | Err _ => None
       | Ok event_id => Some (usage_event r id event_id p rec started duration)
       end.

(** ** The API handler *)

(** What the handler was built from, and what one request meets. *)
Record Deps := {
  d_auth : option (string -> string -> outcome (res Principal));
  d_limiter : option (Request -> L -> outcome (res Decision) * L);
  d_fail_open : bool;
  d_usage : bool;                 (* whether a usage recorder is set *)
  d_targets : string * string;    (* the hosts of the two upstream URLs *)
}.

Record Moment := {
  m_received : Z;                 (* [time.Now] in [newRequestID] *)
  m_started : Z;
  m_duration : Z;
  m_random : res (list Z);
}.

(** What a request leaves behind: the writer, the limiter's state, the metric
    updates, the event handed to the pipeline, the upstreams contacted. *)
Record Result := {
  r_writer : ResponseWriter;
  r_lim : L;
  r_atoms : list atom;
  r_event : option Event;
  r_contacted : list Forwarded;
  r_returned : bool;
}.

(** The chain inside [instrument]. *)
Definition inner (deps : Deps) (up : string -> upstream) (r : HttpRequest) (id : string) : handler L :=
  recoverPanic
    (authenticate (d_auth deps) r (fun p =>
      rateLimit (d_limiter deps) (d_fail_open deps) p (path r) (route (d_targets deps) up r id))).

(** [requestID(instrument(recoverPanic(authenticate(rateLimit(route)))))]. *)
Definition api (deps : Deps) (up : string -> upstream) (r : HttpRequest) (m : Moment) (l : L) : Result :=
  let id := request_id r (m_received m) in
  let w := set_hdr (header_Set "X-Request-ID" id (hdr new_writer)) new_writer in
  let s := {| recorder := {| rw := w; status := 200; bytes := 0; wroteHeader := false |};
              capture := zero_principal; lim := l; contacted := [] |} in
  let '(ok, s') := inner deps up r id s in
  {| r_writer := rw (recorder s'); r_lim := lim s';
     r_atoms := Begin ++ finish (status (recorder s')) (m_duration m);
     r_event := enqueueUsage (d_usage deps) (m_random m) r id (capture s') (recorder s')
                  (m_started m) (m_duration m);
     r_contacted := contacted s'; r_returned := ok |}.

(** What the client gets besides the status: a handler that returns without
    writing sends an empty 200, and the answer to [HEAD] has no body. *)
Definition client_headers (w : ResponseWriter) : headers :=
  match final w with Some (_, h) => h | None => hdr w end.
Definition client_body (r : HttpRequest) (w : ResponseWriter) : string :=
  if bool_decide (method r = "HEAD") then "" else body w.

End Proxy.
#[global] Arguments Deps : clear implicits.
#[global] Arguments Result : clear implicits.

(** ** Operational endpoints and the mux *)

(** [writeJSON] on the server's own writer; the codes used are valid. *)
Definition plain_writeJSON (code : Z) (payload : list (string * string)) : ResponseWriter :=
  (rw_Write (json_body payload)
     (set_final code (set_hdr (header_Set "Content-Type" "application/json" ∅) new_writer))).2.

Definition live : ResponseWriter := plain_writeJSON 200 [("status", "ok")].

(** [ready]: the checks in order, each with what its [Ping] answers. *)
Fixpoint ready_checks (checks : list (string * res unit)) : ResponseWriter :=
  match checks with
  | [] => plain_writeJSON 200 [("status", "ready")]
  | (name, Ok _) :: rest => ready_checks rest
  | (name, Err _) :: _ =>
      plain_writeJSON 503 [("error", name +:+ " is unavailable"); ("status", "not ready")]
  end.

Definition ready (checks : list (string * res unit)) : ResponseWriter :=
  match checks with
  | [] => plain_writeJSON 503 [("error", "dependencies are not configured"); ("status", "not ready")]
  | _ => ready_checks checks
  end.

(** The handler [http.ServeMux] picks for a path that is already clean. *)
Inductive endpoint := ToLive | ToReady | ToMetrics | ToAPI | RedirectToAPI | NotFound.

Definition is_get (m : string) : bool := bool_decide (m = "GET") || bool_decide (m = "HEAD").

Definition mux (m p : string) : endpoint :=
  if is_get m && bool_decide (p = "/health/live") then ToLive
  else if is_get m && bool_decide (p = "/health/ready") then ToReady
  else if is_get m && bool_decide (p = "/metrics") then ToMetrics
  else if HasPrefix p "/api/" then ToAPI
  else if bool_decide (p = "/api") then RedirectToAPI
  else NotFound.

(** [NewHandler]'s checks of the two upstream URLs; the first argument is
    [url.Parse], which gives the scheme and the host. *)
Definition check_target (parse : string -> res (string * string)) (name raw : string) : res string :=
  match parse raw with
  | Err e => Err (ErrWrap ("parse " +:+ name +:+ ": ") e)
  | Ok (scheme, host) =>
      if bool_decide (scheme = "") || bool_decide (host = "") then
        Err (ErrNew (name +:+ " must be an absolute URL"))
      else Ok host
  end.

Definition NewHandler {L} (parse : string -> res (string * string)) (userURL orderURL : string)
    (auth : option (string -> string -> outcome (res Principal)))
    (limiter : option (Request -> L -> outcome (res Decision) * L)) (failOpen usage : bool)
    : res (Deps L) :=
  user <-- check_target parse "USER_SERVICE_URL" userURL ;;
  order <-- check_target parse "ORDER_SERVICE_URL" orderURL ;;
  Ok {| d_auth := auth; d_limiter := limiter; d_fail_open := failOpen; d_usage := usage;
        d_targets := (user, order) |}.

(** ** What the chain should do *)

(** The decision about a request: an error answered by the gateway, or the
    service it goes to. *)
Inductive verdict :=
| Refuse (code : Z)
| Forward (service : string).

Definition routed (p : string) : verdict :=
  if under p "/api/users" then Forward "user-service"
  else if under p "/api/orders" then Forward "order-service"
  else Refuse 404.

Section Spec.
Context {L : Type}.

Definition limit_request (p : Principal) (path : string) : Request :=
  {| Identity := KeyID p; Route := routeKey path; RatePerSecond := PrRatePerSecond p;
     BurstCapacity := PrBurstCapacity p |}.

Definition judge_limited (deps : Deps L) (r : HttpRequest) (p : Principal) (l : L) : verdict :=
  match d_limiter deps with
  | None => Refuse 503
  | Some allow =>
      match (allow (limit_request p (path r)) l).1 with
      | Panics => Refuse 500
      | Returns (Err _) => if d_fail_open deps then routed (path r) else Refuse 503
      | Returns (Ok d) => if Allowed d then routed (path r) else Refuse 429
      end
  end.

Definition judge (deps : Deps L) (r : HttpRequest) (l : L) : verdict :=
  match d_auth deps with
  | None => Refuse 503
  | Some a =>
      match a (api_key_header r) (routeKey (path r)) with
      | Panics => Refuse 500
      | Returns (Err e) => if is_invalid_key e then Refuse 401 else Refuse 503
      | Returns (Ok p) => judge_limited deps r p l
      end
  end.

(** The principal a request is charged to. *)
Definition charged (deps : Deps L) (r : HttpRequest) : Principal :=
  match d_auth deps with
  | Some a =>
      match a (api_key_header r) (routeKey (path r)) with
      | Returns (Ok p) => p
      | _ => zero_principal
      end
  | None => zero_principal
  end.

(** The length an upstream's headers declare, and whether its body keeps to
    its status and to that length, as [http.Transport] sees to. *)
Definition declared (hs : list (string * string)) : option Z :=
  length_of (filter (fun kv => kv.1 = "Content-Length") hs).*2.

Definition fits (code : Z) (hs : list (string * string)) (pieces : list string) : Prop :=
  (sumZ slen pieces = 0 \/ bodyAllowed code = true)
  /\ match declared hs with Some n => sumZ slen pieces <= n | None => True end.

(** An upstream that answers without interim responses, with a final status,
    and sends its body whole; or none. *)
Definition orderly (u : upstream) : Prop :=
  match u with
  | Unreachable => True
  | Responds interims hs code pieces whole =>
      interims = [] /\ 200 <= code <= 999 /\ whole = true /\ fits code hs pieces
  end.

Definition upstream_status (u : upstream) : Z :=
  match u with Unreachable => 502 | Responds _ _ code _ _ => code end.

Definition verdict_status (up : string -> upstream) (v : verdict) : Z :=
  match v with Refuse c => c | Forward svc => upstream_status (up svc) end.

(** The request an upstream should see. *)
Definition target (deps : Deps L) (service : string) : string :=
  if bool_decide (service = "user-service") then (d_targets deps).1 else (d_targets deps).2.

Definition verdict_contacts (deps : Deps L) (r : HttpRequest) (id : string) (v : verdict) : list Forwarded :=
  match v with
  | Refuse _ => []
  | Forward svc => [{| fw_service := svc; fw_host := target deps svc; fw_forwarded_host := host r;
                       fw_request_id := id |}]
  end.

(** ** Answering *)

(** Nothing is written yet, and no length declared. *)
Definition fresh (s : St L) : Prop :=
  wroteHeader (recorder s) = false /\ final (rw (recorder s)) = None
  /\ values "Content-Length" (hdr (rw (recorder s))) = [] /\ written (rw (recorder s)) = 0.

(** The response header still starts with the gateway's request ID. *)
Definition tagged (id : string) (h : headers) : Prop :=
  exists rest, h !! "X-Request-ID" = Some (id :: rest).

Definition answered (c : Z) (id : string) (s : St L) : Prop :=
  wroteHeader (recorder s) = true /\ status (recorder s) = c
  /\ exists h, final (rw (recorder s)) = Some (c, h) /\ tagged id h.

(** A handler that, run on a fresh recorder, answers with a status. *)
Definition answers (id : string) (h : handler L) (c : Z) (svc : list Forwarded) : Prop :=
  forall s, fresh s -> tagged id (hdr (rw (recorder s))) ->
  exists s', h s = (true, s') /\ answered c id s' /\ contacted s' = contacted s ++ svc
    /\ capture s' = capture s.

Lemma tagged_Set id k v h : k <> "X-Request-ID" -> tagged id h -> tagged id (header_Set k v h).
Proof. intros Hk [rest Hr]. exists rest. unfold header_Set. by rewrite lookup_insert_ne. Qed.

Lemma tagged_Add id k v h : tagged id h -> tagged id (header_Add k v h).
Proof.
  intros [rest Hr]. unfold header_Add, tagged. destruct (decide (k = "X-Request-ID")) as [->|Hk].
  - exists (rest ++ [v]). by rewrite lookup_insert_eq, Hr.
  - exists rest. by rewrite lookup_insert_ne.
Qed.

(** *** Sequences *)

Lemma all_then_nil {A} (f : A -> handler L) k : all_then (f <$> []) k = k.
Proof. done. Qed.

Lemma all_then_cons {A} (f : A -> handler L) a l k :
  all_then (f <$> a :: l) k = andthen (f a) (all_then (f <$> l) k).
Proof. done. Qed.

(** *** Copying headers *)

Definition copy_headers (hs : list (string * string)) (h : headers) : headers :=
  foldl (fun h kv => header_Add kv.1 kv.2 h) h hs.

Definition with_hdr (h : headers) (s : St L) : St L :=
  set_recorder (set_rw (set_hdr h (rw (recorder s))) (recorder s)) s.

Lemma all_addHeaders hs (k : handler L) s :
  all_then ((fun h => addHeader h.1 h.2) <$> hs) k s
  = k (with_hdr (copy_headers hs (hdr (rw (recorder s)))) s).
Proof.
  revert s. induction hs as [|h hs IH]; intros s.
  - by destruct s as [[[] ? ? ?] ? ? ?].
  - rewrite all_then_cons. unfold andthen at 1, addHeader at 1. rewrite IH. done.
Qed.

Lemma tagged_copy id hs h : tagged id h -> tagged id (copy_headers hs h).
Proof. revert h. induction hs as [|kv hs IH]; intros h Ht; [done|]. apply IH, tagged_Add, Ht. Qed.

Lemma values_copy k hs h :
  values k (copy_headers hs h) = values k h ++ (filter (fun kv => kv.1 = k) hs).*2.
Proof.
  revert h. induction hs as [|[k' v] hs IH]; intros h; [by rewrite app_nil_r|].
  cbn [copy_headers foldl fst snd]. etransitivity; [apply IH|]. rewrite filter_cons. cbn [fst].
  unfold values, header_Add. case_decide as E.
  - subst. rewrite lookup_insert_eq. cbn. by rewrite <- (assoc_L (++)).
  - by rewrite lookup_insert_ne.
Qed.

Lemma declared_stamp service hs h :
  values "Content-Length" h = [] ->
  length_of (values "Content-Length" (copy_headers (stamp service hs) h)) = declared hs.
Proof.
  intros Hh. rewrite values_copy, Hh. unfold declared, stamp. rewrite filter_app. cbn.
  rewrite app_nil_r. f_equal. f_equal. rewrite list_filter_filter. apply list_filter_iff.
  intros [k v]. cbn. split; [by intros []|]. by intros ->.
Qed.

Lemma length_of_bound vs n : length_of vs = Some n -> 0 <= n < 2 ^ 63.
Proof.
  unfold length_of. destruct vs as [|v vs]; [done|]. destruct (Atoi v) as [m|] eqn:E; [|done].
  apply Atoi_range in E as [_ E]. destruct (Z.leb_spec 0 m); [|done]. intros [= <-]. lia.
Qed.

(** *** Writing *)

(** The writer takes [n] more bytes. *)
Definition accepts (n : Z) (w : ResponseWriter) : Prop :=
  (n = 0 \/ bodyAllowed (client_status w) = true)
  /\ match contentLength w with
     | Some c => 0 <= written w /\ written w + n <= c < 2 ^ 63
     | None => True
     end.

Lemma rw_Write_final payload w x : final w = Some x -> final (rw_Write payload w).2 = Some x.
Proof. intros Hw. unfold rw_Write. rewrite Hw. repeat case_match; done. Qed.

Lemma rw_Write_accepts payload n w x :
  final w = Some x -> 0 <= n -> accepts (slen payload + n) w ->
  exists w', rw_Write payload w = (true, w') /\ final w' = Some x /\ accepts n w'
    /\ body w' = body w +:+ payload.
Proof.
  intros Hf Hn [Hb Hc]. unfold rw_Write. rewrite Hf. case_bool_decide as E.
  - subst. exists w. split; [done|]. split; [done|]. split; [|by rewrite append_nil_r]. split; [by rewrite Z.add_0_l in Hb|].
    by rewrite Z.add_0_l in Hc.
  - assert (0 < slen payload) as Hp by (destruct payload; [done|unfold slen; cbn; lia]).
    destruct Hb as [Hb|Hb]; [lia|]. rewrite Hb. cbn [negb].
    assert (forall m, 0 <= written w + slen payload <= m /\ m < 2 ^ 63 ->
      written (count_written payload w) = written w + slen payload) as Hw.
    { intros m Hm. cbn. apply wrap64_id. unfold in_int64. lia. }
    cbn [contentLength count_written]. destruct (contentLength w) as [c|] eqn:Ec.
    + specialize (Hw c ltac:(lia)). rewrite Hw, (proj2 (Z.ltb_ge _ _)) by lia.
      eexists. split; [reflexivity|]. split; [done|]. split; [|done].
      split; [by right|]. cbn [append_body contentLength written] in *. cbn [contentLength count_written].
      rewrite Ec, Hw. lia.
    + eexists. split; [reflexivity|]. split; [done|]. split; [|done].
      split; [by right|]. cbn. by rewrite Ec.
Qed.

Lemma WriteHeader_final code (s : St L) :
  200 <= code <= 999 -> wroteHeader (recorder s) = false -> final (rw (recorder s)) = None ->
  WriteHeader code s
  = (true, set_recorder {| rw := set_final code (rw (recorder s)); status := code;
                           bytes := bytes (recorder s); wroteHeader := true |} s).
Proof.
  intros Hc Hw Hf. unfold WriteHeader, rw_WriteHeader. rewrite Hw, Hf.
  by rewrite (proj2 (Z.ltb_ge code 100)), (proj2 (Z.ltb_ge 999 code)), (proj2 (Z.leb_gt code 199)) by lia.
Qed.

Lemma Write_answered payload c id (s : St L) :
  answered c id s ->
  exists s', ignoring (Write payload) s = (true, s') /\ answered c id s'
    /\ contacted s' = contacted s /\ capture s' = capture s.
Proof.
  intros (Hw & Hs & h & Hf & Ht). unfold ignoring, Write, andthen. rewrite Hw.
  pose proof (rw_Write_final payload _ _ Hf) as Hf'.
  destruct (rw_Write payload (rw (recorder s))) as [ok w]. cbn [snd] in *.
  eexists. split; [reflexivity|]. split; [|done]. split; [done|]. split; [done|]. by exists h.
Qed.

(** The pieces of a body that fits with [n] bytes to spare, and what follows. *)
Lemma writes_all pieces (k : handler L) n s x :
  wroteHeader (recorder s) = true -> final (rw (recorder s)) = Some x -> 0 <= n ->
  accepts (sumZ slen pieces + n) (rw (recorder s)) ->
  exists s', all_then (Write <$> pieces) k s = k s'
    /\ wroteHeader (recorder s') = true /\ final (rw (recorder s')) = Some x
    /\ status (recorder s') = status (recorder s) /\ accepts n (rw (recorder s'))
    /\ contacted s' = contacted s /\ capture s' = capture s
    /\ body (rw (recorder s')) = body (rw (recorder s)) +:+ foldr String.append "" pieces.
Proof.
  revert s. induction pieces as [|p pieces IH]; intros s Hw Hf H0 Ha.
  - exists s. cbn [foldr]. by rewrite append_nil_r.
  - rewrite sumZ_cons, <- Z.add_assoc in Ha.
    destruct (rw_Write_accepts p (sumZ slen pieces + n) (rw (recorder s)) x) as (w & E & Hf' & Ha' & Hb'); [done| |done|].
    { pose proof (sumZ_nonneg slen pieces ltac:(intros; unfold slen; lia)). lia. }
    rewrite all_then_cons. unfold andthen at 1, Write at 1, andthen at 1. rewrite Hw, E.
    edestruct IH as (s' & E' & H1 & H2 & H3 & H4 & H5 & H6 & H7); [..|exists s'; split; [exact E'|]]; [done|exact Hf'|done|exact Ha'|].
    split_and!; [done..|]. rewrite H7. cbn [recorder set_recorder rw]. by rewrite Hb', string_app_assoc.
Qed.

Lemma answers_setHeader id k v h c svc :
  k <> "X-Request-ID" -> k <> "Content-Length" ->
  answers id h c svc -> answers id (andthen (setHeader k v) h) c svc.
Proof.
  intros Hk Hl Hh s (Hw & Hf & Hv & Hn) Ht. unfold andthen, setHeader.
  edestruct Hh as (s' & E & Ha & Hc & Hp); [..|exists s'; split; [exact E|done]].
  - split_and!; try done. cbn. unfold values, header_Set in *. by rewrite lookup_insert_ne.
  - by apply tagged_Set.
Qed.

Lemma answers_writeJSON id code payload :
  200 <= code <= 999 -> answers id (writeJSON code payload) code [].
Proof.
  intros Hc. apply answers_setHeader; [done..|]. intros s (Hw & Hf & _) Ht.
  unfold andthen at 1. rewrite WriteHeader_final by done.
  edestruct (Write_answered (json_body payload) code id) as (s2 & E2 & Ha2 & Hc2 & Hp2); [|exists s2; split; [exact E2|]].
  - split; [done|]. split; [done|]. by eexists.
  - rewrite app_nil_r. done.
Qed.

(** The upstream's headers and status, on a fresh recorder. *)
Lemma proxy_head service hs code (s : St L) (k : handler L) :
  200 <= code <= 999 -> fresh s ->
  exists s', all_then ((fun h => addHeader h.1 h.2) <$> stamp service hs) (andthen (WriteHeader code) k) s = k s'
    /\ wroteHeader (recorder s') = true /\ status (recorder s') = code
    /\ final (rw (recorder s')) = Some (code, copy_headers (stamp service hs) (hdr (rw (recorder s))))
    /\ contentLength (rw (recorder s')) = declared hs
    /\ (forall n, n = 0 \/ bodyAllowed code = true -> match declared hs with Some c => n <= c | None => True end ->
         accepts n (rw (recorder s')))
    /\ contacted s' = contacted s /\ capture s' = capture s
    /\ body (rw (recorder s')) = body (rw (recorder s)).
Proof.
  intros Hc (Hw & Hf & Hv & Hn). rewrite all_addHeaders. unfold andthen at 1.
  rewrite WriteHeader_final by done. eexists. split; [reflexivity|].
  cbn [recorder set_recorder rw with_hdr set_rw set_hdr set_final hdr final contentLength wroteHeader status
       contacted capture body]. rewrite declared_stamp by done.
  split_and!; try done. intros n Hb Hd. split; [exact Hb|]. cbn. rewrite declared_stamp by done.
  destruct (declared hs) as [c|] eqn:E; [|done]. apply length_of_bound in E. rewrite Hn. lia.
Qed.

Lemma answers_proxy id fw u :
  orderly u -> answers id (proxy_ServeHTTP fw u) (upstream_status u) [fw].
Proof.
  intros Ho s Hf Ht. unfold proxy_ServeHTTP.
  assert (fresh (contact fw s)) as Hf' by done.
  destruct u as [|interims hs code pieces whole].
  - destruct (answers_writeJSON id 502 (error_json "upstream service unavailable") ltac:(lia) _ Hf' Ht)
      as (s' & E & Ha & Hc & Hp). exists s'. split; [exact E|]. rewrite app_nil_r in Hc. done.
  - destruct Ho as (-> & Hcode & -> & Hb & Hd). rewrite all_then_nil.
    destruct (proxy_head (fw_service fw) hs code (contact fw s)
                (all_then (Write <$> pieces) returning) Hcode Hf')
      as (s1 & E1 & Hw1 & Hs1 & Hf1 & _ & Ha1 & Hc1 & Hp1 & _).
    rewrite E1.
    destruct (writes_all pieces returning 0 s1 _ Hw1 Hf1) as (s2 & E2 & Hw2 & Hf2 & Hs2 & _ & Hc2 & Hp2 & _);
      [done|rewrite Z.add_0_r; by apply Ha1|].
    rewrite E2. exists s2. split; [done|].
    split; [|split; [rewrite Hc2, Hc1; done|by rewrite Hp2, Hp1]].
    split; [done|]. split; [by rewrite Hs2|]. eexists. split; [exact Hf2|].
    by apply tagged_copy.
Qed.

Lemma answers_route deps id up r :
  (forall svc, orderly (up svc)) ->
  answers id (route (d_targets deps) up r id) (verdict_status up (routed (path r)))
    (verdict_contacts deps r id (routed (path r))).
Proof.
  intros Hu. unfold route, routed. destruct (under (path r) "/api/users"); [by apply answers_proxy|].
  destruct (under (path r) "/api/orders"); [by apply answers_proxy|]. by apply answers_writeJSON.
Qed.

(** The limiter's part of the chain, run under the recovery. *)
Lemma rateLimit_answers deps up r pr id s :
  (forall svc, orderly (up svc)) -> fresh s -> tagged id (hdr (rw (recorder s))) -> contacted s = [] ->
  let v := judge_limited deps r pr (lim s) in
  exists s', recoverPanic (rateLimit (d_limiter deps) (d_fail_open deps) (Some pr) (path r)
                             (route (d_targets deps) up r id)) s = (true, s')
    /\ answered (verdict_status up v) id s' /\ contacted s' = verdict_contacts deps r id v
    /\ capture s' = capture s.
Proof.
  intros Hu Hf Ht Hn v.
  assert (forall h c svc s1, answers id h c svc -> fresh s1 -> tagged id (hdr (rw (recorder s1))) ->
    contacted s1 = [] -> capture s1 = capture s -> exists s', recoverPanic h s1 = (true, s')
    /\ answered c id s' /\ contacted s' = svc /\ capture s' = capture s) as Hgo.
  { intros h c svc s1 Hh Hf1 Ht1 Hn1 Hp1. unfold recoverPanic.
    destruct (Hh s1 Hf1 Ht1) as (s' & -> & Ha & Hc & Hp). exists s'. rewrite Hc, Hn1, Hp. done. }
  subst v. unfold judge_limited, rateLimit. destruct (d_limiter deps) as [allow|];
    [|by apply Hgo; [apply answers_writeJSON|..]].
  unfold recoverPanic at 1. fold (limit_request pr (path r)).
  destruct (allow (limit_request pr (path r)) (lim s)) as [o l'] eqn:Ea. cbn [fst].
  destruct o as [[d|e]|].
  - pose proof (answers_route deps id up r Hu) as Hroute.
    destruct (Allowed d); cbn [negb];
      (eapply (Hgo _ _ _ (set_lim l' s)); [|done..]; do 4 (apply answers_setHeader; [done..|]));
      [done|apply answers_setHeader; [done..|]; by apply answers_writeJSON].
  - destruct (d_fail_open deps); (eapply (Hgo _ _ _ (set_lim l' s)); [|done..]);
      [by apply answers_route|by apply answers_writeJSON].
  - destruct (answers_writeJSON id 500 (error_json "internal server error") ltac:(lia) (set_lim l' s))
      as (s' & -> & Ha & Hc & Hp); [done..|].
    exists s'. rewrite Hc. cbn [contacted set_lim]. rewrite Hn. done.
Qed.

Lemma inner_answers deps up r id s :
  (forall svc, orderly (up svc)) -> fresh s -> tagged id (hdr (rw (recorder s))) -> contacted s = [] ->
  capture s = zero_principal ->
  let v := judge deps r (lim s) in
  exists s', inner deps up r id s = (true, s')
    /\ answered (verdict_status up v) id s' /\ contacted s' = verdict_contacts deps r id v
    /\ capture s' = charged deps r.
Proof.
  intros Hu Hf Ht Hn Hz v. subst v. unfold inner, judge, charged, authenticate.
  assert (forall h c, answers id h c [] -> exists s', recoverPanic h s = (true, s')
    /\ answered c id s' /\ contacted s' = [] /\ capture s' = zero_principal) as Hgo.
  { intros h c Hh. unfold recoverPanic. destruct (Hh s Hf Ht) as (s' & -> & Ha & Hc & Hp).
    exists s'. rewrite Hc, Hn, Hp. done. }
  destruct (d_auth deps) as [a|]; [|by apply Hgo, answers_writeJSON].
  destruct (a (api_key_header r) (routeKey (path r))) as [[p|e]|].
  - unfold recoverPanic at 1.
    exact (rateLimit_answers deps up r p id (set_capture p s) Hu Hf Ht Hn).
  - destruct (is_invalid_key e); apply Hgo; [apply answers_setHeader; [done..|]|]; by apply answers_writeJSON.
  - unfold recoverPanic, panicking.
    destruct (answers_writeJSON id 500 (error_json "internal server error") ltac:(lia) s Hf Ht)
      as (s' & -> & Ha & Hc & Hp). exists s'. rewrite Hc, Hn, Hp. done.
Qed.

(** What a request leaves behind, with upstreams that answer in order. *)
Lemma api_answers deps up r m l :
  (forall svc, orderly (up svc)) ->
  let id := request_id r (m_received m) in
  let v := judge deps r l in
  let res := api deps up r m l in
  exists s', r_returned res = true /\ r_writer res = rw (recorder s')
    /\ answered (verdict_status up v) id s' /\ r_contacted res = verdict_contacts deps r id v
    /\ r_atoms res = Begin ++ finish (status (recorder s')) (m_duration m)
    /\ r_event res = enqueueUsage (d_usage deps) (m_random m) r id (charged deps r) (recorder s')
                       (m_started m) (m_duration m).
Proof.
  intros Hu. cbv zeta. unfold api. set (id := request_id r (m_received m)).
  match goal with |- context [inner deps up r _ ?s0] =>
    destruct (inner_answers deps up r id s0 Hu) as (s' & E & Ha & Hc & Hp) end;
    [done|exists []; cbn; by rewrite lookup_insert_eq|done|done|].
  rewrite E. exists s'. cbn [r_returned r_writer r_contacted r_atoms r_event]. by rewrite Hp.
Qed.

(** The event of an authenticated request. *)
Lemma api_outcome deps up r m l :
  (forall svc, orderly (up svc)) ->
  let res := api deps up r m l in
  client_status (r_writer res) = verdict_status up (judge deps r l)
  /\ (d_usage deps = true -> KeyID (charged deps r) <> "" -> PrClientID (charged deps r) <> "" ->
      is_ok (m_random m) = true ->
      exists e, r_event res = Some e /\ APIKeyID e = KeyID (charged deps r)
        /\ ClientID e = PrClientID (charged deps r) /\ StatusCode e = client_status (r_writer res)).
Proof.
  intros Hu. cbv zeta.
  destruct (api_answers deps up r m l Hu) as (s' & _ & Hw & (_ & Hs & h & Hf & _) & _ & _ & He).
  rewrite Hw. unfold client_status. rewrite Hf. split; [done|]. intros Hus Hk Hc Hr. rewrite He.
  unfold enqueueUsage. rewrite Hus, !bool_decide_eq_false_2 by done.
  destruct (m_random m) as [value|]; [|done]. cbn [NewEventID negb orb].
  eexists. split; [reflexivity|]. done.
Qed.
End Spec.



(** ** Effects outside the response *)

(** Whatever the upstreams do, only routing contacts them and only the rate
    limiter touches its state. *)
Section Effects.
Context {L : Type}.

Definition quiet (h : handler L) : Prop :=
  forall s, contacted (h s).2 = contacted s /\ lim (h s).2 = lim s.

Definition sends (cs : list Forwarded) (h : handler L) : Prop :=
  forall s, contacted (h s).2 = contacted s ++ cs /\ lim (h s).2 = lim s.

Lemma sends_nil h : quiet h -> sends [] h.
Proof. intros Hq s. rewrite app_nil_r. apply Hq. Qed.

Lemma sends_setHeader cs k v h : sends cs h -> sends cs (andthen (setHeader k v) h).
Proof. intros Hh s. unfold andthen, setHeader. by edestruct Hh as [-> ->]. Qed.

Lemma quiet_andthen a b : quiet a -> quiet b -> quiet (andthen a b).
Proof.
  intros Ha Hb s. unfold andthen. specialize (Ha s). destruct (a s) as [[] s']; [|done].
  cbn in Ha. specialize (Hb s'). by destruct Ha as [<- <-].
Qed.

Lemma quiet_all (l : list (handler L)) k : Forall quiet l -> quiet k -> quiet (all_then l k).
Proof. intros Hl Hk. induction Hl; [done|]. by apply quiet_andthen. Qed.

Lemma quiet_WriteHeader code : quiet (WriteHeader code).
Proof. intros s. unfold WriteHeader. by repeat case_match. Qed.

Lemma quiet_Write payload : quiet (Write payload).
Proof.
  apply quiet_andthen; intros s; [case_match; [done|apply quiet_WriteHeader]|].
  cbn zeta. destruct (rw_Write payload (rw (recorder s))). split; reflexivity.
Qed.

Lemma quiet_writeJSON code payload : quiet (writeJSON code payload).
Proof.
  apply quiet_andthen; [done|]. apply quiet_andthen; [apply quiet_WriteHeader|]. intros s. apply quiet_Write.
Qed.

Lemma proxy_contacts fw u (s : St L) :
  contacted (proxy_ServeHTTP fw u s).2 = contacted s ++ [fw] /\ lim (proxy_ServeHTTP fw u s).2 = lim s.
Proof.
  unfold proxy_ServeHTTP. destruct u as [|interims hs code pieces whole];
    [exact (quiet_writeJSON _ _ (contact fw s))|].
  match goal with |- context [all_then ?l ?k (contact fw s)] => assert (quiet (all_then l k)) as Hq end; [|exact (Hq (contact fw s))].
  apply quiet_all; [|apply quiet_all; [|apply quiet_andthen; [apply quiet_WriteHeader|apply quiet_all]]].
  - apply Forall_fmap, Forall_true. intros c. apply quiet_andthen; [apply quiet_WriteHeader|done].
  - apply Forall_fmap, Forall_true. done.
  - apply Forall_fmap, Forall_true. apply quiet_Write.
  - by destruct whole.
Qed.

(** The state a request leaves the limiter in. *)
Definition limited (deps : Deps L) (r : HttpRequest) (l : L) : L :=
  match d_auth deps, d_limiter deps with
  | Some a, Some allow =>
      match a (api_key_header r) (routeKey (path r)) with
      | Returns (Ok p) => (allow (limit_request p (path r)) l).2
      | _ => l
      end
  | _, _ => l
  end.

Lemma recoverPanic_effects (h : handler L) s :
  contacted (recoverPanic h s).2 = contacted (h s).2 /\ lim (recoverPanic h s).2 = lim (h s).2.
Proof. unfold recoverPanic. destruct (h s) as [[] s']; [done|]. apply quiet_writeJSON. Qed.

Lemma route_effects (deps : Deps L) up r id :
  sends (verdict_contacts deps r id (routed (path r))) (route (d_targets deps) up r id).
Proof.
  unfold route, routed. destruct (under (path r) "/api/users"); [intros s; apply proxy_contacts|].
  destruct (under (path r) "/api/orders"); [intros s; apply proxy_contacts|].
  apply sends_nil, quiet_writeJSON.
Qed.

Lemma rateLimit_effects (deps : Deps L) up r p id (s : St L) :
  contacted (rateLimit (d_limiter deps) (d_fail_open deps) (Some p) (path r)
               (route (d_targets deps) up r id) s).2
  = contacted s ++ verdict_contacts deps r id (judge_limited deps r p (lim s))
  /\ lim (rateLimit (d_limiter deps) (d_fail_open deps) (Some p) (path r)
            (route (d_targets deps) up r id) s).2
     = match d_limiter deps with Some allow => (allow (limit_request p (path r)) (lim s)).2 | None => lim s end.
Proof.
  unfold rateLimit, judge_limited. fold (limit_request p (path r)).
  destruct (d_limiter deps) as [allow|]; [|by apply (sends_nil (writeJSON _ _)), quiet_writeJSON].
  destruct (allow (limit_request p (path r)) (lim s)) as [[[d|e]|] l']; cbn [fst snd].
  - match goal with |- context [andthen ?a ?b (set_lim l' s)] =>
      assert (sends (verdict_contacts deps r id (if Allowed d then routed (path r) else Refuse 429)) (andthen a b))
        as Hs end; [|exact (Hs (set_lim l' s))].
    do 4 apply sends_setHeader. destruct (Allowed d); [apply route_effects|].
    apply sends_setHeader, sends_nil, quiet_writeJSON.
  - destruct (d_fail_open deps); [apply (route_effects deps up r id (set_lim l' s))|].
    apply (sends_nil (writeJSON 503 (error_json "rate limiter unavailable")) (quiet_writeJSON _ _) (set_lim l' s)).
  - cbn [verdict_contacts]. by rewrite app_nil_r.
Qed.

Lemma inner_effects (deps : Deps L) up r id (s : St L) :
  contacted (inner deps up r id s).2 = contacted s ++ verdict_contacts deps r id (judge deps r (lim s))
  /\ lim (inner deps up r id s).2 = limited deps r (lim s).
Proof.
  unfold inner. destruct (recoverPanic_effects (authenticate (d_auth deps) r (fun p =>
    rateLimit (d_limiter deps) (d_fail_open deps) p (path r) (route (d_targets deps) up r id))) s) as [-> ->].
  unfold authenticate, judge, limited.
  destruct (d_auth deps) as [a|]; [|cbn [verdict_contacts]; rewrite app_nil_r; apply quiet_writeJSON].
  destruct (a (api_key_header r) (routeKey (path r))) as [[p|e]|].
  - destruct (rateLimit_effects deps up r p id (set_capture p s)) as [E1 E2]. rewrite E1, E2.
    split; [done|]. by destruct (d_limiter deps).
  - destruct (d_limiter deps); (destruct (is_invalid_key e);
      [apply (sends_setHeader [])|]; apply (sends_nil (writeJSON _ _)), quiet_writeJSON).
  - cbn [verdict_contacts]. rewrite app_nil_r. by destruct (d_limiter deps).
Qed.

Lemma api_effects (deps : Deps L) up r m (l : L) :
  r_contacted (api deps up r m l)
  = verdict_contacts deps r (request_id r (m_received m)) (judge deps r l)
  /\ r_lim (api deps up r m l) = limited deps r l.
Proof.
  unfold api. match goal with |- context [inner deps up r ?i ?s0] =>
    pose proof (inner_effects deps up r i s0) as Hi; destruct (inner deps up r i s0) as [ok s'] end. exact Hi.
Qed.
End Effects.

(** ** Counting the body *)

Section Counted.
Context {L : Type}.

(** The recorder's byte count is the length of the body, at its width. *)
Definition counted (s : St L) : Prop :=
  bytes (recorder s) = wrap64 (slen (body (rw (recorder s)))).

Definition counts (h : handler L) : Prop := forall s, counted s -> counted (h s).2.

Lemma counts_andthen a b : counts a -> counts b -> counts (andthen a b).
Proof. intros Ha Hb s Hs. unfold andthen. specialize (Ha s Hs). destruct (a s) as [[] s']; [by apply Hb|done]. Qed.

Lemma counts_setHeader k v : counts (setHeader k v).
Proof. by intros s Hs. Qed.

Lemma counts_WriteHeader code : counts (WriteHeader code).
Proof.
  intros s Hs. unfold WriteHeader, rw_WriteHeader, counted in *. repeat case_match; simplify_eq/=; done.
Qed.

Lemma counts_Write payload : counts (Write payload).
Proof.
  apply counts_andthen.
  - intros s Hs. destruct (wroteHeader (recorder s)); [done|by apply counts_WriteHeader].
  - intros s Hs. unfold counted in *.
    assert (forall x y, slen (x +:+ y) = slen x + slen y) as Hlen
      by (intros; unfold slen; rewrite string_length_app; lia).
    unfold rw_Write. set (w := match final (rw (recorder s)) with Some _ => _ | None => _ end).
    assert (body w = body (rw (recorder s))) as Hw by (subst w; by destruct (final (rw (recorder s)))).
    cbn [contentLength count_written]. repeat case_match; simplify_eq; cbn; rewrite Hs, wrap64_add_l, Hw;
      rewrite ?Hlen, ?Z.add_0_r; try done.
    match goal with H : bool_decide _ = true |- _ => apply bool_decide_eq_true_1 in H as -> end.
    by rewrite Z.add_0_r.
Qed.

Lemma counts_writeJSON code payload : counts (writeJSON code payload).
Proof.
  apply counts_andthen; [apply counts_setHeader|].
  apply counts_andthen; [apply counts_WriteHeader|]. intros s Hs. by apply counts_Write.
Qed.

Lemma counts_all (l : list (handler L)) k : Forall counts l -> counts k -> counts (all_then l k).
Proof. intros Hl Hk. induction Hl; [done|]. by apply counts_andthen. Qed.

Lemma counts_proxy fw u : counts (proxy_ServeHTTP fw u).
Proof.
  intros s Hs. unfold proxy_ServeHTTP. destruct u as [|interims hs code pieces whole];
    [by apply counts_writeJSON|].
  apply counts_all; [|apply counts_all; [|apply counts_andthen; [apply counts_WriteHeader|apply counts_all]]|done].
  - apply Forall_fmap, Forall_true. intros c. apply counts_andthen; [apply counts_WriteHeader|by intros s1 Hs1].
  - apply Forall_fmap, Forall_true. by intros h s1 Hs1.
  - apply Forall_fmap, Forall_true. intros p. apply counts_Write.
  - by destruct whole; intros s1 Hs1.
Qed.

Lemma counts_inner deps up r id : counts (inner deps up r id).
Proof.
  assert (counts (route (d_targets deps) up r id)) as Hroute.
  { unfold route. repeat case_match; auto using counts_proxy, counts_writeJSON. }
  assert (forall h, counts h -> counts (recoverPanic h)) as Hrec.
  { intros h Hh s Hs. unfold recoverPanic. specialize (Hh s Hs). destruct (h s) as [[] s']; [done|].
    by apply counts_writeJSON. }
  apply Hrec. unfold authenticate. repeat case_match; auto using counts_writeJSON, counts_andthen, counts_setHeader.
  - intros s Hs. unfold rateLimit. destruct (d_limiter deps) as [allow|]; [|by apply counts_writeJSON].
    destruct (allow _ _) as [[[d|]|] l']; [|by case_match; [apply Hroute|apply counts_writeJSON]|done].
    assert (counts (if negb (Allowed d) then
                      andthen (setHeader "Retry-After" (FormatInt (retry_seconds (RetryAfter d)) 10))
                        (writeJSON 429 (error_json "rate limit exceeded"))
                    else route (d_targets deps) up r id)) as Hif.
    { destruct (Allowed d); [apply Hroute|].
      apply counts_andthen; [apply counts_setHeader|apply counts_writeJSON]. }
    unfold andthen at 1 2 3 4. apply Hif. exact Hs.
  - by intros s Hs.
Qed.
End Counted.

(** The usage event of a request is well formed: it passes [Validate], so
    the pipeline never drops it as invalid, and its byte count is the length
    of the body the handler wrote, which is what the client gets unless the
    request was a [HEAD]; this for identifiers that are not blank, a clock that
    does not run backwards, and upstream statuses below 600. *)
Theorem api_event_valid {L} (deps : Deps L) up r m l random e :
  (forall svc, orderly (up svc) /\ upstream_status (up svc) <= 599) ->
  let res := api deps up r m l in
  let p := charged deps r in
  m_random m = Ok random -> length random = 16%nat -> Forall is_byte random ->
  0 <= m_duration m -> m_started m <> time_zero -> blank (method r) = false ->
  blank (KeyID p) = false -> blank (PrClientID p) = false ->
  slen (body (r_writer res)) < 2 ^ 63 ->
  r_event res = Some e ->
  Validate e = Ok tt /\ ResponseBytes e = slen (body (r_writer res))
  /\ (method r <> "HEAD" -> client_body r (r_writer res) = body (r_writer res)).
Proof.
  intros Hup. cbv zeta. intros Hrand Hlen Hbytes Hdur Hstart Hm Hk Hc Hbody He.
  assert (forall svc, orderly (up svc)) as Hu by (intros svc; apply Hup).
  revert Hbody He. unfold api. set (id := request_id r (m_received m)).
  match goal with |- context [inner deps up r _ ?s0] =>
    pose proof (counts_inner deps up r id s0 eq_refl) as Hcount;
    destruct (inner_answers deps up r id s0 Hu) as (s' & E & (Hw & Hs & h & Hf & Ht) & _ & Hp) end;
    [done|exists []; cbn; by rewrite lookup_insert_eq|done|done|].
  rewrite E in Hcount |- *. cbn [r_writer r_event snd] in *. intros Hbody.
  unfold enqueueUsage. rewrite Hp, Hrand. case_match; [done|]. cbn [NewEventID]. intros [= <-].
  assert (ResponseBytes (usage_event r id (uuid_text (uuid_bytes random)) (charged deps r) (recorder s')
    (m_started m) (m_duration m)) = slen (body (rw (recorder s')))) as Hrb.
  { cbn. rewrite Hcount. apply wrap64_id. unfold in_int64, slen in *. lia. }
  split; [|split; [done|]; intros Hh; unfold client_body; by rewrite bool_decide_eq_false_2].
  destruct (uuid_bytes_ok random Hlen Hbytes) as (U1 & U2 & U3 & U4).
  apply Validate_ok_iff. rewrite Hrb.
  cbn [ID APIKeyID ClientID EvRoute Method StatusCode DurationMicros OccurredAt usage_event].
  split_and!; try done.
  - by apply uuid_text_ok.
  - unfold routeKey. by repeat case_match.
  - rewrite Hs. unfold judge, judge_limited, routed, verdict_status.
    pose proof (fun svc => proj1 (Hup svc)) as Ho. pose proof (fun svc => proj2 (Hup svc)) as H5.
    assert (forall svc, 100 <= upstream_status (up svc)) as Hlow.
    { intros svc. specialize (Ho svc). destruct (up svc); cbn in *; lia. }
    repeat case_match; simplify_eq; try lia; apply Hlow.
  - rewrite Hs. unfold judge, judge_limited, routed, verdict_status.
    pose proof (fun svc => proj2 (Hup svc)) as H5. repeat case_match; simplify_eq; try lia; apply H5.
  - unfold duration_Microseconds. apply Z.quot_pos; lia.
  - unfold slen. lia.
Qed.

(** [Retry-After] is the waiting time in seconds rounded up, and never
    less than one second, so a client that waits as told is not early. *)
Theorem retry_after_exact retryAfter :
  0 <= retryAfter < 2 ^ 63 - Second ->
  retry_seconds retryAfter = Z.max 1 (cdiv retryAfter Second)
  /\ retryAfter <= retry_seconds retryAfter * Second.
Proof.
  intros Hr. unfold retry_seconds, Second in *.
  rewrite wrap64_id by (unfold in_int64; lia). rewrite go_div_pos by lia.
  assert ((retryAfter + 1000000000 - 1) / 1000000000 = cdiv retryAfter 1000000000) as ->.
  { unfold cdiv. Z.to_euclidean_division_equations. lia. }
  pose proof (proj1 (cdiv_spec retryAfter 1000000000 (cdiv retryAfter 1000000000) ltac:(lia)) ltac:(lia)).
  destruct (Z.ltb_spec (cdiv retryAfter 1000000000) 1); lia.
Qed.

Lemma retry_after_exact_witness : retry_seconds (1500 * Millisecond) = 2.
Proof.
  destruct (retry_after_exact (1500 * Millisecond)) as [E _]; [split; vm_compute; congruence|].
  rewrite E. vm_compute. reflexivity.
Defined.

(** ** Disorderly upstreams *)

Section Disorder.
Context {L : Type}.

(** A recorder that has taken an interim code for the final one, and whose
    writer, the headers having been sent along with it, has no final status. *)
Definition misled (c : Z) (s : St L) : Prop :=
  wroteHeader (recorder s) = true /\ status (recorder s) = c
  /\ final (rw (recorder s)) = None
  /\ values "Content-Length" (hdr (rw (recorder s))) = [] /\ written (rw (recorder s)) = 0.

Lemma misled_interims c cs (k : handler L) s :
  misled c s -> exists s', all_then (forward_interim <$> cs) k s = k s' /\ misled c s'.
Proof.
  revert s. induction cs as [|c' cs IH]; intros s Hs; [by exists s|].
  rewrite all_then_cons. destruct Hs as (Hw & Hs & Hf & Hv & Hn).
  unfold andthen at 1, forward_interim at 1, andthen at 1, WriteHeader at 1. rewrite Hw.
  apply IH. done.
Qed.

(** The first piece that is not empty brings the implicit status 200. *)
Lemma misled_writes c pieces (s : St L) :
  wroteHeader (recorder s) = true -> status (recorder s) = c -> client_status (rw (recorder s)) = 200 ->
  accepts (sumZ slen pieces) (match final (rw (recorder s)) with
                              | Some _ => rw (recorder s) | None => set_final 200 (rw (recorder s)) end) ->
  exists s', all_then (Write <$> pieces) returning s = (true, s')
    /\ client_status (rw (recorder s')) = 200 /\ status (recorder s') = c.
Proof.
  intros Hw Hs Hc. destruct (final (rw (recorder s))) as [x|] eqn:Hf; intros Ha.
  - destruct (writes_all pieces returning 0 s x Hw Hf) as (s' & E & _ & Hf' & Hs' & _);
      [done|by rewrite Z.add_0_r|].
    exists s'. split; [exact E|]. unfold client_status in *. rewrite Hf'. rewrite Hf in Hc. by split; [|congruence].
  - destruct pieces as [|p pieces]; [by exists s|].
    set (s1 := set_recorder (set_rw (set_final 200 (rw (recorder s))) (recorder s)) s).
    destruct (writes_all (p :: pieces) returning 0 s1 (200, hdr (rw (recorder s)))) as (s' & E & _ & Hf' & Hs' & _);
      [done..|by rewrite Z.add_0_r|].
    exists s'. split; [|unfold client_status; rewrite Hf'; split; [done|by rewrite Hs'] ].
    change (true, s') with (returning s'). rewrite <- E, !all_then_cons. unfold andthen at 1 2.
    assert (Write p s = Write p s1) as ->; [|done].
    unfold Write, andthen. subst s1. cbn [recorder set_recorder wroteHeader set_rw rw]. rewrite Hw.
    unfold rw_Write. rewrite Hf. done.
Qed.

(** C38: an interim response hides the final one.  If an upstream sends any 1xx
    response other than 101 before its final response, the recorder takes the
    interim code for the final status: whatever final status the upstream
    gives, the client is answered 200, and metrics and usage record the 1xx
    code. *)
Theorem interim_hides_status fw c cs hs code pieces (s : St L) :
  100 <= c <= 199 -> c <> 101 -> fits 200 hs pieces -> fresh s ->
  exists s', proxy_ServeHTTP fw (Responds (c :: cs) hs code pieces true) s = (true, s')
    /\ client_status (rw (recorder s')) = 200 /\ status (recorder s') = c.
Proof.
  intros Hc H101 [Hb Hd] (Hw & Hf & Hv & Hn). unfold proxy_ServeHTTP. rewrite all_then_cons.
  unfold andthen at 1, forward_interim at 1, andthen at 1, WriteHeader at 1, rw_WriteHeader.
  cbn [recorder contact]. rewrite Hw, Hf.
  rewrite (proj2 (Z.ltb_ge c 100)), (proj2 (Z.ltb_ge 999 c)), (proj2 (Z.leb_le c 199)),
    (proj2 (Z.eqb_neq c 101)) by lia. cbn [orb andb negb].
  edestruct (misled_interims c cs) as (s1 & E1 & Hm); [|rewrite E1].
  { split_and!; [done..|exact Hn]. }
  rewrite all_addHeaders.
  destruct Hm as (Hw1 & Hs1 & Hf1 & Hv1 & Hn1). unfold andthen at 1, WriteHeader at 1.
  cbn [recorder with_hdr set_recorder set_rw wroteHeader]. rewrite Hw1.
  apply misled_writes; cbn [recorder with_hdr set_recorder set_rw rw set_hdr final]; try done.
  - unfold client_status. cbn. by rewrite Hf1.
  - rewrite Hf1. split; [done|]. cbn. rewrite declared_stamp by done. destruct (declared hs) as [n|] eqn:E; [|done].
    apply length_of_bound in E. rewrite Hn1. lia.
Qed.

(** A body cut short is completed with an error object.  If the upstream's
    body breaks off, the reverse proxy panics to have the connection aborted;
    the recovery middleware swallows that panic, returns, and appends the JSON
    of an internal error to the body already sent, under the upstream's
    status, unless the upstream declared a length the object does not fit. *)
Theorem abort_appends_error fw hs code pieces (s : St L) :
  200 <= code <= 999 -> bodyAllowed code = true -> fits code hs pieces ->
  fresh s -> body (rw (recorder s)) = "" ->
  let json := json_body (error_json "internal server error") in
  exists s', recoverPanic (proxy_ServeHTTP fw (Responds [] hs code pieces false)) s = (true, s')
    /\ client_status (rw (recorder s')) = code
    /\ (match declared hs with Some n => sumZ slen (pieces ++ [json]) <= n | None => True end ->
        body (rw (recorder s')) = foldr String.append "" pieces +:+ json).
Proof.
  intros Hcode Hallow [Hb Hd] Hf Hbody json. unfold recoverPanic, proxy_ServeHTTP. rewrite all_then_nil.
  destruct (proxy_head (fw_service fw) hs code (contact fw s) (all_then (Write <$> pieces) panicking) Hcode Hf)
    as (s1 & E1 & Hw1 & Hs1 & Hf1 & Hl1 & Ha1 & _ & _ & Hb1). rewrite E1.
  destruct (writes_all pieces panicking 0 s1 _ Hw1 Hf1) as (s2 & E2 & Hw2 & Hf2 & _); [done| |].
  { rewrite Z.add_0_r. by apply Ha1. }
  rewrite E2. unfold panicking.
  assert (answered_with : exists s3, writeJSON 500 (error_json "internal server error") s2 = (true, s3)
    /\ rw (recorder s3) = (rw_Write json (set_hdr (header_Set "Content-Type" "application/json"
          (hdr (rw (recorder s2)))) (rw (recorder s2)))).2).
  { unfold writeJSON, andthen at 1, setHeader, andthen at 1, WriteHeader, ignoring, Write, andthen at 1.
    cbn [recorder set_recorder wroteHeader set_rw rw]. rewrite Hw2.
    cbn [recorder set_recorder wroteHeader set_rw rw]. rewrite Hw2. cbn [rw recorder set_recorder set_rw]. fold json.
    destruct (rw_Write json _). eexists. split; reflexivity. }
  destruct answered_with as (s3 & E3 & Hr3). exists s3. split; [exact E3|]. rewrite Hr3. split.
  - unfold client_status. by erewrite rw_Write_final by exact Hf2.
  - intros Hroom. rewrite sumZ_app, sumZ_one in Hroom.
    destruct (writes_all pieces panicking (slen json) s1 _ Hw1 Hf1) as (s2' & E2' & _ & _ & _ & Ha2 & _ & _ & Hb2).
    { unfold slen. lia. }
    { apply Ha1; [by right|done]. }
    rewrite E2 in E2'. injection E2' as <-.
    destruct (rw_Write_accepts json 0 (set_hdr (header_Set "Content-Type" "application/json"
      (hdr (rw (recorder s2)))) (rw (recorder s2))) _ Hf2) as (w & Ew & _ & _ & Hbw); [done|by rewrite Z.add_0_r|].
    rewrite Ew. cbn [snd]. rewrite Hbw. cbn [body set_hdr]. rewrite Hb2, Hb1. cbn [recorder contact].
    by rewrite Hbody, append_nil_l.
Qed.
End Disorder.

(** ** Readiness *)

(** The readiness endpoint answers 200 exactly when at least one
    dependency is configured and every check succeeds, and 503 otherwise. *)
Theorem ready_exact checks :
  client_status (ready checks) =
  if decide (checks <> [] /\ Forall (fun c => is_ok c.2 = true) checks) then 200 else 503.
Proof.
  destruct checks as [|c checks]; [by rewrite decide_False by naive_solver|].
  unfold ready. assert (client_status (ready_checks (c :: checks)) =
    if decide (Forall (fun c => is_ok c.2 = true) (c :: checks)) then 200 else 503) as ->.
  { induction (c :: checks) as [|[name r] l IH]; [done|]. cbn [ready_checks].
    destruct r as [u|e].
    - rewrite IH. destruct (decide (Forall _ l)), (decide (Forall _ (_ :: l))) as [Hn|Hn]; try done.
      + exfalso. apply Hn. by constructor.
      + by apply Forall_cons in Hn as [_ ?].
    - rewrite decide_False; [done|]. by intros [? _]%Forall_cons. }
  repeat case_decide; try done; naive_solver.
Qed.

(** ** Witnesses *)

Definition demo_principal : Principal :=
  {| KeyID := "key-1"; PrClientID := "client-1"; ClientName := "demo"; Plan := "basic";
     PrRatePerSecond := 10; PrBurstCapacity := 1 |}.

(** One key, and a limiter that lets one request through. *)
Definition demo_deps : Deps Z :=
  {| d_auth := Some (fun key _ => if bool_decide (key = "secret") then Returns (Ok demo_principal)
                                  else Returns (Err ErrInvalidKey));
     d_limiter := Some (fun q n =>
       (Returns (Ok {| Allowed := n <? BurstCapacity q; Limit := BurstCapacity q;
                       Remaining := Z.max 0 (BurstCapacity q - n - 1); ResetAt := 0;
                       RetryAfter := if n <? BurstCapacity q then 0 else 100 * Millisecond |}), n + 1));
     d_fail_open := false; d_usage := true; d_targets := ("users:8081", "orders:8082") |}.

Definition demo_request (key : string) : HttpRequest :=
  {| path := "/api/users/7"; method := "GET"; api_key_header := key; request_id_header := " req-1 ";
     host := "gateway" |}.

Definition demo_moment : Moment :=
  {| m_received := 0; m_started := 1700000000 * Second; m_duration := 2500;
     m_random := Ok (replicate 16 171) |}.

Definition demo_up (svc : string) : upstream := Responds [] [("Content-Type", "text/plain")] 201 ["hel"; "lo"] true.

Lemma demo_up_orderly svc : orderly (demo_up svc).
Proof.
  split; [reflexivity|]. split; [lia|]. split; [reflexivity|]. split; [by right|done].
Qed.



Lemma api_event_valid_witness :
  let res := api demo_deps demo_up (demo_request "secret") demo_moment 0 in
  exists e, r_event res = Some e /\ Validate e = Ok tt
    /\ ResponseBytes e = slen (body (r_writer res))
    /\ (method (demo_request "secret") <> "HEAD" ->
        client_body (demo_request "secret") (r_writer res) = body (r_writer res)).
Proof.
  intros res. destruct (r_event res) as [e|] eqn:E; [|vm_compute in E; discriminate E].
  exists e. split; [reflexivity|].
  apply (api_event_valid demo_deps demo_up (demo_request "secret") demo_moment 0 (replicate 16 171) e);
    try reflexivity; try exact E.
  - intros svc. split; [apply demo_up_orderly|]. vm_compute. congruence.
  - apply Forall_replicate. unfold is_byte. lia.
  - vm_compute. congruence.
  - vm_compute. congruence.
Defined.

Definition demo_state : St Z :=
  {| recorder := {| rw := new_writer; status := 200; bytes := 0; wroteHeader := false |};
     capture := zero_principal; lim := 0; contacted := [] |}.

Definition demo_forward : Forwarded := director "user-service" "users:8081" (demo_request "") "id".

Lemma interim_hides_status_witness :
  exists s', proxy_ServeHTTP demo_forward (Responds [103] [("Content-Length", "7")] 404 ["missing"] true) demo_state
      = (true, s')
    /\ client_status (rw (recorder s')) = 200 /\ status (recorder s') = 103.
Proof.
  apply (interim_hides_status demo_forward 103 [] [("Content-Length", "7")] 404 ["missing"] demo_state); [lia|lia| |].
  - split; [right; reflexivity|]. vm_compute. congruence.
  - repeat split.
Defined.

Lemma abort_appends_error_witness :
  exists s', recoverPanic (proxy_ServeHTTP demo_forward (Responds [] [] 200 ["half"] false)) demo_state
      = (true, s')
    /\ client_status (rw (recorder s')) = 200
    /\ (True -> body (rw (recorder s')) = "half" +:+ json_body (error_json "internal server error")).
Proof.
  apply (abort_appends_error demo_forward [] 200 ["half"] demo_state);
    [lia|reflexivity|split; [right; reflexivity|exact I]|repeat split|reflexivity].
Defined.
