(* ===== verification/Mock.v ===== *)
(** * The demonstration backends ([internal/mockservice/handler.go],
    [cmd/user-service], [cmd/order-service])

    The JSON encoder on strings of any bytes, the patterns of [http.ServeMux]
    the services register, their handlers, the processes around them, and the
    gateway in front of them. *)

From Stdlib Require Import ZArith Lia.
From stdpp Require Import base tactics numbers list gmap strings.
From S2P Require Import Prelude GoLib Handler.

Local Open Scope Z_scope.

(** ** [encoding/json] *)

(** The length of the well-formed UTF-8 sequence a text of two bytes or more
    starts with; [None] when it starts with none. *)
Definition rune_width (l : list Z) : option nat :=
  let cont b := (128 <=? b) && (b <=? 191) in
  match l with
  | a :: b :: l2 =>
      if (194 <=? a) && (a <=? 223) then if cont b then Some 2%nat else None
      else match l2 with
      | c :: l3 =>
          if (224 <=? a) && (a <=? 239) then
            if cont b && cont c && (if a =? 224 then 160 <=? b else true) && (if a =? 237 then b <=? 159 else true)
            then Some 3%nat else None
          else match l3 with
          | d :: _ =>
              if (240 <=? a) && (a <=? 244) && cont b && cont c && cont d
                 && (if a =? 240 then 144 <=? b else true) && (if a =? 244 then b <=? 143 else true)
              then Some 4%nat else None
          | [] => None
          end
      | [] => None
      end
  | _ => None
  end.

Definition backslashed (c : Z) : list Z := [92; c].

(** [\u00xx]. *)
Definition unicode_escape (b : Z) : list Z := bytes_of ("\u00" +:+ hex_encode [b]).

(** A byte below 128, with the characters of HTML escaped. *)
Definition escape_ascii (b : Z) : list Z :=
  if (b =? 34) || (b =? 92) then backslashed b
  else if b =? 8 then backslashed 98
  else if b =? 12 then backslashed 102
  else if b =? 10 then backslashed 110
  else if b =? 13 then backslashed 114
  else if b =? 9 then backslashed 116
  else if (b <? 32) || (b =? 60) || (b =? 62) || (b =? 38) then unicode_escape b
  else [b].

(** [copied] bytes of a sequence already accepted are still to be copied. *)
Fixpoint escape (copied : nat) (l : list Z) : list Z :=
  match l with
  | [] => []
  | b :: rest =>
      match copied with
      | S n => b :: escape n rest
      | O =>
          if b <? 128 then escape_ascii b ++ escape 0 rest
          else match rune_width l with
               | None => bytes_of "\ufffd" ++ escape 0 rest
               | Some n => b :: escape (n - 1) rest
               end
      end
  end.

(** U+2028 and U+2029 are escaped as well. *)
Fixpoint escape_separators (l : list Z) : list Z :=
  match l with
  | 226 :: 128 :: 168 :: rest => bytes_of "\u2028" ++ escape_separators rest
  | 226 :: 128 :: 169 :: rest => bytes_of "\u2029" ++ escape_separators rest
  | b :: rest => b :: escape_separators rest
  | [] => []
  end.

Definition encode_string (s : string) : string :=
  String quote (string_of (escape_separators (escape 0 (bytes_of s))) +:+ String quote EmptyString).

(** Values; the keys of an object are in order, as the encoder sorts them. *)
Inductive json :=
| JString (s : string)
| JNumber (z : Z)
| JArray (l : list json)
| JObject (l : list (string * json)).

Fixpoint joined (l : list string) : string :=
  match l with [] => "" | [s] => s | s :: rest => s +:+ "," +:+ joined rest end.

Fixpoint encode (j : json) : string :=
  match j with
  | JString s => encode_string s
  | JNumber z => Itoa z
  | JArray l => "[" +:+ joined (map encode l) +:+ "]"
  | JObject l => "{" +:+ joined (map (fun kv => encode_string kv.1 +:+ ":" +:+ encode kv.2) l) +:+ "}"
  end.

(** [Encoder.Encode] ends with a newline. *)
Definition writeJSON (status : Z) (payload : json) : ResponseWriter :=
  (rw_Write (encode payload +:+ String (byte_ascii 10) EmptyString)
     (set_final status (set_hdr (header_Set "Content-Type" "application/json" ∅) new_writer))).2.

(** ** Handlers *)

Definition listUsers : ResponseWriter :=
  writeJSON 200 (JObject [("users", JArray
    [JObject [("id", JString "1"); ("name", JString "Ada")]; JObject [("id", JString "2"); ("name", JString "Linus")]])]).

Definition getUser (path_id : string) : ResponseWriter :=
  let id := TrimSpace path_id in
  writeJSON 200 (JObject [("id", JString id); ("name", JString ("Demo User " +:+ id))]).

Definition listOrders : ResponseWriter :=
  writeJSON 200 (JObject [("orders", JArray
    [JObject [("amount", JNumber 499); ("id", JString "101"); ("status", JString "created")];
     JObject [("amount", JNumber 1299); ("id", JString "102"); ("status", JString "shipped")]])]).

Definition getOrder (path_id : string) : ResponseWriter :=
  let id := TrimSpace path_id in
  writeJSON 200 (JObject [("amount", JNumber 799); ("id", JString id); ("status", JString "created")]).

Definition health (service : string) : ResponseWriter :=
  writeJSON 200 (JObject [("service", JString service); ("status", JString "ok")]).

(** ** [http.ServeMux] *)

(** The segments of a path that starts with a slash. *)
Definition slash : Ascii.ascii := byte_ascii 47.

Fixpoint pieces (s : string) : string * list string :=
  match s with
  | EmptyString => ("", [])
  | String c r =>
      let '(p, rest) := pieces r in
      if Ascii.eqb c slash then ("", p :: rest) else (String c p, rest)
  end.

(** [url.PathUnescape]; a malformed escape leaves the segment as it is. *)
Definition hex_value (c : Ascii.ascii) : option Z :=
  let b := ascii_byte c in
  if (48 <=? b) && (b <=? 57) then Some (b - 48)
  else if (97 <=? b) && (b <=? 102) then Some (b - 87)
  else if (65 <=? b) && (b <=? 70) then Some (b - 55)
  else None.

Fixpoint path_unescape (s : string) : option string :=
  match s with
  | EmptyString => Some EmptyString
  | String c r =>
      if ascii_byte c =? 37 then
        match r with
        | String h (String l r') =>
            x ← hex_value h; y ← hex_value l; t ← path_unescape r'; Some (String (byte_ascii (16 * x + y)) t)
        | _ => None
        end
      else String c <$> path_unescape r
  end.

Definition unescaped (s : string) : string := default s (path_unescape s).

Definition segments (escaped_path : string) : list string := unescaped <$> (pieces escaped_path).2.

(** For a path that is already clean.  The patterns are for [GET], which includes [HEAD]; the result is the
    handler of the pattern the path matches, whatever the method.  A wildcard
    takes one segment that is not empty. *)
Definition patterns (service : string) : option (list string -> option ResponseWriter) :=
  let with_resource name (all : ResponseWriter) (one : string -> ResponseWriter) (segs : list string) :=
    match segs with
    | ["health"] => Some (health service)
    | ["api"; x] => if bool_decide (x = name) then Some all else None
    | ["api"; x; id] => if bool_decide (x = name) && negb (bool_decide (id = "")) then Some (one id) else None
    | _ => None
    end in
  if bool_decide (service = "user-service") then Some (with_resource "users" listUsers getUser)
  else if bool_decide (service = "order-service") then Some (with_resource "orders" listOrders getOrder)
  else None.

(** [http.Error]. *)
Definition http_Error (text : string) (code : Z) (h : headers) : ResponseWriter :=
  (rw_Write (text +:+ String (byte_ascii 10) EmptyString)
     (set_final code (set_hdr (header_Set "X-Content-Type-Options" "nosniff"
                                 (header_Set "Content-Type" "text/plain; charset=utf-8" h)) new_writer))).2.

Definition mux_ServeHTTP (ps : list string -> option ResponseWriter) (method escaped_path : string) : ResponseWriter :=
  match ps (segments escaped_path) with
  | Some w => if is_get method then w else http_Error "Method Not Allowed" 405 (header_Set "Allow" "GET, HEAD" ∅)
  | None => http_Error "404 page not found" 404 ∅
  end.

(** A request as a service sees it; [elapsed] is what the clock says at its end. *)
Record call := {
  c_method : string;
  c_escaped : string;             (* [r.URL.EscapedPath()] *)
  c_path : string;                (* [r.URL.Path] *)
  c_request_id : string;          (* [r.Header.Get("X-Gateway-Request-ID")] *)
  elapsed : Z;
}.

(** The response and the line printed after it. *)
Definition requestLog (service : string) (next : call -> ResponseWriter) (c : call) : ResponseWriter * string :=
  (next c,
   "service=" +:+ service +:+ " method=" +:+ c_method c +:+ " path=" +:+ c_path c +:+ " request_id=" +:+ c_request_id c
   +:+ " duration_ms=" +:+ Itoa (Z.quot (elapsed c) Millisecond) +:+ String (byte_ascii 10) EmptyString).

Definition NewHandler (Quote : string -> string) (service : string) : res (call -> ResponseWriter * string) :=
  match patterns service with
  | Some ps => Ok (requestLog service (fun c => mux_ServeHTTP ps (c_method c) (c_escaped c)))
  | None => Err (ErrNew ("unknown mock service " +:+ Quote service))
  end.

(** ** The processes *)

Definition env (Getenv : string -> string) (name fallback : string) : string :=
  let value := Getenv name in if bool_decide (value = "") then fallback else value.

(** What ends a process: an error of [ListenAndServe], or a signal and then
    what [Shutdown] answers, which is only logged. *)
Inductive end_of_service := ListenError | Stopped (shutdown : option gerror).

(** The address, the handler and the exit status. *)
Definition run (Quote : string -> string) (service port : string) (e : end_of_service)
    : option (string * (call -> ResponseWriter * string)) * Z :=
  match NewHandler Quote service with
  | Err _ => (None, 1)
  | Ok h => (Some (":" +:+ port, h), match e with ListenError => 1 | Stopped _ => 0 end)
  end.

Definition user_main (Quote Getenv : string -> string) := run Quote "user-service" (env Getenv "PORT" "8081").
Definition order_main (Quote Getenv : string -> string) := run Quote "order-service" (env Getenv "PORT" "8082").

(** ** Behind the gateway *)

(** A response on the wire, without its date: the server adds the length of a
    body that fits its buffer, and sends no body to a [HEAD] request. *)
Definition on_the_wire (method : string) (w : ResponseWriter) : upstream :=
  match final w with
  | Some (code, h) =>
      Responds []
        ((map_to_list h ≫= fun kvs => pair kvs.1 <$> kvs.2)
         ++ if slen (body w) <=? 2048 then [("Content-Length", Itoa (slen (body w)))] else [])
        code (if bool_decide (method = "HEAD") then [] else [body w]) true
  | None => Unreachable
  end.

(** The request the proxy sends on, for a path that needs no escaping. *)
Definition call_of (r : HttpRequest) (id : string) (took : Z) : call :=
  {| c_method := method r; c_escaped := path r; c_path := path r; c_request_id := id; elapsed := took |}.

(** The two services as the upstreams of the gateway. *)
Definition backends (Quote : string -> string) (r : HttpRequest) (id : string) (took : Z) (svc : string) : upstream :=
  match NewHandler Quote svc with
  | Ok h => on_the_wire (method r) (h (call_of r id took)).1
  | Err _ => Unreachable
  end.

(** A response with a body and without a length of its own. *)
Definition plain_response (code : Z) (w : ResponseWriter) : Prop :=
  200 <= code <= 999 /\ bodyAllowed code = true /\ exists h, final w = Some (code, h) /\ h !! "Content-Length" = None.

Lemma written_plain code h text :
  200 <= code <= 999 -> bodyAllowed code = true -> h !! "Content-Length" = None ->
  plain_response code (rw_Write text (set_final code (set_hdr h new_writer))).2.
Proof.
  intros Hc Hb Hh. split; [done|]. split; [done|]. exists h. split; [|done]. unfold rw_Write, set_final, values.
  cbn [set_hdr hdr]. rewrite Hh. cbv zeta. cbn [default length_of final]. case_bool_decide; [done|].
  unfold client_status. cbn [final]. by rewrite Hb.
Qed.

Lemma patterns_plain svc ps segs w : patterns svc = Some ps -> ps segs = Some w -> plain_response 200 w.
Proof.
  unfold patterns. intros Hp Hw. repeat case_bool_decide; simplify_eq; repeat case_match; simplify_eq; by apply written_plain.
Qed.

Lemma mux_plain svc ps m p :
  patterns svc = Some ps ->
  plain_response (match ps (segments p) with Some _ => if is_get m then 200 else 405 | None => 404 end) (mux_ServeHTTP ps m p).
Proof.
  intros Hp. unfold mux_ServeHTTP. destruct (ps (segments p)) as [w|] eqn:E; [|by apply written_plain].
  destruct (is_get m); [by eapply patterns_plain|by apply written_plain].
Qed.

Lemma no_length h (tail : list (string * string)) :
  h !! "Content-Length" = None ->
  filter (fun kv => kv.1 = "Content-Length") ((map_to_list h ≫= fun kvs : string * list string => pair kvs.1 <$> kvs.2) ++ tail)
  = filter (fun kv => kv.1 = "Content-Length") tail.
Proof.
  intros Hh. rewrite filter_app. enough (filter (fun kv : string * string => kv.1 = "Content-Length")
    (map_to_list h ≫= fun kvs : string * list string => pair kvs.1 <$> kvs.2) = []) as -> by done.
  apply elem_of_nil_inv. intros [k v]. rewrite list_elem_of_filter, list_elem_of_bind. cbn.
  intros [-> ([k' vs] & (v' & [= <- <-] & _)%list_elem_of_fmap & Hin%elem_of_map_to_list)]. congruence.
Qed.

Lemma wire_orderly code w m :
  plain_response code w -> orderly (on_the_wire m w) /\ upstream_status (on_the_wire m w) = code.
Proof.
  intros (Hc & Hb & h & Hf & Hh). unfold on_the_wire. rewrite Hf. split; [|done]. split; [done|]. split; [done|].
  split; [done|]. split; [by right|]. unfold declared. rewrite no_length by done.
  assert (0 <= slen (body w)) by (unfold slen; lia).
  destruct (Z.leb_spec (slen (body w)) 2048); [|done]. rewrite filter_cons_True by done. cbn -[Itoa slen Z.leb].
  rewrite Atoi_Itoa by (unfold in_int64; lia). rewrite (proj2 (Z.leb_le 0 _)) by done.
  case_bool_decide; cbn -[slen]; [done|]. unfold sumZ. cbn -[slen]. lia.
Qed.

Lemma backends_orderly Quote r id took svc : orderly (backends Quote r id took svc).
Proof.
  unfold backends, NewHandler. destruct (patterns svc) as [ps|] eqn:E; [|done]. cbn [requestLog fst].
  by eapply wire_orderly, mux_plain.
Qed.

(** The characters [URL.EscapedPath] leaves as they are. *)
Definition path_char (c : Ascii.ascii) : bool :=
  let b := ascii_byte c in
  (48 <=? b) && (b <=? 57) || (65 <=? b) && (b <=? 90) || (97 <=? b) && (b <=? 122)
  || existsb (Z.eqb b) (bytes_of "-_.~$&+,/:;=@").

(** A path the mux of the gateway does not redirect: no segment is a dot or two
    dots, and none but the last is empty. *)
Definition clean_path (p : string) : bool :=
  let segs := (pieces p).2 in
  forallb (fun s => negb (bool_decide (s = ".")) && negb (bool_decide (s = ".."))) segs
  && forallb (fun s => negb (bool_decide (s = ""))) (removelast segs).

Lemma path_char_percent c : path_char c = true -> (ascii_byte c =? 37) = false.
Proof.
  unfold path_char. intros Hc. apply Z.eqb_neq. intros E. rewrite E in Hc. by vm_compute in Hc.
Qed.

Definition not_slash (c : Ascii.ascii) : bool := negb (Ascii.eqb c slash).

Definition base_of (svc : string) : string :=
  if bool_decide (svc = "user-service") then "/api/users" else "/api/orders".

(** What follows the base of a resource: nothing, or a slash and one segment
    that is not empty. *)
Definition resource (tail : string) : bool :=
  match tail with
  | EmptyString => true
  | String _ seg => negb (bool_decide (seg = "")) && chars not_slash seg
  end.

Lemma unescaped_plain s : chars path_char s = true -> unescaped s = s.
Proof.
  intros Hs. unfold unescaped. enough (path_unescape s = Some s) as -> by done.
  induction s as [|c s IH]; [done|]. cbn [chars] in Hs. apply andb_prop in Hs as [Hc%path_char_percent Hs].
  cbn [path_unescape]. by rewrite Hc, IH.
Qed.

Lemma pieces_plain s : chars path_char s = true -> unescaped (pieces s).1 = (pieces s).1 /\ unescaped <$> (pieces s).2 = (pieces s).2.
Proof.
  intros Hs. enough (chars path_char (pieces s).1 = true /\ Forall (fun t => chars path_char t = true) (pieces s).2) as [H1 H2].
  { split; [by apply unescaped_plain|]. rewrite <- list_fmap_id. apply list_fmap_ext. intros i t Hi.
    apply unescaped_plain. by eapply Forall_lookup_1 in H2. }
  induction s as [|c s IH]; [by split|]. cbn [chars] in Hs. apply andb_prop in Hs as [Hc Hs]. cbn [pieces].
  destruct (IH Hs) as [H1 H2]. destruct (pieces s) as [p rest]. cbn [fst snd] in *.
  destruct (Ascii.eqb c slash); cbn [fst snd chars]; [by split; [|constructor]|]. by rewrite Hc.
Qed.

(** One segment is a text without slashes. *)
Lemma pieces_one s : chars not_slash s = bool_decide ((pieces s).2 = []) /\ (chars not_slash s = true -> (pieces s).1 = s).
Proof.
  induction s as [|c s [IH1 IH2]]; [done|]. cbn [chars pieces]. unfold not_slash at 1 3. destruct (pieces s) as [p rest].
  cbn [fst snd] in *. destruct (Ascii.eqb c slash); cbn [negb andb fst snd]; [done|]. split; [done|].
  intros H. by rewrite IH2.
Qed.

(** The segments below a base, for a tail that starts with a slash. *)
Lemma pieces_tail tail :
  tail = "" \/ (exists t, tail = String slash t) ->
  (pieces tail).1 = ""
  /\ resource tail = match (pieces tail).2 with [] => true | [id] => negb (bool_decide (id = "")) | _ => false end.
Proof.
  intros [->|[t ->]]; [done|]. cbn [pieces resource]. destruct (pieces_one t) as [H1 H2].
  destruct (pieces t) as [p rest]. cbn [fst snd] in *. change (Ascii.eqb slash slash) with true. cbn [fst snd].
  split; [done|]. rewrite H1 in *. destruct rest as [|x rest]; cbn in *; [|by rewrite andb_false_r].
  rewrite H2 by done. by rewrite andb_true_r.
Qed.

Lemma segments_base svc tail :
  chars path_char tail = true -> tail = "" \/ (exists t, tail = String slash t) ->
  segments (base_of svc +:+ tail)
  = "api" :: (if bool_decide (svc = "user-service") then "users" else "orders") :: (pieces tail).2.
Proof.
  intros Hc Ht. destruct (pieces_tail tail Ht) as [H1 _]. destruct (pieces_plain tail Hc) as [_ H2].
  unfold segments, base_of. destruct (pieces tail) as [p rest] eqn:E. cbn [fst snd] in *. subst p.
  case_bool_decide; rewrite !append_cons; change ("" +:+ tail) with tail; cbn -[unescaped];
    rewrite E; cbn -[unescaped]; rewrite H2; reflexivity.
Qed.

Lemma routed_base p svc :
  routed p = Forward svc ->
  (svc = "user-service" \/ svc = "order-service")
  /\ exists tail, p = base_of svc +:+ tail /\ (tail = "" \/ exists t, tail = String slash t).
Proof.
  assert (forall base, under p base = true -> exists tail, p = base +:+ tail /\ (tail = "" \/ exists t, tail = String slash t)) as Hu.
  { intros base. unfold under. case_bool_decide as E; cbn [orb].
    - intros _. exists "". rewrite append_nil_r. auto.
    - intros [t ->]%HasPrefix_spec. exists (String slash t). rewrite string_app_assoc. split; [done|]. right. by exists t. }
  unfold routed. destruct (under p "/api/users") eqn:E1; [intros [= <-]; split; [by left|]; by apply Hu|].
  destruct (under p "/api/orders") eqn:E2; [|done]. intros [= <-]. split; [by right|]. by apply Hu.
Qed.

Lemma judge_routed {L} (deps : Deps L) r l svc : judge deps r l = Forward svc -> routed (path r) = Forward svc.
Proof. unfold judge, judge_limited. intros H. repeat case_match; simplify_eq; done. Qed.

(** C37: the demonstration stack answers.  With the two services behind it, the
    gateway forwards an admitted request for a clean path without escapes to
    the service its path names, and the client gets 200 for the collection and for
    one member of it, 405 for a method other than GET and HEAD, and 404 for
    anything deeper or for an empty member. *)
Theorem stack_serves {L} Quote (deps : Deps L) r m l took svc :
  chars path_char (path r) = true -> clean_path (path r) = true -> judge deps r l = Forward svc ->
  let id := request_id r (m_received m) in
  let res := api deps (backends Quote r id took) r m l in
  exists tail, path r = base_of svc +:+ tail /\ (tail = "" \/ exists t, tail = String slash t)
    /\ fw_service <$> r_contacted res = [svc]
    /\ client_status (r_writer res) = if resource tail then (if is_get (method r) then 200 else 405) else 404.
Proof.
  intros Hc _ Hj id res. destruct (routed_base _ _ (judge_routed _ _ _ _ Hj)) as (Hsvc & tail & Hp & Ht).
  exists tail. split; [done|]. split; [done|].
  destruct (api_answers deps (backends Quote r id took) r m l) as (s' & Hr & Hw & (_ & _ & h & Hf & _) & Hco & _);
    [intros ?; apply backends_orderly|].
  fold id res in Hco, Hw. rewrite Hj in Hco, Hf. split; [by rewrite Hco|].
  unfold client_status. rewrite Hw, Hf. cbn [verdict_status]. unfold backends, NewHandler.
  destruct (pieces_tail tail Ht) as [_ Hres]. rewrite Hp, chars_app in Hc. apply andb_prop in Hc as [_ Hc].
  destruct (patterns svc) as [ps|] eqn:Eps; [|by destruct Hsvc as [-> | ->]]. cbn [requestLog fst call_of c_method c_escaped].
  rewrite (proj2 (wire_orderly _ _ (method r) (mux_plain svc ps (method r) (path r) Eps))), Hp, (segments_base svc tail Hc Ht), Hres.
  destruct Hsvc as [-> | ->]; injection Eps as <-; destruct (pieces tail).2 as [|x [|y rest]]; try done;
    cbn; by case_bool_decide.
Qed.

Lemma stack_serves_witness :
  let r := demo_request "secret" in
  client_status (r_writer (api demo_deps (backends id r (request_id r (m_received demo_moment)) 0) r demo_moment 0)) = 200
  /\ match NewHandler id "user-service" with
     | Ok h => slen (body (h (call_of r "req-1" 0)).1) = 32
     | Err _ => False
     end.
Proof.
  intros r. split; [|reflexivity].
  destruct (stack_serves id demo_deps r demo_moment 0 0 "user-service" eq_refl eq_refl eq_refl) as (tail & Hp & _ & _ & E).
  etransitivity; [exact E|]. clear E.
  assert (tail = "/7") as -> by (injection Hp as Hp; exact (eq_sym Hp)). reflexivity.
Defined.
