(* ===== verification/Flags.v ===== *)
(** * Command lines (package [flag])

    What the tools under [cmd/] use of [flag]: a flag set maps names to typed
    values, and [Parse] consumes arguments until the first one that is not a
    flag.  Numbers are read by [strconv.ParseInt] with base 0. *)

From Stdlib Require Import ZArith Lia.
From stdpp Require Import base tactics numbers list gmap strings.
From S2P Require Import Prelude GoLib Config.

(** ** [strconv.ParseInt(s, 0, 64)] *)

(** [lower(c)] of [strconv]: the bit that tells the cases of a letter is set. *)
Definition lower (c : Ascii.ascii) : Z := Z.lor (ascii_byte c) 32.

(** The digit a character stands for in bases up to 36. *)
Definition any_digit (c : Ascii.ascii) : option Z :=
  let b := ascii_byte c in
  if (48 <=? b) && (b <=? 57) then Some (b - 48)
  else if (97 <=? lower c) && (lower c <=? 122) then Some (lower c - 97 + 10) else None.

Inductive num_error := ErrSyntax | ErrRange.

(** The loop over the bytes; the flag says whether an underscore was seen. *)
Fixpoint uint_loop (base : Z) (s : string) (n : Z) (underscores : bool) : Z * bool + num_error :=
  match s with
  | EmptyString => inl (n, underscores)
  | String c s' =>
      if ascii_byte c =? 95 then uint_loop base s' n true
      else match any_digit c with
           | None => inr ErrSyntax
           | Some d =>
               if base <=? d then inr ErrSyntax
               else if 2 ^ 64 <=? n * base + d then inr ErrRange
               else uint_loop base s' (n * base + d) underscores
           end
  end.

(** The base its prefix gives a number, and the digits after the prefix. *)
Definition base_prefix (s : string) : Z * string :=
  match s with
  | String z (String l (String _ _ as r)) =>
      if ascii_byte z =? 48 then
        if lower l =? 98 then (2, r) else if lower l =? 111 then (8, r)
        else if lower l =? 120 then (16, r) else (8, String l r)
      else (10, s)
  | String z r => if ascii_byte z =? 48 then (8, r) else (10, s)
  | EmptyString => (10, s)
  end.

(** [underscoreOK]: underscores only separate digits; the last argument is the
    class of the character before: a digit, an underscore or another. *)
Inductive prior := AtStart | AtDigit | AtUnderscore | AtOther.

Fixpoint underscore_loop (hex : bool) (s : string) (i : prior) : bool :=
  match s with
  | EmptyString => match i with AtUnderscore => false | _ => true end
  | String c s' =>
      let b := ascii_byte c in
      if (48 <=? b) && (b <=? 57) || hex && (97 <=? lower c) && (lower c <=? 102) then underscore_loop hex s' AtDigit
      else if b =? 95 then match i with AtDigit => underscore_loop hex s' AtUnderscore | _ => false end
      else match i with AtUnderscore => false | _ => underscore_loop hex s' AtOther end
  end.

Definition underscoreOK (s : string) : bool :=
  match s with
  | String z (String l r) =>
      if (ascii_byte z =? 48) && ((lower l =? 98) || (lower l =? 111) || (lower l =? 120))
      then underscore_loop (lower l =? 120) r AtDigit
      else underscore_loop false s AtStart
  | _ => underscore_loop false s AtStart
  end.

Definition ParseUint (s : string) : Z + num_error :=
  match s with
  | EmptyString => inr ErrSyntax
  | _ =>
      let '(base, digits) := base_prefix s in
      match uint_loop base digits 0 false with
      | inr e => inr e
      | inl (n, underscores) => if underscores && negb (underscoreOK s) then inr ErrSyntax else inl n
      end
  end.

Definition ParseInt (s : string) : Z + num_error :=
  let '(neg, ds) :=
    match s with
    | String c s' =>
        if ascii_byte c =? 43 then (false, s') else if ascii_byte c =? 45 then (true, s') else (false, s)
    | EmptyString => (false, s)
    end in
  match ParseUint ds with
  | inr e => inr e
  | inl un =>
      if neg : bool then (if 2 ^ 63 <? un then inr ErrRange else inl (- un))
      else if 2 ^ 63 <=? un then inr ErrRange else inl un
  end.

(** ** Flag sets *)

Inductive flag_value :=
| FString (s : string)
| FInt (z : Z)                     (* [int] and [int64] *)
| FBool (b : bool)
| FDuration (d : Z).

(** The type of a flag. *)
Definition same_kind (v w : flag_value) : bool :=
  match v, w with
  | FString _, FString _ | FInt _, FInt _ | FBool _, FBool _ | FDuration _, FDuration _ => true
  | _, _ => false
  end.

Notation FlagSet := (gmap string flag_value).

Definition num_text (e : num_error) : string :=
  match e with ErrSyntax => "parse error" | ErrRange => "value out of range" end.

(** [Value.Set]. *)
Definition flag_Set (v : flag_value) (s : string) : res flag_value :=
  match v with
  | FString _ => Ok (FString s)
  | FInt _ => match ParseInt s with inl z => Ok (FInt z) | inr e => Err (ErrNew (num_text e)) end
  | FBool _ => match ParseBool s with Ok b => Ok (FBool b) | Err _ => Err (ErrNew "parse error") end
  | FDuration _ => match ParseDuration s with Ok d => Ok (FDuration d) | Err _ => Err (ErrNew "parse error") end
  end.

Definition is_dash (c : Ascii.ascii) : bool := ascii_byte c =? 45.
Definition is_equals (c : Ascii.ascii) : bool := ascii_byte c =? 61.

(** The text before the first equals sign and the text after it, if any. *)
Fixpoint cut_equals (s : string) : string * option string :=
  match s with
  | EmptyString => (EmptyString, None)
  | String c s' =>
      if is_equals c then (EmptyString, Some s')
      else let '(a, v) := cut_equals s' in (String c a, v)
  end.

(** An argument: not a flag, the end of the flags, malformed, or a flag with
    the value after its equals sign. *)
Inductive argument :=
| Positional
| Terminator
| BadSyntax
| Flag (name : string) (value : option string).

Definition flag_name (name : string) : argument :=
  match name with
  | EmptyString => BadSyntax
  | String c r =>
      if is_dash c || is_equals c then BadSyntax
      else let '(a, v) := cut_equals r in Flag (String c a) v
  end.

Definition classify (s : string) : argument :=
  match s with
  | String a (String b r) =>
      if negb (is_dash a) then Positional
      else if is_dash b then match r with EmptyString => Terminator | _ => flag_name r end
      else flag_name (String b r)
  | _ => Positional
  end.

Section Parse.
Context (Quote : string -> string).            (* [strconv.Quote], the verb [%q] *)

Definition invalid_value (name value : string) (e : gerror) : gerror :=
  ErrNew ("invalid value " +:+ Quote value +:+ " for flag -" +:+ name +:+ ": " +:+ error_text e).
Definition invalid_boolean (name value : string) (e : gerror) : gerror :=
  ErrNew ("invalid boolean value " +:+ Quote value +:+ " for -" +:+ name +:+ ": " +:+ error_text e).

(** [FlagSet.Parse] with [ContinueOnError]: the set and the arguments left. *)
Fixpoint Parse (fs : FlagSet) (args : list string) : res (FlagSet * list string) :=
  match args with
  | [] => Ok (fs, [])
  | s :: rest =>
      match classify s with
      | Positional => Ok (fs, args)
      | Terminator => Ok (fs, rest)
      | BadSyntax => Err (ErrNew ("bad flag syntax: " +:+ s))
      | Flag name value =>
          match fs !! name with
          | None =>
              Err (ErrNew (if bool_decide (name = "help") || bool_decide (name = "h") then "flag: help requested"
                           else "flag provided but not defined: -" +:+ name))
          | Some (FBool b) =>
              match flag_Set (FBool b) (default "true" value) with
              | Ok v => Parse (<[name := v]> fs) rest
              | Err e => Err (invalid_boolean name (default "true" value) e)
              end
          | Some old =>
              match value, rest with
              | Some text, _ =>
                  match flag_Set old text with
                  | Ok v => Parse (<[name := v]> fs) rest
                  | Err e => Err (invalid_value name text e)
                  end
              | None, text :: rest' =>
                  match flag_Set old text with
                  | Ok v => Parse (<[name := v]> fs) rest'
                  | Err e => Err (invalid_value name text e)
                  end
              | None, [] => Err (ErrNew ("flag needs an argument: -" +:+ name))
              end
          end
      end
  end.
End Parse.

(** The variables the flags of a set write to. *)
Definition get_string (fs : FlagSet) (name : string) : string :=
  match fs !! name with Some (FString s) => s | _ => "" end.
Definition get_int (fs : FlagSet) (name : string) : Z :=
  match fs !! name with Some (FInt z) => z | _ => 0 end.
Definition get_bool (fs : FlagSet) (name : string) : bool :=
  match fs !! name with Some (FBool b) => b | _ => false end.
Definition get_duration (fs : FlagSet) (name : string) : Z :=
  match fs !! name with Some (FDuration d) => d | _ => 0 end.

(** ** Types *)

(** [w] is a value the flag of [v] can hold. *)
Definition typed (v w : flag_value) : Prop :=
  same_kind v w = true
  /\ match w with FInt z | FDuration z => in_int64 z | _ => True end.

Definition all_typed (fs fs' : FlagSet) : Prop :=
  forall name, option_Forall2 typed (fs !! name) (fs' !! name).

Lemma uint_loop_range base s n u m u' :
  0 <= n -> 0 < base -> uint_loop base s n u = inl (m, u') -> 0 <= m.
Proof.
  revert n u. induction s as [|c s IH]; intros n u Hn Hb; cbn [uint_loop]; [by intros [= <- _]|].
  destruct (ascii_byte c =? 95); [by apply IH|].
  destruct (any_digit c) as [d|] eqn:E; [|done]. destruct (base <=? d); [done|].
  destruct (2 ^ 64 <=? n * base + d); [done|]. apply IH; [|done].
  assert (0 <= d) as Hd; [|nia]. unfold any_digit in E. split_guards; bool_to_prop; lia.
Qed.

Lemma ParseUint_nonneg s n : ParseUint s = inl n -> 0 <= n.
Proof.
  unfold ParseUint. destruct s as [|c s]; [done|]. destruct (base_prefix (String c s)) as [base ds] eqn:Eb.
  destruct (uint_loop base ds 0 false) as [[m u]|] eqn:E; [|done]. case_match; [done|]. intros [= <-].
  assert (0 < base) by (unfold base_prefix in Eb; repeat case_match; simplify_eq; lia).
  by apply (uint_loop_range _ _ _ _ _ _ ltac:(reflexivity) H0 E).
Qed.

Lemma ParseInt_range s z : ParseInt s = inl z -> in_int64 z.
Proof.
  unfold ParseInt, in_int64. intros E. case_match. case_match; [|done].
  assert (0 <= z0) as H1; [by eapply ParseUint_nonneg|].
  split_guards; bool_to_prop; lia.
Qed.

Lemma flag_Set_typed v s w : flag_Set v s = Ok w -> typed v w.
Proof.
  unfold flag_Set, typed. intros. destruct v; [by simplify_eq|..]; case_match; simplify_eq; split; try done.
  - by eapply ParseInt_range.
  - by eapply ParseDuration_range.
Qed.

#[export] Instance typed_trans : Transitive typed.
Proof. intros u v w [H1 _] [H2 H3]. split; [|done]. by destruct u, v, w. Qed.

Lemma typed_insert fs fs' name old v :
  all_typed (<[name := v]> fs) fs' -> fs !! name = Some old -> typed old v -> all_typed fs fs'.
Proof.
  intros Ht Hold Hv n. specialize (Ht n). destruct (decide (n = name)) as [->|].
  - rewrite lookup_insert_eq in Ht. inversion Ht as [? w Hw|]. subst. rewrite Hold. constructor. by etrans.
  - by rewrite lookup_insert_ne in Ht.
Qed.

(** Parsing keeps every flag and its type, with integers in range. *)
Lemma Parse_typed Quote fs args fs' rest :
  map_Forall (fun _ v => typed v v) fs -> Parse Quote fs args = Ok (fs', rest) -> all_typed fs fs'.
Proof.
  assert (forall fs : FlagSet, map_Forall (fun _ v => typed v v) fs -> all_typed fs fs) as Hrefl.
  { intros g Hg n. destruct (g !! n) eqn:E; constructor. by eapply Hg. }
  remember (length args) as k eqn:Hk. assert (length args <= k)%nat as Hlen by lia. clear Hk.
  revert fs args Hlen. induction k as [|k IH]; intros fs args Hlen Hfs; destruct args as [|s args]; cbn in Hlen;
    [intros [= <- _]; by apply Hrefl|lia|intros [= <- _]; by apply Hrefl|].
  assert (forall name old v args', fs !! name = Some old -> typed old v -> (length args' <= k)%nat ->
    Parse Quote (<[name := v]> fs) args' = Ok (fs', rest) -> all_typed fs fs') as Hgo.
  { intros name old v args' Hold Hv Hl Hp. eapply typed_insert; [|done..]. eapply IH; [done| |done].
    apply map_Forall_insert_2; [|done]. destruct Hv as [? ?]. split; [by destruct v|done]. }
  cbn [Parse]. destruct (classify s) as [| | |name value]; [intros [= <- _]; by apply Hrefl..|done|].
  destruct (fs !! name) as [old|] eqn:Eo; [|done].
  assert (forall text args', (length args' <= k)%nat ->
    match flag_Set old text with
    | Ok v => Parse Quote (<[name := v]> fs) args'
    | Err e => Err (invalid_value Quote name text e)
    end = Ok (fs', rest) -> all_typed fs fs') as Hset.
  { intros text args' Hl. destruct (flag_Set old text) eqn:E; [|done]. apply Hgo with old; try done.
    by eapply flag_Set_typed. }
  destruct old as [| |b|];
    [| |destruct (flag_Set (FBool b) _) eqn:E; [|done];
        apply Hgo with (FBool b); [done|by eapply flag_Set_typed|lia]|];
    (destruct value; [apply Hset; lia|destruct args; [done|cbn in Hlen; apply Hset; lia]]).
Qed.

(** ** Command lines that are written out *)

(** The arguments [--name value] for a list of flags. *)
Definition command_line (l : list (string * string)) : list string :=
  concat ((fun nv => ["--" +:+ nv.1; nv.2]) <$> l).

(** A name [Parse] takes for one: not empty, no equals sign, no leading dash. *)
Definition flag_name_ok (name : string) : bool :=
  match name with
  | String c r => negb (is_dash c) && chars (fun c => negb (is_equals c)) (String c r)
  | EmptyString => false
  end.

(** Setting flags one after the other. *)
Fixpoint assign (fs : FlagSet) (l : list (string * string)) : option FlagSet :=
  match l with
  | [] => Some fs
  | (name, text) :: l' =>
      match fs !! name with
      | None | Some (FBool _) => None
      | Some old => match flag_Set old text with Ok v => assign (<[name := v]> fs) l' | Err _ => None end
      end
  end.

Lemma cut_equals_none s : chars (fun c => negb (is_equals c)) s = true -> cut_equals s = (s, None).
Proof.
  induction s as [|c s IH]; [done|]. cbn. intros [Hc Hs]%andb_prop. apply negb_true_iff in Hc.
  by rewrite Hc, IH.
Qed.

Lemma classify_flag name : flag_name_ok name = true -> classify ("--" +:+ name) = Flag name None.
Proof.
  destruct name as [|c r]; [done|]. intros [Hd [He Hr]%andb_prop]%andb_prop.
  change (classify ("--" +:+ String c r)) with (flag_name (String c r)). unfold flag_name.
  apply negb_true_iff in Hd, He. rewrite Hd, He. cbn. by rewrite cut_equals_none.
Qed.

Lemma Parse_command_line Quote fs l fs' :
  Forall (fun nv => flag_name_ok nv.1 = true) l -> assign fs l = Some fs' -> Parse Quote fs (command_line l) = Ok (fs', []).
Proof.
  intros Hl. revert fs. induction Hl as [|[name text] l Hn _ IH]; intros fs; [by intros [= <-]|].
  cbn [assign command_line fmap list_fmap concat app]. cbn [Parse fst snd]. rewrite classify_flag by done.
  destruct (fs !! name) as [old|]; [|done].
  assert (forall w, flag_Set old text = w ->
    match w with Ok v => assign (<[name := v]> fs) l | Err _ => None end = Some fs' ->
    match w with
    | Ok v => Parse Quote (<[name := v]> fs) (command_line l)
    | Err e => Err (invalid_value Quote name text e)
    end = Ok (fs', [])) as Hgo by (intros [v|] _; [apply IH|done]).
  destruct old; try done; by eapply Hgo.
Qed.

Lemma any_digit_char d : 0 <= d < 10 -> any_digit (digit_char d) = Some d /\ (ascii_byte (digit_char d) =? 95) = false.
Proof.
  intros Hd. pose proof (digit_value_char d Hd) as H. unfold any_digit, digit_value in *.
  unfold digit_char in *. rewrite (proj2 (Z.ltb_lt _ _)) in * by lia.
  rewrite byte_ascii_byte in * by (unfold is_byte; lia). case_match; [|done]. split; [done|lia].
Qed.

Lemma uint_loop_Itoa n : 0 <= n < 2 ^ 64 -> uint_loop 10 (Itoa n) 0 false = inl (n, false).
Proof.
  intros Hn. rewrite <- (append_nil_r (Itoa n)).
  apply (Itoa_ind (fun m s => m <= n /\ uint_loop 10 s m false = inl (n, false))); [lia|by split|].
  intros m d rest Hm Hd [Hle E]. split; [lia|]. cbn [uint_loop].
  destruct (any_digit_char d Hd) as [-> ->].
  rewrite (proj2 (Z.leb_gt 10 d)), (proj2 (Z.leb_gt (2 ^ 64) _)) by lia. exact E.
Qed.

(** A positive number is written without a leading zero. *)
Lemma format_digits_nonzero fuel n acc :
  0 < n < 2 ^ Z.of_nat fuel ->
  exists d s, format_digits fuel 10 n acc = String (digit_char d) s /\ 0 < d < 10.
Proof.
  revert n acc. induction fuel as [|fuel IH]; intros n acc Hn; [cbn in Hn; lia|]. cbn [format_digits].
  pose proof (Z.mod_pos_bound n 10 ltac:(lia)). pose proof (Z.div_mod n 10 ltac:(lia)).
  destruct (Z.eqb_spec (n / 10) 0) as [E|E]; [eexists _, _; split; [done|lia]|]. apply IH.
  rewrite Nat2Z.inj_succ, Z.pow_succ_r in Hn by lia.
  assert (0 <= n / 10) by (apply Z.div_pos; lia). split; [lia|]. apply Z.div_lt_upper_bound; lia.
Qed.

Lemma base_prefix_Itoa n : 0 < n -> base_prefix (Itoa n) = (10, Itoa n) /\ Itoa n <> "".
Proof.
  intros Hn. rewrite Itoa_nonneg by lia. unfold FormatUint.
  destruct (format_digits_nonzero (S (Z.to_nat (Z.log2 n))) n "") as (d & s & -> & Hd).
  { rewrite Nat2Z.inj_succ, Z2Nat.id by apply Z.log2_nonneg. pose proof (Z.log2_spec n Hn). lia. }
  split; [|done]. assert ((ascii_byte (digit_char d) =? 48) = false) as Hz.
  { unfold digit_char. rewrite (proj2 (Z.ltb_lt _ _)) by lia.
    rewrite byte_ascii_byte by (unfold is_byte; lia). lia. }
  unfold base_prefix. rewrite Hz. by repeat case_match.
Qed.

Lemma ParseInt_Itoa n : 0 <= n < 2 ^ 63 -> ParseInt (Itoa n) = inl n.
Proof.
  intros Hn. destruct (decide (n = 0)) as [->|]; [done|].
  assert (ParseUint (Itoa n) = inl n) as E.
  { destruct (base_prefix_Itoa n) as [Hb Hne]; [lia|]. unfold ParseUint. rewrite Hb, uint_loop_Itoa by lia.
    by destruct (Itoa n). }
  unfold ParseInt. destruct (Itoa_head n) as (d & s & Hs & Hd); [lia|].
  destruct (digit_char_sign d Hd) as [H1 H2]. rewrite Hs in E |- *.
  rewrite (proj2 (Z.eqb_neq _ 43)), (proj2 (Z.eqb_neq _ 45)) by done. rewrite E.
  by rewrite (proj2 (Z.leb_gt _ _)) by lia.
Qed.
