(* ===== verification/System.v ===== *)
(** * The gateway as a whole ([cmd/gateway/main.go])

    [main] builds the authenticator over PostgreSQL, the limiter over Redis and
    the handler from both.  Here any number of gateway processes, wired that
    way, share the key tables and one Redis server; a trace interleaves their
    requests with the passing of time.  The theorems join those of the store,
    the limiter and the handler. *)

From Stdlib Require Import ZArith Lia QArith Qcanon.
From stdpp Require Import base tactics numbers list gmap strings.
From S2P Require Import Prelude GoLib Float64 Sha256 Redis Pipeline RateLimit Event Metrics Auth Sql Store Handler Config.

Local Open Scope Z_scope.

(** What one request meets: the database connection, the round trip to Redis,
    the clock, and the upstream services. *)
Record Weather := {
  w_env : Env;
  w_net : exchange;
  w_now : Z;
  w_moment : Moment;
  w_up : string -> upstream;
}.

Section System.
Context {R : Type} `{RL : RedisLaws R} `{Server}.
Context (parse : string -> res (string * string)).    (* [url.Parse]: scheme and host *)

(** The limiter as the handler calls it.  A script without a result is an
    error of the call; with the quotas of the database there always is one. *)
Definition limiter_on (l : RedisLimiter) (net : exchange) (now : Z) (q : Request) (r : R)
    : outcome (res Decision) * R :=
  match Allow l net now q r with
  | Some (d, r') => (Returns d, r')
  | None => (Returns (Err (ErrNew "execute token-bucket script")), r)
  end.

(** The wiring of [main], over the tables as they stand: an error of any of the
    three constructors ends the process. *)
Definition wire (g : Config) (t : Keys) (w : Weather) : res (Deps R) :=
  authenticator <-- NewService (Some (LookupActiveKey (w_env w) t)) (APIKeyPepper g) ;;
  _ <-- NewPipeline (pipeline_config g) (Some tt) NewRegistry ;;
  NewHandler parse (UserServiceURL g) (OrderServiceURL g)
    (Some (fun key route => Returns (Authenticate authenticator key route)))
    (Some (limiter_on (NewRedisLimiter true (RateLimitPrefix g)) (w_net w) (w_now w)))
    (RateLimitFailOpen g) true.

(** [main] up to the handler: the settings, the database - what parsing its
    URL, building the pool and pinging it answer - and the wiring.  Any error
    ends the process with status 1. *)
Definition startup (Getenv : string -> string) (dial : string -> option gerror * option gerror * option gerror)
    (t : Keys) (w : Weather) : res (Config * Deps R) :=
  g <-- Load Getenv ;;
  let '(parsed, created, pinged) := dial (DatabaseURL g) in
  _ <-- Open parsed created pinged ;;
  deps <-- wire g t w ;;
  Ok (g, deps).

(** ** Traces *)

Inductive sys_event :=
| SysTick (d : Z)
| SysRequest (g : Config) (w : Weather) (r : HttpRequest).

(** A request as it was served: the principal it was charged to, its route,
    and what it left behind. *)
Record served := {
  sv_principal : Principal;
  sv_route : string;
  sv_result : Result R;
}.

(** A process whose wiring fails exits and serves nothing. *)
Fixpoint serve_all (t : Keys) (evs : list sys_event) (rd : R) : list served * R :=
  match evs with
  | [] => ([], rd)
  | SysTick d :: evs' => serve_all t evs' (redis_tick d rd)
  | SysRequest g w r :: evs' =>
      match wire g t w with
      | Err _ => serve_all t evs' rd
      | Ok deps =>
          let res := api deps (w_up w) r (w_moment w) rd in
          let '(log, rd') := serve_all t evs' (r_lim res) in
          ({| sv_principal := charged deps r; sv_route := routeKey (path r); sv_result := res |} :: log, rd')
      end
  end.

(** The requests of one key on one route that reached an upstream. *)
Definition reached (key_id route : string) (s : served) : bool :=
  bool_decide (KeyID (sv_principal s) = key_id) && bool_decide (sv_route s = route)
  && match r_contacted (sv_result s) with [] => false | _ => true end.

Definition forwarded (key_id route : string) (log : list served) : Z :=
  sumZ (fun s => if reached key_id route s then 1 else 0) log.

(** ** One request *)

Definition limiter_of (g : Config) : RedisLimiter := NewRedisLimiter true (RateLimitPrefix g).

Lemma wire_ok g t w deps :
  wire g t w = Ok deps ->
  d_auth deps = Some (fun key route => Returns (Authenticate (service_on (w_env w) t (APIKeyPepper g)) key route))
  /\ d_limiter deps = Some (limiter_on (limiter_of g) (w_net w) (w_now w))
  /\ d_fail_open deps = RateLimitFailOpen g /\ d_usage deps = true.
Proof.
  unfold wire, NewService, NewHandler. destruct (slen (APIKeyPepper g) <? 16); [done|]. cbn [res_bind].
  destruct (NewPipeline _ _ _); [|done]. cbn [res_bind].
  destruct (check_target _ _ _); [|done]. destruct (check_target _ _ _); [|done]. by intros [= <-].
Qed.

(** An absolute URL, as [NewHandler] checks it. *)
Definition absolute (url : string) : Prop :=
  exists scheme host, parse url = Ok (scheme, host) /\ scheme <> "" /\ host <> "".

Lemma check_target_ok name url : is_ok (check_target parse name url) = true <-> absolute url.
Proof.
  unfold check_target, absolute. destruct (parse url) as [[scheme host]|e]; [|naive_solver].
  do 2 case_bool_decide; cbn; naive_solver.
Qed.

Lemma wire_starts Getenv g t w :
  Load Getenv = Ok g ->
  (exists deps, wire g t w = Ok deps) <-> absolute (UserServiceURL g) /\ absolute (OrderServiceURL g).
Proof.
  intros (Hs & Hp & _)%Load_starts. destruct (Hs (LookupActiveKey (w_env w) t)) as [svc Esvc].
  destruct (Hp _ _ _ tt NewRegistry) as [s0 Es0]. unfold wire. unfold KeyStore in Esvc. rewrite Esvc, Es0. cbn [res_bind]. unfold NewHandler.
  rewrite <- (check_target_ok "USER_SERVICE_URL"), <- (check_target_ok "ORDER_SERVICE_URL").
  destruct (check_target parse "USER_SERVICE_URL" _), (check_target parse "ORDER_SERVICE_URL" _); cbn; naive_solver.
Qed.

Lemma startup_ok Getenv dial t w g deps :
  startup Getenv dial t w = Ok (g, deps) <->
  Load Getenv = Ok g /\ dial (DatabaseURL g) = (None, None, None) /\ wire g t w = Ok deps.
Proof.
  unfold startup. split.
  - destruct (Load Getenv) as [g'|]; [|done]. cbn [res_bind].
    destruct (dial (DatabaseURL g')) as [[[?|] [?|]] [?|]] eqn:Ed; try done. cbn [Open res_bind].
    destruct (wire g' t w) as [deps'|] eqn:Ew; [|done]. by intros [= <- <-].
  - intros (-> & Ed & Ew). cbn [res_bind]. by rewrite Ed, Ew.
Qed.

(** C14: the gateway starts exactly when it should.  [main] gets to the handler
    if and only if the settings load, the database is reached and both upstream
    URLs are absolute - no check of a later constructor refuses a configuration
    that loaded - and then the limits of the usage pipeline are positive, the
    batch fits the queue, and every integer and duration is within its width. *)
Theorem startup_exact Getenv dial t w :
  ((exists g deps, startup Getenv dial t w = Ok (g, deps)) <->
   (exists g, Load Getenv = Ok g /\ dial (DatabaseURL g) = (None, None, None)
      /\ absolute (UserServiceURL g) /\ absolute (OrderServiceURL g)))
  /\ forall g deps, startup Getenv dial t w = Ok (g, deps) ->
     in_int64 (MaxAttempts (pipeline_config g))
     /\ 0 < BatchSize (pipeline_config g) <= QueueCapacity (pipeline_config g)
     /\ QueueCapacity (pipeline_config g) < 2 ^ 63
     /\ 0 < RetryBaseDelay (pipeline_config g) < 2 ^ 63 /\ 0 < UsageShutdownTimeout g < 2 ^ 63.
Proof.
  split.
  - split.
    + intros (g & deps & (El & Ed & Ew)%startup_ok). exists g. split; [done|]. split; [done|].
      apply (wire_starts _ _ t w El). by exists deps.
    + intros (g & El & Ed & Hu). apply (wire_starts _ _ t w El) in Hu as [deps Ew]. exists g, deps. by apply startup_ok.
  - intros g deps (El & _)%startup_ok. by apply Load_starts in El as (_ & _ & Hb).
Qed.

(** An authenticated request belongs to a row of each table. *)
Lemma Authenticate_rows env t pepper key route pr :
  schema_ok t -> Authenticate (service_on env t pepper) key route = Ok pr ->
  exists k c p, k ∈ api_keys t /\ c ∈ clients t /\ cl_id c = ak_client_id k
    /\ p ∈ plans t /\ pl_id p = cl_plan_id c /\ pr = principal_of t k c p route.
Proof.
  intros Ht. unfold Authenticate, service_on. cbn. case_bool_decide; [done|].
  destruct (fault env) as [[e b]|] eqn:Hf; [by unfold LookupActiveKey; rewrite Hf|].
  destruct (LookupActiveKey env t _ route) as [pr'|] eqn:E; [|done]. intros [= ->].
  apply lookup_ok in E as (k & c & p & (? & ? & ? & ? & ? & ? & ? & ?) & ->); [|done..].
  by exists k, c, p.
Qed.

Section Quota.
Context (t : Keys) (Ht : schema_ok t).
Context (k : api_key) (c : client) (p : plan) (route prefix : string).
Context (Hk : k ∈ api_keys t) (Hc : c ∈ clients t) (Hck : cl_id c = ak_client_id k).
Context (Hp : p ∈ plans t) (Hpc : pl_id p = cl_plan_id c).

Let pr := principal_of t k c p route.
Let rate := PrRatePerSecond pr.
Let burst := PrBurstCapacity pr.
Let key := bucket_key prefix (ak_id k) route.

(** No other key and route of the tables has the same bucket name. *)
Definition distinct_buckets : Prop :=
  forall k' path', k' ∈ api_keys t -> (ak_id k', routeKey path') <> (ak_id k, route) ->
  bucket_key prefix (ak_id k') (routeKey path') <> key.

(** Time moves forward; the processes share the prefix and fail closed. *)
Definition sys_ok (ev : sys_event) : Prop :=
  match ev with
  | SysTick d => 0 <= d
  | SysRequest g _ _ => RateLimitPrefix g = prefix /\ RateLimitFailOpen g = false
  end.

Lemma policy_ok : valid_policy rate burst.
Proof. by apply principal_policy. Qed.

(** A key, its client and its plan are determined by the key's identifier. *)
Lemma rows_unique k' c' p' :
  k' ∈ api_keys t -> c' ∈ clients t -> cl_id c' = ak_client_id k' -> p' ∈ plans t ->
  pl_id p' = cl_plan_id c' -> ak_id k' = ak_id k -> k' = k /\ c' = c /\ p' = p.
Proof.
  intros Hk' Hc' Hck' Hp' Hpc' Hid. destruct Ht.
  assert (k' = k) as -> by by eapply (column_inj ak_id).
  assert (c' = c) as -> by (eapply (column_inj cl_id); [done..|congruence]).
  split_and!; [done..|]. eapply (column_inj pl_id); [done..|congruence].
Qed.

(** A request takes a token from the bucket for every time it is forwarded. *)
Lemma request_step g w r deps rd :
  distinct_buckets -> sys_ok (SysRequest g w r) -> wire g t w = Ok deps ->
  bucket_wf rate burst rd key -> clock_ok rd ->
  let res := api deps (w_up w) r (w_moment w) rd in
  let s := {| sv_principal := charged deps r; sv_route := routeKey (path r); sv_result := res |} in
  clock_ms (r_lim res) = clock_ms rd /\ bucket_wf rate burst (r_lim res) key
  /\ (if reached (ak_id k) route s then 1 else 0) * microToken + level rate burst (r_lim res) key
     <= level rate burst rd key.
Proof.
  intros Hdis [Hpre Hopen] Hwire Hwf Hclk res s.
  destruct (wire_ok _ _ _ _ Hwire) as (Hauth & Hlim & Hfo & _).
  unfold reached, s. cbn [sv_principal sv_route sv_result]. subst res s.
  destruct (api_effects deps (w_up w) r (w_moment w) rd) as [-> ->].
  unfold judge, judge_limited, limited, charged. rewrite Hauth, Hlim, Hfo, Hopen.
  destruct (Authenticate (service_on (w_env w) t (APIKeyPepper g)) (api_key_header r) (routeKey (path r)))
    as [pr'|e] eqn:Eauth.
  2:{ destruct (is_invalid_key e); cbn [verdict_contacts]; rewrite andb_false_r; split_and!; try done; lia. }
  destruct (Authenticate_rows _ _ _ _ _ _ Ht Eauth) as (k' & c' & p' & Hk' & Hc' & Hck' & Hp' & Hpc' & ->).
  unfold limiter_on. destruct (Allow _ _ _ _ rd) as [[d rd']|] eqn:EA; cbn [fst snd].
  2:{ cbn [verdict_contacts]. rewrite andb_false_r. split_and!; try done; lia. }
  set (q := limit_request (principal_of t k' c' p' (routeKey (path r))) (path r)) in *.
  assert (event_ok rate burst key (Call (limiter_of g) (w_net w) (w_now w) q)) as Hev.
  { intros E. unfold call_key, limiter_of in E. cbn in E. rewrite Hpre in E.
    destruct (decide ((ak_id k', routeKey (path r)) = (ak_id k, route))) as [[= E1 E2]|Hne].
    - destruct (rows_unique k' c' p') as (-> & -> & ->); [done..|]. subst q. cbn [limit_request RatePerSecond BurstCapacity].
      by rewrite E2.
    - by destruct (Hdis k' (path r) Hk' Hne). }
  destruct (call_step rate burst policy_ok key _ _ _ _ _ _ _ Hev Hwf Hclk EA) as (Hck2 & Hw2 & Hle).
  split; [done|]. split; [done|]. etrans; [|exact Hle]. apply Z.add_le_mono_r, Z.mul_le_mono_nonneg_r; [done|].
  unfold admitted. cbn [KeyID principal_of].
  destruct d as [dec|]; [|cbn [verdict_contacts]; rewrite andb_false_r; lia].
  destruct (Allowed dec); [|cbn [verdict_contacts]; rewrite andb_false_r; cbn; lia].
  destruct (bool_decide_reflect (ak_id k' = ak_id k)) as [E1|]; [|cbn; case_bool_decide; lia].
  destruct (bool_decide_reflect (routeKey (path r) = route)) as [E2|]; [|cbn; case_bool_decide; lia].
  rewrite (bool_decide_eq_true_2 (call_key _ _ = key)); [case_match; cbn; lia|].
  unfold call_key, limiter_of, key. cbn. by rewrite Hpre, E1, E2.
Qed.

Lemma serve_clock evs rd log rd' :
  Forall sys_ok evs -> serve_all t evs rd = (log, rd') -> clock_ms rd <= clock_ms rd'.
Proof.
  intros Hev. revert rd log. induction Hev as [|ev evs Hok Hev IH]; intros rd log; cbn [serve_all].
  { intros [= _ <-]. lia. }
  destruct ev as [d|g w r].
  - intros E. specialize (IH _ _ E). pose proof (clock_tick d rd Hok). lia.
  - destruct (wire g t w) as [deps|] eqn:Hw; [|apply IH].
    destruct (serve_all t evs (r_lim _)) as [log' rd2] eqn:E. intros [= _ <-]. specialize (IH _ _ E).
    destruct (wire_ok _ _ _ _ Hw) as (Hauth & Hlim & _).
    enough (clock_ms (r_lim (api deps (w_up w) r (w_moment w) rd)) = clock_ms rd) by lia.
    rewrite (proj2 (api_effects deps (w_up w) r (w_moment w) rd)). unfold limited. rewrite Hauth, Hlim.
    destruct (Authenticate _ _ _); [|done]. unfold limiter_on.
    destruct (Allow _ _ _ _ rd) as [[d rd3]|] eqn:EA; [|done]. by eapply Allow_clock.
Qed.

Lemma serve_bound evs rd log rd' :
  distinct_buckets -> Forall sys_ok evs -> bucket_wf rate burst rd key -> clock_ok rd' ->
  serve_all t evs rd = (log, rd') ->
  bucket_wf rate burst rd' key
  /\ forwarded (ak_id k) route log * microToken + level rate burst rd' key
     <= level rate burst rd key + (clock_ms rd' - clock_ms rd) * policy_refill rate.
Proof.
  intros Hdis Hev. revert rd log. induction Hev as [|ev evs Hok Hev IH]; intros rd log Hwf Hcl Hs; cbn [serve_all] in Hs.
  { simplify_eq. cbn. split; [done|lia]. }
  pose proof (refill_bounds rate burst policy_ok) as Hrf.
  destruct ev as [d|g w r].
  - destruct (tick_level rate burst policy_ok d rd key Hok Hwf) as [Hl Hw].
    specialize (IH _ _ Hw Hcl Hs) as [Hw' IH]. split; [done|].
    unfold tb_refill in Hl. pose proof (clock_tick d rd Hok). lia.
  - destruct (wire g t w) as [deps|] eqn:Hw; [|by apply IH].
    destruct (serve_all t evs (r_lim _)) as [log' rd2] eqn:E. simplify_eq.
    assert (clock_ok rd) as Hcr.
    { pose proof (serve_clock (SysRequest g w r :: evs) rd) as Hm. cbn [serve_all] in Hm. rewrite Hw, E in Hm.
      specialize (Hm _ _ (Forall_cons_2 _ _ _ Hok Hev) eq_refl). unfold clock_ok in *. lia. }
    destruct (request_step g w r deps rd Hdis Hok Hw Hwf Hcr) as (Hck2 & Hw2 & Hle).
    specialize (IH _ _ Hw2 Hcl E) as [Hw' IH]. split; [done|].
    unfold forwarded in *. rewrite sumZ_cons. rewrite Hck2 in IH. lia.
Qed.
End Quota.


End System.

(** ** Witnesses *)

Definition sys_pepper : string := "dev-only-pepper-change-me".
Definition sys_raw : string := "dev-key-change-me".

Definition sys_plan : plan :=
  {| pl_id := demo_id; pl_slug := "developer"; pl_name := "Developer"; pl_rate := 1; pl_burst := 2 |}.
Definition sys_client : client :=
  {| cl_id := demo_id; cl_plan_id := demo_id; cl_name := "Local Development"; cl_active := true;
     cl_created := 0 |}.
Definition sys_key : api_key :=
  {| ak_id := demo_id; ak_client_id := demo_id; ak_name := "Local development key"; ak_prefix := "dev-key-change-me";
     ak_hash := Digest (bytes_of sys_pepper) sys_raw; ak_revoked := None |}.
Definition sys_keys : Keys :=
  {| plans := [sys_plan]; clients := [sys_client]; api_keys := [sys_key]; quotas := [] |}.

Lemma sys_keys_ok : schema_ok sys_keys.
Proof.
  split; cbn [plans clients api_keys quotas sys_keys fmap list_fmap];
    first [apply NoDup_singleton | apply NoDup_nil_2 | apply Forall_nil_2 | apply Forall_singleton].
  - split; [vm_compute; reflexivity|split; split; cbn; lia].
  - by apply list_elem_of_singleton.
  - split; [vm_compute; reflexivity|by apply list_elem_of_singleton].
Qed.

Definition sys_parse (url : string) : res (string * string) := Ok ("http", url).
Definition sys_gateway (user_url : string) : Config :=
  {| ListenAddr := ":8080"; UserServiceURL := user_url; OrderServiceURL := "orders:8082";
     RedisAddr := "localhost:6379"; RedisPassword := ""; RedisDB := 0; DatabaseURL := "postgres://localhost";
     APIKeyPepper := sys_pepper; RateLimitPrefix := "gateway:ratelimit"; RateLimitFailOpen := false;
     UsageQueueCapacity := 1024; UsageBatchSize := 100; UsageFlushInterval := Second; UsageMaxAttempts := 3;
     UsageRetryBaseDelay := Second; UsageShutdownTimeout := Second; ShutdownTimeout := Second |}.
Definition sys_weather (net : exchange) : Weather :=
  {| w_env := calm; w_net := net; w_now := 0; w_moment := demo_moment; w_up := demo_up |}.
Definition sys_redis : mini := mini_empty 1700000000000000.

(** Two processes, a lost reply, and a pause of a second. *)
Definition sys_trace : list sys_event :=
  let ask url net := SysRequest (sys_gateway url) (sys_weather net) (demo_request sys_raw) in
  [ask "users:1" Delivered; ask "users:2" (LostReply (ErrNew "timeout")); ask "users:1" Delivered;
   SysTick 1000000; ask "users:2" Delivered; ask "users:1" Delivered].

Lemma sys_distinct : distinct_buckets sys_keys sys_key "/api/users" "gateway:ratelimit".
Proof.
  intros k' path' Hk'%list_elem_of_singleton. subst k'.
  assert (bucket_key "gateway:ratelimit" (ak_id sys_key) "/api/orders"
          <> bucket_key "gateway:ratelimit" (ak_id sys_key) "/api/users"
    /\ bucket_key "gateway:ratelimit" (ak_id sys_key) "/api/unknown"
       <> bucket_key "gateway:ratelimit" (ak_id sys_key) "/api/users") as [Ho Hu].
  { apply (bool_decide_eq_true_1 _). vm_compute. reflexivity. }
  unfold routeKey. destruct (under path' "/api/users"); [congruence|].
  destruct (under path' "/api/orders"); intros _; [exact Ho|exact Hu].
Qed.



Lemma startup_exact_witness :
  exists g deps, startup sys_parse (fun _ => "") (fun _ => (None, None, None)) sys_keys (sys_weather Delivered) = Ok (g, deps)
  /\ 0 < BatchSize (pipeline_config g) <= QueueCapacity (pipeline_config g).
Proof.
  destruct (startup_exact sys_parse (fun _ => "") (fun _ => (None, None, None)) sys_keys (sys_weather Delivered)) as [[_ H1] H2].
  destruct H1 as (g & deps & E).
  { destruct (Load (fun _ => "")) as [g|] eqn:E; [|vm_compute in E; discriminate E]. exists g. split; [reflexivity|].
    split; [reflexivity|]. vm_compute in E. injection E as <-.
    split; eexists _, _; (split; [reflexivity|split; discriminate]). }
  exists g, deps. split; [exact E|]. exact (proj1 (proj2 (H2 g deps E))).
Defined.
