(* ===== verification/Process.v ===== *)
(** * The gateway process ([cmd/gateway/main.go])

    From the moment the handler is built: the goroutine of the server, the
    requests it runs, the shutdown signal, and the order in which [main] stops
    the server and closes the usage pipeline.  The pipeline is the step machine
    of [Pipeline]; a request is followed up to its one call of [Enqueue]. *)

From Stdlib Require Import ZArith Lia.
From stdpp Require Import base tactics numbers list gmap strings.
From S2P Require Import Prelude GoLib Event Metrics Pipeline PipelineSafety Config.

Local Open Scope Z_scope.

(** A request: its handler runs, is inside the call of [Enqueue] with that
    index, or has returned. *)
Inductive request :=
| Handling
| Enqueueing (i : nat)
| Replied.

(** Where [main] is: waiting for the signal, inside [server.Shutdown], inside
    [usagePipeline.Close] with that index, or gone. *)
Inductive phase :=
| Serving
| Draining
| Closing (i : nat)
| Exited (code : Z).

Record process (D : Type) := {
  ph : phase;
  inflight : list request;
  pipe : state Registry D;
}.
Arguments ph {D} p.
Arguments inflight {D} p.
Arguments pipe {D} p.

Section Process.
Context {D F : Type} `{UsageStore F D}.
Context (g : Config.Config).

Let cfg := pipeline_config g.

Definition set_ph (x : phase) (p : process D) : process D :=
  {| ph := x; inflight := inflight p; pipe := pipe p |}.
Definition set_inflight (l : list request) (p : process D) : process D :=
  {| ph := ph p; inflight := l; pipe := pipe p |}.
Definition set_pipe (s : state Registry D) (p : process D) : process D :=
  {| ph := ph p; inflight := inflight p; pipe := s |}.

Inductive event :=
| Accept                              (* the server starts a handler *)
| HandOver (j : nat) (e : Event)      (* a handler calls [Enqueue] *)
| Reply (j : nat)                     (* a handler returns *)
| Pipe (a : action F)                 (* a step inside the pipeline *)
| Signal                              (* SIGINT or SIGTERM *)
| ListenFails                         (* [ListenAndServe] returns another error *)
| ShutdownOk                          (* [server.Shutdown] returns nil *)
| ShutdownExpired                     (* its context is done first *)
| CloseReturns.                       (* [usagePipeline.Close] has returned *)

(** Calls of [Enqueue] and [Close] come from requests and from [main]; only
    the context of [main]'s own call can expire. *)
Definition internal (p : process D) (a : action F) : bool :=
  match a with
  | A_enqueue _ | A_close => false
  | A_deadline i => match ph p with Closing j => (i =? j)%nat | _ => false end
  | _ => true
  end.

Definition is_replied (r : request) : bool := match r with Replied => true | _ => false end.

(** One event.  A server that shuts down may still start handlers on the
    connections it has; it returns nil when none is left. *)
Definition pstep (ev : event) (p : process D) : option (process D) :=
  match ph p with
  | Exited _ => None
  | _ =>
      match ev with
      | Accept =>
          match ph p with
          | Serving | Draining => Some (set_inflight (inflight p ++ [Handling]) p)
          | _ => None
          end
      | HandOver j e =>
          match inflight p !! j with
          | Some Handling =>
              s ← step cfg (A_enqueue e) (pipe p);
              Some (set_pipe s (set_inflight (<[j := Enqueueing (length (producers (pipe p)))]> (inflight p)) p))
          | _ => None
          end
      | Reply j =>
          match inflight p !! j with
          | Some Handling => Some (set_inflight (<[j := Replied]> (inflight p)) p)
          | Some (Enqueueing i) =>
              match producers (pipe p) !! i with
              | Some (P_ret _) => Some (set_inflight (<[j := Replied]> (inflight p)) p)
              | _ => None
              end
          | _ => None
          end
      | Pipe a => if internal p a then s ← step cfg a (pipe p); Some (set_pipe s p) else None
      | Signal => match ph p with Serving => Some (set_ph Draining p) | _ => None end
      | ListenFails => match ph p with Serving => Some (set_ph (Exited 1) p) | _ => None end
      | ShutdownOk =>
          match ph p with
          | Draining =>
              if forallb is_replied (inflight p) then
                s ← step cfg A_close (pipe p);
                Some (set_pipe s (set_ph (Closing (length (closers (pipe p)))) p))
              else None
          | _ => None
          end
      | ShutdownExpired => match ph p with Draining => Some (set_ph (Exited 1) p) | _ => None end
      | CloseReturns =>
          match ph p with
          | Closing i =>
              match closers (pipe p) !! i with
              | Some (C_ret ok, _) => Some (set_ph (Exited (if ok then 0 else 1)) p)
              | _ => None
              end
          | _ => None
          end
      end
  end.

Definition boot (s0 : state Registry D) : process D := {| ph := Serving; inflight := []; pipe := s0 |}.

Fixpoint prun (evs : list event) (p : process D) : option (process D) :=
  match evs with
  | [] => Some p
  | ev :: evs' => p' ← pstep ev p; prun evs' p'
  end.

Inductive alive (s0 : state Registry D) : process D -> Prop :=
| alive_boot : alive s0 (boot s0)
| alive_step ev p p' : alive s0 p -> pstep ev p = Some p' -> alive s0 p'.
End Process.
Arguments event : clear implicits.

(** ** Ownership *)

Section Proofs.
Context {D F : Type} `{UsageStore F D}.
Context (g : Config.Config) (d : D) (s0 : state Registry D).
Context (Hnew : NewPipeline (pipeline_config g) (Some d) NewRegistry = Ok s0).
Context (Hint : in_int64 (MaxAttempts (pipeline_config g))).

Local Notation cfg := (pipeline_config g).
Local Notation pipeline := (state Registry D).

Definition done_call (x : producer) : Prop := exists b, x = P_ret b.

(** Inside the pipeline a call that has returned stays as it is, and no call
    appears. *)
Lemma inner_step (a : action F) (s s' : pipeline) :
  step cfg a s = Some s' -> (forall e, a <> A_enqueue e) ->
  forall i x', producers s' !! i = Some x' -> exists x, producers s !! i = Some x /\ (done_call x -> x' = x).
Proof.
  intros Hstep Hne i x' Hx'.
  assert (producers s' = producers s -> exists x, producers s !! i = Some x /\ (done_call x -> x' = x)) as Hsame.
  { intros E. rewrite E in Hx'. by exists x'. }
  unfold step in Hstep. destruct (panicked (sh s)); [done|]. destruct a as [e|j| |j pick|j| |ch f].
  - by destruct (Hne e).
  - destruct (producers s !! j) as [y|] eqn:Hy; [|done]. cbn in Hstep.
    assert (producers s' = producers s \/ exists z, producers s' = <[j := z]> (producers s)) as [E|[z E]];
      [|by apply Hsame|destruct (decide (i = j)) as [->|Hij]].
    + unfold producer_step, panic in Hstep. repeat case_match; simplify_eq/=; first [by left | right; by eexists].
    + exists y. split; [done|]. intros [b ->]. by unfold producer_step in Hstep.
    + rewrite E, list_lookup_insert_ne in Hx' by done. by exists x'.
  - apply Hsame. by simplify_eq.
  - apply Hsame. destruct (closers s !! j) as [[c x]|]; [|done]. cbn in Hstep.
    unfold closer_step, panic in Hstep. repeat case_match; by simplify_eq/=.
  - apply Hsame. by simplify_eq.
  - apply Hsame. case_match; by simplify_eq.
  - apply Hsame. by apply worker_step_frame in Hstep as [-> _].
Qed.

(** The pipeline of a process is one of [Pipeline]'s; a call of [Enqueue] has
    returned or belongs to a request that has not; [main] closes the pipeline
    when all requests have. *)
Record process_inv (p : process D) : Prop := {
  pr_pipe : reachable cfg s0 (pipe p);
  pr_owned : forall i x, producers (pipe p) !! i = Some x -> done_call x \/ Enqueueing i ∈ inflight p;
  pr_phase : match ph p with
             | Serving | Draining => True
             | Closing _ => Forall (fun r => r = Replied) (inflight p)
             | Exited c => c = 0 -> Forall (fun r => r = Replied) (inflight p)
                           /\ exists i x, closers (pipe p) !! i = Some (C_ret true, x)
             end;
}.

Lemma insert_keeps (l : list request) j old new i :
  l !! j = Some old -> old <> Enqueueing i -> Enqueueing i ∈ l -> Enqueueing i ∈ <[j := new]> l.
Proof.
  intros Hj Hne [k Hk]%list_elem_of_lookup. apply list_elem_of_lookup. exists k.
  rewrite list_lookup_insert_ne; [done|]. intros ->. congruence.
Qed.

Lemma all_replied (l : list request) : forallb is_replied l = true -> Forall (fun r => r = Replied) l.
Proof. rewrite forallb_Forall. intros Hl. eapply Forall_impl; [exact Hl|]. by intros []. Qed.

Lemma inner_inv (a : action F) p s :
  process_inv p -> internal p a = true -> step cfg a (pipe p) = Some s -> ph p <> Exited 0 -> process_inv (set_pipe s p).
Proof.
  intros [Hp Ho Hph] Hi Hs Hex. split; cbn.
  - by eapply reach_step.
  - intros i x' Hx'. destruct (inner_step a (pipe p) s Hs) with (i := i) (x' := x') as (x & Hx & Hd);
      [by intros e ->|done|]. destruct (Ho i x Hx) as [Hdone|Hin]; [left|by right]. by rewrite (Hd Hdone).
  - destruct (ph p) as [| |j|c]; try done. intros ->. done.
Qed.

(** Events that leave the pipeline alone. *)
Lemma outer_inv p p' :
  process_inv p -> pipe p' = pipe p ->
  (forall i, Enqueueing i ∈ inflight p ->
     (exists b, producers (pipe p) !! i = Some (P_ret b)) \/ Enqueueing i ∈ inflight p') ->
  match ph p' with
  | Serving | Draining => True
  | Closing _ => Forall (fun r => r = Replied) (inflight p')
  | Exited c => c = 0 -> Forall (fun r => r = Replied) (inflight p')
                /\ exists i x, closers (pipe p') !! i = Some (C_ret true, x)
  end -> process_inv p'.
Proof.
  intros [Hp Ho _] Epipe Hin Hph. split; [by rewrite Epipe| |done].
  intros i x Hx. rewrite Epipe in Hx. destruct (Ho i x Hx) as [?|Hi]; [by left|].
  destruct (Hin i Hi) as [[b Hb]|?]; [left|by right]. exists b. congruence.
Qed.

Lemma handover_inv p j e s :
  process_inv p -> inflight p !! j = Some Handling -> step cfg (A_enqueue (F := F) e) (pipe p) = Some s ->
  match ph p with Serving | Draining => True | _ => False end ->
  process_inv (set_pipe s (set_inflight (<[j := Enqueueing (length (producers (pipe p)))]> (inflight p)) p)).
Proof.
  intros [Hp Ho Hph] Hj Hs Hserv. split; cbn; [by eapply reach_step| |by destruct (ph p)].
  unfold step in Hs. destruct (panicked (sh (pipe p))); [done|]. simplify_eq. cbn.
  intros i x Hx. apply lookup_app_Some in Hx as [Hx|[Hlen Hx]].
  - destruct (Ho i x Hx) as [?|Hin]; [by left|right]. by eapply insert_keeps.
  - right. apply list_lookup_singleton_Some in Hx as [Hx _].
    assert (i = length (producers (pipe p))) as -> by lia. apply list_elem_of_lookup. exists j.
    apply list_lookup_insert_eq. by eapply lookup_lt_Some.
Qed.

Lemma replied_lookup (l : list request) j x : Forall (fun r => r = Replied) l -> l !! j = Some x -> x = Replied.
Proof. intros Hl Hj. by apply (Forall_lookup_1 _ _ _ _ Hl Hj). Qed.

Lemma pstep_inv (ev : event F) p p' : process_inv p -> pstep g ev p = Some p' -> process_inv p'.
Proof.
  intros Hinv E. pose proof (pr_phase _ Hinv) as Hph. unfold pstep in E.
  assert (exists q, ph p = q /\ forall c, q <> Exited c) as (q & Eq & Hq).
  { eexists. split; [reflexivity|]. intros c Ec. by rewrite Ec in E. }
  destruct ev as [|j e|j|a| | | | |].
  - destruct (ph p) eqn:Ep; try done; simplify_eq; (eapply outer_inv; [done|done|intros i Hi; right; cbn; apply elem_of_app; by left|];
      cbn; by rewrite Ep).
  - destruct (inflight p !! j) as [[| |]|] eqn:Ej; try by destruct (ph p).
    destruct (step (pipeline_config g) (A_enqueue e) (pipe p)) as [s|] eqn:Es; [|by destruct (ph p)].
    assert (p' = set_pipe s (set_inflight (<[j := Enqueueing (length (producers (pipe p)))]> (inflight p)) p)) as ->
      by (cbn [mbind option_bind] in E; destruct (ph p); by simplify_eq).
    eapply handover_inv; try done. destruct (ph p) as [| |k|c]; try done.
    by pose proof (replied_lookup _ _ _ Hph Ej).
  - assert (p' = set_inflight (<[j := Replied]> (inflight p)) p
      /\ forall i, Enqueueing i ∈ inflight p ->
           (exists b, producers (pipe p) !! i = Some (P_ret b)) \/ Enqueueing i ∈ <[j := Replied]> (inflight p)) as [-> Hin].
    { destruct (inflight p !! j) as [[|m|]|] eqn:Ej; try by destruct (ph p).
      - split; [destruct (ph p); by simplify_eq|]. intros i Hi. right. by eapply insert_keeps.
      - destruct (producers (pipe p) !! m) as [[]|] eqn:Em; try by destruct (ph p).
        split; [destruct (ph p); by simplify_eq|]. intros i Hi. destruct (decide (i = m)) as [->|Hne]; [left; by eexists|].
        right. eapply insert_keeps; [done| |done]. congruence. }
    eapply outer_inv; [done|done|done|]. cbn. destruct (ph p) as [| |k|c]; try done.
    by apply Forall_insert.
  - destruct (internal p a) eqn:Ei; [|by destruct (ph p)].
    destruct (step (pipeline_config g) a (pipe p)) as [s|] eqn:Es; [|by destruct (ph p)].
    assert (p' = set_pipe s p) as -> by (cbn [mbind option_bind] in E; destruct (ph p); by simplify_eq). eapply inner_inv; try done. by rewrite Eq.
  - destruct (ph p); simplify_eq. eapply outer_inv; [done|done|by right|done].
  - destruct (ph p); simplify_eq. eapply outer_inv; [done|done|by right|done].
  - destruct (ph p); try done. destruct (forallb is_replied (inflight p)) eqn:Er; [|done].
    destruct (step (pipeline_config g) A_close (pipe p)) as [s|] eqn:Es; [|done]. cbn in E. simplify_eq.
    destruct Hinv as [Hp Ho _]. split; cbn; [by eapply reach_step| |by apply all_replied].
    unfold step in Es. destruct (panicked (sh (pipe p))); [done|]. by simplify_eq.
  - destruct (ph p); simplify_eq. eapply outer_inv; [done|done|by right|done].
  - destruct (ph p) as [| |k|c] eqn:Ep; try done. destruct (closers (pipe p) !! k) as [[[] x]|] eqn:Ec; try done.
    simplify_eq. eapply outer_inv; [done|done|by right|]. cbn. destruct ok; [|done]. intros _. split; [done|by exists k, x].
Qed.

Lemma alive_inv p : alive g s0 p -> process_inv p.
Proof.
  induction 1 as [|ev p p' _ IH Hst]; [|by eapply pstep_inv].
  split; cbn; [constructor| |done]. intros i x Hx.
  destruct (started _ _ _ _ Hnew Hint) as [_ Hs0]. rewrite Hs0 in Hx. by destruct i.
Qed.


End Proofs.

(** ** Witnesses *)

Definition calm_config : Config.Config :=
  {| ListenAddr := ":8080"; UserServiceURL := "http://users"; OrderServiceURL := "http://orders";
     RedisAddr := "localhost:6379"; RedisPassword := ""; RedisDB := 0; DatabaseURL := "postgres://localhost";
     APIKeyPepper := "0123456789abcdef"; RateLimitPrefix := "gateway"; RateLimitFailOpen := false;
     UsageQueueCapacity := 2; UsageBatchSize := 2; UsageFlushInterval := Second; UsageMaxAttempts := 2;
     UsageRetryBaseDelay := Second; UsageShutdownTimeout := Second; ShutdownTimeout := Second |}.

Definition one_request : list (event (option gerror)) :=
  [Accept; HandOver 0 (demo_event "a")] ++ replicate 8 (Pipe (A_producer 0)).

(** One request, the signal, and a clean stop; or a request that hangs. *)
Definition clean_stop : list (event (option gerror)) :=
  one_request ++ [Reply 0; Signal; ShutdownOk] ++ replicate 6 (Pipe (A_closer 0 true))
  ++ replicate 9 (Pipe (A_worker OnQueue None)) ++ [Pipe (A_closer 0 true); CloseReturns].
Definition hung_stop : list (event (option gerror)) := one_request ++ [Reply 0; Accept; Signal].

Definition calm_start : process (list Event * list Event) := boot (initial (pipeline_config calm_config) NewRegistry ([], [])).

Lemma prun_alive evs p :
  prun calm_config evs calm_start = Some p ->
  alive (F := option gerror) calm_config (initial (pipeline_config calm_config) NewRegistry ([], [])) p.
Proof.
  assert (forall q, alive (F := option gerror) calm_config (initial (pipeline_config calm_config) NewRegistry ([], [])) q ->
    prun calm_config evs q = Some p ->
    alive (F := option gerror) calm_config (initial (pipeline_config calm_config) NewRegistry ([], [])) p) as Hgo.
  { induction evs as [|ev evs IH]; intros q Hq E; cbn in E; [by simplify_eq|].
    destruct (pstep calm_config ev q) as [q'|] eqn:Es; [|done]. apply (IH q'); [|done]. by eapply alive_step. }
  apply Hgo. constructor.
Qed.

Lemma calm_new : NewPipeline (pipeline_config calm_config) (Some ([], [])) NewRegistry
  = Ok (initial (O := Registry) (D := list Event * list Event) (pipeline_config calm_config) NewRegistry ([], [])).
Proof. reflexivity. Qed.

Lemma calm_int : in_int64 (MaxAttempts (pipeline_config calm_config)).
Proof. split; vm_compute; congruence. Qed.


