(* ===== verification/Benchmark.v ===== *)
(** * Benchmark results ([internal/benchmark/result.go])

    The aggregation of request samples: counts by status and upstream, rates in
    doubles, and the latency summary with its percentiles. *)

From Stdlib Require Import ZArith Lia QArith Qcanon.
From stdpp Require Import base tactics numbers list gmap strings sorting.
From S2P Require Import Prelude GoLib Float64.

Local Open Scope Z_scope.

Definition SchemaVersion : Z := 1.

Record Sample := {
  LatencyMicros : Z;
  StatusCode : Z;
  TransportError : bool;
  RateLimitHeadersValid : bool;
  Upstream : string;
}.

Record LatencySummary := {
  Minimum : Qc;
  Mean : Qc;
  P50 : Qc;
  P95 : Qc;
  P99 : Qc;
  Maximum : Qc;
}.

Record Verification := {
  Passed : bool;
  Checks : gmap string bool;
  Accepted : Z;
  Denied : Z;
  TheoreticalMaximumAccepted : Z;
  ObservedUpstreams : Z;
}.

Record Metadata := {
  MdTool : string;
  MdScenario : string;
  MdTarget : string;
  MdWarmupRequests : Z;
  MdConcurrency : Z;
  MdGatewayInstances : Z;
  MdStartedAt : Z;
  MdDuration : Z;
  MdEnvironment : gmap string string;
}.

Record Result := {
  ResSchemaVersion : Z;
  Tool : string;
  Scenario : string;
  StartedAt : Z;
  Target : string;
  Requests : Z;
  WarmupRequests : Z;
  Concurrency : Z;
  GatewayInstances : Z;
  DurationMS : Qc;
  ThroughputRPS : Qc;
  LatencyMS : LatencySummary;
  StatusCounts : gmap string Z;
  TransportErrors : Z;
  HTTPErrors : Z;
  ErrorRatePercent : Qc;
  RateLimited : Z;
  UpstreamCounts : gmap string Z;
  ResVerification : option Verification;
  Environment : gmap string string;
  Samples : list Sample;
}.

(** ** Percentiles *)

(** The [float64] literal [a / b]. *)
Definition literal (a : Z) (b : positive) : Qc := rnd (Q2Qc (a # b)).

(** A quotient whose divisor is not zero. *)
Definition quotient (x y : Qc) : Qc := default (Qc_of_Z 0) (fdiv x y).

Definition count (l : list Z) : Z := Z.of_nat (length l).

Definition percentile (sorted : list Z) (quantile : Qc) : Z :=
  if count sorted =? 0 then 0
  else
    let index := fceil (fmul quantile (f64 (count sorted))) - 1 in
    let index := if index <? 0 then 0 else index in
    let index := if count sorted <=? index then count sorted - 1 else index in
    nth (Z.to_nat index) sorted 0.

Definition toMilliseconds (value : Z) : Qc := quotient (f64 value) (f64 1000).

Definition SummarizeLatency (values : list Z) : LatencySummary :=
  if count values =? 0 then
    {| Minimum := f64 0; Mean := f64 0; P50 := f64 0; P95 := f64 0; P99 := f64 0; Maximum := f64 0 |}
  else
    let sorted := merge_sort Z.le values in
    let total := foldl (fun total value => wrap64 (total + value)) 0 sorted in
    {| Minimum := toMilliseconds (nth 0 sorted 0);
       Mean := quotient (toMilliseconds total) (f64 (count sorted));
       P50 := toMilliseconds (percentile sorted (literal 50 100));
       P95 := toMilliseconds (percentile sorted (literal 95 100));
       P99 := toMilliseconds (percentile sorted (literal 99 100));
       Maximum := toMilliseconds (nth (length sorted - 1) sorted 0) |}.

(** ** Aggregation *)

Definition incr (k : string) (m : gmap string Z) : gmap string Z := <[k := default 0 (m !! k) + 1]> m.

(** The counters of the loop over the samples. *)
Record Tally := {
  statusCounts : gmap string Z;
  upstreamCounts : gmap string Z;
  latencies : list Z;
  transportErrors : Z;
  httpErrors : Z;
  rateLimited : Z;
}.

Definition no_samples : Tally :=
  {| statusCounts := ∅; upstreamCounts := ∅; latencies := []; transportErrors := 0; httpErrors := 0;
     rateLimited := 0 |}.

Definition tally (t : Tally) (s : Sample) : Tally :=
  {| statusCounts := if TransportError s then statusCounts t else incr (Itoa (StatusCode s)) (statusCounts t);
     upstreamCounts := if bool_decide (Upstream s = "") then upstreamCounts t
                       else incr (Upstream s) (upstreamCounts t);
     latencies := latencies t ++ [LatencyMicros s];
     transportErrors := if TransportError s then transportErrors t + 1 else transportErrors t;
     httpErrors := if 400 <=? StatusCode s then httpErrors t + 1 else httpErrors t;
     rateLimited := if StatusCode s =? 429 then rateLimited t + 1 else rateLimited t |}.

(** [Duration.Seconds] and [Duration.Microseconds]. *)
Definition duration_Seconds (d : Z) : Qc :=
  fadd (f64 (Z.quot d Second)) (quotient (f64 (Z.rem d Second)) (f64 Second)).
Definition duration_Microseconds (d : Z) : Z := Z.quot d 1000.

Definition NewResult (metadata : Metadata) (samples : list Sample) : Result :=
  let t := foldl tally no_samples samples in
  let n := Z.of_nat (length samples) in
  let durationSeconds := duration_Seconds (MdDuration metadata) in
  let throughput := if fleb durationSeconds (f64 0) then f64 0 else quotient (f64 n) durationSeconds in
  let errorRate :=
    if 0 <? n then quotient (fmul (f64 100) (f64 (transportErrors t + httpErrors t))) (f64 n) else f64 0 in
  {| ResSchemaVersion := SchemaVersion;
     Tool := MdTool metadata;
     Scenario := MdScenario metadata;
     StartedAt := MdStartedAt metadata;
     Target := MdTarget metadata;
     Requests := n;
     WarmupRequests := MdWarmupRequests metadata;
     Concurrency := MdConcurrency metadata;
     GatewayInstances := MdGatewayInstances metadata;
     DurationMS := quotient (f64 (duration_Microseconds (MdDuration metadata))) (f64 1000);
     ThroughputRPS := throughput;
     LatencyMS := SummarizeLatency (latencies t);
     StatusCounts := statusCounts t;
     TransportErrors := transportErrors t;
     HTTPErrors := httpErrors t;
     ErrorRatePercent := errorRate;
     RateLimited := rateLimited t;
     UpstreamCounts := upstreamCounts t;
     ResVerification := None;
     Environment := MdEnvironment metadata;
     Samples := samples |}.

(** [Decode], over what the JSON decoder answers. *)
Definition Decode (decoded : res Result) : res Result :=
  match decoded with
  | Err e => Err (ErrWrap "decode benchmark result: " e)
  | Ok r =>
      if negb (ResSchemaVersion r =? SchemaVersion) then
        Err (ErrNew ("unsupported benchmark schema version " +:+ Itoa (ResSchemaVersion r)))
      else if bool_decide (Tool r = "") || bool_decide (Scenario r = "") || (Requests r <=? 0) then
        Err (ErrNew "benchmark result is missing required metadata")
      else Ok r
  end.

(** ** Nearest rank *)

(** The value [v] has rank [a] percent: at least [a] percent of the values are
    not above it, and less than [a] percent are below it. *)
Definition nearest_rank (a v : Z) (values : list Z) : Prop :=
  v ∈ values
  /\ a * count values <= 100 * count (filter (fun x => x <= v) values)
  /\ 100 * count (filter (fun x => x < v) values) < a * count values.

(** [q] is [a] percent, from below and up to 2^-53. *)
Definition percent_of (a : Z) (q : Qc) : Prop :=
  100 * Qnum q <= a * Zpos (Qden q)
  /\ a * Zpos (Qden q) * 2 ^ 53 <= 100 * Qnum q * 2 ^ 53 + 100 * Zpos (Qden q).

(** The index of the code is the rank, although the product is rounded. *)
Lemma rank_index a q n :
  1 <= a <= 100 -> percent_of a q -> 1 <= n <= 2 ^ 40 -> fceil (fmul q (f64 n)) = cdiv (a * n) 100.
Proof.
  intros Ha [Hle Hge] Hn. unfold fmul. rewrite f64_Z by lia. set (x := (q * Qc_of_Z n)%Qc).
  assert (Qnum x * Zpos (Qden q) = Qnum q * n * Zpos (Qden x)) as Ex.
  { assert (x == q * inject_Z n)%Q as E by (subst x; cbn; apply Qred_correct).
    clearbody x. unfold Qeq in E. cbn in E. rewrite Pos.mul_1_r in E. lia. }
  set (K := cdiv (a * n) 100).
  assert (a * n <= K * 100) as HK1 by (apply (cdiv_spec (a * n) 100 K); [lia|apply Z.le_refl]).
  assert ((K - 1) * 100 + 1 <= a * n) as HK2.
  { destruct (Z.le_gt_cases (a * n) ((K - 1) * 100)) as [Hc|]; [|lia].
    apply (cdiv_spec (a * n) 100) in Hc; [|lia]. fold K in Hc. lia. }
  assert (1 <= K) by nia. assert (K <= n) by nia.
  set (N := Qnum x) in *. set (D := Zpos (Qden x)) in *. set (qn := Qnum q) in *. set (qd := Zpos (Qden q)) in *.
  assert (0 < D) by (subst D; lia). assert (0 < qd) by (subst qd; lia).
  assert (100 * N <= a * n * D) as HxK by nia.
  assert (a * n * D * 2 ^ 53 <= 100 * N * 2 ^ 53 + 100 * n * D) as Hxg by nia.
  assert (0 < N) as HN by nia.
  apply fceil_unique.
  - apply rnd_gt_margin; [lia|rewrite lt_Qc_of_Z_iff; fold N D; nia|]. fold N D. nia.
  - apply rnd_le_Z; [rewrite Qc_of_Z_lt_iff; fold N D; lia|lia|].
    rewrite Qc_of_Z_lt_iff. fold N D. nia.
Qed.

Lemma percents : percent_of 50 (literal 50 100) /\ percent_of 95 (literal 95 100) /\ percent_of 99 (literal 99 100).
Proof. repeat split; vm_compute; congruence. Qed.

Lemma count_nonneg l : 0 <= count l.
Proof. unfold count. lia. Qed.

Lemma filter_everything (P : Z -> Prop) `{forall x, Decision (P x)} l : Forall P l -> filter P l = l.
Proof. induction 1; [done|]. rewrite filter_cons_True by done. by f_equal. Qed.

Lemma filter_nothing (P : Z -> Prop) `{forall x, Decision (P x)} l : Forall (fun x => ~ P x) l -> filter P l = [].
Proof. induction 1; [done|]. by rewrite filter_cons_False. Qed.

(** In a sorted list the element at index [i] has [i] elements before it. *)
Lemma sorted_ranks l i v :
  StronglySorted Z.le l -> l !! i = Some v ->
  Z.of_nat i + 1 <= count (filter (fun x => x <= v) l)
  /\ count (filter (fun x => x < v) l) <= Z.of_nat i.
Proof.
  intros Hs Hi. pose proof (lookup_lt_Some _ _ _ Hi) as Hlt.
  rewrite <- (take_drop_middle l i v Hi) in Hs |- *.
  assert (length (take i l) = i) as Hlen by (rewrite length_take; lia).
  assert (forall x, x ∈ take i l -> x <= v) as Hbefore.
  { intros x Hx. eapply StronglySorted_app_1_elem_of; [exact Hs|done|by left]. }
  assert (forall x, x ∈ drop (S i) l -> v <= x) as Hafter.
  { intros x Hx. apply StronglySorted_app_1_r in Hs. inversion Hs as [|? ? _ Hall]. subst.
    by eapply Forall_forall in Hall. }
  unfold count. rewrite !filter_app, !filter_cons, !length_app.
  rewrite (filter_everything (fun x => x <= v) (take i l)) by (apply Forall_forall; done).
  rewrite decide_True by lia. rewrite decide_False by lia. split; [cbn [length]; lia|].
  rewrite (filter_nothing (fun x => x < v) (drop (S i) l)).
  - pose proof (length_filter (fun x => x < v) (take i l)). cbn [length]. lia.
  - apply Forall_forall. intros x Hx%Hafter. lia.
Qed.

Lemma sorted_ends l lo hi :
  StronglySorted Z.le l -> l !! 0%nat = Some lo -> l !! (length l - 1)%nat = Some hi ->
  Forall (fun x => lo <= x) l /\ Forall (fun x => x <= hi) l.
Proof.
  intros Hs Hlo Hhi. split.
  - destruct l as [|x l]; [done|]. cbn in Hlo. simplify_eq. inversion Hs. subst.
    constructor; [apply Z.le_refl|done].
  - pose proof (take_drop_middle l _ hi Hhi) as E. rewrite <- E in Hs |- *.
    rewrite drop_ge in Hs |- * by lia. apply Forall_app. split; [|by apply Forall_singleton].
    apply Forall_forall. intros x Hx. eapply StronglySorted_app_1_elem_of; [exact Hs|done|by left].
Qed.

Lemma count_filter_perm (P : Z -> Prop) `{forall x, Decision (P x)} l l' :
  l ≡ₚ l' -> count (filter P l) = count (filter P l').
Proof. intros E. unfold count. by rewrite E. Qed.

Lemma percentile_rank a q values :
  1 <= a <= 100 -> percent_of a q -> 1 <= count values <= 2 ^ 40 ->
  nearest_rank a (percentile (merge_sort Z.le values) q) values.
Proof.
  intros Ha Hq Hn. set (l := merge_sort Z.le values).
  assert (l ≡ₚ values) as Hperm by apply merge_sort_Permutation.
  assert (count l = count values) as Hc by (unfold count; by rewrite Hperm).
  unfold percentile. rewrite Hc, (rank_index a) by done. set (K := cdiv (a * count values) 100).
  assert (a * count values <= K * 100) as HK1 by (apply (cdiv_spec _ 100 K); [lia|apply Z.le_refl]).
  assert ((K - 1) * 100 < a * count values) as HK2.
  { destruct (Z.le_gt_cases (a * count values) ((K - 1) * 100)) as [Hx|]; [|lia].
    apply (cdiv_spec _ 100) in Hx; [|lia]. fold K in Hx. lia. }
  assert (1 <= K <= count values) as HK by nia.
  rewrite (proj2 (Z.eqb_neq _ _)), (proj2 (Z.ltb_ge (K - 1) 0)), (proj2 (Z.leb_gt (count values) (K - 1))) by lia.
  destruct (lookup_lt_is_Some_2 l (Z.to_nat (K - 1))) as [v Hv]; [unfold count in *; lia|].
  rewrite (nth_lookup_Some _ _ _ _ Hv).
  destruct (sorted_ranks l (Z.to_nat (K - 1)) v) as [H1 H2]; [by apply (StronglySorted_merge_sort Z.le)|done|].
  rewrite (count_filter_perm _ l values Hperm) in H1. rewrite (count_filter_perm _ l values Hperm) in H2.
  split; [rewrite <- Hperm; by eapply list_elem_of_lookup_2|]. lia.
Qed.

(** ** Counting *)

Definition number (P : Sample -> bool) (samples : list Sample) : Z :=
  sumZ (fun s => if P s then 1 else 0) samples.

Definition of_status (c : Z) (s : Sample) : bool := negb (TransportError s) && (StatusCode s =? c).
Definition of_upstream (u : string) (s : Sample) : bool := bool_decide (Upstream s = u).

Lemma number_nonneg P l : 0 <= number P l.
Proof. apply sumZ_nonneg. intros s _. destruct (P s); lia. Qed.

Lemma number_snoc P l s : number P (l ++ [s]) = number P l + (if P s then 1 else 0).
Proof. unfold number. by rewrite sumZ_app, sumZ_one. Qed.

(** An entry of a count map: absent instead of zero. *)
Definition entry (n : Z) : option Z := if n =? 0 then None else Some n.

Lemma entry_incr n : 0 <= n -> Some (default 0 (entry n) + 1) = entry (n + 1).
Proof. intros Hn. unfold entry. destruct (Z.eqb_spec n 0), (Z.eqb_spec (n + 1) 0); cbn; f_equal; lia. Qed.

Lemma tally_exact samples :
  let t := foldl tally no_samples samples in
  (forall c, statusCounts t !! Itoa c = entry (number (of_status c) samples))
  /\ (forall u, u <> "" -> upstreamCounts t !! u = entry (number (of_upstream u) samples))
  /\ latencies t = LatencyMicros <$> samples
  /\ transportErrors t = number TransportError samples
  /\ httpErrors t = number (fun s => 400 <=? StatusCode s) samples
  /\ rateLimited t = number (fun s => StatusCode s =? 429) samples.
Proof.
  induction samples as [|s l (H1 & H2 & H3 & H4 & H5 & H6)] using rev_ind; [done|]. cbv zeta in *.
  rewrite foldl_snoc. set (t := foldl tally no_samples l) in *. cbn [tally statusCounts upstreamCounts latencies
    transportErrors httpErrors rateLimited]. rewrite !number_snoc, fmap_app, H3, H4, H5, H6.
  split_and!; try (by case_match; lia); try done.
  - intros c. rewrite number_snoc. unfold of_status at 2. destruct (TransportError s); cbn [negb andb];
      [by rewrite Z.add_0_r|]. unfold incr. destruct (Z.eqb_spec (StatusCode s) c) as [->|Hne].
    + rewrite lookup_insert_eq, H1. by apply entry_incr, number_nonneg.
    + rewrite lookup_insert_ne by (by intros ?%Itoa_inj). by rewrite Z.add_0_r.
  - intros u Hu. rewrite number_snoc. unfold of_upstream at 2. case_bool_decide as E1; case_bool_decide as E2; subst.
    + done.
    + by rewrite Z.add_0_r, H2.
    + unfold incr. rewrite lookup_insert_eq, H2 by done. by apply entry_incr, number_nonneg.
    + unfold incr. rewrite lookup_insert_ne by done. by rewrite Z.add_0_r, H2.
Qed.

(** C31: a result says what was measured.  The status map holds for every code
    the number of responses with it and nothing else, the upstream map and the
    three counters likewise; and the reported minimum and maximum are those of
    the samples and P50, P95 and P99 their nearest-rank percentiles - the
    rounding of the quantile's product never picks a neighbouring sample - for
    up to 2^40 samples. *)
Theorem NewResult_exact metadata samples :
  1 <= Z.of_nat (length samples) <= 2 ^ 40 ->
  let r := NewResult metadata samples in
  let values := LatencyMicros <$> samples in
  (forall c, StatusCounts r !! Itoa c = entry (number (of_status c) samples))
  /\ (forall u, u <> "" -> UpstreamCounts r !! u = entry (number (of_upstream u) samples))
  /\ TransportErrors r = number TransportError samples
  /\ HTTPErrors r = number (fun s => 400 <=? StatusCode s) samples
  /\ RateLimited r = number (fun s => StatusCode s =? 429) samples
  /\ exists lo hi p50 p95 p99,
       Minimum (LatencyMS r) = toMilliseconds lo /\ lo ∈ values /\ Forall (fun x => lo <= x) values
       /\ Maximum (LatencyMS r) = toMilliseconds hi /\ hi ∈ values /\ Forall (fun x => x <= hi) values
       /\ P50 (LatencyMS r) = toMilliseconds p50 /\ nearest_rank 50 p50 values
       /\ P95 (LatencyMS r) = toMilliseconds p95 /\ nearest_rank 95 p95 values
       /\ P99 (LatencyMS r) = toMilliseconds p99 /\ nearest_rank 99 p99 values.
Proof.
  intros Hn. cbv zeta. destruct (tally_exact samples) as (H1 & H2 & H3 & H4 & H5 & H6).
  split; [exact H1|]. split; [exact H2|]. split; [exact H4|]. split; [exact H5|]. split; [exact H6|].
  cbn [LatencyMS NewResult]. rewrite H3. set (values := LatencyMicros <$> samples).
  assert (count values = Z.of_nat (length samples)) as Hc by (unfold count, values; by rewrite length_fmap).
  unfold SummarizeLatency. rewrite (proj2 (Z.eqb_neq (count values) 0)) by lia.
  cbn [Minimum Maximum P50 P95 P99]. set (l := merge_sort Z.le values).
  assert (l ≡ₚ values) as Hperm by apply merge_sort_Permutation.
  assert (length l = length samples) as Hl by (rewrite Hperm; apply length_fmap).
  destruct (lookup_lt_is_Some_2 l 0) as [lo Hlo]; [lia|].
  destruct (lookup_lt_is_Some_2 l (length l - 1)) as [hi Hhi]; [lia|].
  destruct percents as (Q50 & Q95 & Q99).
  exists lo, hi, (percentile l (literal 50 100)), (percentile l (literal 95 100)), (percentile l (literal 99 100)).
  rewrite (nth_lookup_Some _ _ _ _ Hlo), (nth_lookup_Some _ _ _ _ Hhi).
  destruct (sorted_ends l lo hi) as [Hmin Hmax]; [by apply (StronglySorted_merge_sort Z.le)|done..|].
  assert (forall a q, 1 <= a <= 100 -> percent_of a q -> nearest_rank a (percentile l q) values) as Hrank.
  { intros a q Ha Hq. apply percentile_rank; [exact Ha|exact Hq|]. rewrite Hc. exact Hn. }
  clearbody l.
  split; [reflexivity|]. split; [rewrite <- Hperm; by eapply list_elem_of_lookup_2|]. split; [by rewrite <- Hperm|].
  split; [reflexivity|]. split; [rewrite <- Hperm; by eapply list_elem_of_lookup_2|]. split; [by rewrite <- Hperm|].
  split; [reflexivity|]. split; [apply Hrank; [lia|exact Q50]|].
  split; [reflexivity|]. split; [apply Hrank; [lia|exact Q95]|].
  split; [reflexivity|]. apply Hrank; [lia|exact Q99].
Qed.

Definition demo_sample (latency status : Z) : Sample :=
  {| LatencyMicros := latency; StatusCode := status; TransportError := false; RateLimitHeadersValid := true;
     Upstream := "10.0.0.1:8080" |}.
Definition demo_samples : list Sample := [demo_sample 1500 200; demo_sample 900 200; demo_sample 700 429].
Definition demo_metadata : Metadata :=
  {| MdTool := "go-loadgen"; MdScenario := "manual"; MdTarget := "http://127.0.0.1:8080/api/users";
     MdWarmupRequests := 0; MdConcurrency := 1; MdGatewayInstances := 1; MdStartedAt := 0; MdDuration := Second;
     MdEnvironment := ∅ |}.

Lemma NewResult_exact_witness :
  let r := NewResult demo_metadata demo_samples in
  StatusCounts r !! Itoa 200 = Some 2 /\ StatusCounts r !! Itoa 404 = None
  /\ exists p50, P50 (LatencyMS r) = toMilliseconds p50 /\ nearest_rank 50 p50 [1500; 900; 700].
Proof.
  intros r.
  destruct (NewResult_exact demo_metadata demo_samples) as (Hst & _ & _ & _ & _ & lo & hi & p50 & p95 & p99 & Hrest);
    [cbn; lia|].
  split; [exact (Hst 200)|]. split; [exact (Hst 404)|]. exists p50.
  destruct Hrest as (_ & _ & _ & _ & _ & _ & H50 & Hr & _). split; [exact H50|exact Hr].
Defined.
