(* ===== verification/Loadgen.v ===== *)
(** * The load generator ([cmd/loadgen/main.go])

    Options from the command line, one request, the pool of workers that share
    an unbuffered channel and an array of samples, and the verification of the
    result against the expected quota.  The HTTP client is an argument: every
    call meets the client behaviour its action carries. *)

From Stdlib Require Import ZArith Lia QArith Qcanon Lqa.
From stdpp Require Import base tactics numbers list gmap strings sorting.
From S2P Require Import Prelude GoLib Float64 Flags Handler Benchmark.

Local Open Scope Z_scope.

(** ** Options *)

Record options := {
  target : string;
  requests : Z;
  concurrency : Z;
  warmup : Z;
  timeout : Z;
  output : string;
  scenario : string;
  instances : Z;
  allowedStatuses : gset Z;         (* a map whose values are all [true] *)
  minimumUpstreams : Z;
  verifyRateLimit : bool;
  rate : Z;
  burst : Z;
}.

(** The flags with their defaults. *)
Definition loadgen_flags : FlagSet :=
  list_to_map
    [("url", FString "http://127.0.0.1:8080/api/users"); ("requests", FInt 2000); ("concurrency", FInt 32);
     ("warmup", FInt 100); ("timeout", FDuration (5 * Second)); ("output", FString "-");
     ("scenario", FString "manual"); ("instances", FInt 1); ("allowed-statuses", FString "200");
     ("min-upstreams", FInt 0); ("verify-rate-limit", FBool false); ("rate", FInt 0); ("burst", FInt 0)].

(** [strings.Split] with a separator of one character. *)
Fixpoint Split (sep : Ascii.ascii) (s : string) : list string :=
  match s with
  | EmptyString => [EmptyString]
  | String c s' =>
      match Split sep s' with
      | piece :: rest => if Ascii.eqb c sep then EmptyString :: piece :: rest else String c piece :: rest
      | [] => []
      end
  end.

Definition comma : Ascii.ascii := byte_ascii 44.

Section Options.
Context (Quote : string -> string).            (* [strconv.Quote], the verb [%q] *)

(** The loop over the pieces of [--allowed-statuses]. *)
Fixpoint parse_statuses (pieces : list string) (allowed : gset Z) : res (gset Z) :=
  match pieces with
  | [] => Ok allowed
  | raw :: rest =>
      match Atoi (TrimSpace raw) with
      | Ok status =>
          if (status <? 100) || (599 <? status) then Err (ErrNew ("invalid allowed status " +:+ Quote raw))
          else parse_statuses rest ({[status]} ∪ allowed)
      | Err _ => Err (ErrNew ("invalid allowed status " +:+ Quote raw))
      end
  end.

Definition parseOptions (arguments : list string) : res options :=
  parsed <-- Parse Quote loadgen_flags arguments ;;
  let '(fs, rest) := parsed in
  let requests := get_int fs "requests" in
  let concurrency := get_int fs "concurrency" in
  let warmup := get_int fs "warmup" in
  let timeout := get_duration fs "timeout" in
  let instances := get_int fs "instances" in
  let verifyRateLimit := get_bool fs "verify-rate-limit" in
  let rate := get_int fs "rate" in
  let burst := get_int fs "burst" in
  if negb (length rest =? 0)%nat then Err (ErrNew "unexpected positional arguments")
  else if (requests <=? 0) || (concurrency <=? 0) || (warmup <? 0) || (timeout <=? 0) || (instances <=? 0) then
    Err (ErrNew "requests, concurrency, timeout, and instances must be positive; warmup cannot be negative")
  else if verifyRateLimit && ((rate <=? 0) || (burst <=? 0)) then
    Err (ErrNew "--verify-rate-limit requires positive --rate and --burst")
  else
    allowed <-- parse_statuses (Split comma (get_string fs "allowed-statuses")) ∅ ;;
    Ok {| target := get_string fs "url"; requests := requests; concurrency := concurrency; warmup := warmup;
          timeout := timeout; output := get_string fs "output"; scenario := get_string fs "scenario";
          instances := instances; allowedStatuses := allowed; minimumUpstreams := get_int fs "min-upstreams";
          verifyRateLimit := verifyRateLimit; rate := rate; burst := burst |}.
End Options.

(** ** One request *)

(** The request the client sends, with its deadline. *)
Record Outgoing := {
  out_method : string;
  out_url : string;
  out_header : headers;
  out_timeout : Z;
}.

(** What [client.Do] answers: the time it took in microseconds, and the
    response with the errors of reading and closing its body. *)
Record Response := {
  rs_status : Z;
  rs_header : headers;
  rs_copy : option gerror;
  rs_close : option gerror;
}.

Record Exchange := {
  ex_latency : Z;
  ex_response : res Response;
}.

Definition client : Type := Outgoing -> Exchange.

(** [Header.Get]: the first value, or the empty string. *)
Definition header_Get (h : headers) (k : string) : string := default "" (head (values k h)).

Definition has (h : headers) (k : string) : bool := negb (bool_decide (header_Get h k = "")).

Definition zero_sample : Sample :=
  {| LatencyMicros := 0; StatusCode := 0; TransportError := false; RateLimitHeadersValid := false; Upstream := "" |}.

Section Requests.
Context (new_request : string -> option gerror).   (* the error of [http.NewRequestWithContext] for a URL *)

Definition outgoing (opts : options) (apiKey : string) : Outgoing :=
  {| out_method := "GET"; out_url := target opts;
     out_header := header_Set "Accept" "application/json" (header_Set "X-API-Key" apiKey ∅);
     out_timeout := timeout opts |}.

Definition request (cl : client) (opts : options) (apiKey : string) : Sample * option gerror :=
  match new_request (target opts) with
  | Some e => (zero_sample, Some e)
  | None =>
      let ex := cl (outgoing opts apiKey) in
      match ex_response ex with
      | Err _ =>
          ({| LatencyMicros := ex_latency ex; StatusCode := 0; TransportError := true;
              RateLimitHeadersValid := false; Upstream := "" |}, None)
      | Ok r =>
          let h := rs_header r in
          let headersValid := has h "X-RateLimit-Limit" && has h "X-RateLimit-Remaining" && has h "X-RateLimit-Reset" in
          let headersValid := if rs_status r =? 429 then headersValid && has h "Retry-After" else headersValid in
          ({| LatencyMicros := ex_latency ex; StatusCode := rs_status r; TransportError := false;
              RateLimitHeadersValid := headersValid;
              Upstream := TrimSpace (header_Get h "X-Benchmark-Upstream") |},
           errors_Join (rs_copy r) (rs_close r))
      end
  end.

(** What a worker stores: an error of the call marks the sample. *)
Definition sample_of (cl : client) (opts : options) (apiKey : string) : Sample :=
  let '(sample, err) := request cl opts apiKey in
  match err with
  | None => sample
  | Some _ =>
      {| LatencyMicros := LatencyMicros sample; StatusCode := StatusCode sample; TransportError := true;
         RateLimitHeadersValid := RateLimitHeadersValid sample; Upstream := Upstream sample |}
  end.

(** ** The worker pool *)

(** A worker waits at the channel, runs the request of an index, or has left
    its loop. *)
Inductive worker := Ready | Busy (index : nat) | Done.

#[export] Instance worker_eq_dec : EqDecision worker.
Proof. solve_decision. Defined.

(** The sender is about to send [p_next]; [p_returned] says that [Wait] is over. *)
Record Pool := {
  p_next : nat;
  p_closed : bool;
  p_workers : list worker;
  p_samples : list Sample;
  p_returned : bool;
}.

Definition set_worker (w : nat) (x : worker) (p : Pool) : Pool :=
  {| p_next := p_next p; p_closed := p_closed p; p_workers := <[w := x]> (p_workers p);
     p_samples := p_samples p; p_returned := p_returned p |}.
Definition set_next (i : nat) (p : Pool) : Pool :=
  {| p_next := i; p_closed := p_closed p; p_workers := p_workers p; p_samples := p_samples p;
     p_returned := p_returned p |}.
Definition store (i : nat) (s : Sample) (p : Pool) : Pool :=
  {| p_next := p_next p; p_closed := p_closed p; p_workers := p_workers p; p_samples := <[i := s]> (p_samples p);
     p_returned := p_returned p |}.

Inductive action :=
| Send (w : nat)                     (* the channel hands the next index to worker [w] *)
| Finish (w : nat) (cl : client)     (* the request of worker [w] ends and its sample is stored *)
| CloseJobs
| Leave (w : nat)                    (* worker [w] sees the closed channel *)
| Return.                            (* every worker is done: [Wait] returns *)

Definition pool_step (opts : options) (apiKey : string) (a : action) (p : Pool) : option Pool :=
  if p_returned p then None
  else match a with
  | Send w =>
      match p_workers p !! w with
      | Some Ready =>
          if (p_next p <? length (p_samples p))%nat then Some (set_worker w (Busy (p_next p)) (set_next (S (p_next p)) p))
          else None
      | _ => None
      end
  | Finish w cl =>
      match p_workers p !! w with
      | Some (Busy i) => Some (set_worker w Ready (store i (sample_of cl opts apiKey) p))
      | _ => None
      end
  | CloseJobs =>
      if negb (p_closed p) && (p_next p =? length (p_samples p))%nat then
        Some {| p_next := p_next p; p_closed := true; p_workers := p_workers p; p_samples := p_samples p;
                p_returned := false |}
      else None
  | Leave w =>
      match p_workers p !! w with
      | Some Ready => if p_closed p then Some (set_worker w Done p) else None
      | _ => None
      end
  | Return =>
      if p_closed p && forallb (fun x => match x with Done => true | _ => false end) (p_workers p) then
        Some {| p_next := p_next p; p_closed := p_closed p; p_workers := p_workers p; p_samples := p_samples p;
                p_returned := true |}
      else None
  end.

Definition pool_init (opts : options) : Pool :=
  {| p_next := 0; p_closed := false; p_workers := replicate (Z.to_nat (concurrency opts)) Ready;
     p_samples := replicate (Z.to_nat (requests opts)) zero_sample; p_returned := false |}.

Fixpoint pool_run (opts : options) (apiKey : string) (tr : list action) (p : Pool) : option Pool :=
  match tr with
  | [] => Some p
  | a :: tr' => p' ← pool_step opts apiKey a p; pool_run opts apiKey tr' p'
  end.
End Requests.

(** ** Verification *)

(** [int(float64(rate)*duration.Seconds()+0.999999)] on top of the burst. *)
Definition maximum (opts : options) (duration : Z) : Z :=
  wrap64 (burst opts
    + ftrunc (fadd (fmul (f64 (rate opts)) (duration_Seconds duration)) (literal 999999 1000000))).

(** The loop over the keys of [StatusCounts]: [Atoi] of a key that is no
    number leaves 0. *)
Definition statuses_allowed (opts : options) (counts : gmap string Z) : bool :=
  forallb (fun raw => bool_decide (match Atoi raw with Ok c => c | Err _ => 0 end ∈ allowedStatuses opts))
    (map_to_list counts).*1.

Definition headers_present (samples : list Sample) : bool :=
  forallb (fun s => negb (((StatusCode s =? 200) || (StatusCode s =? 429)) && negb (RateLimitHeadersValid s))) samples.

Definition set_verification (v : Verification) (r : Result) : Result :=
  {| ResSchemaVersion := ResSchemaVersion r; Tool := Tool r; Scenario := Scenario r; StartedAt := StartedAt r;
     Target := Target r; Requests := Requests r; WarmupRequests := WarmupRequests r; Concurrency := Concurrency r;
     GatewayInstances := GatewayInstances r; DurationMS := DurationMS r; ThroughputRPS := ThroughputRPS r;
     LatencyMS := LatencyMS r; StatusCounts := StatusCounts r; TransportErrors := TransportErrors r;
     HTTPErrors := HTTPErrors r; ErrorRatePercent := ErrorRatePercent r; RateLimited := RateLimited r;
     UpstreamCounts := UpstreamCounts r; ResVerification := Some v; Environment := Environment r;
     Samples := Samples r |}.

(** The checks the code collects; the map is shared with the verification it
    is stored in, so the later entries appear there too. *)
Definition basic_checks (opts : options) (r : Result) : gmap string bool :=
  let checks := <["status_codes_allowed" := statuses_allowed opts (StatusCounts r)]>
                  {["no_transport_errors" := (TransportErrors r =? 0)]} in
  if 0 <? minimumUpstreams opts then
    <["minimum_upstreams_observed" := (minimumUpstreams opts <=? Z.of_nat (size (UpstreamCounts r)))]> checks
  else checks.

Definition quota_checks (accepted denied max : Z) (r : Result) (checks : gmap string bool) : gmap string bool :=
  <["rate_limit_headers_present" := headers_present (Samples r)]>
  (<["excess_requests_denied" := (0 <? denied)]>
  (<["some_requests_accepted" := (0 <? accepted)]>
  (<["accepted_within_token_bound" := (accepted <=? max)]> checks))).

Definition verify (r : Result) (opts : options) (duration : Z) : bool * Result :=
  let accepted := default 0 (StatusCounts r !! "200") in
  let denied := default 0 (StatusCounts r !! "429") in
  let max := if verifyRateLimit opts then maximum opts duration else 0 in
  let checks :=
    if verifyRateLimit opts then quota_checks accepted denied max r (basic_checks opts r) else basic_checks opts r in
  let passed := forallb (fun kv => kv.2) (map_to_list checks) in
  (passed, set_verification
    {| Passed := passed; Checks := checks; Accepted := accepted; Denied := denied;
       TheoreticalMaximumAccepted := max; ObservedUpstreams := Z.of_nat (size (UpstreamCounts r)) |} r).

(** ** A whole run *)

Section Run.
Context (new_request : string -> option gerror) (environment : gmap string string).

(** The warmup loop, with the client each of its requests meets; it stops at
    the first error. *)
Fixpoint warm_up (opts : options) (apiKey : string) (warm : nat -> client) (left index : nat) : res unit :=
  match left with
  | O => Ok tt
  | S left' =>
      match (request new_request (warm index) opts apiKey).2 with
      | Some e => Err (ErrWrap ("warmup request " +:+ Itoa (Z.of_nat index + 1) +:+ ": ") e)
      | None => warm_up opts apiKey warm left' (S index)
      end
  end.

(** [run]: the clients of the warmup requests, the schedule of the pool, and
    the times read.  A schedule that does not reach the return of [Wait] gives
    no result. *)
Definition run (opts : options) (apiKey : string) (warm : nat -> client) (tr : list action) (startedAt duration : Z)
    : option (res (Result * bool)) :=
  match warm_up opts apiKey warm (Z.to_nat (warmup opts)) 0 with
  | Err e => Some (Err e)
  | Ok _ =>
      p ← pool_run new_request opts apiKey tr (pool_init opts);
      if p_returned p then
        let result := NewResult
          {| MdTool := "go-loadgen"; MdScenario := scenario opts; MdTarget := target opts;
             MdWarmupRequests := warmup opts; MdConcurrency := concurrency opts; MdGatewayInstances := instances opts;
             MdStartedAt := startedAt; MdDuration := duration; MdEnvironment := environment |} (p_samples p) in
        let '(passed, result') := verify result opts duration in
        Some (Ok (result', passed))
      else None
  end.
End Run.

(** ** The result file and the exit status *)

(** The files: creating the directory of a path and the file, encoding a
    result into it or to standard output, and closing it. *)
Record Files := {
  f_mkdir : string -> option gerror;
  f_create : string -> option gerror;
  f_encode : string -> Result -> option gerror;
  f_close : string -> option gerror;
}.

(** [benchmark.Encode] wraps the encoder's error. *)
Definition Encode (encoder : option gerror) : option gerror := ErrWrap "encode benchmark result: " <$> encoder.

Definition writeResult (f : Files) (path : string) (result : Result) : option gerror :=
  if bool_decide (path = "-") then Encode (f_encode f path result)
  else match f_mkdir f path with
       | Some e => Some (ErrWrap "create output directory: " e)
       | None =>
           match f_create f path with
           | Some e => Some (ErrWrap "create output file: " e)
           | None => errors_Join (Encode (f_encode f path result)) (f_close f path)
           end
       end.

(** The exit status of [main], given what [run] answers. *)
Definition main (Quote : string -> string) (Getenv : string -> string) (f : Files)
    (perform : options -> string -> res (Result * bool)) (arguments : list string) : Z :=
  match parseOptions Quote arguments with
  | Err _ => 2
  | Ok opts =>
      let apiKey := TrimSpace (Getenv "API_KEY") in
      if bool_decide (apiKey = "") then 2
      else match perform opts apiKey with
           | Err _ => 1
           | Ok (result, passed) =>
               match writeResult f (output opts) result with
               | Some _ => 1
               | None => if passed : bool then 0 else 1
               end
           end
  end.

(** ** What the verification means *)

Definition upstreams (samples : list Sample) : gset string :=
  list_to_set (filter (fun u => u <> "") (Upstream <$> samples)).

(** The requests behaved: no transport error, only allowed statuses, enough
    upstreams, and, when the quota is verified, some requests accepted and not
    more than the bound, some denied, and the headers on every answer. *)
Definition Verified (opts : options) (duration : Z) (samples : list Sample) : Prop :=
  (forall s, s ∈ samples -> TransportError s = false /\ StatusCode s ∈ allowedStatuses opts)
  /\ (0 < minimumUpstreams opts -> minimumUpstreams opts <= Z.of_nat (size (upstreams samples)))
  /\ (verifyRateLimit opts = true ->
      0 < number (of_status 200) samples <= maximum opts duration
      /\ 0 < number (of_status 429) samples
      /\ forall s, s ∈ samples -> StatusCode s = 200 \/ StatusCode s = 429 -> RateLimitHeadersValid s = true).

Lemma number_zero P l : number P l = 0 <-> forall s, s ∈ l -> P s = false.
Proof.
  unfold number. induction l as [|s l IH]; [cbn; split; [intros _ s Hs; by apply elem_of_nil in Hs|done]|].
  rewrite sumZ_cons. fold (number P l) in *. pose proof (number_nonneg P l) as Hn. split.
  - intros E x Hx. apply elem_of_cons in Hx as [->|Hx]; [by destruct (P s); [lia|]|].
    apply IH; [|done]. destruct (P s); lia.
  - intros H. rewrite H by left. apply IH. intros x Hx. apply H. by right.
Qed.

Lemma default_entry n : default 0 (entry n) = n.
Proof. unfold entry. destruct (Z.eqb_spec n 0); by subst. Qed.

Lemma dom_incr k m : dom (incr k m) = {[k]} ∪ dom m.
Proof. unfold incr. apply dom_insert_L. Qed.

Lemma upstream_dom samples : dom (upstreamCounts (foldl tally no_samples samples)) = upstreams samples.
Proof.
  induction samples as [|s l IH] using rev_ind; [done|]. rewrite foldl_snoc. cbn [tally upstreamCounts].
  unfold upstreams in *. rewrite fmap_app, filter_app, list_to_set_app_L. cbn [fmap list_fmap].
  rewrite filter_cons, filter_nil. case_bool_decide as E.
  - rewrite decide_False by (by intros []). rewrite IH. set_solver.
  - rewrite decide_True, dom_incr, IH by done. set_solver.
Qed.

Lemma status_dom samples k :
  k ∈ dom (statusCounts (foldl tally no_samples samples))
  <-> exists s, s ∈ samples /\ TransportError s = false /\ k = Itoa (StatusCode s).
Proof.
  induction samples as [|s l IH] using rev_ind.
  { change (statusCounts _) with (∅ : gmap string Z). rewrite dom_empty. split; [set_solver|]. intros (s & Hs & _). by apply elem_of_nil in Hs. }
  rewrite foldl_snoc. cbn [tally statusCounts]. destruct (TransportError s) eqn:E.
  - rewrite IH. split; intros (x & Hx & Hf & ->); exists x; (split; [|done]).
    + apply elem_of_app. by left.
    + apply elem_of_app in Hx as [Hx|Hx%list_elem_of_singleton]; [done|congruence].
  - rewrite dom_incr, elem_of_union, elem_of_singleton, IH. split.
    + intros [->|(x & Hx & Hf & ->)]; [exists s|exists x]; (split; [|done]); apply elem_of_app;
        [right; by left|by left].
    + intros (x & Hx & Hf & ->). apply elem_of_app in Hx as [Hx|Hx%list_elem_of_singleton]; [|subst; by left].
      right. by exists x.
Qed.

Lemma checks_all (m : gmap string bool) :
  forallb (fun kv => kv.2) (map_to_list m) = true <-> map_Forall (fun _ b => b = true) m.
Proof. rewrite forallb_Forall, map_Forall_to_list. split; intros H; (eapply Forall_impl; [exact H|]); by intros [k b]. Qed.

Lemma statuses_allowed_iff opts samples :
  Forall (fun s => in_int64 (StatusCode s)) samples ->
  statuses_allowed opts (statusCounts (foldl tally no_samples samples)) = true
  <-> forall s, s ∈ samples -> TransportError s = false -> StatusCode s ∈ allowedStatuses opts.
Proof.
  intros Hr. rewrite Forall_forall in Hr. unfold statuses_allowed. rewrite forallb_Forall, Forall_forall.
  set (m := statusCounts _). assert (forall k, k ∈ (map_to_list m).*1 <-> k ∈ dom m) as Hk.
  { intros k. rewrite elem_of_dom, list_elem_of_fmap. split.
    - intros ([k' v] & -> & Hin%elem_of_map_to_list). by exists v.
    - intros [v Hv]. exists (k, v). split; [done|]. by apply elem_of_map_to_list. }
  setoid_rewrite Hk. subst m. setoid_rewrite status_dom. split.
  - intros H s Hs Hf. specialize (H (Itoa (StatusCode s))). rewrite Atoi_Itoa in H by by apply Hr.
    eapply bool_decide_eq_true_1, H. by exists s.
  - intros H k (s & Hs & Hf & ->). rewrite Atoi_Itoa by by apply Hr. apply bool_decide_eq_true_2. by apply H.
Qed.

Lemma headers_present_iff samples :
  headers_present samples = true
  <-> forall s, s ∈ samples -> StatusCode s = 200 \/ StatusCode s = 429 -> RateLimitHeadersValid s = true.
Proof.
  unfold headers_present. rewrite forallb_Forall, Forall_forall. split; intros H s Hs.
  - specialize (H s Hs). intros Hc. destruct (RateLimitHeadersValid s); [done|].
    destruct Hc as [Hc|Hc]; by rewrite Hc in H.
  - specialize (H s Hs). destruct (Z.eqb_spec (StatusCode s) 200), (Z.eqb_spec (StatusCode s) 429);
      cbn; try done; by rewrite H by auto.
Qed.

Lemma basic_checks_iff opts md samples :
  Forall (fun s => in_int64 (StatusCode s)) samples ->
  map_Forall (fun _ b => b = true) (basic_checks opts (NewResult md samples))
  <-> (forall s, s ∈ samples -> TransportError s = false /\ StatusCode s ∈ allowedStatuses opts)
      /\ (0 < minimumUpstreams opts -> minimumUpstreams opts <= Z.of_nat (size (upstreams samples))).
Proof.
  intros Hr. pose proof (statuses_allowed_iff opts samples Hr) as Hs.
  destruct (tally_exact samples) as (_ & _ & _ & He & _).
  assert (map_Forall (fun _ b => b = true)
    (<["status_codes_allowed" := statuses_allowed opts (StatusCounts (NewResult md samples))]>
       {["no_transport_errors" := (TransportErrors (NewResult md samples) =? 0)]} : gmap string bool)
    <-> forall s, s ∈ samples -> TransportError s = false /\ StatusCode s ∈ allowedStatuses opts) as Hbase.
  { rewrite map_Forall_insert by done. rewrite map_Forall_singleton.
    cbn [NewResult StatusCounts TransportErrors]. rewrite Hs, He, Z.eqb_eq, number_zero. naive_solver. }
  unfold basic_checks. rewrite (Z.ltb_compare 0). destruct (Z.compare_spec 0 (minimumUpstreams opts)).
  1, 3: rewrite Hbase; naive_solver lia.
  rewrite map_Forall_insert by done. rewrite Hbase, Z.leb_le. cbn [NewResult UpstreamCounts].
  rewrite <- size_dom, upstream_dom. naive_solver.
Qed.

Lemma quota_checks_iff accepted denied max r checks :
  checks !! "accepted_within_token_bound" = None -> checks !! "some_requests_accepted" = None ->
  checks !! "excess_requests_denied" = None -> checks !! "rate_limit_headers_present" = None ->
  map_Forall (fun _ b => b = true) (quota_checks accepted denied max r checks)
  <-> map_Forall (fun _ b => b = true) checks /\ 0 < accepted <= max /\ 0 < denied
      /\ headers_present (Samples r) = true.
Proof.
  intros H1 H2 H3 H4. unfold quota_checks.
  rewrite !map_Forall_insert by (by rewrite ?lookup_insert_ne).
  rewrite Z.leb_le, !Z.ltb_lt. naive_solver.
Qed.

(** The verification of the result of any samples. *)
Lemma verify_iff opts md samples duration :
  Forall (fun s => in_int64 (StatusCode s)) samples ->
  let '(passed, result) := verify (NewResult md samples) opts duration in
  (passed = true <-> Verified opts duration samples)
  /\ exists v, result = set_verification v (NewResult md samples)
     /\ Passed v = passed /\ Accepted v = number (of_status 200) samples
     /\ Denied v = number (of_status 429) samples /\ ObservedUpstreams v = Z.of_nat (size (upstreams samples)).
Proof.
  intros Hr. unfold verify. destruct (tally_exact samples) as (Hc & _).
  assert (forall c, default 0 (StatusCounts (NewResult md samples) !! Itoa c) = number (of_status c) samples) as Hn.
  { intros c. cbn [NewResult StatusCounts]. rewrite Hc. apply default_entry. }
  rewrite (Hn 200 : default 0 (_ !! "200") = _), (Hn 429 : default 0 (_ !! "429") = _).
  split.
  - rewrite checks_all. unfold Verified. destruct (verifyRateLimit opts).
    + rewrite quota_checks_iff by (unfold basic_checks; by case_match).
      rewrite basic_checks_iff, headers_present_iff by done. cbn [NewResult Samples]. naive_solver.
    + rewrite basic_checks_iff by done. naive_solver.
  - eexists. split; [reflexivity|]. cbn [Passed Accepted Denied ObservedUpstreams]. split_and!; try done.
    by rewrite <- upstream_dom, <- size_dom.
Qed.

(** ** The bound on accepted requests *)

Lemma f64_this z : 0 <= z <= 2 ^ 53 -> (this (f64 z) = inject_Z z)%Q.
Proof. intros Hz. rewrite f64_Z by lia. done. Qed.

(** [Duration.Seconds] within three roundings. *)
Lemma Seconds_near d :
  0 <= d < 2 ^ 63 ->
  (9007199254740989 * (d # 1000000000) <= 9007199254740992 * duration_Seconds d
   /\ 9007199254740992 * duration_Seconds d <= 9007199254740995 * (d # 1000000000))%Q.
Proof.
  intros Hd. unfold duration_Seconds, Second. set (q := Z.quot d 1000000000). set (r := Z.rem d 1000000000).
  assert (d = 1000000000 * q + r) as E by apply Z.quot_rem'.
  assert (0 <= r < 1000000000) as Hr by (apply Z.rem_bound_pos; lia).
  assert (0 <= q < 2 ^ 34) as Hq.
  { split; [apply Z.quot_pos; lia|]. apply Z.quot_lt_upper_bound; lia. }
  assert (quotient (f64 r) (f64 1000000000) = rnd (f64 r / f64 1000000000)%Qc) as ->.
  { unfold quotient, fdiv. rewrite decide_False by (intros H; by vm_compute in H). done. }
  set (x := (f64 r / f64 1000000000)%Qc).
  assert (this x == r # 1000000000)%Q as Ex.
  { subst x. rewrite this_div, !f64_this by lia. rewrite Qmake_Qdiv. done. }
  assert (0 <= x)%Q as Hx by (rewrite Ex; unfold Qle; cbn; lia).
  pose proof (rnd_near x Hx) as [N1 N2].
  assert (0 <= rnd x)%Q as Hrx by lra.
  pose proof (fadd_near (f64 q) (rnd x)) as [N3 N4]; [rewrite f64_this by lia; unfold Qle; cbn; lia|done|].
  rewrite f64_this in N3, N4 by lia. rewrite Ex in N1, N2.
  assert ((d # 1000000000) == inject_Z q + (r # 1000000000))%Q as Ed.
  { unfold Qeq. cbn. rewrite E. lia. }
  assert (0 <= inject_Z q)%Q by (unfold Qle; cbn; lia). rewrite Ed. lra.
Qed.

Lemma maximum_bounds opts duration :
  0 <= rate opts < 2 ^ 31 -> 0 <= burst opts < 2 ^ 62 -> 0 <= duration < 2 ^ 63 ->
  rate opts * duration <= 2 ^ 28 * 10 ^ 9 ->
  burst opts + rate opts * duration / 10 ^ 9 <= maximum opts duration <= burst opts + cdiv (rate opts * duration) (10 ^ 9).
Proof.
  intros Hr Hb Hd Hx. unfold maximum. set (n := rate opts) in *. set (y := fadd _ _).
  pose proof (Seconds_near duration Hd) as [S1 S2].
  assert (0 <= n # 1)%Q as Hn by (unfold Qle; cbn; lia).
  assert (0 <= duration # 1000000000)%Q as Hd0 by (unfold Qle; cbn; lia).
  assert (0 <= duration_Seconds duration)%Q as Hs by lra.
  assert (this (f64 n) = (n # 1))%Q as En by (rewrite f64_this by lia; done).
  pose proof (fmul_near (f64 n) (duration_Seconds duration)) as [P1 P2]; [rewrite En; done|done|]. rewrite En in P1, P2.
  set (P := fmul (f64 n) (duration_Seconds duration)) in *.
  set (X := (n * duration # 1000000000)%Q).
  assert (X == (n # 1) * (duration # 1000000000))%Q as EX by (unfold X, Qeq; cbn; lia).
  assert (9007199254740989 * X <= 9007199254740992 * ((n # 1) * duration_Seconds duration)
    /\ 9007199254740992 * ((n # 1) * duration_Seconds duration) <= 9007199254740995 * X)%Q as [T1 T2].
  { rewrite EX. split; nra. }
  assert (0 <= X <= 268435456)%Q as [X0 X1] by (unfold X, Qle; cbn; lia).
  assert (0 <= P)%Q as HP by lra.
  pose proof (fadd_near P (literal 999999 1000000)) as [Y1 Y2]; [done|by vm_compute|]. fold y in Y1, Y2.
  assert (999999 <= 1000000 * literal 999999 1000000 + (1 # 1000000)
    /\ 1000000 * literal 999999 1000000 <= 999999 + (1 # 1000000))%Q as [L1 L2] by (split; vm_compute; congruence).
  assert (n * duration / 10 ^ 9 <= ftrunc y <= cdiv (n * duration) (10 ^ 9)) as Ht.
  { apply ftrunc_bounds; [apply Z.div_pos; nia|..].
    - assert (inject_Z (n * duration / 10 ^ 9) <= X)%Q.
      { unfold X, Qle. cbn. pose proof (Z.mul_div_le (n * duration) (10 ^ 9)). lia. }
      lra.
    - assert (X <= inject_Z (cdiv (n * duration) (10 ^ 9)))%Q.
      { unfold X, Qle. cbn. pose proof (cdiv_spec (n * duration) (10 ^ 9) (cdiv (n * duration) (10 ^ 9))). lia. }
      rewrite inject_Z_plus. change (inject_Z 1) with 1%Q. lra. }
  assert (cdiv (n * duration) (10 ^ 9) <= 2 ^ 28) by (apply cdiv_spec; lia).
  assert (0 <= n * duration / 10 ^ 9) by (apply Z.div_pos; nia).
  rewrite wrap64_id; [lia|]. unfold in_int64. lia.
Qed.


(** ** The pool serves every index once *)

Lemma sumZ_replicate {A} (f : A -> Z) n x : sumZ f (replicate n x) = Z.of_nat n * f x.
Proof. induction n as [|n IH]; [done|]. cbn [replicate]. rewrite sumZ_cons, IH. lia. Qed.

Lemma length_omap {A B} (f : A -> option B) l : (length (omap f l) <= length l)%nat.
Proof. induction l as [|x l IH]; [done|]. cbn. destruct (f x); cbn; lia. Qed.

Section PoolProofs.
Context (new_request : string -> option gerror) (opts : options) (apiKey : string).

Local Notation step := (pool_step new_request opts apiKey).
Local Notation prun := (pool_run new_request opts apiKey).

(** The samples of the requests that ended, in that order. *)
Definition finished (tr : list action) : list Sample :=
  omap (fun a => match a with Finish _ cl => Some (sample_of new_request cl opts apiKey) | _ => None end) tr.

Definition in_hand (w : worker) : option nat := match w with Busy i => Some i | _ => None end.
Definition busy (p : Pool) : list nat := omap in_hand (p_workers p).

(** The samples of [log] are stored under distinct indices; these and the
    indices in hand are the ones sent so far. *)
Record pool_inv (log : list (nat * Sample)) (p : Pool) : Prop := {
  pi_sent : log.*1 ++ busy p ≡ₚ seq 0 (p_next p);
  pi_next : (p_next p <= length (p_samples p))%nat;
  pi_stored : Forall (fun e => p_samples p !! e.1 = Some e.2) log;
  pi_closed : p_closed p = true -> p_next p = length (p_samples p);
  pi_done : Done ∈ p_workers p -> p_closed p = true;
  pi_returned : p_returned p = true -> Forall (fun w => w = Done) (p_workers p) /\ p_closed p = true;
}.

Lemma busy_insert_free p w i x :
  p_workers p !! w = Some x -> in_hand x = None ->
  omap in_hand (<[w := Busy i]> (p_workers p)) ≡ₚ i :: busy p.
Proof.
  intros Hw Hx. unfold busy. rewrite <- (take_drop_middle _ _ _ Hw) at 2.
  rewrite insert_take_drop by by eapply lookup_lt_Some.
  rewrite !omap_app. cbn. rewrite Hx. symmetry. apply Permutation_middle.
Qed.

Lemma busy_insert_done p w i x :
  p_workers p !! w = Some (Busy i) -> in_hand x = None ->
  busy p ≡ₚ i :: omap in_hand (<[w := x]> (p_workers p)).
Proof.
  intros Hw Hx. unfold busy. rewrite <- (take_drop_middle _ _ _ Hw) at 1.
  rewrite insert_take_drop by by eapply lookup_lt_Some.
  rewrite !omap_app. cbn. rewrite Hx. symmetry. apply Permutation_middle.
Qed.

Lemma busy_insert_same p w x y :
  p_workers p !! w = Some x -> in_hand x = None -> in_hand y = None ->
  omap in_hand (<[w := y]> (p_workers p)) = busy p.
Proof.
  intros Hw Hx Hy. unfold busy. rewrite <- (take_drop_middle _ _ _ Hw) at 2.
  rewrite insert_take_drop by by eapply lookup_lt_Some. rewrite !omap_app. cbn. by rewrite Hx, Hy.
Qed.

Lemma done_insert (l : list worker) w x : Done ∈ <[w := x]> l -> x <> Done -> Done ∈ l.
Proof.
  intros [i Hi]%list_elem_of_lookup Hx. apply list_lookup_insert_Some in Hi as [(-> & -> & _)|[_ Hi]]; [done|].
  by eapply list_elem_of_lookup_2.
Qed.

Lemma step_inv log a p p' :
  pool_inv log p -> step a p = Some p' ->
  exists log', pool_inv (log ++ log') p' /\ log'.*2 = finished [a].
Proof.
  intros [Hsent Hnext Hst Hcl Hdn Hret] E. unfold pool_step in E. destruct (p_returned p) eqn:Hr; [done|].
  destruct a as [w|w cl| |w|].
  - exists []. rewrite app_nil_r. split; [|done].
    destruct (p_workers p !! w) as [[]|] eqn:Hw; try done. case_match eqn:Hlt; [|done].
    apply Nat.ltb_lt in Hlt. simplify_eq. split; cbn [set_worker set_next p_next p_closed p_workers p_samples p_returned busy];
      try done.
    + rewrite seq_S. unfold busy. cbn [set_worker set_next p_workers]. rewrite busy_insert_free by done.
      rewrite <- Hsent, <- app_assoc. apply Permutation_app_head. rewrite Permutation_cons_append. done.
    + intros H. specialize (Hcl H). lia.
    + intros H. apply Hdn. by eapply done_insert.
    + congruence.
  - destruct (p_workers p !! w) as [[|i|]|] eqn:Hw; try done. simplify_eq.
    exists [(i, sample_of new_request cl opts apiKey)]. split; [|done].
    assert (log.*1 ++ busy p ≡ₚ i :: log.*1 ++ omap in_hand (<[w := Ready]> (p_workers p))) as Hi.
    { rewrite (busy_insert_done p w i Ready) by done. symmetry. apply Permutation_middle. }
    assert (NoDup (i :: log.*1 ++ omap in_hand (<[w := Ready]> (p_workers p)))) as Hnd.
    { rewrite <- Hi, Hsent. apply NoDup_seq. }
    apply NoDup_cons in Hnd as [Hni _].
    split; cbn [set_worker store p_next p_closed p_workers p_samples p_returned]; rewrite ?length_insert; try done.
    + rewrite <- Hsent, Hi. unfold busy. cbn [set_worker store p_workers].
      rewrite fmap_app, <- app_assoc. cbn. symmetry. apply Permutation_middle.
    + apply Forall_app. split.
      * apply Forall_forall. intros [j s] Hj. pose proof (proj1 (Forall_forall _ _) Hst _ Hj) as Hl. cbn in *.
        rewrite list_lookup_insert_ne; [done|]. intros <-. apply Hni. apply elem_of_app. left.
        by apply (list_elem_of_fmap_2 fst log (i, s)).
      * apply Forall_singleton. cbn. apply list_lookup_insert_eq.
        assert (i ∈ seq 0 (p_next p)) as Hin by (rewrite <- Hsent, Hi; by left). apply elem_of_seq in Hin. lia.
    + intros H. apply Hdn. by eapply done_insert.
    + congruence.
  - exists []. rewrite app_nil_r. split; [|done]. case_match eqn:Hc; [|done]. simplify_eq. bool_to_prop.
    split; cbn; try done. intros _. by apply Nat.eqb_eq.
  - exists []. rewrite app_nil_r. split; [|done].
    destruct (p_workers p !! w) as [[]|] eqn:Hw; try done. case_match eqn:Hc; [|done]. simplify_eq.
    split; cbn [set_worker p_next p_closed p_workers p_samples p_returned]; try done;
      [|intros _; by apply Hcl|congruence].
    unfold busy. cbn [set_worker p_workers]. by rewrite (busy_insert_same p w Ready Done).
  - exists []. rewrite app_nil_r. split; [|done]. case_match eqn:Hc; [|done]. simplify_eq. bool_to_prop.
    split; cbn; try done. intros _. split; [|done].
    match goal with H : forallb _ _ = true |- _ => apply forallb_Forall in H; eapply Forall_impl; [exact H|] end.
    by intros [].
Qed.
Lemma run_inv log p tr p' :
  pool_inv log p -> prun tr p = Some p' -> exists log', pool_inv (log ++ log') p' /\ log'.*2 = finished tr.
Proof.
  revert log p. induction tr as [|a tr IH]; intros log p Hp E.
  { cbn in E. simplify_eq. exists []. by rewrite app_nil_r. }
  cbn in E. destruct (step a p) as [q|] eqn:Es; [|done]. cbn in E.
  destruct (step_inv _ _ _ _ Hp Es) as (l1 & H1 & E1). destruct (IH _ _ H1 E) as (l2 & H2 & E2).
  exists (l1 ++ l2). rewrite app_assoc. split; [done|]. rewrite fmap_app, E1, E2. cbn. by case_match.
Qed.

Lemma init_inv : pool_inv [] (pool_init opts).
Proof.
  split; cbn [pool_init p_next p_closed p_workers p_samples p_returned]; try done.
  - unfold busy. cbn [pool_init p_workers]. by induction (Z.to_nat (concurrency opts)).
  - lia.
  - intros [? _]%elem_of_replicate. done.
Qed.

(** The actions left: two for every index not sent, and what every worker, the
    sender and [Wait] still have to do. *)
Definition weight (w : worker) : Z := match w with Ready => 1 | Busy _ => 2 | Done => 0 end.
Definition actions_left (p : Pool) : Z :=
  2 * Z.of_nat (length (p_samples p) - p_next p) + sumZ weight (p_workers p)
  + (if p_closed p then 0 else 1) + (if p_returned p then 0 else 1).

Lemma step_left log a p p' : pool_inv log p -> step a p = Some p' -> actions_left p = actions_left p' + 1.
Proof.
  intros [_ Hnext _ _ _ _] E. unfold pool_step in E. unfold actions_left. destruct (p_returned p) eqn:Hr; [done|].
  destruct a as [w|w cl| |w|]; try (destruct (p_workers p !! w) as [[|i|]|] eqn:Hw; try done);
    try (case_match eqn:Hc; [|done]); simplify_eq;
    cbn [set_worker set_next store p_next p_closed p_workers p_samples p_returned]; rewrite ?length_insert, ?Hr;
    try rewrite (sumZ_insert _ _ _ _ _ Hw); cbn [weight]; bool_to_prop;
    repeat match goal with H : p_closed _ = _ |- _ => rewrite H end; try lia.
  apply Nat.ltb_lt in Hc. lia.
Qed.

Lemma run_left log tr p p' :
  pool_inv log p -> prun tr p = Some p' -> actions_left p = actions_left p' + Z.of_nat (length tr).
Proof.
  revert log p. induction tr as [|a tr IH]; intros log p Hp E; cbn in E; [simplify_eq; cbn; lia|].
  destruct (step a p) as [q|] eqn:Es; [|done]. cbn in E. destruct (step_inv _ _ _ _ Hp Es) as (l1 & H1 & _).
  pose proof (step_left _ _ _ _ Hp Es). pose proof (IH _ _ H1 E). cbn [length]. lia.
Qed.

Lemma run_lengths tr p p' :
  prun tr p = Some p' ->
  length (p_workers p') = length (p_workers p) /\ length (p_samples p') = length (p_samples p).
Proof.
  revert p. induction tr as [|a tr IH]; intros p E; cbn in E; [by simplify_eq|].
  destruct (step a p) as [q|] eqn:Es; [|done]. cbn in E. destruct (IH _ E) as [-> ->].
  unfold pool_step in Es. repeat case_match; simplify_eq; cbn; by rewrite ?length_insert.
Qed.

(** Some action is possible until [Wait] has returned. *)
Lemma pool_progress log p (cl : client) :
  pool_inv log p -> p_workers p <> [] -> p_returned p = false -> exists a p', step a p = Some p'.
Proof.
  intros [_ Hnext _ Hcl Hdn _] Hne Hr. unfold pool_step. rewrite Hr.
  destruct (decide (Exists (fun w => w <> Done) (p_workers p))) as [Hex|Hall].
  - apply Exists_exists in Hex as (x & [w Hw]%list_elem_of_lookup & Hx). destruct x as [|i|]; [| |done].
    + destruct (p_closed p) eqn:Ec; [exists (Leave w); rewrite Hw; by eexists|].
      destruct (decide (p_next p < length (p_samples p))%nat) as [Hlt|Hge].
      * exists (Send w). rewrite Hw, (proj2 (Nat.ltb_lt _ _)) by done. by eexists.
      * exists CloseJobs. assert (p_next p = length (p_samples p)) as -> by lia. rewrite Nat.eqb_refl. by eexists.
    + exists (Finish w cl). rewrite Hw. by eexists.
  - apply not_Exists_Forall in Hall; [|apply _].
    assert (Forall (fun w => w = Done) (p_workers p)) as Hd.
    { eapply Forall_impl; [exact Hall|]. intros x Hx. by destruct (decide (x = Done)). }
    assert (p_closed p = true) as Hc.
    { apply Hdn. destruct (p_workers p) as [|x l]; [done|]. inversion Hd. subst. by left. }
    exists Return. rewrite Hc, (proj2 (forallb_Forall _ _)); [by eexists|].
    eapply Forall_impl; [exact Hd|]. by intros x ->.
Qed.

(** When [Wait] has returned every index has its sample. *)
Lemma returned_samples log p :
  pool_inv log p -> p_returned p = true -> p_samples p ≡ₚ log.*2.
Proof.
  intros [Hsent Hnext Hst Hcl _ Hret] Hr. destruct (Hret Hr) as [Hd Hc]. specialize (Hcl Hc).
  assert (busy p = []) as Hb.
  { unfold busy. clear -Hd. induction Hd as [|x l -> _ IH]; [done|exact IH]. }
  rewrite Hb, app_nil_r, Hcl in Hsent.
  transitivity ((fun i => nth i (p_samples p) zero_sample) <$> seq 0 (length (p_samples p))).
  { clear. induction (p_samples p) as [|s l IH]; [done|]. cbn [length seq fmap list_fmap].
    rewrite <- fmap_S_seq, <- list_fmap_compose. by constructor. }
  rewrite <- Hsent. rewrite <- list_fmap_compose. apply Permutation_refl'. apply list_fmap_ext.
  intros k [i s] Hi%list_elem_of_lookup_2. cbn. apply nth_lookup_Some. by apply (proj1 (Forall_forall _ _) Hst (i, s)).
Qed.
(** C34: the pool measures every request once and comes to an end.  However the
    workers are scheduled, some action is possible until [Wait] returns, no
    more than the configured number of requests is under way at a time, and
    the run takes exactly two actions for every request, one for every worker
    and two more; when it has returned, the samples are those of the requests
    that were made, each stored once, as many as configured. *)
Theorem pool_complete tr p (cl : client) :
  0 < concurrency opts -> 0 <= requests opts ->
  prun tr (pool_init opts) = Some p ->
  Z.of_nat (length (busy p)) <= concurrency opts
  /\ (p_returned p = false ->
      (exists a p', step a p = Some p')
      /\ Z.of_nat (length tr) < 2 * requests opts + concurrency opts + 2)
  /\ (p_returned p = true ->
      p_samples p ≡ₚ finished tr
      /\ Z.of_nat (length (p_samples p)) = requests opts
      /\ Z.of_nat (length tr) = 2 * requests opts + concurrency opts + 2).
Proof.
  intros Hc Hq E. destruct (run_inv _ _ _ _ init_inv E) as (log & Hp & Hlog).
  pose proof (run_left _ _ _ _ init_inv E) as Hleft. destruct (run_lengths _ _ _ E) as [Hw Hs].
  cbn [pool_init p_workers p_samples] in Hw, Hs. rewrite length_replicate in Hw. rewrite length_replicate in Hs.
  assert (actions_left (pool_init opts) = 2 * requests opts + concurrency opts + 2) as Hinit.
  { unfold actions_left. cbn [pool_init p_workers p_samples p_closed p_returned p_next].
    rewrite length_replicate, sumZ_replicate. cbn [weight]. lia. }
  rewrite Hinit in Hleft.
  assert (0 <= sumZ weight (p_workers p)) as Hnn by (apply sumZ_nonneg; intros []; cbn; lia).
  split; [unfold busy; pose proof (length_omap in_hand (p_workers p)); lia|]. split; intros Hr.
  - split; [eapply pool_progress; [exact cl|exact Hp| |exact Hr]; by destruct (p_workers p); cbn in Hw; [lia|]|].
    unfold actions_left in Hleft. rewrite Hr in Hleft. destruct (p_closed p); lia.
  - split; [rewrite <- Hlog; by apply returned_samples|]. split; [lia|].
    destruct Hp as [_ _ _ Hcl _ Hret]. destruct (Hret Hr) as [Hd Hcd]. specialize (Hcl Hcd).
    assert (sumZ weight (p_workers p) = 0) as Hz by (clear -Hd; induction Hd as [|x l -> _ IH]; [done|exact IH]).
    unfold actions_left in Hleft. rewrite Hr, Hcd, Hcl, Hz in Hleft. lia.
Qed.
End PoolProofs.

(** ** Runs *)

Lemma number_perm P l l' : l ≡ₚ l' -> number P l = number P l'.
Proof. apply sumZ_perm. Qed.

#[export] Instance Verified_perm opts duration : Proper ((≡ₚ) ==> iff) (Verified opts duration).
Proof.
  intros l l' Hp. unfold Verified, upstreams. rewrite !(number_perm _ l l' Hp), Hp. by setoid_rewrite Hp.
Qed.

(** C32: a run decides what it says.  Whatever the schedule of the workers and
    whatever the answers, a run that returns a result passes if and only if
    the requests it made were all answered with an allowed status and without
    a transport error, enough upstreams were seen and, when asked to verify
    the quota, some but at most the maximum number of requests were accepted,
    some were denied, and every one of these answers carried its headers.  The
    result records this verdict, the number of accepted and denied requests,
    and the samples of exactly the requests made. *)
Theorem run_verifies new_request environment opts apiKey warm tr startedAt duration result passed :
  Forall (fun s => in_int64 (StatusCode s)) (finished new_request opts apiKey tr) ->
  run new_request environment opts apiKey warm tr startedAt duration = Some (Ok (result, passed)) ->
  let made := finished new_request opts apiKey tr in
  (passed = true <-> Verified opts duration made)
  /\ Samples result ≡ₚ made /\ Requests result = Z.of_nat (length made)
  /\ exists v, ResVerification result = Some v /\ Passed v = passed
     /\ Accepted v = number (of_status 200) made /\ Denied v = number (of_status 429) made
     /\ ObservedUpstreams v = Z.of_nat (size (upstreams made)).
Proof.
  intros Hr E made. unfold run in E. destruct (warm_up _ _ _ _ _ _) as [u|]; [|done].
  destruct (pool_run new_request opts apiKey tr (pool_init opts)) as [p|] eqn:Ep; [|done]. cbn [mbind option_bind] in E.
  destruct (p_returned p) eqn:Eret; [|done].
  destruct (run_inv new_request opts apiKey _ _ _ _ (init_inv opts) Ep) as (log & Hp & Hlog).
  pose proof (returned_samples _ _ Hp Eret) as Hs. cbn [app] in Hs. rewrite Hlog in Hs. fold made in Hs, Hr.
  assert (Forall (fun s => in_int64 (StatusCode s)) (p_samples p)) as Hr' by (by rewrite Hs).
  set (md := {| MdTool := _ |}) in E. pose proof (verify_iff opts md (p_samples p) duration Hr') as Hv.
  destruct (verify _ _ _) as [b r]. cbn in E. simplify_eq. destruct Hv as [Hiff (v & -> & Hpv & Ha & Hd & Hu)].
  rewrite Hs in Hiff. split; [exact Hiff|]. split; [exact Hs|]. split.
  - cbn [set_verification NewResult Requests]. by rewrite Hs.
  - exists v. unfold upstreams in *. rewrite Hs in Hu. rewrite !(number_perm _ _ _ Hs) in Ha.
    rewrite (number_perm _ _ _ Hs) in Hd. by split_and!.
Qed.

(** ** Options *)

(** What the rest of the program relies on. *)
Record options_ok (o : options) : Prop := {
  oo_requests : 0 < requests o < 2 ^ 63;
  oo_concurrency : 0 < concurrency o < 2 ^ 63;
  oo_warmup : 0 <= warmup o < 2 ^ 63;
  oo_timeout : 0 < timeout o < 2 ^ 63;
  oo_instances : 0 < instances o < 2 ^ 63;
  oo_upstreams : in_int64 (minimumUpstreams o);
  oo_quota : verifyRateLimit o = true -> 0 < rate o < 2 ^ 63 /\ 0 < burst o < 2 ^ 63;
  oo_some : allowedStatuses o <> ∅;
  oo_allowed : set_Forall (fun c => 100 <= c <= 599) (allowedStatuses o);
}.

Lemma loadgen_flags_typed : map_Forall (fun _ v => typed v v) loadgen_flags.
Proof.
  unfold loadgen_flags. cbn [list_to_map foldr uncurry fst snd].
  repeat (apply map_Forall_insert_2; [by vm_compute|]). apply map_Forall_empty.
Qed.

(** Every integer flag is in range after parsing. *)
Lemma parsed_int Quote args fs rest name :
  Parse Quote loadgen_flags args = Ok (fs, rest) -> in_int64 (get_int fs name) /\ in_int64 (get_duration fs name).
Proof.
  intros E. pose proof (Parse_typed _ _ _ _ _ loadgen_flags_typed E name) as H.
  unfold get_int, get_duration. assert (in_int64 0) by (by vm_compute).
  inversion H as [v w [Hk Hw] Hv Hw'|]; [|done]. destruct w; by split.
Qed.

Lemma parse_statuses_ok Quote pieces allowed l :
  set_Forall (fun c => 100 <= c <= 599) allowed -> pieces <> [] \/ allowed <> ∅ ->
  parse_statuses Quote pieces allowed = Ok l ->
  l <> ∅ /\ set_Forall (fun c => 100 <= c <= 599) l.
Proof.
  revert allowed. induction pieces as [|raw rest IH]; intros allowed Ha Hne; cbn [parse_statuses].
  { intros [= <-]. split; [|done]. by destruct Hne. }
  destruct (Atoi (TrimSpace raw)) as [c|]; [|done]. destruct ((c <? 100) || (599 <? c)) eqn:Ec; [done|].
  apply IH; [|right; set_solver]. bool_to_prop. apply set_Forall_union; [|done]. apply set_Forall_singleton. lia.
Qed.

Lemma Split_nonempty sep s : Split sep s <> [].
Proof. induction s as [|c s IH]; [done|]. cbn. destruct (Split sep s); [done|]. by case_match. Qed.

(** Options that parse are well formed.  Whatever the arguments, options
    [parseOptions] accepts have positive counts and a positive timeout, all
    within 64 bits, allowed statuses between 100 and 599 and at least one of
    them, and a positive rate and burst when the quota is to be verified. *)
Theorem parseOptions_typed Quote arguments o :
  parseOptions Quote arguments = Ok o -> options_ok o.
Proof.
  unfold parseOptions. destruct (Parse Quote loadgen_flags arguments) as [[fs rest]|] eqn:E; [|done]. cbn [res_bind].
  pose proof (fun n => parsed_int _ _ _ _ n E) as Hr. case_match; [done|].
  case_match eqn:E1; [done|]. case_match eqn:E2; [done|].
  destruct (parse_statuses _ _ _) as [allowed|] eqn:Ea; [|done]. cbn [res_bind]. intros [= <-].
  apply parse_statuses_ok in Ea as [Hs1 Hs2]; [|done|left; apply Split_nonempty]. bool_to_prop.
  pose proof (Hr "requests") as [? _]. pose proof (Hr "concurrency") as [? _]. pose proof (Hr "warmup") as [? _].
  pose proof (Hr "timeout") as [_ ?]. pose proof (Hr "instances") as [? _]. pose proof (Hr "rate") as [? _].
  pose proof (Hr "burst") as [? _]. unfold in_int64 in *.
  split; cbn [requests concurrency warmup timeout instances minimumUpstreams verifyRateLimit rate burst allowedStatuses];
    try done; try lia.
  - apply (Hr "min-upstreams").
  - intros Hv. rewrite Hv in E2. cbn in E2. bool_to_prop. lia.
Qed.

(** ** Witnesses *)

Definition demo_arguments : list string :=
  ["-requests=3"; "--concurrency"; "2"; "--warmup=0"; "--allowed-statuses"; "200, 429"; "--verify-rate-limit";
   "--rate=0x1"; "--burst"; "2"].

Definition demo_options : options :=
  {| target := "http://127.0.0.1:8080/api/users"; requests := 3; concurrency := 2; warmup := 0; timeout := 5 * Second;
     output := "-"; scenario := "manual"; instances := 1; allowedStatuses := {[429; 200]}; minimumUpstreams := 0;
     verifyRateLimit := true; rate := 1; burst := 2 |}.

Lemma parseOptions_typed_witness :
  parseOptions id demo_arguments = Ok demo_options /\ options_ok demo_options.
Proof.
  assert (parseOptions id demo_arguments = Ok demo_options) as E by (vm_compute; reflexivity).
  split; [exact E|]. apply (parseOptions_typed id demo_arguments demo_options E).
Defined.

Definition demo_headers : headers :=
  header_Set "X-RateLimit-Limit" "2" (header_Set "X-RateLimit-Remaining" "1" (header_Set "X-RateLimit-Reset" "1"
    (header_Set "Retry-After" "1" ∅))).
Definition demo_client (status : Z) : client := fun _ =>
  {| ex_latency := 700; ex_response := Ok {| rs_status := status; rs_header := demo_headers; rs_copy := None; rs_close := None |} |}.

(** Two workers; the second takes an index while the first is still busy. *)
Definition demo_schedule : list action :=
  [Send 0; Send 1; Finish 1 (demo_client 200); Send 1; Finish 0 (demo_client 200); Finish 1 (demo_client 429);
   CloseJobs; Leave 0; Leave 1; Return].

Definition reachable_url (_ : string) : option gerror := None.

Lemma pool_complete_witness :
  exists p, pool_run reachable_url demo_options "key" demo_schedule (pool_init demo_options) = Some p
  /\ p_samples p ≡ₚ finished reachable_url demo_options "key" demo_schedule.
Proof.
  destruct (pool_run reachable_url demo_options "key" demo_schedule (pool_init demo_options)) as [p|] eqn:E;
    [|vm_compute in E; discriminate].
  exists p. split; [reflexivity|].
  assert (p_returned p = true) as Hr.
  { assert (p_returned <$> pool_run reachable_url demo_options "key" demo_schedule (pool_init demo_options)
      = Some true) as F by (vm_compute; reflexivity). rewrite E in F. by injection F. }
  exact (proj1 (proj2 (proj2 (pool_complete reachable_url demo_options "key" demo_schedule p (demo_client 200)
    ltac:(reflexivity) ltac:(discriminate) E)) Hr)).
Defined.

Lemma run_verifies_witness :
  exists result, run reachable_url ∅ demo_options "key" (fun _ => demo_client 200) demo_schedule 0 Second
                 = Some (Ok (result, true))
  /\ Verified demo_options Second (finished reachable_url demo_options "key" demo_schedule).
Proof.
  destruct (run reachable_url ∅ demo_options "key" (fun _ => demo_client 200) demo_schedule 0 Second)
    as [[[result passed]|]|] eqn:E; [|vm_compute in E; discriminate..].
  assert (passed = true) as ->.
  { assert ((fun r => match r with Ok (_, b) => b | Err _ => false end)
      <$> run reachable_url ∅ demo_options "key" (fun _ => demo_client 200) demo_schedule 0 Second = Some true) as F
      by (vm_compute; reflexivity). rewrite E in F. by injection F. }
  exists result. split; [reflexivity|].
  refine (proj1 (proj1 (run_verifies reachable_url ∅ demo_options "key" (fun _ => demo_client 200) demo_schedule 0 Second
    result true _ E)) eq_refl).
  repeat constructor; vm_compute; congruence.
Defined.

