(* ===== verification/Admin.v ===== *)
(** * The administration tool ([cmd/gateway-admin/main.go])

    The commands over one database: its schema, which [Migrate] creates, and
    the tables of [Store] inside it.  Commands run in a monad of a database
    state with errors; a step may also have no result, when [Migrate] waits for
    a lock that is not given up.  What a command prints is its value. *)

From Stdlib Require Import ZArith Lia.
From stdpp Require Import base tactics numbers list gmap strings.
From S2P Require Import Prelude GoLib Sha256 RateLimit Event Auth Sql Store Migrations Config Flags.

Local Open Scope Z_scope.

(** The database: before the first migration there are no tables. *)
Notation database := (Migrations.db (S := option Keys)).

Definition set_schema (sc : option Keys) (s : database) : database :=
  {| m_created := m_created s; m_versions := m_versions s; m_schema := sc; m_holder := m_holder s;
     m_procs := m_procs s |}.

(** ** Programs *)

Definition prog (A : Type) : Type := database -> option (res A * database).

Definition preturn {A} (a : A) : prog A := fun s => Some (Ok a, s).
Definition pfail {A} (e : gerror) : prog A := fun s => Some (Err e, s).
Definition pbind {A B} (m : prog A) (k : A -> prog B) : prog B := fun s =>
  match m s with
  | None => None
  | Some (Err e, s') => Some (Err e, s')
  | Some (Ok a, s') => k a s'
  end.
Definition lift {A} (r : res A) : prog A := fun s => Some (r, s).

(** [fmt.Errorf("...: %w", err)] on the error of a call. *)
Definition wrapping {A} (text : string) (m : prog A) : prog A := fun s =>
  match m s with
  | Some (Err e, s') => Some (Err (ErrWrap text e), s')
  | r => r
  end.

Notation "x <~ m ;; k" := (pbind m (fun x => k)) (at level 100, m at next level, right associativity) : go_scope.

(** A statement on the tables. *)
Definition on_tables {A} (f : Keys -> res A * Keys) : prog A := fun s =>
  match m_schema s with
  | None => Some (Err (ErrNew "relation does not exist"), s)
  | Some t => let '(r, t') := f t in Some (r, set_schema (Some t') s)
  end.

Section Admin.
Context `{Server}.
Context (Quote : string -> string).                            (* [strconv.Quote], the verb [%q] *)
Context (Getenv : string -> string).                           (* [os.Getenv]: empty when unset *)
Context (run_script : string -> option Keys -> res (option Keys)).
Context (files : gmap string string).                          (* the embedded migrations *)

(** The statements of one call of [Migrate], each with its fault.  Six for
    every file and two more are enough. *)
Fixpoint migrate_loop (fuel n i : nat) (faults : nat -> option (gerror * bool)) (s : database)
    : option (res unit * database) :=
  match m_procs s !! i with
  | Some (M_ret r) => Some (r, s)
  | _ =>
      match fuel with
      | O => None
      | S fuel' => s' ← migrate_step run_script files i (faults n) s; migrate_loop fuel' (S n) i faults s'
      end
  end.

Definition Migrate (faults : nat -> option (gerror * bool)) : prog unit := fun s =>
  migrate_loop (6 * length (paths files) + 2) 0 (length (m_procs s)) faults (start s).

(** ** Commands *)

Definition env (name fallback : string) : string :=
  if bool_decide (Getenv name = "") then fallback else Getenv name.

Definition apiKeyPepper : res string :=
  let pepper := env "API_KEY_PEPPER" "dev-only-pepper-change-me" in
  if slen pepper <? 16 then Err (ErrNew "API_KEY_PEPPER must be at least 16 characters") else Ok pepper.

Definition line (s : string) : string := s +:+ String (byte_ascii 10) EmptyString.

(** What the statements of [bootstrap] meet. *)
Record BootEnv := {
  b_migrate : nat -> option (gerror * bool);
  b_plan : Env;
  b_find : Env;
  b_client : Env;
  b_key : Env;
  b_quota : Env;
}.

Definition bootstrap (w : BootEnv) : prog string :=
  _ <~ Migrate (b_migrate w) ;;
  _ <~ wrapping "upsert developer plan: " (on_tables (UpsertPlan (b_plan w) "developer" "Developer" 5 10)) ;;
  clientID <~ wrapping "ensure development client: "
    (on_tables (EnsureClient Quote (b_find w) (b_client w) "Local Development" "developer")) ;;
  pepper <~ lift apiKeyPepper ;;
  let rawKey := env "DEV_API_KEY" "dev-key-change-me" in
  keyID <~ wrapping "ensure development API key: "
    (on_tables (EnsureAPIKey (b_key w) clientID "Local development key" (Prefix rawKey)
       (Digest (bytes_of pepper) rawKey))) ;;
  _ <~ wrapping "set development route quota: " (on_tables (SetRouteQuota (b_quota w) clientID "/api/orders" 2 4)) ;;
  preturn (line ("bootstrap complete: client_id=" +:+ clientID +:+ " key_id=" +:+ keyID)).

Definition strings_flags (names : list string) : FlagSet := list_to_map ((fun n => (n, FString "")) <$> names).
Definition with_quota (fs : FlagSet) : FlagSet := <["rate" := FInt 0]> (<["burst" := FInt 0]> fs).

Definition empty (s : string) : bool := bool_decide (s = "").

Definition createPlan (e : Env) (arguments : list string) : prog string :=
  parsed <~ lift (Parse Quote (with_quota (strings_flags ["slug"; "name"])) arguments) ;;
  let fs := parsed.1 in
  let slug := get_string fs "slug" in
  let name := get_string fs "name" in
  let rate := get_int fs "rate" in
  let burst := get_int fs "burst" in
  if empty slug || empty name || (rate <=? 0) || (burst <=? 0) then
    pfail (ErrNew "--slug, --name, positive --rate, and positive --burst are required")
  else
    id <~ on_tables (UpsertPlan e slug name rate burst) ;;
    preturn (line ("plan_id=" +:+ id)).

Definition createClient (e : Env) (arguments : list string) : prog string :=
  parsed <~ lift (Parse Quote (strings_flags ["name"; "plan"]) arguments) ;;
  let fs := parsed.1 in
  let name := get_string fs "name" in
  let plan := get_string fs "plan" in
  if empty name || empty plan then pfail (ErrNew "--name and --plan are required")
  else
    id <~ on_tables (CreateClient Quote e name plan) ;;
    preturn (line ("client_id=" +:+ id)).

Definition createKey (random : res (list Z)) (e : Env) (arguments : list string) : prog string :=
  parsed <~ lift (Parse Quote (strings_flags ["client"; "name"]) arguments) ;;
  let fs := parsed.1 in
  let clientID := get_string fs "client" in
  let name := get_string fs "name" in
  if empty clientID || empty name then pfail (ErrNew "--client and --name are required")
  else
    key <~ lift (GenerateKey random) ;;
    let '(rawKey, prefix) := key in
    pepper <~ lift apiKeyPepper ;;
    keyID <~ on_tables (CreateAPIKey e clientID name prefix (Digest (bytes_of pepper) rawKey)) ;;
    preturn (line ("key_id=" +:+ keyID) +:+ line ("key_prefix=" +:+ prefix) +:+ line ("api_key=" +:+ rawKey)
             +:+ line "Save api_key now. It cannot be recovered from the database.").

Definition revokeKey (e : Env) (arguments : list string) : prog string :=
  parsed <~ lift (Parse Quote (strings_flags ["prefix"]) arguments) ;;
  let prefix := get_string parsed.1 "prefix" in
  if empty prefix then pfail (ErrNew "--prefix is required")
  else
    count <~ on_tables (RevokeKey e prefix) ;;
    if count =? 0 then pfail (ErrNew ("no active API key found for prefix " +:+ Quote prefix))
    else preturn (line ("revoked=" +:+ Itoa count)).

Definition setRouteQuota (e : Env) (arguments : list string) : prog string :=
  parsed <~ lift (Parse Quote (with_quota (strings_flags ["client"; "route"])) arguments) ;;
  let fs := parsed.1 in
  let clientID := get_string fs "client" in
  let route := get_string fs "route" in
  let rate := get_int fs "rate" in
  let burst := get_int fs "burst" in
  if empty clientID || empty route || (rate <=? 0) || (burst <=? 0) then
    pfail (ErrNew "--client, --route, positive --rate, and positive --burst are required")
  else
    _ <~ on_tables (SetRouteQuota e clientID route rate burst) ;;
    preturn "".

(** ** [main] *)

(** What one call of the tool meets; a command makes at most one statement
    outside [bootstrap] and [migrate]. *)
Record CallEnv := {
  c_parse : option gerror;
  c_create : option gerror;
  c_ping : option gerror;
  c_boot : BootEnv;
  c_stmt : Env;
  c_random : res (list Z);
}.

(** How a call ends: the usage text with status 2, an error with status 1, or
    what was printed. *)
Inductive ending := Usage | Fatal (e : gerror) | Printed (s : string).

Definition exit_code (e : ending) : Z := match e with Usage => 2 | Fatal _ => 1 | Printed _ => 0 end.

(** The command of a name, over the rest of the arguments. *)
Definition command (name : string) (w : CallEnv) (arguments : list string) : option (prog string) :=
  if bool_decide (name = "migrate") then Some (_ <~ Migrate (b_migrate (c_boot w)) ;; preturn "")
  else if bool_decide (name = "bootstrap") then Some (bootstrap (c_boot w))
  else if bool_decide (name = "create-plan") then Some (createPlan (c_stmt w) arguments)
  else if bool_decide (name = "create-client") then Some (createClient (c_stmt w) arguments)
  else if bool_decide (name = "create-key") then Some (createKey (c_random w) (c_stmt w) arguments)
  else if bool_decide (name = "revoke-key") then Some (revokeKey (c_stmt w) arguments)
  else if bool_decide (name = "set-route-quota") then Some (setRouteQuota (c_stmt w) arguments)
  else None.

(** [main] over the arguments after the program's name. *)
Definition main (w : CallEnv) (args : list string) (s : database) : option (ending * database) :=
  match args with
  | [] => Some (Usage, s)
  | name :: arguments =>
      match Open (c_parse w) (c_create w) (c_ping w) with
      | Err e => Some (Fatal e, s)
      | Ok _ =>
          match command name w arguments with
          | None => Some (Usage, s)
          | Some p =>
              match p s with
              | None => None
              | Some (Err e, s') => Some (Fatal e, s')
              | Some (Ok out, s') => Some (Printed out, s')
              end
          end
      end
  end.
End Admin.

(** ** Every command keeps the constraints *)

Section Invariant.
Context `{Server}.
Context (Quote Getenv : string -> string) (run_script : string -> option Keys -> res (option Keys)).
Context (files : gmap string string).

(** The constraints of the schema, and what no command breaks: clients stay
    active. *)
Definition keys_ok (t : Keys) : Prop := schema_ok t /\ Forall (fun c => cl_active c = true) (clients t).
Definition schema_fine (sc : option Keys) : Prop := match sc with None => True | Some t => keys_ok t end.

(** A script that succeeds leaves tables that satisfy their constraints. *)
Context (Hscripts : forall text sc sc', schema_fine sc -> run_script text sc = Ok sc' -> schema_fine sc').

Definition keeps {A} (m : prog A) : Prop :=
  forall s r s', schema_fine (m_schema s) -> m s = Some (r, s') -> schema_fine (m_schema s').

Lemma keeps_return {A} (a : A) : keeps (preturn a).
Proof. by intros s r s' Hs [= _ <-]. Qed.

Lemma keeps_fail {A} e : keeps (pfail (A := A) e).
Proof. by intros s r s' Hs [= _ <-]. Qed.

Lemma keeps_lift {A} (x : res A) : keeps (lift x).
Proof. by intros s r s' Hs [= _ <-]. Qed.

Lemma keeps_bind {A B} (m : prog A) (k : A -> prog B) : keeps m -> (forall a, keeps (k a)) -> keeps (pbind m k).
Proof.
  intros Hm Hk s r s' Hs E. unfold pbind in E. destruct (m s) as [[[a|e] s1]|] eqn:Em; [|by simplify_eq; eapply Hm|done].
  eapply Hk; [|exact E]. by eapply Hm.
Qed.

Lemma keeps_wrapping {A} text (m : prog A) : keeps m -> keeps (wrapping text m).
Proof.
  intros Hm s r s' Hs E. unfold wrapping in E. destruct (m s) as [[[a|e] s1]|] eqn:Em; simplify_eq; by eapply Hm.
Qed.

Lemma keeps_on_tables {A} (f : Keys -> res A * Keys) : (forall t, keys_ok t -> keys_ok (f t).2) -> keeps (on_tables f).
Proof.
  intros Hf s r s' Hs E. unfold on_tables in E. destruct (m_schema s) as [t|] eqn:Et; [|by simplify_eq; rewrite Et].
  specialize (Hf t Hs). destruct (f t) as [r' t']. by simplify_eq.
Qed.

Lemma keeps_if {A} (b : bool) (m m' : prog A) : keeps m -> keeps m' -> keeps (if b then m else m').
Proof. by destruct b. Qed.

(** The pending schema of a transaction satisfies the constraints as well. *)
Definition pending_fine (p : pc (S := option Keys)) : Prop :=
  match p with M_record _ sc | M_commit _ sc => schema_fine sc | _ => True end.

Lemma migrate_step_fine i fault s s' :
  schema_fine (m_schema s) -> (forall p, m_procs s !! i = Some p -> pending_fine p) ->
  migrate_step run_script files i fault s = Some s' ->
  schema_fine (m_schema s') /\ (forall p, m_procs s' !! i = Some p -> pending_fine p).
Proof.
  intros Hs Hp E. unfold migrate_step in E. destruct (m_procs s !! i) as [p|] eqn:Ep; [|done].
  specialize (Hp p eq_refl).
  assert (forall q s0, m_procs s0 = m_procs s -> pending_fine q ->
    forall p', m_procs (goto i q s0) !! i = Some p' -> pending_fine p') as Hgo.
  { intros q s0 E0 Hq p'. cbn. rewrite E0, list_lookup_insert_eq by by eapply lookup_lt_Some. by intros [= <-]. }
  assert (forall path sc, run_script (content files path) (m_schema s) = Ok sc -> schema_fine sc) as Hrun
    by (intros path sc; by apply Hscripts).
  assert (forall text e s0, m_procs s0 = m_procs s -> schema_fine (m_schema s0) ->
    Some (fail i text e s0) = Some s' ->
    schema_fine (m_schema s') /\ (forall p, m_procs s' !! i = Some p -> pending_fine p)) as Hfail.
  { intros text e s0 E0 H0 [= <-]. split; [done|]. by apply Hgo. }
  assert (forall q s0, m_procs s0 = m_procs s -> schema_fine (m_schema s0) -> pending_fine q ->
    Some (goto i q s0) = Some s' ->
    schema_fine (m_schema s') /\ (forall p, m_procs s' !! i = Some p -> pending_fine p)) as Hmove.
  { intros q s0 E0 H0 Hq [= <-]. split; [done|]. by apply Hgo. }
  destruct p as [|k|k|k|k|k|k sc|k sc|r].
  - destruct fault as [[e []]|]; [eapply Hfail, E|eapply Hfail, E|eapply Hmove, E]; done.
  - destruct (paths files !! k); [|eapply Hmove, E; done].
    destruct fault as [[e b]|]; [eapply Hfail, E|eapply Hmove, E]; done.
  - destruct fault as [[e b]|]; [eapply Hfail, E; done|]. destruct (m_holder s); [done|]. eapply Hmove, E; done.
  - destruct (paths files !! k) as [path|]; [|done]. cbn [mbind option_bind] in E.
    destruct fault as [[e b]|]; [eapply Hfail, E; done|]. case_decide; eapply Hmove, E; done.
  - destruct fault as [[e b]|]; eapply Hmove, E; done.
  - destruct (paths files !! k) as [path|]; [|done]. cbn [mbind option_bind] in E.
    destruct fault as [[e b]|]; [eapply Hfail, E; done|].
    destruct (run_script _ _) eqn:Er; [|eapply Hfail, E; done]. eapply Hmove, E; [done..|]. by eapply Hrun.
  - destruct (paths files !! k) as [path|]; [|done]. cbn [mbind option_bind] in E.
    destruct fault as [[e b]|]; [eapply Hfail, E; done|]. eapply Hmove, E; done.
  - destruct (paths files !! k) as [path|]; [|done]. cbn [mbind option_bind] in E.
    destruct fault as [[e []]|]; [eapply Hfail, E|eapply Hfail, E|eapply Hmove, E]; done.
  - done.
Qed.

Lemma keeps_Migrate faults : keeps (Migrate run_script files faults).
Proof.
  intros s r s' Hs. unfold Migrate. set (i := length (m_procs s)).
  generalize (6 * length (paths files) + 2)%nat as fuel. generalize 0%nat as n.
  assert (forall p, m_procs (start s) !! i = Some p -> pending_fine p) as Hp.
  { intros p. cbn. subst i. rewrite lookup_app_r, Nat.sub_diag by done. by intros [= <-]. }
  assert (schema_fine (m_schema (start s))) as Hs0 by done. intros n fuel. revert n Hp Hs0. generalize (start s). clear Hs.
  induction fuel as [|fuel IH]; intros u n Hp Hs E; cbn [migrate_loop] in E.
  - destruct (m_procs u !! i) as [[| | | | | | | |r']|]; by simplify_eq.
  - assert (forall u', migrate_step run_script files i (faults n) u = Some u' ->
      migrate_loop run_script files fuel (S n) i faults u' = Some (r, s') -> schema_fine (m_schema s')) as Hgo.
    { intros u' Eu. destruct (migrate_step_fine _ _ _ _ Hs Hp Eu) as [H1 H2]. by apply IH. }
    destruct (migrate_step run_script files i (faults n) u) as [u'|]; cbn [mbind option_bind] in E;
      destruct (m_procs u !! i) as [[| | | | | | | |r']|]; try done; try (by eapply Hgo); by simplify_eq.
Qed.
End Invariant.

Create HintDb admin.
#[export] Hint Resolve keeps_return keeps_fail keeps_lift keeps_bind keeps_wrapping keeps_on_tables keeps_if keeps_Migrate : admin.

Section Statements.
Context `{Server} (Quote : string -> string).

(** What relates the tables to those of a successful body relates them to
    those after the statement. *)
Lemma exec_rel {A} (R : Keys -> Keys -> Prop) env (body : Keys -> res (A * Keys)) t :
  R t t -> (forall a t', body t = Ok (a, t') -> R t t') -> R t (exec env body t).2.
Proof. intros Hr Hb. destruct (exec_cases env body t) as [->|[a Ha]]; [done|]. by eapply Hb. Qed.

(** The tables a statement leaves alone. *)
Ltac frame R :=
  cbv zeta; apply (exec_rel R); [done|]; intros ? ? Ha;
  unfold insert_key in *; unfold res_bind, check in Ha; repeat case_match; by simplify_eq/=.

Lemma UpsertPlan_frame env slug name rate burst t :
  let t' := (UpsertPlan env slug name rate burst t).2 in
  clients t' = clients t /\ api_keys t' = api_keys t /\ quotas t' = quotas t.
Proof. frame (fun t t' => clients t' = clients t /\ api_keys t' = api_keys t /\ quotas t' = quotas t). Qed.

Lemma CreateClient_cases env name planSlug t :
  (CreateClient Quote env name planSlug t).2 = t
  \/ exists p, (CreateClient Quote env name planSlug t).2
     = set_clients (clients t ++ [{| cl_id := fresh env; cl_plan_id := pl_id p; cl_name := name;
         cl_active := true; cl_created := now env |}]) t.
Proof.
  assert ((CreateClient Quote env name planSlug t).2 = (insert_client env name planSlug t).2) as ->.
  { unfold CreateClient. destruct (insert_client _ _ _ _) as [[|e] t']; [done|]. by case_decide. }
  apply (exec_rel (fun t t' => t' = t \/ exists p, t' = set_clients (clients t ++ [{| cl_id := fresh env;
    cl_plan_id := pl_id p; cl_name := name; cl_active := true; cl_created := now env |}]) t)); [by left|].
  intros a t' Ha. right. unfold res_bind, check in Ha. repeat case_match; simplify_eq. by eexists.
Qed.

Lemma EnsureClient_cases env1 env2 name planSlug t :
  (EnsureClient Quote env1 env2 name planSlug t).2 = t
  \/ (EnsureClient Quote env1 env2 name planSlug t) = CreateClient Quote env2 name planSlug t.
Proof. unfold EnsureClient. repeat case_match; auto. Qed.

Lemma CreateAPIKey_frame env c n p d t :
  let t' := (CreateAPIKey env c n p d t).2 in
  plans t' = plans t /\ clients t' = clients t /\ quotas t' = quotas t.
Proof. frame (fun t t' => plans t' = plans t /\ clients t' = clients t /\ quotas t' = quotas t). Qed.

Lemma EnsureAPIKey_frame env c n p d t :
  let t' := (EnsureAPIKey env c n p d t).2 in
  plans t' = plans t /\ clients t' = clients t /\ quotas t' = quotas t.
Proof. frame (fun t t' => plans t' = plans t /\ clients t' = clients t /\ quotas t' = quotas t). Qed.

Lemma SetRouteQuota_frame env c r rate burst t :
  let t' := (SetRouteQuota env c r rate burst t).2 in
  plans t' = plans t /\ clients t' = clients t /\ api_keys t' = api_keys t.
Proof. frame (fun t t' => plans t' = plans t /\ clients t' = clients t /\ api_keys t' = api_keys t). Qed.

Lemma RevokeKey_frame env p t :
  let t' := (RevokeKey env p t).2 in
  plans t' = plans t /\ clients t' = clients t /\ quotas t' = quotas t.
Proof. frame (fun t t' => plans t' = plans t /\ clients t' = clients t /\ quotas t' = quotas t). Qed.

(** Every statement keeps the constraints and the clients active. *)
Lemma UpsertPlan_keys env slug name rate burst t : keys_ok t -> keys_ok (UpsertPlan env slug name rate burst t).2.
Proof.
  intros [Ht Ha]. split; [by apply UpsertPlan_schema|]. by rewrite (proj1 (UpsertPlan_frame env slug name rate burst t)).
Qed.

Lemma CreateClient_keys env name planSlug t : keys_ok t -> keys_ok (CreateClient Quote env name planSlug t).2.
Proof.
  intros [Ht Ha]. split; [by apply CreateClient_schema|].
  destruct (CreateClient_cases env name planSlug t) as [->|[p ->]]; [done|]. cbn.
  apply Forall_app_2; [done|]. by apply Forall_singleton.
Qed.

Lemma EnsureClient_keys env1 env2 name planSlug t : keys_ok t -> keys_ok (EnsureClient Quote env1 env2 name planSlug t).2.
Proof. intros Ht. destruct (EnsureClient_cases env1 env2 name planSlug t) as [->| ->]; [done|]. by apply CreateClient_keys. Qed.

Lemma CreateAPIKey_keys env c n p d t : keys_ok t -> keys_ok (CreateAPIKey env c n p d t).2.
Proof.
  intros [Ht Ha]. split; [by apply CreateAPIKey_schema|]. destruct (CreateAPIKey_frame env c n p d t) as (_ & E & _).
  by rewrite E.
Qed.

Lemma EnsureAPIKey_keys env c n p d t : keys_ok t -> keys_ok (EnsureAPIKey env c n p d t).2.
Proof.
  intros [Ht Ha]. split; [by apply EnsureAPIKey_schema|]. destruct (EnsureAPIKey_frame env c n p d t) as (_ & E & _).
  by rewrite E.
Qed.

Lemma SetRouteQuota_keys env c r rate burst t : keys_ok t -> keys_ok (SetRouteQuota env c r rate burst t).2.
Proof.
  intros [Ht Ha]. split; [by apply SetRouteQuota_schema|]. destruct (SetRouteQuota_frame env c r rate burst t) as (_ & E & _).
  by rewrite E.
Qed.

Lemma RevokeKey_keys env p t : keys_ok t -> keys_ok (RevokeKey env p t).2.
Proof.
  intros [Ht Ha]. split; [by apply RevokeKey_schema|]. destruct (RevokeKey_frame env p t) as (_ & E & _). by rewrite E.
Qed.
End Statements.

#[export] Hint Resolve UpsertPlan_keys CreateClient_keys EnsureClient_keys CreateAPIKey_keys EnsureAPIKey_keys
  SetRouteQuota_keys RevokeKey_keys : admin.

Section Sessions.
Context `{Server}.
Context (Quote Getenv : string -> string) (run_script : string -> option Keys -> res (option Keys)).
Context (files : gmap string string).

(** A sequence of calls of the tool, each with what it meets. *)
Fixpoint session (calls : list (CallEnv * list string)) (s : database) : option (list ending * database) :=
  match calls with
  | [] => Some ([], s)
  | (w, args) :: rest =>
      '(e, s1) ← main Quote Getenv run_script files w args s;
      '(es, s2) ← session rest s1;
      Some (e :: es, s2)
  end.

Context (Hscripts : forall text sc sc', schema_fine sc -> run_script text sc = Ok sc' -> schema_fine sc').

Lemma command_keeps name w arguments p :
  command Quote Getenv run_script files name w arguments = Some p -> keeps p.
Proof.
  unfold command. intros E. repeat case_bool_decide; simplify_eq;
    unfold bootstrap, createPlan, createClient, createKey, revokeKey, setRouteQuota.
  all: repeat first [progress eauto with admin | apply keeps_bind; [eauto with admin|intros ?] | apply keeps_if | case_match].
Qed.

Lemma session_fine calls s es s' :
  schema_fine (m_schema s) -> session calls s = Some (es, s') -> schema_fine (m_schema s').
Proof.
  revert s es. induction calls as [|[w args] rest IH]; intros s es Hs E; cbn [session] in E; [by simplify_eq|].
  destruct (main _ _ _ _ w args s) as [[e s1]|] eqn:E1; [|done]. cbn in E.
  destruct (session rest s1) as [[es1 s2]|] eqn:E2; [|done]. cbn in E. simplify_eq. eapply IH; [|exact E2].
  unfold main in E1. destruct args as [|name arguments]; [by simplify_eq|].
  destruct (Open _ _ _); [|by simplify_eq].
  destruct (command Quote Getenv run_script files name w arguments) as [p|] eqn:Ec; [|by simplify_eq].
  destruct (p s) as [[[out|e'] s3]|] eqn:Ep; simplify_eq; by eapply command_keeps.
Qed.

(** C16: the tables are well typed after any history of the tool.  Whatever
    commands are run on a new database, with whatever arguments and whatever
    faults of the connection, the tables - once a migration has created them -
    satisfy every constraint of their schema, every client is active, and no
    look-up yields a quota outside the limiter's range.  The one assumption is
    that the migrations' scripts themselves leave such tables. *)
Theorem session_typed calls es s :
  session calls (empty_db None) = Some (es, s) ->
  match m_schema s with
  | None => True
  | Some t =>
      schema_ok t /\ Forall (fun c => cl_active c = true) (clients t)
      /\ forall env digest route pr, fault env = None -> LookupActiveKey env t digest route = Ok pr ->
         valid_policy (PrRatePerSecond pr) (PrBurstCapacity pr)
  end.
Proof.
  intros E. pose proof (session_fine calls (empty_db None) es s I E) as Hs. destruct (m_schema s) as [t|]; [|done]. cbn in Hs.
  destruct Hs as [Ht Ha]. split; [done|]. split; [done|]. intros env digest route pr Hf Hl.
  apply lookup_ok in Hl as (k & c & p & (_ & _ & _ & _ & _ & _ & Hp & _) & ->); [|done..].
  by apply principal_policy.
Qed.
End Sessions.

(** ** Migrating without faults *)

Section Calm.
Context (run_script : string -> option Keys -> res (option Keys)) (files : gmap string string).

(** What the embedded scripts do to the tables of [Store]: the first creates
    them, the others leave them alone. *)
Record scripts_ok : Prop := {
  so_first : exists p, paths files !! 0%nat = Some p /\ run_script (content files p) None = Ok (Some no_keys);
  so_later : forall k p t, paths files !! S k = Some p -> run_script (content files p) (Some t) = Ok (Some t);
}.

(** Some first [n] files are recorded, and the tables exist once one is;
    nobody is migrating. *)
Definition consistent (n : nat) (s : database) : Prop :=
  (n <= length (paths files))%nat /\ m_versions s = take n (versions files) /\ m_holder s = None
  /\ match m_schema s with None => n = 0%nat | Some _ => (0 < n)%nat end.

(** Rows survive a migration; new tables are empty. *)
Definition tables (s : database) : Keys := default no_keys (m_schema s).

Lemma alone_migrate_loop i m s s' r fuel n faults :
  (forall n, faults n = None) -> alone run_script files i m s = Some s' -> m_procs s' !! i = Some (M_ret r) ->
  (m <= fuel)%nat -> migrate_loop run_script files fuel n i faults s = Some (r, s').
Proof.
  intros Hf. revert s fuel n. induction m as [|m IH]; intros s fuel n E Hr Hle; cbn [alone] in E.
  - simplify_eq. destruct fuel; cbn [migrate_loop]; by rewrite Hr.
  - destruct (migrate_step run_script files i None s) as [s1|] eqn:E1; [|done]. cbn [mbind option_bind] in E.
    destruct fuel as [|fuel]; [lia|]. cbn [migrate_loop]. rewrite Hf, E1. cbn [mbind option_bind].
    rewrite (IH s1 fuel (S n) E Hr) by lia. unfold migrate_step in E1. by destruct (m_procs s !! i) as [[]|].
Qed.

Lemma version_index n k path :
  paths files !! k = Some path -> version_of path ∈ take n (versions files) <-> (k < n)%nat.
Proof.
  intros Hk. assert (versions files !! k = Some (version_of path)) as Hv
    by (unfold versions; by rewrite list_lookup_fmap, Hk). split.
  - intros [j Hj]%list_elem_of_lookup. apply lookup_take_Some in Hj as [Hj Hlt].
    pose proof (NoDup_lookup _ _ _ _ (versions_NoDup files) Hv Hj). lia.
  - intros Hlt. apply list_elem_of_lookup. exists k. apply lookup_take_Some. done.
Qed.

(** One file: whatever is recorded, the next state is consistent again. *)
Lemma alone_one i k n s path :
  scripts_ok -> consistent n s -> (k <= n)%nat -> at_pc i (M_begin k) s -> paths files !! k = Some path ->
  exists m s', (m <= 6)%nat /\ alone run_script files i m s = Some s' /\ at_pc i (M_begin (S k)) s'
    /\ consistent (Nat.max n (S k)) s' /\ tables s' = tables s.
Proof.
  intros [Hfirst Hlater] (Hn & Hv & Hh & Hs) Hkn Hp Hk. pose proof (lookup_lt_Some _ _ _ Hk) as Hlt.
  pose proof (version_index n k path Hk) as Hin. rewrite <- Hv in Hin.
  destruct (decide (k < n)%nat) as [Hd|Hd].
  - destruct (alone_skip run_script files i k s path) as (s' & E & Hp' & Hh' & Hv' & Hs'); [done..|by apply Hin|].
    exists 4%nat, s'. rewrite (Nat.max_l n (S k)) by lia. unfold consistent, tables. rewrite Hv', Hs'. split_and!; [lia|done..].
  - assert (n = k) as -> by lia.
    assert (run_script (content files path) (m_schema s) = Ok (Some (tables s))) as Hrun.
    { unfold tables. destruct (m_schema s) as [t|]; cbn.
      - destruct k as [|k]; [lia|]. by eapply Hlater.
      - subst k. destruct Hfirst as (p & Hp0 & Hrun). rewrite Hk in Hp0. by simplify_eq. }
    destruct (alone_apply run_script files i k s path (Some (tables s))) as (s' & E & Hp' & Hh' & Hv' & Hs');
      [done..|by rewrite Hin|done|].
    exists 6%nat, s'. rewrite (Nat.max_r k (S k)) by lia. unfold consistent.
    assert (tables s' = tables s) as Ht by (unfold tables at 1; by rewrite Hs').
    rewrite Hv', Hs', Hv. split_and!; try done; try lia.
    rewrite (take_S_r _ _ (version_of path)); [done|]. unfold versions. by rewrite list_lookup_fmap, Hk.
Qed.

Lemma alone_all i k n s :
  scripts_ok -> consistent n s -> (k <= n)%nat -> at_pc i (M_begin k) s ->
  exists m s', (m <= 6 * (length (paths files) - k) + 1)%nat /\ alone run_script files i m s = Some s'
    /\ at_pc i (M_ret (Ok tt)) s' /\ consistent (length (paths files)) s' /\ tables s' = tables s.
Proof.
  intros Hsc. remember (length (paths files) - k)%nat as left eqn:El.
  revert k n s El. induction left as [|left IH]; intros k n s El Hc Hkn Hp.
  - assert (n = length (paths files)) as -> by (destruct Hc; lia).
    exists 1%nat, (goto i (M_ret (Ok tt)) s). split; [lia|]. split_and!; [|by eapply at_goto|exact Hc|done].
    cbn [alone]. unfold migrate_step. rewrite Hp. by rewrite (proj2 (lookup_ge_None (paths files) k)) by lia.
  - destruct (lookup_lt_is_Some_2 (paths files) k) as [path Hk]; [lia|].
    destruct (alone_one i k n s path Hsc Hc Hkn Hp Hk) as (m1 & s1 & Hm1 & E1 & Hp1 & Hc1 & Ht1).
    destruct (IH (S k) _ s1 ltac:(lia) Hc1 ltac:(lia) Hp1) as (m2 & s2 & Hm2 & E2 & Hp2 & Hc2 & Ht2).
    exists (m1 + m2)%nat, s2. split; [lia|]. split_and!; [by eapply alone_app|done|done|congruence].
Qed.

(** A call of [Migrate] without faults succeeds, keeps every row, and leaves
    every file recorded. *)
Lemma Migrate_calm faults n s :
  scripts_ok -> consistent n s -> (forall n, faults n = None) ->
  exists s', Migrate run_script files faults s = Some (Ok tt, s')
    /\ consistent (length (paths files)) s' /\ m_schema s' = Some (tables s).
Proof.
  intros Hsc Hc Hf. set (i := length (m_procs s)).
  assert (at_pc i M_create (start s)) as Hp by (unfold at_pc; cbn; by rewrite lookup_app_r, Nat.sub_diag by done).
  set (s1 := goto i (M_begin 0) (set_created (start s))).
  assert (alone run_script files i 1 (start s) = Some s1) as E1 by (cbn [alone]; unfold migrate_step; by rewrite Hp).
  destruct (alone_all i 0 n s1) as (m & s2 & Hm & E2 & Hr & Hc2 & Ht); [done|exact Hc|lia|by eapply (at_goto i M_create)|].
  exists s2. split; [|split; [done|]].
  - apply (alone_migrate_loop i (1 + m) (start s) s2 (Ok tt)); [done|by eapply alone_app|done|lia].
  - destruct Hc2 as (_ & _ & _ & Hs2). destruct Hsc as [(p & Hp0%lookup_lt_Some & _) _].
    unfold tables in Ht. destruct (m_schema s2) as [t|]; [|lia]. cbn in Ht. by subst t.
Qed.
End Calm.

(** ** Statements that find their row *)

Section Again.
Context `{Server} (Quote : string -> string).

Lemma row_unique {A} (p : A -> bool) l a :
  a ∈ l -> p a = true -> (forall b, b ∈ l -> p b = true -> b = a) -> row p l = Some a.
Proof.
  intros Ha Hp Hu. destruct (row p l) as [b|] eqn:E.
  - apply row_Some in E as [Hb Hin]. by rewrite (Hu b).
  - by rewrite (row_None _ _ _ E Ha) in Hp.
Qed.

Lemma update_id {A} (p : A -> bool) f l : (forall a, a ∈ l -> p a = true -> f a = a) -> update p f l = l.
Proof.
  intros Hf. unfold update. rewrite <- (list_fmap_id l) at 2. apply list_fmap_ext.
  intros i a Ha%list_elem_of_lookup_2. cbn. destruct (p a) eqn:E; [by apply Hf|done].
Qed.

Lemma update_elem {A} (p : A -> bool) f l a : a ∈ l -> p a = true -> f a ∈ update p f l.
Proof.
  intros Ha Hp. unfold update. apply list_elem_of_fmap. exists a. by rewrite Hp.
Qed.

(** A plan that was upserted is the only one with its slug. *)
Lemma UpsertPlan_ok env slug name rate burst t id t' :
  schema_ok t -> UpsertPlan env slug name rate burst t = (Ok id, t') ->
  let p := {| pl_id := id; pl_slug := slug; pl_name := name; pl_rate := rate; pl_burst := burst |} in
  p ∈ plans t' /\ text_ok slug && text_ok name = true /\ quota_check rate burst = Ok tt /\ slug_ok slug = true.
Proof.
  intros Ht E p. apply exec_ok in E as [_ E]. apply check_bind in E as [Htx E].
  destruct (quota_check rate burst) as [[]|] eqn:Eq; [|done]. cbn [res_bind] in E. apply check_bind in E as [Hs E].
  split; [|done]. destruct (row _ _) as [p0|] eqn:Er.
  - simplify_eq. apply row_Some in Er as [H0 Hin]. apply same_true in H0. cbn.
    assert (p = {| pl_id := pl_id p0; pl_slug := pl_slug p0; pl_name := name; pl_rate := rate; pl_burst := burst |}) as ->
      by (subst p; by rewrite H0).
    apply (update_elem _ (fun p => {| pl_id := pl_id p; pl_slug := pl_slug p; pl_name := name; pl_rate := rate;
      pl_burst := burst |}) (plans t) p0 Hin). by apply same_true.
  - apply check_bind in E as [_ E]. simplify_eq. cbn. apply elem_of_app. right. by left.
Qed.

Lemma UpsertPlan_again env' slug name rate burst id u :
  schema_ok u ->
  {| pl_id := id; pl_slug := slug; pl_name := name; pl_rate := rate; pl_burst := burst |} ∈ plans u ->
  text_ok slug && text_ok name = true -> quota_check rate burst = Ok tt -> slug_ok slug = true -> fault env' = None ->
  UpsertPlan env' slug name rate burst u = (Ok id, u).
Proof.
  intros Hu Hp Htx Hq Hs Hf. set (p := {| pl_id := id |}) in Hp.
  assert (forall b, b ∈ plans u -> same (pl_slug b) slug = true -> b = p) as Huniq.
  { intros b Hb Hsl%same_true. by eapply (column_inj pl_slug); [apply Hu|..]. }
  unfold UpsertPlan, exec. rewrite Hf, Htx, Hq, Hs. cbn [check res_bind].
  rewrite (row_unique _ (plans u) p); [|done|by apply same_true|done]. cbn [pl_id].
  rewrite update_id; [by destruct u|]. intros b Hb Hsl. by rewrite (Huniq b Hb Hsl).
Qed.

Lemma UpsertPlan_calm env slug name rate burst t :
  fault env = None -> text_ok slug && text_ok name = true -> quota_check rate burst = Ok tt -> slug_ok slug = true ->
  fresh env ∉ pl_id <$> plans t -> exists id t', UpsertPlan env slug name rate burst t = (Ok id, t').
Proof.
  intros Hf Htx Hq Hs Hfr. unfold UpsertPlan, exec. rewrite Hf, Htx, Hq, Hs. cbn [check res_bind].
  destruct (row _ _); [by eexists _, _|]. rewrite (bool_decide_eq_true_2 (fresh env ∉ _)) by done. by eexists _, _.
Qed.

(** *** Clients *)

Lemma oldest_fold l best c : foldl oldest best l = Some c -> best = Some c \/ c ∈ l.
Proof.
  revert best. induction l as [|a l IH]; intros best E; cbn [foldl] in E; [by left|].
  destruct (IH _ E) as [Hb|Hin]; [|right; by right]. unfold oldest in Hb. destruct best as [b|].
  - case_match; simplify_eq; [right; left|by left].
  - simplify_eq. right. left.
Qed.

Lemma oldest_none l best : foldl oldest best l = None -> l = [].
Proof.
  assert (forall c l, foldl oldest (Some c) l <> None) as Hs.
  { intros c l'. revert c. induction l' as [|a l' IH]; intros c; [done|]. cbn. case_match; apply IH. }
  destruct l as [|a l]; [done|]. cbn. destruct best as [b|]; cbn; [case_match|]; intros E; by apply Hs in E.
Qed.

Definition named (name planSlug : string) (t : Keys) (c : client) : Prop :=
  c ∈ clients t /\ cl_name c = name /\ exists p, p ∈ plans t /\ pl_id p = cl_plan_id c /\ pl_slug p = planSlug.

Lemma find_client_named t name planSlug c : find_client t name planSlug = Some c -> named name planSlug t c.
Proof.
  unfold find_client. intros [?|Hc]%oldest_fold; [done|].
  apply list_elem_of_filter in Hc as [[Hn%same_true He]%andb_prop Hin]. split; [done|]. split; [done|].
  apply existsb_exists in He as (p & Hp%list_elem_of_In & [H1%same_true H2%same_true]%andb_prop). by exists p.
Qed.

(** The client that was found or created is found from then on. *)
Lemma EnsureClient_ok env1 env2 name planSlug t id t' :
  EnsureClient Quote env1 env2 name planSlug t = (Ok id, t') ->
  text_ok name && text_ok planSlug = true
  /\ plans t' = plans t /\ api_keys t' = api_keys t /\ quotas t' = quotas t
  /\ exists c, find_client t' name planSlug = Some c /\ cl_id c = id
     /\ (t' = t \/ (id = fresh env2 /\ clients t' = clients t ++ [c])).
Proof.
  unfold EnsureClient. destruct (fault env1) as [[]|]; [done|]. destruct (text_ok name && text_ok planSlug) eqn:Etx; [|done].
  destruct (find_client t name planSlug) as [c|] eqn:Ef.
  { intros [= <- <-]. split_and!; try done. exists c. auto. }
  unfold CreateClient. destruct (insert_client env2 name planSlug t) as [[id'|e] t1] eqn:Ei; [|by case_decide].
  intros [= -> ->]. apply exec_ok in Ei as [_ Ei]. apply check_bind in Ei as [_ Ei].
  destruct (row _ (plans t)) as [p|] eqn:Er; [|done]. apply check_bind in Ei as [_ Ei]. simplify_eq.
  split; [done|]. split_and!; try done. set (c := {| cl_id := fresh env2 |}). exists c. split; [|by auto].
  apply row_Some in Er as [Hsl%same_true Hp]. unfold find_client in *. apply oldest_none in Ef.
  cbn [clients plans set_clients]. rewrite filter_app, Ef. cbn [app].
  rewrite filter_cons_True; [done|]. unfold c. cbn [cl_name cl_plan_id]. apply andb_true_intro. split; [by apply same_true|].
  apply existsb_exists. exists p. split; [by apply list_elem_of_In|]. apply andb_true_intro. split; by apply same_true.
Qed.

Lemma EnsureClient_again env1 env2 name planSlug u c :
  text_ok name && text_ok planSlug = true -> find_client u name planSlug = Some c -> fault env1 = None ->
  EnsureClient Quote env1 env2 name planSlug u = (Ok (cl_id c), u).
Proof. intros Htx Hc Hf. unfold EnsureClient. by rewrite Hf, Htx, Hc. Qed.

Lemma EnsureClient_calm env1 env2 name planSlug t p :
  fault env1 = None -> fault env2 = None -> text_ok name && text_ok planSlug = true ->
  p ∈ plans t -> pl_slug p = planSlug -> fresh env2 ∉ cl_id <$> clients t ->
  exists id t', EnsureClient Quote env1 env2 name planSlug t = (Ok id, t').
Proof.
  intros Hf1 Hf2 Htx Hp Hs Hfr. unfold EnsureClient. rewrite Hf1, Htx. destruct (find_client _ _ _); [by eexists _, _|].
  unfold CreateClient, insert_client, exec. rewrite Hf2, Htx. cbn [check res_bind].
  destruct (row _ (plans t)) as [p'|] eqn:Er.
  - rewrite (bool_decide_eq_true_2 (fresh env2 ∉ _)) by done. by eexists _, _.
  - pose proof (row_None _ _ _ Er Hp) as E. cbn in E. by rewrite (proj2 (same_true _ _) Hs) in E.
Qed.

(** *** Keys and quotas *)

Lemma EnsureAPIKey_ok env clientID name prefix digest t id t' :
  schema_ok t -> EnsureAPIKey env clientID name prefix digest t = (Ok id, t') ->
  exists client_id k, key_checks clientID name prefix digest = Ok client_id
  /\ k ∈ api_keys t' /\ ak_hash k = digest /\ ak_id k = id /\ ak_revoked k = None
  /\ (digest ∉ ak_hash <$> api_keys t -> ak_client_id k = client_id).
Proof.
  intros Ht E. apply exec_ok in E as [_ E]. destruct (key_checks _ _ _ _) as [cid|]; [|done]. cbn [res_bind] in E.
  exists cid. destruct (row _ _) as [k|] eqn:Er.
  - simplify_eq. apply row_Some in Er as [Hh Hin]. exists (revive k). split; [done|]. cbn.
    pose proof (bool_decide_eq_true_1 _ Hh) as Hk. split_and!; try done.
    + by apply (update_elem _ revive).
    + intros Hno. destruct Hno. apply list_elem_of_fmap. by exists k.
  - unfold insert_key in E. do 4 (apply check_bind in E as [_ E]). simplify_eq. eexists. split; [done|].
    split; [cbn; apply elem_of_app; right; by left|]. done.
Qed.

Lemma EnsureAPIKey_again env' clientID name prefix digest u client_id k :
  schema_ok u -> key_checks clientID name prefix digest = Ok client_id -> k ∈ api_keys u -> ak_hash k = digest ->
  ak_revoked k = None -> fault env' = None ->
  EnsureAPIKey env' clientID name prefix digest u = (Ok (ak_id k), u).
Proof.
  intros Hu Hc Hk Hh Hr Hf.
  assert (forall b, b ∈ api_keys u -> bool_decide (ak_hash b = digest) = true -> b = k) as Huniq.
  { intros b Hb Hd%bool_decide_eq_true_1. eapply (column_inj ak_hash); [apply Hu|done..|congruence]. }
  unfold EnsureAPIKey, exec. rewrite Hf, Hc. cbn [res_bind].
  rewrite (row_unique _ _ k); [|done|by apply bool_decide_eq_true_2|done].
  rewrite update_id; [by destruct u|]. intros b Hb Hd. rewrite (Huniq b Hb Hd). destruct k. cbn in *. by subst.
Qed.

Lemma SetRouteQuota_ok env clientID route rate burst t t' :
  SetRouteQuota env clientID route rate burst t = (Ok tt, t') ->
  exists client_id, to_uuid clientID = Some client_id
  /\ {| rq_client_id := client_id; rq_prefix := route; rq_rate := rate; rq_burst := burst |} ∈ quotas t'
  /\ text_ok route = true /\ quota_check rate burst = Ok tt /\ like "/%" route = true.
Proof.
  intros E. apply exec_ok in E as [_ E]. apply check_bind in E as [Htx E]. unfold cast_uuid in E.
  destruct (to_uuid clientID) as [cid|]; [|done]. cbn [res_bind] in E.
  destruct (quota_check rate burst) as [[]|] eqn:Eq; [|done]. cbn [res_bind] in E. apply check_bind in E as [Hl E].
  exists cid. split; [done|]. split; [|done]. destruct (row _ _) as [q|] eqn:Er.
  - simplify_eq. apply row_Some in Er as [Hq Hin]. cbn. by apply (update_elem _ (fun _ => {| rq_client_id := cid;
      rq_prefix := route; rq_rate := rate; rq_burst := burst |}) (quotas t) q).
  - apply check_bind in E as [_ E]. simplify_eq. cbn. apply elem_of_app. right. by left.
Qed.

Lemma SetRouteQuota_again env' clientID client_id route rate burst u :
  schema_ok u -> to_uuid clientID = Some client_id ->
  {| rq_client_id := client_id; rq_prefix := route; rq_rate := rate; rq_burst := burst |} ∈ quotas u ->
  text_ok route = true -> quota_check rate burst = Ok tt -> like "/%" route = true -> fault env' = None ->
  SetRouteQuota env' clientID route rate burst u = (Ok tt, u).
Proof.
  intros Hu Hc Hq Htx Hqc Hl Hf. set (q := {| rq_client_id := client_id |}) in Hq.
  assert (forall b, b ∈ quotas u -> same (rq_client_id b) client_id && same (rq_prefix b) route = true -> b = q) as Huniq.
  { intros b Hb [H1%same_true H2%same_true]%andb_prop.
    eapply (column_inj _ _ _ _ (ok_quota_keys _ Hu)); [done..|]. cbn. by rewrite H1, H2. }
  unfold SetRouteQuota, exec, cast_uuid. rewrite Hf, Htx, Hc. cbn [check res_bind]. rewrite Hqc, Hl. cbn [check res_bind].
  rewrite (row_unique _ _ q); [|done|apply andb_true_intro; split; by apply same_true|done].
  rewrite update_id; [by destruct u|]. intros b Hb Hd. by rewrite (Huniq b Hb Hd).
Qed.

Lemma SetRouteQuota_calm env clientID client_id route rate burst t :
  fault env = None -> text_ok route = true -> to_uuid clientID = Some client_id -> quota_check rate burst = Ok tt ->
  like "/%" route = true -> client_id ∈ cl_id <$> clients t ->
  exists t', SetRouteQuota env clientID route rate burst t = (Ok tt, t').
Proof.
  intros Hf Htx Hc Hq Hl Hin. unfold SetRouteQuota, exec, cast_uuid. rewrite Hf, Htx, Hc. cbn [check res_bind].
  rewrite Hq, Hl. cbn [check res_bind]. destruct (row _ _); [by eexists|].
  rewrite (bool_decide_eq_true_2 (client_id ∈ _)) by done. by eexists.
Qed.

Lemma insert_key_calm env client_id name prefix digest t :
  fresh env ∉ ak_id <$> api_keys t -> prefix ∉ ak_prefix <$> api_keys t -> digest ∉ ak_hash <$> api_keys t ->
  client_id ∈ cl_id <$> clients t -> exists t', insert_key env client_id name prefix digest t = Ok (fresh env, t').
Proof.
  intros H1 H2 H3 H4. unfold insert_key. rewrite (bool_decide_eq_true_2 (fresh env ∉ _)) by done.
  rewrite (bool_decide_eq_true_2 (prefix ∉ _)), (bool_decide_eq_true_2 (digest ∉ _)),
    (bool_decide_eq_true_2 (client_id ∈ _)) by done. by eexists.
Qed.
End Again.

(** ** [bootstrap] *)

Section Bootstrap.
Context `{Server}.
Context (Quote Getenv : string -> string) (run_script : string -> option Keys -> res (option Keys)).
Context (files : gmap string string).

Lemma pbind_Ok {A B} (m : prog A) (k : A -> prog B) s a s' : m s = Some (Ok a, s') -> pbind m k s = k a s'.
Proof. unfold pbind. by intros ->. Qed.

Lemma pbind_Err {A B} (m : prog A) (k : A -> prog B) s e s' : m s = Some (Err e, s') -> pbind m k s = Some (Err e, s').
Proof. unfold pbind. by intros ->. Qed.

Lemma statement_Ok {A} text (f : Keys -> res A * Keys) s t a t' :
  m_schema s = Some t -> f t = (Ok a, t') -> wrapping text (on_tables f) s = Some (Ok a, set_schema (Some t') s).
Proof. unfold wrapping, on_tables. by intros -> ->. Qed.

Lemma statement_Err {A} text (f : Keys -> res A * Keys) s t e t' :
  m_schema s = Some t -> f t = (Err e, t') ->
  wrapping text (on_tables f) s = Some (Err (ErrWrap text e), set_schema (Some t') s).
Proof. unfold wrapping, on_tables. by intros -> ->. Qed.

(** No statement meets a fault. *)
Record calm_boot (w : BootEnv) : Prop := {
  cb_migrate : forall n, b_migrate w n = None;
  cb_plan : fault (b_plan w) = None;
  cb_find : fault (b_find w) = None;
  cb_client : fault (b_client w) = None;
  cb_key : fault (b_key w) = None;
  cb_quota : fault (b_quota w) = None;
}.

(** The identifiers the server generates are new, and identifiers are in
    canonical form. *)
Record new_ids (w : BootEnv) (t : Keys) : Prop := {
  ni_plan : fresh (b_plan w) ∉ pl_id <$> plans t;
  ni_client : fresh (b_client w) ∉ cl_id <$> clients t;
  ni_key : fresh (b_key w) ∉ ak_id <$> api_keys t;
  ni_uuid : to_uuid (fresh (b_client w)) = Some (fresh (b_client w));
  ni_uuids : Forall (fun c => to_uuid (cl_id c) = Some (cl_id c)) (clients t);
}.

Definition dev_key : string := env Getenv "DEV_API_KEY" "dev-key-change-me".
Definition dev_plan (id : string) : plan :=
  {| pl_id := id; pl_slug := "developer"; pl_name := "Developer"; pl_rate := 5; pl_burst := 10 |}.
Definition dev_quota (cid : string) : route_quota :=
  {| rq_client_id := cid; rq_prefix := "/api/orders"; rq_rate := 2; rq_burst := 4 |}.
Definition report (cid kid : string) : string :=
  line ("bootstrap complete: client_id=" +:+ cid +:+ " key_id=" +:+ kid).

(** What [bootstrap] promises of the tables. *)
Record provisioned (pepper : string) (t : Keys) (k : api_key) (c : client) (pid : string) : Prop := {
  pv_keys : keys_ok t;
  pv_plan : dev_plan pid ∈ plans t;
  pv_client : find_client t "Local Development" "developer" = Some c;
  pv_uuid : to_uuid (cl_id c) = Some (cl_id c);
  pv_key : k ∈ api_keys t /\ ak_hash k = Digest (bytes_of pepper) dev_key /\ ak_revoked k = None
           /\ ak_client_id k = cl_id c;
  pv_quota : dev_quota (cl_id c) ∈ quotas t;
}.

(** Its calls, put together. *)
Lemma bootstrap_run w s s1 t0 pepper pid t1 cid t2 kid t3 t4 :
  Migrate run_script files (b_migrate w) s = Some (Ok tt, s1) -> m_schema s1 = Some t0 ->
  UpsertPlan (b_plan w) "developer" "Developer" 5 10 t0 = (Ok pid, t1) ->
  EnsureClient Quote (b_find w) (b_client w) "Local Development" "developer" t1 = (Ok cid, t2) ->
  apiKeyPepper Getenv = Ok pepper ->
  EnsureAPIKey (b_key w) cid "Local development key" (Prefix dev_key) (Digest (bytes_of pepper) dev_key) t2 = (Ok kid, t3) ->
  SetRouteQuota (b_quota w) cid "/api/orders" 2 4 t3 = (Ok tt, t4) ->
  bootstrap Quote Getenv run_script files w s = Some (Ok (report cid kid), set_schema (Some t4) s1).
Proof.
  intros E0 Hs E1 E2 Ep E3 E4. unfold bootstrap. rewrite (pbind_Ok _ _ _ _ _ E0).
  rewrite (pbind_Ok _ _ _ _ _ (statement_Ok _ _ _ _ _ _ Hs E1)).
  rewrite (pbind_Ok _ _ _ _ _ (statement_Ok _ _ (set_schema (Some t1) s1) t1 _ _ eq_refl E2)).
  rewrite (pbind_Ok (lift _) _ _ pepper _ (f_equal (fun r => Some (r, _)) Ep)).
  rewrite (pbind_Ok _ _ _ _ _ (statement_Ok _ _ (set_schema (Some t2) s1) t2 _ _ eq_refl E3)).
  by rewrite (pbind_Ok _ _ _ _ _ (statement_Ok _ _ (set_schema (Some t3) s1) t3 _ _ eq_refl E4)).
Qed.

Lemma find_client_tables t t' name planSlug :
  plans t = plans t' -> clients t = clients t' -> find_client t name planSlug = find_client t' name planSlug.
Proof. intros Hp Hc. unfold find_client. by rewrite Hp, Hc. Qed.

(** The statements, on tables without the key. *)
Lemma provision_calm w t0 pepper :
  keys_ok t0 -> calm_boot w -> new_ids w t0 -> text_ok (Prefix dev_key) = true ->
  Forall (fun k => ak_prefix k <> Prefix dev_key /\ ak_hash k <> Digest (bytes_of pepper) dev_key) (api_keys t0) ->
  exists pid t1 k c t2 t3 t4,
    UpsertPlan (b_plan w) "developer" "Developer" 5 10 t0 = (Ok pid, t1)
    /\ EnsureClient Quote (b_find w) (b_client w) "Local Development" "developer" t1 = (Ok (cl_id c), t2)
    /\ EnsureAPIKey (b_key w) (cl_id c) "Local development key" (Prefix dev_key) (Digest (bytes_of pepper) dev_key) t2
       = (Ok (ak_id k), t3)
    /\ SetRouteQuota (b_quota w) (cl_id c) "/api/orders" 2 4 t3 = (Ok tt, t4)
    /\ provisioned pepper t4 k c pid.
Proof.
  intros H0 [] [] Htx Hnew. set (digest := Digest (bytes_of pepper) dev_key) in *.
  destruct (UpsertPlan_calm (b_plan w) "developer" "Developer" 5 10 t0) as (pid & t1 & E1); [done..|].
  pose proof (UpsertPlan_keys Quote (b_plan w) "developer" "Developer" 5 10 t0 H0) as H1.
  destruct (UpsertPlan_frame (b_plan w) "developer" "Developer" 5 10 t0) as (F1c & F1k & F1q).
  destruct (UpsertPlan_ok _ _ _ _ _ _ _ _ (proj1 H0) E1) as (Hp1 & _). rewrite E1 in H1, F1c, F1k, F1q. cbn in H1, F1c, F1k, F1q.
  destruct (EnsureClient_calm Quote (b_find w) (b_client w) "Local Development" "developer" t1 (dev_plan pid))
    as (cid & t2 & E2); [done..|by rewrite F1c|].
  pose proof (EnsureClient_keys Quote (b_find w) (b_client w) "Local Development" "developer" t1 H1) as H2.
  destruct (EnsureClient_ok Quote _ _ _ _ _ _ _ E2) as (_ & F2p & F2k & F2q & c & Hfc & Hcid & Hnewc).
  rewrite E2 in H2. cbn in H2. subst cid.
  destruct (find_client_named _ _ _ _ Hfc) as (Hc2 & _).
  assert (to_uuid (cl_id c) = Some (cl_id c)) as Hu.
  { destruct Hnewc as [Et|[-> _]]; [|done]. rewrite Et, F1c in Hc2. by apply (proj1 (Forall_forall _ _) ni_uuids0). }
  assert (key_checks (cl_id c) "Local development key" (Prefix dev_key) digest = Ok (cl_id c)) as Hkc.
  { unfold key_checks, cast_uuid. rewrite Htx, Hu. change (text_ok "Local development key") with true. cbn [andb check res_bind].
    rewrite bool_decide_eq_true_2; [done|]. apply hmac_sha256_length. }
  assert (digest ∉ ak_hash <$> api_keys t2) as Hd.
  { rewrite F2k, F1k. intros (k & Ek & Hk)%list_elem_of_fmap. apply (proj1 (Forall_forall _ _) Hnew) in Hk. naive_solver. }
  assert (exists kid t3, EnsureAPIKey (b_key w) (cl_id c) "Local development key" (Prefix dev_key) digest t2 = (Ok kid, t3))
    as (kid & t3 & E3).
  { unfold EnsureAPIKey, exec. rewrite cb_key0, Hkc. cbn [res_bind]. destruct (row _ _) as [k|] eqn:Er.
    { apply row_Some in Er as [Hh%bool_decide_eq_true_1 Hk]. destruct Hd. apply list_elem_of_fmap. by exists k. }
    destruct (insert_key_calm (b_key w) (cl_id c) "Local development key" (Prefix dev_key) digest t2) as [t3 ->];
      [by rewrite F2k, F1k| |done|by apply list_elem_of_fmap_2|by eexists _, _].
    rewrite F2k, F1k. intros (k & Ek & Hk)%list_elem_of_fmap. apply (proj1 (Forall_forall _ _) Hnew) in Hk. naive_solver. }
  pose proof (EnsureAPIKey_keys (b_key w) (cl_id c) "Local development key" (Prefix dev_key) digest t2 H2) as H3.
  destruct (EnsureAPIKey_frame (b_key w) (cl_id c) "Local development key" (Prefix dev_key) digest t2) as (F3p & F3c & F3q).
  destruct (EnsureAPIKey_ok _ _ _ _ _ _ _ _ (proj1 H2) E3) as (cid & k & Hkc' & Hk & Hh & Hid & Hr & Hown).
  rewrite E3 in H3, F3p, F3c, F3q. cbn in H3, F3p, F3c, F3q. rewrite Hkc in Hkc'. injection Hkc' as <-. subst kid.
  destruct (SetRouteQuota_calm (b_quota w) (cl_id c) (cl_id c) "/api/orders" 2 4 t3) as [t4 E4];
    [done..|rewrite F3c; by apply list_elem_of_fmap_2|].
  pose proof (SetRouteQuota_keys Quote (b_quota w) (cl_id c) "/api/orders" 2 4 t3 H3) as H4.
  destruct (SetRouteQuota_frame (b_quota w) (cl_id c) "/api/orders" 2 4 t3) as (F4p & F4c & F4k).
  destruct (SetRouteQuota_ok _ _ _ _ _ _ _ E4) as (cid & Hu' & Hq & _). rewrite Hu in Hu'. injection Hu' as <-.
  rewrite E4 in H4, F4p, F4c, F4k. cbn in H4, F4p, F4c, F4k.
  exists pid, t1, k, c, t2, t3, t4. split_and!; try done. split; try done.
  - by rewrite F4p, F3p, F2p.
  - by rewrite (find_client_tables t4 t2) by congruence.
  - rewrite F4k. split_and!; try done. by apply Hown.
Qed.

(** On provisioned tables every statement finds its row. *)
Lemma provisioned_again w pepper t k c pid :
  provisioned pepper t k c pid -> calm_boot w -> text_ok (Prefix dev_key) = true ->
  UpsertPlan (b_plan w) "developer" "Developer" 5 10 t = (Ok pid, t)
  /\ EnsureClient Quote (b_find w) (b_client w) "Local Development" "developer" t = (Ok (cl_id c), t)
  /\ EnsureAPIKey (b_key w) (cl_id c) "Local development key" (Prefix dev_key) (Digest (bytes_of pepper) dev_key) t
     = (Ok (ak_id k), t)
  /\ SetRouteQuota (b_quota w) (cl_id c) "/api/orders" 2 4 t = (Ok tt, t).
Proof.
  intros [[Ht _] Hp Hc Hu (Hk & Hh & Hr & _) Hq] [] Htx. split_and!.
  - by apply UpsertPlan_again.
  - by apply EnsureClient_again.
  - apply (EnsureAPIKey_again _ _ _ _ _ _ (cl_id c)); try done. unfold key_checks, cast_uuid. rewrite Htx, Hu.
    change (text_ok "Local development key") with true. cbn [andb check res_bind].
    rewrite bool_decide_eq_true_2; [done|]. apply hmac_sha256_length.
  - by apply (SetRouteQuota_again _ _ (cl_id c)).
Qed.

(** The key of provisioned tables authenticates. *)
Lemma provisioned_authenticates pepper t k c pid :
  provisioned pepper t k c pid -> authenticates t (Digest (bytes_of pepper) dev_key) k c (dev_plan pid).
Proof.
  intros [[Ht Ha] Hp Hc Hu (Hk & Hh & Hr & Ho) Hq].
  apply find_client_named in Hc as (Hcin & _ & p & Hpin & Hpc & Hps).
  assert (p = dev_plan pid) as -> by (eapply (column_inj pl_slug); [apply Ht|done..]).
  unfold authenticates. split_and!; try done. by apply (proj1 (Forall_forall _ _) Ha).
Qed.

(** C40: a new pepper locks [bootstrap] out.  Once the development key is
    stored, a run with a different [API_KEY_PEPPER] - the key itself unchanged -
    finds no row with the new digest and cannot insert one, because the display
    prefix is taken: it fails on every attempt, and the stored key keeps the
    old digest. *)
Theorem bootstrap_new_pepper w s t k c pid pepper pepper' s1 :
  provisioned pepper t k c pid -> ak_prefix k = Prefix dev_key ->
  Migrate run_script files (b_migrate w) s = Some (Ok tt, s1) -> m_schema s1 = Some t -> calm_boot w ->
  apiKeyPepper Getenv = Ok pepper' -> text_ok (Prefix dev_key) = true ->
  Digest (bytes_of pepper') dev_key ∉ ak_hash <$> api_keys t -> fresh (b_key w) ∉ ak_id <$> api_keys t ->
  bootstrap Quote Getenv run_script files w s
  = Some (Err (ErrWrap "ensure development API key: " (ErrNew "duplicate key value")), set_schema (Some t) s1).
Proof.
  intros Hpv Hpre E0 Hs Hw Hp Htx Hd Hfr. destruct (provisioned_again w pepper t k c pid Hpv Hw Htx) as (E1 & E2 & _).
  set (digest := Digest (bytes_of pepper') dev_key) in *.
  assert (EnsureAPIKey (b_key w) (cl_id c) "Local development key" (Prefix dev_key) digest t
    = (Err (ErrNew "duplicate key value"), t)) as E3.
  { unfold EnsureAPIKey, exec, key_checks, cast_uuid. rewrite (cb_key _ Hw), Htx, (pv_uuid _ _ _ _ _ Hpv).
    change (text_ok "Local development key") with true. cbn [andb check res_bind].
    rewrite bool_decide_eq_true_2 by apply hmac_sha256_length. cbn [check res_bind].
    destruct (row _ _) as [k'|] eqn:Er.
    { apply row_Some in Er as [Hh%bool_decide_eq_true_1 Hin]. destruct Hd. apply list_elem_of_fmap. by exists k'. }
    unfold insert_key. rewrite (bool_decide_eq_true_2 (fresh _ ∉ _)) by done. cbn [check res_bind].
    rewrite bool_decide_eq_false_2; [done|]. intros Hno. apply Hno. destruct (pv_key _ _ _ _ _ Hpv) as (Hk & _).
    apply list_elem_of_fmap. by exists k. }
  unfold bootstrap. rewrite (pbind_Ok _ _ _ _ _ E0).
  rewrite (pbind_Ok _ _ _ _ _ (statement_Ok _ _ _ _ _ _ Hs E1)).
  rewrite (pbind_Ok _ _ _ _ _ (statement_Ok _ _ (set_schema (Some t) s1) t _ _ eq_refl E2)).
  rewrite (pbind_Ok (lift _) _ _ pepper' _ (f_equal (fun r => Some (r, _)) Hp)).
  by rewrite (pbind_Err _ _ _ _ _ (statement_Err _ _ (set_schema (Some t) s1) t _ _ eq_refl E3)).
Qed.
End Bootstrap.

(** ** Keys for the gateway *)

Section Keys.
Context `{Server}.
Context (Quote Getenv : string -> string).

(** The gateway trims its pepper, the tool does not. *)
Lemma same_pepper cfg pepper :
  Load Getenv = Ok cfg -> apiKeyPepper Getenv = Ok pepper ->
  TrimSpace (Getenv "API_KEY_PEPPER") = Getenv "API_KEY_PEPPER" -> APIKeyPepper cfg = pepper.
Proof.
  intros Hl Hp Htrim.
  assert (APIKeyPepper cfg = Config.env Getenv "API_KEY_PEPPER" "dev-only-pepper-change-me") as ->.
  { unfold Load in Hl. do 7 (match type of Hl with context [res_bind ?r _] => destruct r; [cbn [res_bind] in Hl|done] end).
    repeat case_match; simplify_eq. done. }
  unfold apiKeyPepper in Hp. case_match; [done|]. injection Hp as <-.
  unfold Config.env, env. by rewrite Htrim.
Qed.

End Keys.

(** ** Witnesses *)

(** The scripts, named by the table each creates first. *)
Definition demo_scripts (text : string) (sc : option Keys) : res (option Keys) :=
  if bool_decide (text = "plans") then
    match sc with None => Ok (Some no_keys) | Some _ => Err (ErrNew "relation already exists") end
  else Ok sc.

Lemma demo_scripts_fine text sc sc' : schema_fine sc -> demo_scripts text sc = Ok sc' -> schema_fine sc'.
Proof.
  unfold demo_scripts. intros Hs E. repeat case_match; simplify_eq; try done. cbn. split; [|constructor].
  split; cbn; constructor.
Qed.

Lemma demo_scripts_ok : scripts_ok demo_scripts demo_files.
Proof.
  assert (paths demo_files = ["migrations/001_api_keys.sql"; "migrations/002_usage_logging.sql"]) as E
    by (vm_compute; reflexivity).
  split; rewrite E.
  - eexists. split; [reflexivity|]. vm_compute. reflexivity.
  - intros [|k] p t; cbn; [intros [= <-]; reflexivity|done].
Qed.

Definition calm_env : BootEnv :=
  {| b_migrate := fun _ => None; b_plan := calm; b_find := calm; b_client := calm; b_key := calm; b_quota := calm |}.
Lemma calm_env_ok : calm_boot calm_env.
Proof. by split. Qed.

Definition unset (_ : string) : string := "".
Definition demo_call : CallEnv :=
  {| c_parse := None; c_create := None; c_ping := None; c_boot := calm_env; c_stmt := calm; c_random := Ok (replicate 32 7) |}.

(** A new database, bootstrapped twice, with a plan added and a key revoked. *)
Definition demo_session : list (CallEnv * list string) :=
  [(demo_call, ["bootstrap"]); (demo_call, ["bootstrap"]);
   (demo_call, "set-route-quota" :: command_line [("client", fresh calm); ("route", "/api/users"); ("rate", "1"); ("burst", "0")]);
   (demo_call, "revoke-key" :: command_line [("prefix", "dev-key-change-me")]); (demo_call, ["frob"])].

Lemma session_typed_witness :
  exists es s t, session id unset demo_scripts demo_files demo_session (empty_db None) = Some (es, s)
  /\ exit_code <$> es = [0; 0; 1; 0; 2] /\ m_schema s = Some t /\ schema_ok t.
Proof.
  destruct (session id unset demo_scripts demo_files demo_session (empty_db None)) as [[es s]|] eqn:E;
    [|vm_compute in E; discriminate E].
  pose proof (session_typed id unset demo_scripts demo_files demo_scripts_fine demo_session es s E) as Hs.
  assert (match session id unset demo_scripts demo_files demo_session (empty_db None) with
    | Some (es, s) => (exit_code <$> es, match m_schema s with Some _ => true | None => false end)
    | None => ([], false)
    end = ([0; 0; 1; 0; 2], true)) as F by (vm_compute; reflexivity).
  rewrite E in F. injection F as Fe Fs. destruct (m_schema s) as [t|] eqn:Et; [|discriminate Fs].
  exists es, s, t. split; [reflexivity|]. split; [exact Fe|]. split; [exact Et|exact (proj1 Hs)].
Defined.

Lemma no_keys_ok : keys_ok no_keys.
Proof. split; [split; cbn; constructor|constructor]. Qed.


(** The tables after [bootstrap], and an environment with another pepper. *)
Definition dev_row : api_key :=
  {| ak_id := demo_id; ak_client_id := demo_id; ak_name := "Local development key"; ak_prefix := "dev-key-change-me";
     ak_hash := Digest (bytes_of "dev-only-pepper-change-me") "dev-key-change-me"; ak_revoked := None |}.
Definition dev_client : client :=
  {| cl_id := demo_id; cl_plan_id := demo_id; cl_name := "Local Development"; cl_active := true; cl_created := 0 |}.
Definition dev_tables : Keys :=
  {| plans := [dev_plan demo_id]; clients := [dev_client]; api_keys := [dev_row]; quotas := [dev_quota demo_id] |}.
Definition rotated : string -> string := only "API_KEY_PEPPER" "another-pepper-value".

Lemma dev_tables_ok : provisioned rotated "dev-only-pepper-change-me" dev_tables dev_row dev_client demo_id.
Proof.
  split.
  - split; [|by apply Forall_singleton].
    split; cbn [plans clients api_keys quotas dev_tables fmap list_fmap];
      first [apply NoDup_singleton | apply Forall_singleton].
    + split; [vm_compute; reflexivity|split; split; cbn; lia].
    + by apply list_elem_of_singleton.
    + split; [apply hmac_sha256_length|by apply list_elem_of_singleton].
    + split; [split; split; cbn; lia|split; [vm_compute; reflexivity|by apply list_elem_of_singleton]].
  - by apply list_elem_of_singleton.
  - reflexivity.
  - reflexivity.
  - split_and!; try reflexivity. by apply list_elem_of_singleton.
  - by apply list_elem_of_singleton.
Qed.

Lemma bootstrap_new_pepper_witness :
  let s := {| m_created := true; m_versions := versions demo_files; m_schema := Some dev_tables; m_holder := None; m_procs := [] |} in
  exists s', bootstrap id rotated demo_scripts demo_files calm_env s
    = Some (Err (ErrWrap "ensure development API key: " (ErrNew "duplicate key value")), s').
Proof.
  intros s. destruct (Migrate_calm demo_scripts demo_files (b_migrate calm_env) 2 s) as (s1 & E0 & _ & Hs1).
  - exact demo_scripts_ok.
  - split_and!; [|reflexivity..|]; vm_compute; lia.
  - reflexivity.
  - exists (set_schema (Some dev_tables) s1).
    apply (bootstrap_new_pepper id rotated demo_scripts demo_files calm_env s dev_tables dev_row dev_client demo_id
             "dev-only-pepper-change-me" "another-pepper-value" s1 dev_tables_ok).
    + reflexivity.
    + exact E0.
    + exact Hs1.
    + exact calm_env_ok.
    + reflexivity.
    + vm_compute. reflexivity.
    + apply (bool_decide_eq_true_1 _). vm_compute. reflexivity.
    + apply (bool_decide_eq_true_1 _). vm_compute. reflexivity.
Defined.

Definition demo_database : database :=
  {| m_created := true; m_versions := versions demo_files; m_schema := Some demo_keys; m_holder := None; m_procs := [] |}.
Definition demo_create : list string := command_line [("client", demo_id); ("name", "ci")].


(** A blank after the pepper separates the tool from the gateway: the key it
    stores is refused. *)
Definition blank_after : string -> string := only "API_KEY_PEPPER" "0123456789abcdef ".

Lemma pepper_blank_refused :
  let raw := "gw_live_" +:+ base64_encode (replicate 32 7) in
  match createKey id blank_after (Ok (replicate 32 7)) calm demo_create demo_database, Load blank_after with
  | Some (Ok _, s'), Ok cfg =>
      match m_schema s' with
      | Some t' => Authenticate (service_on calm t' (APIKeyPepper cfg)) raw "/api/users" = Err ErrInvalidKey
      | None => False
      end
  | _, _ => False
  end.
Proof. vm_compute. reflexivity. Qed.
