(* ===== verification/Report.v ===== *)
(** * The benchmark report ([cmd/benchreport/main.go])

    Reading and sorting the results, the CSV summary as [encoding/csv] writes
    it and a reader of such texts, and the Markdown report.  Files and the JSON
    decoder are arguments; [Chart] holds the SVG chart and [main]. *)

From Stdlib Require Import ZArith Lia QArith Qcanon.
From stdpp Require Import base tactics numbers list gmap strings sorting.
From S2P Require Import Prelude GoLib Float64 Metrics Benchmark.

Local Open Scope Z_scope.

(** ** Formatting *)

(** [strconv.FormatFloat(x, 'f', prec, 64)] and the verb [%.<prec>f]. *)
Definition fixed (prec : nat) (x : Qc) : string :=
  let unit := 10 ^ Z.of_nat prec in
  let n := round_half_even (Z.abs (Qnum x) * unit) (Zpos (Qden x)) in
  (if Qnum x <? 0 then "-" else "") +:+ Itoa (n / unit)
  +:+ match prec with O => "" | _ => "." +:+ fixed_digits prec (n mod unit) end.

(** The verb [%+.<prec>f]. *)
Definition signed (prec : nat) (x : Qc) : string := (if Qnum x <? 0 then "" else "+") +:+ fixed prec x.

Definition decimal (value : Qc) : string := fixed 6 value.

(** [strconv.FormatBool] and the verb [%t]. *)
Definition FormatBool (b : bool) : string := if b then "true" else "false".

(** [strings.Contains]. *)
Fixpoint Contains (s sub : string) : bool :=
  HasPrefix s sub || match s with String _ s' => Contains s' sub | EmptyString => false end.

(** ** Reading *)

(** What reading a file gives: an error of opening it, or what [Decode]
    answers and the error of closing it. *)
Record source := {
  src_open : option gerror;
  src_decoded : res Result;
  src_close : option gerror;
}.

Definition error_of {A} (r : res A) : option gerror := match r with Ok _ => None | Err e => Some e end.

Fixpoint read_all (files : list (string * source)) : res (list Result) :=
  match files with
  | [] => Ok []
  | (path, f) :: rest =>
      match src_open f with
      | Some e => Err (ErrWrap ("open " +:+ path +:+ ": ") e)
      | None =>
          match errors_Join (error_of (Decode (src_decoded f))) (src_close f) with
          | Some e => Err (ErrWrap ("read " +:+ path +:+ ": ") e)
          | None =>
              rs <-- read_all rest ;;
              match Decode (src_decoded f) with Ok r => Ok (r :: rs) | Err e => Err e end
          end
      end
  end.

(** The order of [sort.Slice]: by scenario, then by tool. *)
Definition less (a b : Result) : bool :=
  if bool_decide (Scenario a = Scenario b) then String.ltb (Tool a) (Tool b) else String.ltb (Scenario a) (Scenario b).

(** [sort.Slice] promises a sorted permutation; the order of equal elements is
    left open. *)
Class SortSlice := {
  sort_slice : list Result -> list Result;
  sort_slice_perm l : sort_slice l ≡ₚ l;
  sort_slice_sorted l : StronglySorted (fun a b => less b a = false) (sort_slice l);
}.

(** [readResults]: the files [filepath.Glob] lists, or its error. *)
Definition readResults `{SortSlice} (directory : string) (globbed : res (list (string * source))) : res (list Result) :=
  match globbed with
  | Err e => Err (ErrWrap "list raw benchmark results: " e)
  | Ok [] => Err (ErrNew ("no JSON benchmark results found in " +:+ directory))
  | Ok files => rs <-- read_all files ;; Ok (sort_slice rs)
  end.

(** ** [encoding/csv] *)

Definition dquote : Ascii.ascii := byte_ascii 34.
Definition comma : Ascii.ascii := byte_ascii 44.
Definition newline : Ascii.ascii := byte_ascii 10.
Definition return_ : Ascii.ascii := byte_ascii 13.

Definition special (c : Ascii.ascii) : bool :=
  Ascii.eqb c newline || Ascii.eqb c return_ || Ascii.eqb c dquote || Ascii.eqb c comma.

(** A field that is not empty is quoted when it has a special character, starts
    with a space, or is the text backslash period. *)
Definition fieldNeedsQuotes (field : string) : bool :=
  if bool_decide (field = "") then false
  else if bool_decide (field = "\.") then true
  else negb (chars (fun c => negb (special c)) field)
       || match strip_any space_encodings field with Some _ => true | None => false end.

Fixpoint double_quotes (field : string) : string :=
  match field with
  | EmptyString => EmptyString
  | String c r => if Ascii.eqb c dquote then String dquote (String dquote (double_quotes r)) else String c (double_quotes r)
  end.

Definition csv_field (field : string) : string :=
  if fieldNeedsQuotes field then String dquote (double_quotes field +:+ String dquote EmptyString) else field.

(** [Writer.Write]. *)
Fixpoint csv_record (record : list string) : string :=
  match record with
  | [] => String newline EmptyString
  | [f] => csv_field f +:+ String newline EmptyString
  | f :: rest => csv_field f +:+ String comma (csv_record rest)
  end.

Definition csv_text (rows : list (list string)) : string := foldr (fun r s => csv_record r +:+ s) "" rows.

(** ** [writeCSV] *)

Definition csv_header : list string :=
  ["scenario"; "tool"; "gateway_instances"; "requests"; "concurrency"; "duration_ms";
   "throughput_rps"; "p50_ms"; "p95_ms"; "p99_ms"; "error_rate_percent";
   "rate_limited"; "observed_upstreams"; "verification_passed"].

Definition csv_row (r : Result) : list string :=
  [Scenario r; Tool r; Itoa (GatewayInstances r); Itoa (Requests r); Itoa (Concurrency r);
   decimal (DurationMS r); decimal (ThroughputRPS r); decimal (P50 (LatencyMS r)); decimal (P95 (LatencyMS r));
   decimal (P99 (LatencyMS r)); decimal (ErrorRatePercent r); Itoa (RateLimited r);
   Itoa (Z.of_nat (size (UpstreamCounts r)));
   match ResVerification r with Some v => FormatBool (Passed v) | None => "" end].

(** What writing a file meets: creating it, flushing the buffer, closing it. *)
Record sink := {
  snk_create : option gerror;
  snk_flush : option gerror;
  snk_close : option gerror;
}.

(** The error and what was handed to the file.  [Write] itself does not fail
    on the buffer; a failed flush is reported at the end. *)
Definition writeCSV (f : sink) (results : list Result) : option gerror * string :=
  match snk_create f with
  | Some e => (Some (ErrWrap "create summary CSV: " e), "")
  | None => (errors_Join (snk_flush f) (snk_close f), csv_text (csv_header :: (csv_row <$> results)))
  end.

(** ** Comparisons *)

Definition findResult (results : list Result) (scenario tool : string) : option Result :=
  head (filter (fun r => bool_decide (Scenario r = scenario) && bool_decide (Tool r = tool) = true) results).

Definition percentChange (before after : Qc) : Qc :=
  if decide (before = Qc_of_Z 0) then f64 0
  else quotient (fmul (f64 100) (fsub after before)) before.

(** ** [writeMarkdown] *)

Definition endline (s : string) : string := s +:+ String newline EmptyString.

Definition table_row (r : Result) : string :=
  "| " +:+ Scenario r +:+ " | " +:+ Tool r +:+ " | " +:+ Itoa (GatewayInstances r) +:+ " | " +:+ Itoa (Requests r)
  +:+ " / " +:+ Itoa (Concurrency r) +:+ " | " +:+ fixed 2 (ThroughputRPS r) +:+ " req/s | "
  +:+ fixed 2 (P50 (LatencyMS r)) +:+ " ms | " +:+ fixed 2 (P95 (LatencyMS r)) +:+ " ms | "
  +:+ fixed 2 (P99 (LatencyMS r)) +:+ " ms | " +:+ fixed 2 (ErrorRatePercent r) +:+ "% | "
  +:+ Itoa (Z.of_nat (size (UpstreamCounts r))) +:+ " |".

(** The line of a result with a quota verification; [None] is the loop's
    [continue]. *)
Definition quota_line (r : Result) : option string :=
  match ResVerification r with
  | Some v =>
      if Contains (Scenario r) "rate-limit" then
        Some ("- `" +:+ Scenario r +:+ "`: **passed=" +:+ FormatBool (Passed v) +:+ "**, accepted=" +:+ Itoa (Accepted v)
              +:+ ", denied=" +:+ Itoa (Denied v) +:+ ", theoretical maximum accepted="
              +:+ Itoa (TheoreticalMaximumAccepted v)
              +:+ "; required headers and allowed statuses are recorded in the raw result.")
      else None
  | None => None
  end.

Definition quota_section (results : list Result) : list string :=
  match omap quota_line results with
  | [] => ["- No rate-limit verification result was present."]
  | ls => ls
  end.

Definition comparison (results : list Result) : list string :=
  match findResult results "single-go" "go-loadgen", findResult results "multi-go" "go-loadgen" with
  | Some single, Some multi =>
      let throughputChange := percentChange (ThroughputRPS single) (ThroughputRPS multi) in
      let p95Change := percentChange (P95 (LatencyMS single)) (P95 (LatencyMS multi)) in
      ["- In this run, moving from " +:+ Itoa (GatewayInstances single) +:+ " to " +:+ Itoa (GatewayInstances multi)
       +:+ " gateway instances changed Go-client throughput by " +:+ signed 2 throughputChange
       +:+ "% and p95 latency by " +:+ signed 2 p95Change
       +:+ "%. Shared runner CPU, PostgreSQL, Redis, Nginx, and the client can all influence that observation; the data alone does not identify a cause."]
  | _, _ => []
  end.

Definition markdown_lines (results : list Result) : list string :=
  ["# Measured benchmark report"; "";
   "> Every number below is derived from committed raw request samples. These results describe one recorded environment; they are not universal capacity claims."; "";
   "## Measured facts"; "";
   "| Scenario | Client | Instances | Requests / concurrency | Throughput | p50 | p95 | p99 | Errors | Upstreams |";
   "|---|---|---:|---:|---:|---:|---:|---:|---:|---:|"]
  ++ (table_row <$> results)
  ++ [""; "## Rate-limit correctness"; ""] ++ quota_section results
  ++ [""; "## Interpretation (not measured fact)"; ""] ++ comparison results
  ++ ["- Go and C++ results are independent client implementations and a reproducibility cross-check. Differences between them must not be described as gateway improvements because their connection handling and runtime overhead differ.";
      "- Percentiles use the nearest-rank method over end-to-end client latency. Warmup requests are excluded.";
      ""; "## Evidence"; "";
      "- `../raw/*.json`: per-request latency, status, transport outcome, quota-header validity, selected upstream, timing, and tool environment";
      "- `summary.csv`: machine-readable aggregate comparison";
      "- `comparison.svg`: visualization of the measured aggregate values";
      "- `../../docs/benchmarking.md`: exact reproduction commands, workload, and limitations"].

(** The errors of the writes and of the deferred [Close] are dropped. *)
Definition writeMarkdown (f : sink) (results : list Result) : option gerror * string :=
  match snk_create f with
  | Some e => (Some (ErrWrap "create benchmark report: " e), "")
  | None => (None, foldr (fun l s => endline l +:+ s) "" (markdown_lines results))
  end.

(** ** Reading the results *)

(** The decoded results of files that all open, decode and close. *)
Inductive reads : list (string * source) -> list Result -> Prop :=
  | reads_nil : reads [] []
  | reads_cons path f r files rs :
      src_open f = None -> src_decoded f = Ok r -> ResSchemaVersion r = SchemaVersion ->
      Tool r <> "" -> Scenario r <> "" -> 0 < Requests r -> src_close f = None ->
      reads files rs -> reads ((path, f) :: files) (r :: rs).

Lemma Decode_Ok d r :
  Decode d = Ok r <->
  d = Ok r /\ ResSchemaVersion r = SchemaVersion /\ Tool r <> "" /\ Scenario r <> "" /\ 0 < Requests r.
Proof.
  unfold Decode. destruct d as [r0|e]; [|by split; [|intros [? _]]].
  destruct (Z.eqb_spec (ResSchemaVersion r0) SchemaVersion) as [E|E]; cbn [negb];
    [|by split; [|intros ([= ->] & ? & _)]].
  destruct (bool_decide_reflect (Tool r0 = "")), (bool_decide_reflect (Scenario r0 = "")),
    (Z.leb_spec (Requests r0) 0); cbn [orb]; split; try (intros [= ->]); try (intros ([= ->] & _ & ? & ? & ?));
    solve [done | lia | split_and!; done].
Qed.

Lemma read_all_Ok files rs : read_all files = Ok rs <-> reads files rs.
Proof.
  split.
  - revert rs. induction files as [|[path f] files IH]; intros rs; cbn [read_all]; [intros [= <-]; constructor|].
    destruct (src_open f) eqn:Eo; [done|]. destruct (errors_Join _ _) eqn:Ej; [done|].
    apply errors_Join_None in Ej as [Ed Ec]. destruct (Decode (src_decoded f)) as [r|] eqn:E; [|done].
    destruct (read_all files) as [rs'|]; [|done]. intros [= <-].
    apply Decode_Ok in E as (? & ? & ? & ? & ?). constructor; auto.
  - induction 1 as [|path f r files rs Ho Hd Hv Ht Hs Hq Hc _ IH]; [done|]. cbn [read_all]. rewrite Ho.
    rewrite (proj2 (Decode_Ok (src_decoded f) r)) by done. cbn. by rewrite Hc, IH.
Qed.

Section reading.
Context `{SortSlice}.

(** The report is read from all the files or from none.  [readResults]
    answers results exactly when there is a file, and every file opens, decodes
    to a result of the current schema with a tool, a scenario and requests, and
    closes; the results are then those of the files, each once, sorted by
    scenario and within a scenario by tool. *)
Theorem readResults_exact directory globbed rs :
  readResults directory globbed = Ok rs <->
  exists files raw, globbed = Ok files /\ files <> [] /\ reads files raw /\ rs = sort_slice raw
    /\ rs ≡ₚ raw /\ StronglySorted (fun a b => less b a = false) rs.
Proof.
  unfold readResults. destruct globbed as [[|fl files]|e]; [split; [done|naive_solver]| |split; [done|naive_solver]].
  split.
  - destruct (read_all (fl :: files)) as [raw|] eqn:E; cbn; [|done]. intros [= <-].
    exists (fl :: files), raw. apply read_all_Ok in E.
    split_and!; auto using sort_slice_perm, sort_slice_sorted.
  - intros (files' & raw & [= <-] & _ & Hr%read_all_Ok & -> & _). rewrite Hr. done.
Qed.

End reading.

(** A merge sort keeps the promise of [sort.Slice]. *)
Definition ordered (a b : Result) : Prop := less b a = false.

#[local] Instance ordered_dec : RelDecision ordered := fun a b => bool_eq_dec (less b a) false.

Lemma ltb_not_le s t : String.ltb s t = false <-> String.le t s.
Proof.
  unfold String.ltb, String.le, String.leb. rewrite (String.compare_antisym t s).
  destruct (s ?= t)%string; cbn; naive_solver.
Qed.

Lemma ordered_lex a b :
  ordered a b <->
  String.le (Scenario a) (Scenario b) /\ (Scenario a = Scenario b -> String.le (Tool a) (Tool b)).
Proof.
  unfold ordered, less. case_bool_decide as E; rewrite ltb_not_le; [|naive_solver].
  rewrite E. naive_solver.
Qed.

#[local] Instance ordered_total : Total ordered.
Proof.
  intros a b. rewrite !ordered_lex. destruct (total String.le (Tool a) (Tool b)), (decide (Scenario a = Scenario b)) as [E|];
    try rewrite E; destruct (total String.le (Scenario a) (Scenario b)); naive_solver.
Qed.

#[local] Instance ordered_trans : Transitive ordered.
Proof.
  intros a b c. rewrite !ordered_lex. intros [Hab Tab] [Hbc Tbc]. split; [by trans (Scenario b)|]. intros Eac.
  assert (Scenario a = Scenario b) as Eab by (apply (anti_symm String.le); [done|by rewrite Eac]).
  trans (Tool b); [by apply Tab|]. apply Tbc. by rewrite <- Eab.
Qed.

#[export] Instance merge_SortSlice : SortSlice.
Proof.
  refine {| sort_slice := merge_sort ordered |}.
  - intros l. apply merge_sort_Permutation.
  - intros l. apply (StronglySorted_merge_sort ordered).
Defined.

Definition demo_latency : LatencySummary :=
  {| Minimum := Qc_of_Z 1; Mean := Qc_of_Z 2; P50 := Qc_of_Z 2; P95 := Qc_of_Z 3; P99 := Qc_of_Z 4;
     Maximum := Qc_of_Z 4 |}.
Definition demo_result (scenario : string) : Result :=
  {| ResSchemaVersion := 1; Tool := "go-loadgen"; Scenario := scenario; StartedAt := 0;
     Target := "http://127.0.0.1:8080/api/users"; Requests := 3; WarmupRequests := 0; Concurrency := 1;
     GatewayInstances := 1; DurationMS := Qc_of_Z 1000; ThroughputRPS := Qc_of_Z 3; LatencyMS := demo_latency;
     StatusCounts := ∅; TransportErrors := 0; HTTPErrors := 0; ErrorRatePercent := Qc_of_Z 0; RateLimited := 0;
     UpstreamCounts := ∅; ResVerification := None; Environment := ∅; Samples := [] |}.

Definition demo_source (scenario : string) : string * source :=
  (scenario, {| src_open := None; src_decoded := Ok (demo_result scenario); src_close := None |}).

Lemma readResults_exact_witness :
  readResults "raw" (Ok [demo_source "single-go"; demo_source "multi-go"])
  = Ok [demo_result "multi-go"; demo_result "single-go"].
Proof.
  apply readResults_exact. exists [demo_source "single-go"; demo_source "multi-go"], [demo_result "single-go"; demo_result "multi-go"].
  assert ([demo_result "multi-go"; demo_result "single-go"] = sort_slice [demo_result "single-go"; demo_result "multi-go"]) as E
    by reflexivity.
  split; [done|]. split; [done|]. split; [repeat (constructor; try done)|]. split; [exact E|].
  rewrite E. split; [apply sort_slice_perm|apply sort_slice_sorted].
Defined.

(** ** Reading the CSV back *)

(** A reader of RFC 4180 texts with line feeds.  [m] says where the reader is,
    [field] is what it has read of the current field and [row] the fields
    before it. *)
Inductive csv_mode := AtStart | InPlain | InQuotes | AfterQuote.

Fixpoint csv_read (m : csv_mode) (field : string) (row : list string) (s : string) : option (list (list string)) :=
  match s with
  | EmptyString =>
      match m with
      | InQuotes => None
      | AtStart => if bool_decide (row = []) then Some [] else Some [row ++ [""]]
      | _ => Some [row ++ [field]]
      end
  | String c r =>
      match m with
      | InQuotes => if Ascii.eqb c dquote then csv_read AfterQuote field row r
                    else csv_read InQuotes (field +:+ String c EmptyString) row r
      | _ =>
          if Ascii.eqb c comma then csv_read AtStart EmptyString (row ++ [field]) r
          else if Ascii.eqb c newline then cons (row ++ [field]) <$> csv_read AtStart EmptyString [] r
          else if Ascii.eqb c dquote then
            match m with
            | AtStart => csv_read InQuotes EmptyString row r
            | AfterQuote => csv_read InQuotes (field +:+ String c EmptyString) row r
            | _ => None
            end
          else match m with
               | AfterQuote => None
               | _ => csv_read InPlain (field +:+ String c EmptyString) row r
               end
      end
  end.

Definition read_csv (s : string) : option (list (list string)) := csv_read AtStart EmptyString [] s.

Lemma snoc_char (s t : string) c : (s +:+ String c EmptyString) +:+ t = s +:+ String c t.
Proof. by rewrite string_app_assoc. Qed.

Lemma not_special c :
  special c = false -> Ascii.eqb c newline = false /\ Ascii.eqb c dquote = false /\ Ascii.eqb c comma = false.
Proof. unfold special. rewrite !orb_false_iff. naive_solver. Qed.

Lemma read_plain s acc row t :
  chars (fun c => negb (special c)) s = true ->
  csv_read InPlain acc row (s +:+ t) = csv_read InPlain (acc +:+ s) row t.
Proof.
  revert acc. induction s as [|c s IH]; intros acc; [by rewrite append_nil_r|].
  cbn [chars]. intros [(En & Ed & Ec)%negb_true_iff%not_special Hs]%andb_prop. rewrite append_cons. cbn [csv_read].
  rewrite Ec, En, Ed, IH by done. by rewrite snoc_char.
Qed.

Lemma read_quoted s acc row t :
  csv_read InQuotes acc row (double_quotes s +:+ t) = csv_read InQuotes (acc +:+ s) row t.
Proof.
  revert acc. induction s as [|c s IH]; intros acc; [by rewrite append_nil_r|]. cbn [double_quotes].
  destruct (Ascii.eqb_spec c dquote) as [->|Hc].
  - rewrite !append_cons. cbn. rewrite IH. by rewrite snoc_char.
  - rewrite append_cons. cbn [csv_read]. rewrite (proj2 (Ascii.eqb_neq _ _) Hc), IH. by rewrite snoc_char.
Qed.

(** After a separator a field stands in the text as [csv_field] wrote it. *)
Lemma read_field f row c t :
  c = comma \/ c = newline ->
  exists m, m <> InQuotes
    /\ csv_read AtStart EmptyString row (csv_field f +:+ String c t) = csv_read m f row (String c t).
Proof.
  intros Hc. unfold csv_field, fieldNeedsQuotes. case_bool_decide as E0; [subst; by exists AtStart|].
  destruct (bool_decide (f = "\.") || negb (chars (fun c => negb (special c)) f)
            || match strip_any space_encodings f with Some _ => true | None => false end) eqn:Eq.
  - exists AfterQuote. split; [done|].
    assert ((if bool_decide (f = "\.") then true
             else negb (chars (fun c => negb (special c)) f)
                  || match strip_any space_encodings f with Some _ => true | None => false end) = true) as ->
      by (by destruct (bool_decide (f = "\."))).
    rewrite append_cons, string_app_assoc. cbn [csv_read].
    change (Ascii.eqb dquote comma) with false. change (Ascii.eqb dquote newline) with false. cbn -[csv_read].
    by rewrite read_quoted.
  - exists InPlain. split; [done|]. apply orb_false_iff in Eq as [[Ed Ep]%orb_false_iff Es]. rewrite Ed, Ep, Es. cbn [orb].
    apply negb_false_iff in Ep. destruct f as [|a f]; [done|]. cbn [chars] in Ep.
    apply andb_prop in Ep as [(En & Eq & Ec)%negb_true_iff%not_special Hf]. rewrite append_cons. cbn [csv_read].
    rewrite Ec, En, Eq, read_plain by done. done.
Qed.

Lemma read_record f rest row t :
  csv_read AtStart EmptyString row (csv_record (f :: rest) +:+ t)
  = cons (row ++ f :: rest) <$> csv_read AtStart EmptyString [] t.
Proof.
  revert f row. induction rest as [|g rest IH]; intros f row.
  - cbn [csv_record]. rewrite string_app_assoc. destruct (read_field f row newline t) as (m & Hm & E); [by right|].
    change (String newline EmptyString +:+ t) with (String newline t). rewrite E. by destruct m.
  - change (csv_record (f :: g :: rest)) with (csv_field f +:+ String comma (csv_record (g :: rest))).
    rewrite string_app_assoc, append_cons.
    destruct (read_field f row comma (csv_record (g :: rest) +:+ t)) as (m & Hm & E); [by left|]. rewrite E.
    transitivity (csv_read AtStart EmptyString (row ++ [f]) (csv_record (g :: rest) +:+ t)); [by destruct m|].
    rewrite IH. by rewrite <- app_assoc.
Qed.

Lemma read_csv_text rows : Forall (fun r => r <> []) rows -> read_csv (csv_text rows) = Some rows.
Proof.
  induction 1 as [|r rows Hr _ IH]; [done|]. destruct r as [|f rest]; [done|].
  unfold read_csv, csv_text in *. cbn [foldr]. rewrite read_record, IH. done.
Qed.


