(* ===== verification/Chart.v ===== *)
(** * The chart of the benchmark report ([cmd/benchreport/main.go])

    [writeSVG]: the choice of results, the bars as doubles, and the text of the
    file; and [main], which reads the results and writes the three reports. *)

From Stdlib Require Import ZArith Lia QArith Qcanon Lqa.
From stdpp Require Import base tactics numbers list gmap strings sorting.
From S2P Require Import Prelude GoLib Float64 Flags Benchmark Report.

Local Open Scope Z_scope.

(** ** Bars *)

Record bar := {
  bar_x : Qc;
  bar_y : Qc;
  bar_width : Qc;
  bar_height : Qc;
}.

Definition is_measured (r : Result) : bool := negb (Contains (Scenario r) "rate-limit").

(** The results of the chart. *)
Definition measured (results : list Result) : list Result := filter (fun r => is_measured r = true) results.

Definition top : Qc := Qc_of_Z 105.
Definition bottom : Qc := Qc_of_Z 535.

(** The largest value, 1 instead of 0. *)
Definition scale (value : Result -> Qc) (rs : list Result) : Qc :=
  let m := foldl (fun m r => fmax m (value r)) (f64 0) rs in
  if decide (m = Qc_of_Z 0) then f64 1 else m.

Definition p99_of (r : Result) : Qc := P99 (LatencyMS r).
Definition p95_of (r : Result) : Qc := P95 (LatencyMS r).

Definition maxThroughput (rs : list Result) : Qc := scale ThroughputRPS rs.
Definition maxLatency (rs : list Result) : Qc := scale p99_of rs.

(** The height of a value; [bottom - top] is a constant of the source. *)
Definition height_of (value maximum : Qc) : Qc := fmul (quotient value maximum) (Qc_of_Z 430).

Definition group (panel : Z) (rs : list Result) : Qc := quotient (f64 panel) (f64 (Z.of_nat (length rs))).

Definition group_x (left panel : Z) (rs : list Result) (index : nat) : Qc :=
  fadd (f64 left) (fmul (f64 (Z.of_nat index)) (group panel rs)).

Definition bar_at (x width height : Qc) : bar :=
  {| bar_x := x; bar_y := fsub bottom height; bar_width := width; bar_height := height |}.

Definition throughput_bar (rs : list Result) (index : nat) (r : Result) : bar :=
  bar_at (group_x 65 500 rs index) (fmul (group 500 rs) (literal 58 100)) (height_of (ThroughputRPS r) (maxThroughput rs)).

Definition latency_width (rs : list Result) : Qc := fmul (group 490 rs) (literal 28 100).

Definition p95_bar (rs : list Result) (index : nat) (r : Result) : bar :=
  bar_at (group_x 665 490 rs index) (latency_width rs) (height_of (p95_of r) (maxLatency rs)).

Definition p99_bar (rs : list Result) (index : nat) (r : Result) : bar :=
  bar_at (fadd (fadd (group_x 665 490 rs index) (latency_width rs)) (f64 3)) (latency_width rs)
    (height_of (p99_of r) (maxLatency rs)).

(** ** Text *)

(** [html.EscapeString]. *)
Definition escape_char (c : Ascii.ascii) : string :=
  let b := ascii_byte c in
  if b =? 38 then "&amp;" else if b =? 39 then "&#39;" else if b =? 60 then "&lt;"
  else if b =? 62 then "&gt;" else if b =? 34 then "&#34;" else String c EmptyString.

Fixpoint EscapeString (s : string) : string :=
  match s with EmptyString => EmptyString | String c r => escape_char c +:+ EscapeString r end.

(** Markup with its double quotes written as backquotes. *)
Fixpoint markup (s : string) : string :=
  match s with
  | EmptyString => EmptyString
  | String c r => String (if ascii_byte c =? 96 then dquote else c) (markup r)
  end.

(** A format with its arguments in between: markup, then text. *)
Fixpoint fprintf (l : list (string * string)) : string :=
  match l with [] => EmptyString | (m, v) :: rest => markup m +:+ v +:+ fprintf rest end.

Definition drawPanel (x panelWidth : Z) (title unit : string) : string :=
  fprintf [("<text x=`", fixed 0 (f64 x)); ("` y=`98` font-size=`17` font-weight=`600`>", EscapeString title);
           ("</text><line x1=`", fixed 0 (f64 x)); ("` y1=`", fixed 0 bottom);
           ("` x2=`", fixed 0 (fadd (f64 x) (f64 panelWidth))); ("` y2=`", fixed 0 bottom);
           ("` class=`axis`/><text x=`", fixed 0 (f64 x)); ("` y=`", fixed 0 (Qc_of_Z 627));
           ("` font-size=`12` class=`muted`>", EscapeString unit); ("</text>", "")].

Definition draw_bar (b : bar) (radius class : string) : string :=
  fprintf [("<rect x=`", fixed 1 (bar_x b)); ("` y=`", fixed 1 (bar_y b)); ("` width=`", fixed 1 (bar_width b));
           ("` height=`", fixed 1 (bar_height b)); ("` rx=`", radius); ("` class=`", class); ("`/>", "")].

Definition draw_value (x y : Qc) (size : string) (value : Qc) : string :=
  fprintf [("<text x=`", fixed 1 x); ("` y=`", fixed 1 y); ("` font-size=`", size);
           ("` text-anchor=`middle`>", fixed 1 value); ("</text>", "")].

Definition draw_label (x : Qc) (scenario : string) : string :=
  fprintf [("<text x=`", fixed 1 x); ("` y=`", fixed 1 (Qc_of_Z 559));
           ("` font-size=`11` text-anchor=`middle` transform=`rotate(25 ", fixed 1 x); (" ", fixed 1 (Qc_of_Z 559));
           (")`>", EscapeString scenario); ("</text>", "")].

Definition half (x : Qc) : Qc := quotient x (f64 2).

Definition draw_throughput (rs : list Result) (index : nat) (r : Result) : string :=
  let b := throughput_bar rs index r in
  let middle := fadd (bar_x b) (half (bar_width b)) in
  draw_bar b "4" "throughput" +:+ draw_value middle (fsub (bar_y b) (f64 8)) "12" (ThroughputRPS r)
  +:+ draw_label middle (Scenario r).

Definition draw_latency (rs : list Result) (index : nat) (r : Result) : string :=
  let b95 := p95_bar rs index r in
  let b99 := p99_bar rs index r in
  let x := bar_x b95 in
  let w := bar_width b95 in
  draw_bar b95 "3" "p95" +:+ draw_bar b99 "3" "p99"
  +:+ draw_value (fadd x (half w)) (fsub (bar_y b95) (f64 6)) "10" (p95_of r)
  +:+ draw_value (fadd (fadd x (fmul w (literal 3 2))) (f64 3)) (fsub (bar_y b99) (f64 6)) "10" (p99_of r)
  +:+ draw_label (fadd (fadd x w) (f64 1)) (Scenario r).

Definition svg_head : string :=
  markup "<svg xmlns=`http://www.w3.org/2000/svg` width=`1200` height=`650` viewBox=`0 0 1200 650`>"
  +:+ markup "<rect width=`100%` height=`100%` fill=`#0b1220`/><style>text{font-family:Inter,Arial,sans-serif;fill:#e5e7eb}.muted{fill:#94a3b8}.axis{stroke:#64748b;stroke-width:1}.throughput{fill:#38bdf8}.p95{fill:#a78bfa}.p99{fill:#f472b6}</style>"
  +:+ markup "<text x=`48` y=`42` font-size=`25` font-weight=`700`>Measured gateway benchmark</text>"
  +:+ markup "<text x=`48` y=`72` font-size=`14` class=`muted`>Recorded values, not causal attribution • exact samples are committed as JSON</text>".

Definition svg_legend : string :=
  markup "<rect x=`895` y=`86` width=`12` height=`12` class=`p95`/><text x=`913` y=`97` font-size=`12`>p95</text><rect x=`950` y=`86` width=`12` height=`12` class=`p99`/><text x=`968` y=`97` font-size=`12`>p99</text></svg>".

Definition svg_text (rs : list Result) : string :=
  svg_head +:+ drawPanel 55 500 "Throughput" "requests / second" +:+ drawPanel 655 490 "Tail latency" "milliseconds"
  +:+ foldr String.append "" (imap (draw_throughput rs) rs) +:+ foldr String.append "" (imap (draw_latency rs) rs)
  +:+ svg_legend.

(** The errors of the writes and of the deferred [Close] are dropped. *)
Definition writeSVG (f : sink) (results : list Result) : option gerror * string :=
  match measured results with
  | [] => (Some (ErrNew "no throughput results available for chart"), "")
  | rs =>
      match snk_create f with
      | Some e => (Some (ErrWrap "create benchmark chart: " e), "")
      | None => (None, svg_text rs)
      end
  end.

(** ** [main] *)

Definition report_flags : FlagSet :=
  list_to_map [("input", FString "results/raw"); ("output", FString "results/analysis")].

(** What [main] meets: the files of a directory, creating a directory, and the
    file of a name in a directory. *)
Record Disk := {
  d_glob : string -> res (list (string * source));
  d_mkdir : string -> option gerror;
  d_file : string -> string -> sink;
}.

(** The files written and how [main] ends. *)
Record outcome := {
  o_written : list (string * string);
  o_failure : option gerror;
  o_code : Z;
}.

Definition fatal (written : list (string * string)) (e : gerror) : outcome :=
  {| o_written := written; o_failure := Some e; o_code := 1 |}.

(** The three writers in their order; the first error ends it.  A file that
    could not be created is not written. *)
Fixpoint write_reports (writers : list (string * (option gerror * string))) (written : list (string * string)) : outcome :=
  match writers with
  | [] => {| o_written := written; o_failure := None; o_code := 0 |}
  | (name, (err, text)) :: rest =>
      let written' := if bool_decide (text = "") then written else written ++ [(name, text)] in
      match err with Some e => fatal written' e | None => write_reports rest written' end
  end.

Definition main `{SortSlice} (Quote : string -> string) (d : Disk) (arguments : list string) : outcome :=
  match Parse Quote report_flags arguments with
  | Err e =>
      {| o_written := []; o_failure := Some e;
         o_code := if bool_decide (error_text e = "flag: help requested") then 0 else 2 |}
  | Ok (fs, rest) =>
      let input := get_string fs "input" in
      let output := get_string fs "output" in
      if negb (length rest =? 0)%nat then fatal [] (ErrNew "unexpected positional arguments")
      else match readResults input (d_glob d input) with
           | Err e => fatal [] e
           | Ok results =>
               match d_mkdir d output with
               | Some e => fatal [] (ErrWrap "create report directory: " e)
               | None =>
                   write_reports
                     [("summary.csv", writeCSV (d_file d output "summary.csv") results);
                      ("report.md", writeMarkdown (d_file d output "report.md") results);
                      ("comparison.svg", writeSVG (d_file d output "comparison.svg") results)] []
               end
           end
  end.

(** ** The bars fit *)

Lemma rnd_between (x : Qc) K :
  0 <= K < 2 ^ 53 -> (0 <= x)%Q -> (x <= inject_Z K)%Q -> (0 <= rnd x)%Q /\ (rnd x <= inject_Z K)%Q.
Proof.
  intros HK H0 H1. pose proof (rnd_near x H0) as [Hn _]. split; [lra|].
  apply Qle_lt_or_eq in H0 as [H0|H0].
  - apply Qnot_lt_le. apply (rnd_le_Z x K); [exact H0|lia|]. apply Qle_not_lt. exact H1.
  - assert (x = Qc_of_Z 0) as -> by (apply Qc_is_canon; by rewrite <- H0). rewrite rnd_zero.
    unfold Qle. cbn. lia.
Qed.

Lemma rnd_at_least (x : Qc) K : 0 < K < 2 ^ 53 -> (inject_Z K <= x)%Q -> (inject_Z K <= rnd x)%Q.
Proof. intros HK H1. apply Qnot_lt_le. apply (rnd_ge_Z x K HK). by apply Qle_not_lt. Qed.

Lemma this_minus (x y : Qc) : (this (x - y)%Qc == x - y)%Q.
Proof. unfold Qcminus. rewrite this_plus. cbn [this Qcopp Q2Qc]. by rewrite Qred_correct. Qed.

Lemma quotient_nonzero x y : y <> Qc_of_Z 0 -> quotient x y = rnd (x / y)%Qc.
Proof. intros Hy. unfold quotient, fdiv. by rewrite decide_False. Qed.

Lemma fmax_le (x y : Qc) : (x <= fmax x y)%Q /\ (y <= fmax x y)%Q.
Proof.
  unfold fmax, fleb. destruct (Qle_bool x y) eqn:E; [by apply Qle_bool_iff in E; split; [|apply Qle_refl]|].
  split; [apply Qle_refl|]. destruct (Qlt_le_dec y x) as [?|Hle]; [by apply Qlt_le_weak|].
  apply Qle_bool_iff in Hle. congruence.
Qed.

Lemma foldl_fmax_ge (value : Result -> Qc) rs m :
  let M := foldl (fun m r => fmax m (value r)) m rs in
  (m <= M)%Q /\ forall r, r ∈ rs -> (value r <= M)%Q.
Proof.
  revert m. induction rs as [|r rs IH]; intros m; cbn [foldl].
  - split; [apply Qle_refl|]. intros r Hr. by apply not_elem_of_nil in Hr.
  - destruct (IH (fmax m (value r))) as [H1 H2]. destruct (fmax_le m (value r)). split; [by eapply Qle_trans|].
    intros r' [->|Hr]%elem_of_cons; [by eapply Qle_trans|auto].
Qed.

(** The scale is positive and no value is above it. *)
Lemma scale_spec (value : Result -> Qc) rs :
  Forall (fun r => 0 <= value r)%Q rs ->
  (0 < scale value rs)%Q /\ forall r, r ∈ rs -> (0 <= value r /\ value r <= scale value rs)%Q.
Proof.
  intros Hv. destruct (foldl_fmax_ge value rs (f64 0)) as [H0 Hr]. change (f64 0) with (Qc_of_Z 0) in *.
  unfold scale. cbv zeta. change (f64 0) with (Qc_of_Z 0). set (M := foldl _ _ _) in *. destruct (decide _) as [E|E].
  - split; [done|]. intros r Hin. assert (0 <= value r)%Q by (by eapply Forall_forall in Hv). split; [done|].
    specialize (Hr r Hin). rewrite E in Hr. eapply Qle_trans; [exact Hr|done].
  - split; [|intros r Hin; split; [by eapply Forall_forall in Hv|auto]].
    apply Qle_lt_or_eq in H0 as [?|H0]; [done|]. exfalso. apply E, Qc_is_canon. by rewrite <- H0.
Qed.

Lemma height_fits (value maximum : Qc) :
  (0 < maximum)%Q -> (0 <= value <= maximum)%Q ->
  (0 <= height_of value maximum)%Q /\ (height_of value maximum <= 430)%Q.
Proof.
  intros Hm [H0 H1]. unfold height_of.
  assert (maximum <> Qc_of_Z 0) as Hne by (intros ->; by apply Qlt_irrefl in Hm).
  rewrite quotient_nonzero by done.
  destruct (rnd_between (value / maximum)%Qc 1) as [L U]; [lia|rewrite this_div..|].
  - apply Qle_shift_div_l; [done|lra].
  - apply Qle_shift_div_r; [done|]. change (inject_Z 1) with 1%Q. lra.
  - change (inject_Z 1) with 1%Q in U. apply (rnd_between _ 430); [lia|rewrite this_mult..];
      change (this (Qc_of_Z 430)) with 430%Q; change (inject_Z 430) with 430%Q; lra.
Qed.

(** The highest bar fills the panel. *)
Lemma height_full (maximum : Qc) : (0 < maximum)%Q -> height_of maximum maximum = Qc_of_Z 430.
Proof.
  intros Hm. assert (maximum <> Qc_of_Z 0) as Hne by (intros ->; by apply Qlt_irrefl in Hm).
  unfold height_of. rewrite quotient_nonzero by done.
  assert (maximum / maximum = Qc_of_Z 1)%Qc as -> by (transitivity 1%Qc; [|by apply Qc_is_canon]; apply Qcmult_inv_r; intros ->; by apply Hne, Qc_is_canon).
  rewrite rnd_Z by done. by apply (fmul_Z 1 430).
Qed.

(** A bar inside the panel from [top] to [bottom] and from [left] to [right]. *)
Definition in_panel (b : bar) : Prop :=
  (0 <= bar_height b /\ bar_height b <= 430 /\ top <= bar_y b /\ bar_y b <= bottom)%Q.

Lemma bar_at_fits (x w h : Qc) : (0 <= h)%Q -> (h <= 430)%Q -> in_panel (bar_at x w h).
Proof.
  intros H0 H1. unfold in_panel, bar_at. cbn [bar_height bar_y]. unfold fsub.
  split; [done|]. split; [done|]. change (this top) with (inject_Z 105). change (this bottom) with (inject_Z 535).
  split; [apply rnd_at_least|apply (rnd_between _ 535)]; try lia; rewrite this_minus;
    change (this bottom) with 535%Q; try change (inject_Z 105) with 105%Q; try change (inject_Z 535) with 535%Q; lra.
Qed.

(** ** The bars stand side by side *)

(** Up to [2^-30] the coordinates are the exact ones. *)
Definition slack : Q := 1 # 1073741824.

Lemma group_bounds panel rs :
  0 < panel <= 500 -> 1 <= Z.of_nat (length rs) <= 71 ->
  let g := group panel rs in let n := inject_Z (Z.of_nat (length rs)) in
  (0 < g /\ g <= 501 /\ n * g <= inject_Z panel + slack /\ inject_Z panel - slack <= n * g)%Q.
Proof.
  intros Hp Hn. cbv zeta. unfold group. set (k := Z.of_nat (length rs)) in *.
  rewrite !f64_Z by lia. rewrite quotient_nonzero by (intros E; apply (f_equal (fun q : Qc => Qnum q)) in E; cbn in E; lia).
  set (q := (Qc_of_Z panel / Qc_of_Z k)%Qc).
  assert (this q == inject_Z panel / inject_Z k)%Q as Eq by (subst q; apply this_div).
  assert (1 <= inject_Z k)%Q as Hk by (change 1%Q with (inject_Z 1); rewrite <- Zle_Qle; lia).
  assert (inject_Z k <= 71)%Q as Hk' by (change 71%Q with (inject_Z 71); rewrite <- Zle_Qle; lia).
  assert (1 <= inject_Z panel)%Q as HP by (change 1%Q with (inject_Z 1); rewrite <- Zle_Qle; lia).
  assert (inject_Z panel <= 500)%Q as HP' by (change 500%Q with (inject_Z 500); rewrite <- Zle_Qle; lia).
  assert (inject_Z k * q == inject_Z panel)%Q as Em by (rewrite Eq; field; lra).
  assert (0 < q)%Q as Hq by (rewrite Eq; apply Qlt_shift_div_l; lra).
  assert (q <= 500)%Q as Hq' by (rewrite Eq; apply Qle_shift_div_r; [lra|nra]).
  pose proof (rnd_rel q Hq) as [H1 H2]. clearbody q k. unfold slack.
  repeat split; try lra; nra.
Qed.

Lemma group_x_bounds left panel rs i :
  0 < left <= 665 -> 0 < panel <= 500 -> 1 <= Z.of_nat (length rs) <= 71 -> (i <= length rs)%nat ->
  let t := (inject_Z (Z.of_nat i) * group panel rs)%Q in
  (inject_Z left + t - slack <= group_x left panel rs i /\ group_x left panel rs i <= inject_Z left + t + slack)%Q.
Proof.
  intros Hl Hp Hn Hi. pose proof (group_bounds panel rs Hp Hn) as Hg. cbv zeta in Hg |- *. unfold group_x.
  rewrite (f64_Z left), (f64_Z (Z.of_nat i)) by lia. set (g := group panel rs) in *. clearbody g.
  destruct Hg as (Hg0 & _ & Hg2 & _).
  assert (0 <= inject_Z (Z.of_nat i))%Q as Hi0 by (change 0%Q with (inject_Z 0); rewrite <- Zle_Qle; lia).
  assert (inject_Z (Z.of_nat i) <= inject_Z (Z.of_nat (length rs)))%Q as Hi1 by (rewrite <- Zle_Qle; lia).
  assert (inject_Z panel <= 500)%Q as HP by (change 500%Q with (inject_Z 500); rewrite <- Zle_Qle; lia).
  assert (0 <= inject_Z left)%Q as HL by (change 0%Q with (inject_Z 0); rewrite <- Zle_Qle; lia).
  assert (inject_Z left <= 665)%Q as HL' by (change 665%Q with (inject_Z 665); rewrite <- Zle_Qle; lia).
  pose proof (fmul_near (Qc_of_Z (Z.of_nat i)) g Hi0 ltac:(lra)) as [M1 M2].
  change (this (Qc_of_Z (Z.of_nat i))) with (inject_Z (Z.of_nat i)) in M1, M2.
  set (t := (inject_Z (Z.of_nat i) * g)%Q) in *.
  assert (0 <= t)%Q as T0 by (subst t; apply Qmult_le_0_compat; lra).
  assert (t <= 501)%Q as T1 by (subst t; unfold slack in *; nra).
  set (m := fmul (Qc_of_Z (Z.of_nat i)) g) in *. clearbody m t.
  pose proof (fadd_near (Qc_of_Z left) m HL ltac:(lra)) as [A1 A2].
  change (this (Qc_of_Z left)) with (inject_Z left) in A1, A2. unfold slack. lra.
Qed.

Lemma width_bounds panel rs a :
  0 < panel <= 500 -> 1 <= Z.of_nat (length rs) <= 71 -> 0 <= a <= 100 ->
  near (a # 100) (literal a 100) ->
  let w := fmul (group panel rs) (literal a 100) in let e := ((a # 100) * group panel rs)%Q in
  (0 <= w /\ e - slack <= w /\ w <= e + slack)%Q.
Proof.
  intros Hp Hn Ha [L1 L2]. pose proof (group_bounds panel rs Hp Hn) as Hg. cbv zeta in Hg |- *.
  set (g := group panel rs) in *. destruct Hg as (Hg0 & Hg1 & _). clearbody g.
  assert (0 <= a # 100)%Q as A0 by (unfold Qle; cbn; lia). assert ((a # 100) <= 1)%Q as A1 by (unfold Qle; cbn; lia).
  pose proof (fmul_near g (literal a 100) ltac:(lra) ltac:(lra)) as [M1 M2].
  set (l := literal a 100) in *. set (w := fmul g l) in *. set (q := (a # 100)%Q) in *. clearbody w l q. unfold slack.
  assert (9007199254740991 * (q * g) <= 9007199254740992 * (g * l))%Q by nra.
  assert (9007199254740992 * (g * l) <= 9007199254740993 * (q * g))%Q by nra.
  assert (0 <= q * g)%Q by (apply Qmult_le_0_compat; lra). assert (q * g <= 501)%Q by nra.
  repeat split; lra.
Qed.

Lemma literals_near : near (58 # 100) (literal 58 100) /\ near (28 # 100) (literal 28 100).
Proof. split; vm_compute; split; congruence. Qed.

(** What a run can measure. *)
Definition sane (r : Result) : Prop :=
  (0 <= ThroughputRPS r)%Q /\ (0 <= p95_of r)%Q /\ (p95_of r <= p99_of r)%Q.

(** The first bar ends where the second begins, or before. *)
Definition beside (b b' : bar) : Prop := (bar_x b + bar_width b <= bar_x b')%Q.

Definition within (left right : Q) (b : bar) : Prop :=
  (left <= bar_x b)%Q /\ (bar_x b + bar_width b <= right)%Q.

Lemma group_x_left left panel rs i :
  0 < left < 1000 -> (0 <= group panel rs)%Q -> (inject_Z left <= group_x left panel rs i)%Q.
Proof.
  intros Hl Hg. unfold group_x. rewrite (f64_Z left) by lia. apply rnd_at_least; [lia|]. rewrite this_plus.
  change (this (Qc_of_Z left)) with (inject_Z left).
  assert (0 <= f64 (Z.of_nat i))%Q as Hi.
  { assert (0 <= Qc_of_Z (Z.of_nat i))%Q as H0 by (unfold Qle; cbn; lia). pose proof (rnd_near _ H0) as [H _].
    unfold f64. lra. }
  pose proof (fmul_near _ _ Hi Hg) as [H _].
  assert (0 <= f64 (Z.of_nat i) * group panel rs)%Q by (by apply Qmult_le_0_compat). lra.
Qed.

Lemma index_bounds panel rs i :
  0 < panel <= 500 -> (i < length rs)%nat -> (length rs <= 71)%nat ->
  let g := group panel rs in let t := (inject_Z (Z.of_nat i) * g)%Q in
  (0 < g /\ 0 <= t /\ t + g <= inject_Z panel + slack /\ inject_Z panel - slack <= 71 * g
   /\ inject_Z (Z.of_nat (S i)) * g == t + g)%Q.
Proof.
  intros Hp Hi Hn. destruct (group_bounds panel rs Hp) as (H0 & _ & H2 & H3); [lia|]. cbv zeta.
  set (g := group panel rs) in *. clearbody g.
  assert (inject_Z (Z.of_nat (S i)) == inject_Z (Z.of_nat i) + 1)%Q as ES
    by (rewrite Nat2Z.inj_succ, <- Z.add_1_r, inject_Z_plus; reflexivity).
  assert (0 <= inject_Z (Z.of_nat i))%Q by (change 0%Q with (inject_Z 0); rewrite <- Zle_Qle; lia).
  assert (inject_Z (Z.of_nat i) + 1 <= inject_Z (Z.of_nat (length rs)))%Q by (rewrite <- ES, <- Zle_Qle; lia).
  assert (inject_Z (Z.of_nat (length rs)) <= 71)%Q by (change 71%Q with (inject_Z 71); rewrite <- Zle_Qle; lia).
  rewrite ES. split_and!; [done|by apply Qmult_le_0_compat; [|apply Qlt_le_weak]|nra|nra|ring].
Qed.

Lemma throughput_beside rs i r r' :
  (i < length rs)%nat -> (length rs <= 71)%nat ->
  within 65 565 (throughput_bar rs i r) /\ beside (throughput_bar rs i r) (throughput_bar rs (S i) r').
Proof.
  intros Hi Hn. destruct (index_bounds 500 rs i) as (G0 & T0 & T1 & G1 & ES); [lia..|].
  destruct (group_x_bounds 65 500 rs i) as [_ X1]; [lia..|].
  destruct (group_x_bounds 65 500 rs (S i)) as [Y0 _]; [lia..|].
  destruct (width_bounds 500 rs 58) as (W0 & _ & W1); [lia..|exact (proj1 literals_near)|].
  pose proof (group_x_left 65 500 rs i ltac:(lia) ltac:(lra)) as L.
  unfold within, beside, throughput_bar, bar_at. cbn [bar_x bar_width].
  change (inject_Z 65) with 65%Q in *. change (inject_Z 500) with 500%Q in *. unfold slack in *.
  split; [split|]; lra.
Qed.

Lemma latency_beside rs i r r' :
  (i < length rs)%nat -> (length rs <= 71)%nat ->
  within 665 1158 (p95_bar rs i r) /\ within 665 1158 (p99_bar rs i r)
  /\ beside (p95_bar rs i r) (p99_bar rs i r) /\ beside (p99_bar rs i r) (p95_bar rs (S i) r').
Proof.
  intros Hi Hn. destruct (index_bounds 490 rs i) as (G0 & T0 & T1 & G1 & ES); [lia..|].
  destruct (group_x_bounds 665 490 rs i) as [X0 X1]; [lia..|].
  destruct (group_x_bounds 665 490 rs (S i)) as [Y0 _]; [lia..|].
  destruct (width_bounds 490 rs 28) as (W0 & W1 & W2); [lia..|exact (proj2 literals_near)|].
  pose proof (group_x_left 665 490 rs i ltac:(lia) ltac:(lra)) as L.
  unfold within, beside, p95_bar, p99_bar, bar_at. cbn [bar_x bar_width]. fold (latency_width rs) in *.
  change (inject_Z 665) with 665%Q in *. change (inject_Z 490) with 490%Q in *.
  rewrite (f64_Z 3) by lia.
  pose proof (fadd_near (group_x 665 490 rs i) (latency_width rs) ltac:(lra) W0) as [A0 A1].
  set (y := fadd (group_x 665 490 rs i) (latency_width rs)) in *.
  pose proof (fadd_near y (Qc_of_Z 3) ltac:(unfold slack in *; lra) ltac:(done)) as [B0 B1].
  change (this (Qc_of_Z 3)) with 3%Q in *. unfold slack in *.
  split_and!; lra.
Qed.


